(* ===== verification/_CoqProject ===== *)
-Q . S2P
Prelude.v
Libc.v
RuntimeOS.v
MemQnx.v
Netpoll.v
NetpollQnx.v
NetpollSema.v
Notes.v
SpinLock.v
Syscall.v
SyscallSock.v
NetIface.v
SyscallProc.v
Cmsg.v
AtQnx.v
Dirent.v
ExecPath.v
FdMutex.v
FdProg.v
FdIO.v
FdLogic.v
FdSystem.v
FdInv.v
FdSafe.v
FdLive.v
FdTrace.v
ArmIsa.v
Loader.v
LinkArm.v
LinkArmCall.v
LinkArmTramp.v
LinkArmPlt.v
LinkArmStub.v
LinkArmExt.v
LinkArmWf.v
