(* ===== verification/Prelude.v ===== *)
(** * The Go port of the QNX 6.5 ARMv7 toolchain: verification

    The repository holds cross toolchains for QNX 6.5 on ARMv7 (C and C++, Rust, Go).
    Its own program logic in Go is the [qnx/arm] port of the Go toolchain under
    src/go/src; the rest is upstream Go, build recipes and binaries.  This development
    models the parts of the port that decide something, from the files named below, and
    the portable code they cannot be understood without.  File names are relative to
    src/go/src.

    ** The parts and how they interact

    QNX has no system calls for Go to make: everything goes through C functions.
    - Prelude.v (this file): machine words and bits, lists, the state-and-panic monad
      [GoM], notation and automation.
    - Libc.v: the bridge (runtime/sys_qnx_arm.s, asmsysvicall6).  The C library is the
      class [Libc] over a world [W]; a call is [libc_call], errno a cell of the world.
      Every theorem above it is about any such library; the hypotheses are [LibcErrno]
      (errno reads back as set) and, where a theorem names them, documented facts on one
      call.
    - RuntimeOS.v: runtime/os_qnx.go: semaphores, clocks,
      memory, random data, thread creation, signal masks.
    - MemQnx.v: runtime/mem_bsd.go and mem.go, the address space and the states of its
      regions, on mmap and munmap of RuntimeOS.v.
    - Netpoll.v: runtime/netpoll.go.  [pollDesc] is the struct; code that runs under
      pd.lock is a computation on it; the platform's half is the class [Poller] with its
      laws.  NetpollQnx.v: runtime/netpoll_qnx.go, the instance, and its laws proved.
      NetpollSema.v: the lock-free semaphore words rg and wg as a step relation.
      Notes.v: runtime/lock_sema.go, one-time notifications, as a step relation.
      SpinLock.v: runtime/lock_spinbit.go, the runtime's mutex, with its state word and the
      stack of sleeping Ms.
    - Syscall.v, SyscallSock.v, SyscallProc.v: package syscall (syscall_qnx.go,
      syscall_qnx2.go, syscall_qnx3.go, syscall_qnx_arm.go, exec_qnx.go, exec_unix.go,
      forkpipe.go).
    - Cmsg.v: control messages (syscall/sockcmsg_unix.go) and the marking of received
      descriptors (net/unixsock_readmsg_cloexec.go).
    - AtQnx.v: internal/syscall/unix/at_qnx.go and os.RemoveAll on it.  Dirent.v:
      syscall/dirent.go, os/dir_unix.go, file modes.  ExecPath.v: os/executable_path.go,
      the search for the running program's file.
    - NetIface.v: net/interface_qnx.go and what net/interface.go makes of it, reading the
      list getifaddrs leaves in C memory.
    - FdMutex.v: internal/poll/fd_mutex.go, the 64-bit word and the goroutines around it.
      FdProg.v and FdIO.v: every operation of internal/poll's FD as a program of atomic
      actions (the free monad [prog]).  FdLogic.v: what a goroutine holds and may do (the
      class [Ghost] and its instance).  FdSystem.v: any number of goroutines, the timers,
      the poller and the kernel as one step relation on [system], and its executable
      counterpart [execs].  FdInv.v and FdSafe.v: the invariant.  FdLive.v: the theorems.
      FdTrace.v: what one operation returns, from the answers it got.
    - ArmIsa.v: the ARM instructions the linker writes (decoding and the effect of
      branches, data processing and loads, from the architecture, not from the source).
      Loader.v: the symbols and relocations of cmd/link/internal/loader the back end
      works on.  LinkArm.v: cmd/link/internal/arm/asm.go and the parts of
      cmd/link/internal/ld it is called from.  LinkArmCall.v (branches and immediates),
      LinkArmTramp.v (trampolines), LinkArmPlt.v (the pass over dynamic relocations),
      LinkArmStub.v (PLT stubs run on ArmIsa), LinkArmExt.v (external linking, the module
      initialiser), LinkArmWf.v (well-formedness of symbols).

    Data is as in the code: a w-bit integer is a [Z] with its wrap-around written out
    ([wrapu], [wraps] and their abbreviations), a byte string a list of bytes as [Z], a
    Go struct a [Record], a Go error an [option] of an errno or an inductive type.  A
    panic or throw is a value ([Throw], [OPanic], a fault of [system]), never undefined.

    ** What the theorems show

    The properties, in order, with their names, are in PROJECT.json.  By subject:
    - a shared descriptor: [FdLive.FD_safe], [FD_progress] and [FD_quiescent] are about
      every interleaving of every FD operation with the runtime; [FdTrace] states what
      the retry loops hand to the kernel and report;
    - fdMutex: the packed word refines a record ([FdMutex.fdMutex_refines]), mutual
      exclusion and destruction exactly once ([fdMutex_safe]);
    - the poller: timers never throw and always cover a deadline, the summary word says
      what the fields say, no wakeup is lost in the semaphore words, the poll(2) backend
      serves every ready descriptor;
    - memory: the operations implement the abstract states of a region, and reservations
      are aligned (MemQnx.v);
    - the runtime's mutex: mutual exclusion, no lost wakeup, and the word and list fields
      represent the stack of sleepers (SpinLock.v);
    - system calls: exactly which C call each wrapper makes and what it returns on every
      branch, round trips of addresses and control messages, process start as a sequence
      of calls that always gives back what it took;
    - the linker: a call written by the back end reaches the function it names when the
      instructions are run, directly, through a trampoline or through the PLT; the host
      linker and the internal one agree; every pass keeps symbols well formed;
    - errors of the port itself, stated as theorems: RemoveAll, Seek, WaitStatus, the
      arguments of truncate, mkdir and chmod, control messages with half a descriptor,
      unix addresses in a reused structure, interfaces behind one without an index.

    ** Fuel, bounds, hypotheses

    Loops with a bound in the code carry it: [FdMutex.release_fuel] is the width of the
    waiter fields, and the scans of Netpoll, Dirent and the linker recurse on their data
    or are proved to have enough fuel.  A retry loop (EINTR, EAGAIN) of FdIO.v has no
    bound in the code; its fuel is arbitrary, a program that runs out of it is a prefix of
    the real one and the theorems on interleavings hold for every fuel, while FdTrace.v
    proves that fuel beyond the number of retries and the bytes to write is never used
    up.  Deadline sequence numbers are 32 bits: steps that would wrap one ([seq_room]) are
    left out.  Offsets of a write are followed up to the 2^31 of a 32-bit off_t.

    Scheduling and the order of timers are arbitrary everywhere.  What the C library and
    the kernel answer is arbitrary too, except where a theorem names what it takes as
    documented: [KernelLaws] (FdLogic.v: accept and dup give descriptors that were not
    open, the read of a directory does not report EAGAIN), [honest] (FdTrace.v: a call
    transfers no more than it was given), what mmap and munmap do to the address space
    ([AddressSpaceLaws], MemQnx.v), a list as getifaddrs leaves it ([listing] and [IfLib],
    NetIface.v), directory records without a read error ([pending] and [DirStream],
    Dirent.v), stat on a tree that does not change ([FileTree], ExecPath.v), getcwd and an
    end to interrupted calls ([LibcCwd] and [LibcPatience], SyscallProc.v), a poll that
    counts the ready entries (NetpollQnx.v).  In FdLive.v a kernel that reports more than
    it was given is allowed, and the panics that follow are among those that remain.

    The linker's theorems on executed calls are about internal links: LinkArmStub.v has
    .got.plt behind .plt and within 256 MB, LinkArmTramp.v calls of functions that are not
    imported, in links that are not -linkshared; for what lies outside see the findings.

    ** Not modelled

    Upstream Go outside the files above (the compiler, the garbage collector, the
    scheduler); assembly and C; the C library and kernel (parameters); struct marshalling
    into C memory for recvmsg and sendmsg; signal context accessors; ELF section
    layout of cmd/link and reading of object files; os.Root; goroutine preemption within
    one atomic action; the handshake of the two mutexes of netpoll_qnx.go. *)
From Stdlib Require Import ZArith Lia List Bool String.
From stdpp Require Import base list gmap strings numbers tactics option.

Open Scope Z_scope.

Create HintDb gowords.
Create Rewrite HintDb gowords.
Create Rewrite HintDb golist.

(** ** Machine integers

    A w-bit Go integer is a [Z]; [wrapu]/[wraps] are Go's conversions to the
    unsigned and signed w-bit types (truncation, then two's complement). *)
Definition wrapu (w z : Z) : Z := z `mod` 2 ^ w.
Definition wraps (w z : Z) : Z := (z + 2 ^ (w - 1)) `mod` 2 ^ w - 2 ^ (w - 1).

Abbreviation u8 := (wrapu 8).
Abbreviation u16 := (wrapu 16).
Abbreviation u32 := (wrapu 32).
Abbreviation u64 := (wrapu 64).
Abbreviation i8 := (wraps 8).
Abbreviation i16 := (wraps 16).
Abbreviation i32 := (wraps 32).
Abbreviation i64 := (wraps 64).

Definition in_u (w z : Z) : Prop := 0 <= z < 2 ^ w.
Definition in_s (w z : Z) : Prop := - 2 ^ (w - 1) <= z < 2 ^ (w - 1).

(** Linear arithmetic after replacing [/] and [mod] by their equations. *)
Ltac zify_mod := Z.div_mod_to_equations; lia.

Lemma pow2_pred w : 0 < w -> 2 ^ w = 2 * 2 ^ (w - 1).
Proof. intros H. rewrite <- Z.pow_succ_r by lia. f_equal. lia. Qed.

Lemma pow2_pos w : 0 <= w -> 0 < 2 ^ w.
Proof. intros H. apply Z.pow_pos_nonneg; lia. Qed.

#[export] Hint Resolve pow2_pos : gowords.

Section words.
Context (w : Z) (Hw : 0 < w).
Implicit Types z a b : Z.

Lemma wrapu_range z : in_u w (wrapu w z).
Proof. apply Z.mod_pos_bound, pow2_pos. lia. Qed.

Lemma wraps_range z : in_s w (wraps w z).
Proof.
  unfold in_s, wraps. pose proof (pow2_pred w Hw).
  pose proof (Z.mod_pos_bound (z + 2 ^ (w - 1)) (2 ^ w) (pow2_pos w ltac:(lia))). lia.
Qed.

Lemma wrapu_small z : in_u w z -> wrapu w z = z.
Proof. apply Z.mod_small. Qed.

Lemma wraps_small z : in_s w z -> wraps w z = z.
Proof.
  unfold in_s, wraps. intros H. pose proof (pow2_pred w Hw).
  rewrite Z.mod_small; lia.
Qed.

Lemma wrapu_eqm a b : (exists k, a = b + k * 2 ^ w) -> wrapu w a = wrapu w b.
Proof. intros [k ->]. unfold wrapu. apply Z_mod_plus_full. Qed.

Lemma wrapu_spec z : exists k, wrapu w z = z + k * 2 ^ w.
Proof.
  exists (- (z / 2 ^ w)). unfold wrapu.
  pose proof (Z.div_mod z (2 ^ w)). pose proof (pow2_pos w ltac:(lia)). lia.
Qed.

Lemma wraps_spec z : exists k, wraps w z = z + k * 2 ^ w.
Proof.
  exists (- ((z + 2 ^ (w - 1)) / 2 ^ w)). unfold wraps.
  pose proof (Z.div_mod (z + 2 ^ (w - 1)) (2 ^ w)). pose proof (pow2_pos w ltac:(lia)). lia.
Qed.

Lemma wrapu_wrapu z : wrapu w (wrapu w z) = wrapu w z.
Proof. apply wrapu_small, wrapu_range. Qed.

Lemma wrapu_wraps z : wrapu w (wraps w z) = wrapu w z.
Proof. apply wrapu_eqm, wraps_spec. Qed.

Lemma wraps_eqm a b : (exists k, a = b + k * 2 ^ w) -> wraps w a = wraps w b.
Proof.
  intros [k ->]. unfold wraps. f_equal.
  replace (b + k * 2 ^ w + 2 ^ (w - 1)) with (b + 2 ^ (w - 1) + k * 2 ^ w) by lia.
  apply Z_mod_plus_full.
Qed.

Lemma wraps_wrapu z : wraps w (wrapu w z) = wraps w z.
Proof. apply wraps_eqm, wrapu_spec. Qed.

Lemma wraps_wraps z : wraps w (wraps w z) = wraps w z.
Proof. apply wraps_small, wraps_range. Qed.

(** A word reinterpreted as signed and back is unchanged. *)
Lemma wraps_inj a b : in_u w a -> in_u w b -> wraps w a = wraps w b -> a = b.
Proof.
  intros Ha Hb H. rewrite <- (wrapu_small a Ha), <- (wrapu_small b Hb).
  rewrite <- (wrapu_wraps a), <- (wrapu_wraps b). by rewrite H.
Qed.
End words.

#[export] Hint Resolve wrapu_range wraps_range : gowords.
#[export] Hint Rewrite wrapu_wrapu wrapu_wraps wraps_wrapu wraps_wraps using lia : gowords.

(** Spells out the ranges of the machine types, so that [lia] sees them. *)
Ltac word_ranges :=
  unfold in_u, in_s in *;
  change (64 - 1) with 63 in *; change (32 - 1) with 31 in *;
  change (16 - 1) with 15 in *; change (8 - 1) with 7 in *;
  change (2 ^ 64) with 18446744073709551616 in *;
  change (2 ^ 63) with 9223372036854775808 in *;
  change (2 ^ 32) with 4294967296 in *;
  change (2 ^ 31) with 2147483648 in *;
  change (2 ^ 16) with 65536 in *; change (2 ^ 15) with 32768 in *;
  change (2 ^ 8) with 256 in *; change (2 ^ 7) with 128 in *.

(** Linear arithmetic over machine ranges. *)
Ltac golia := word_ranges; lia.

(** Closes [wrapu w z = z] / [wraps w z = z] when the range is linear. *)
Ltac word_small :=
  first [ apply wrapu_small | apply wraps_small; [lia|] ]; golia.

(** ** 64-bit values split over two 32-bit words *)
Definition lo32 (z : Z) : Z := u32 z.
Definition hi32 (z : Z) : Z := u32 (Z.shiftr z 32).

Lemma lo_hi_value z : in_s 64 z -> i64 (lo32 z + hi32 z * 2 ^ 32) = z.
Proof.
  intros Hz. rewrite <- (wraps_small 64 ltac:(lia) z Hz) at 3.
  apply wraps_eqm. unfold lo32, hi32, wrapu. rewrite Z.shiftr_div_pow2 by lia.
  exists (- (z / 2 ^ 32 / 2 ^ 32)).
  pose proof (Z.div_mod z (2 ^ 32) ltac:(lia)).
  pose proof (Z.div_mod (z / 2 ^ 32) (2 ^ 32) ltac:(lia)).
  change (2 ^ 64) with (2 ^ 32 * 2 ^ 32). lia.
Qed.

(** ** Go's quotient and remainder round towards zero *)
Abbreviation goquot := Z.quot.
Abbreviation gorem := Z.rem.

Lemma goquot_nonneg a b : 0 <= a -> 0 < b -> goquot a b = a / b.
Proof. intros. by apply Z.quot_div_nonneg. Qed.

Lemma gorem_nonneg a b : 0 <= a -> 0 < b -> gorem a b = a `mod` b.
Proof. intros. by apply Z.rem_mod_nonneg. Qed.

(** ** Bits *)
Definition has_bits (x m : Z) : bool := negb (Z.land x m =? 0).

Lemma land_ones_mod z n : 0 <= n -> Z.land z (2 ^ n - 1) = z `mod` 2 ^ n.
Proof.
  intros. rewrite <- Z.land_ones by lia. f_equal. rewrite Z.ones_equiv. lia.
Qed.

Lemma has_bits_pow2 x i : 0 <= i -> has_bits x (2 ^ i) = Z.testbit x i.
Proof.
  intros Hi. unfold has_bits. destruct (Z.testbit x i) eqn:E.
  - apply negb_true_iff, Z.eqb_neq. intros H.
    assert (Z.testbit (Z.land x (2 ^ i)) i = false) as H' by (rewrite H; apply Z.bits_0).
    rewrite Z.land_spec, E, Z.pow2_bits_true in H' by lia. discriminate.
  - apply negb_false_iff, Z.eqb_eq, Z.bits_inj'. intros n Hn.
    rewrite Z.land_spec, Z.bits_0. destruct (Z.eq_dec n i) as [->|].
    + by rewrite E.
    + rewrite Z.pow2_bits_false by lia. by rewrite andb_false_r.
Qed.

(** Reading a field [n] bits wide at [k]. *)
Lemma land_field z k n : 0 <= k -> 0 <= n ->
  Z.land z (Z.shiftl (2 ^ n - 1) k) = 2 ^ k * ((z / 2 ^ k) mod 2 ^ n).
Proof.
  intros Hk Hn. rewrite <- (land_ones_mod (z / 2 ^ k) n Hn).
  rewrite (Z.mul_comm (2 ^ k)), <- Z.shiftl_mul_pow2, <- Z.shiftr_div_pow2 by lia.
  apply Z.bits_inj'. intros i Hi. rewrite !Z.land_spec, !Z.shiftl_spec by lia.
  destruct (Z.ltb_spec i k).
  - rewrite !(Z.testbit_neg_r _ (i - k)) by lia. apply andb_false_r.
  - rewrite Z.land_spec, Z.shiftr_spec by lia. by replace (i - k + k) with i by lia.
Qed.

(** Setting a clear bit adds it; clearing bits subtracts what was set. *)
Lemma lor_clear z b : Z.land z b = 0 -> Z.lor z b = z + b.
Proof. intros H. pose proof (Z.add_lor_land z b). lia. Qed.

Lemma ldiff_sub z b : Z.ldiff z b = z - Z.land z b.
Proof.
  pose proof (Z.add_lor_land (Z.ldiff z b) (Z.land z b)) as E.
  rewrite Z.lor_ldiff_and in E. assert (Z.land (Z.ldiff z b) (Z.land z b) = 0) as E0; [|lia].
  apply Z.bits_inj'. intros i Hi. rewrite !Z.land_spec, Z.ldiff_spec, Z.bits_0.
  by destruct (Z.testbit z i), (Z.testbit b i).
Qed.

(** ** Little-endian bytes *)
Definition is_byte (b : Z) : Prop := 0 <= b < 256.

Fixpoint le_bytes (n : nat) (z : Z) : list Z :=
  match n with
  | O => []
  | S n => z `mod` 256 :: le_bytes n (z / 256)
  end.

Fixpoint le_value (l : list Z) : Z :=
  match l with
  | [] => 0
  | b :: l => b + 256 * le_value l
  end.

Lemma length_le_bytes n z : length (le_bytes n z) = n.
Proof. revert z. induction n as [|n IH]; intros z; cbn; [done|]. by rewrite IH. Qed.

Lemma le_value_bytes n z : le_value (le_bytes n z) = z `mod` 256 ^ Z.of_nat n.
Proof.
  revert z. induction n as [|n IH]; intros z; cbn [le_bytes le_value].
  - by rewrite Z.mod_1_r.
  - rewrite IH, Nat2Z.inj_succ, Z.pow_succ_r by lia.
    rewrite Z.rem_mul_r by (try apply Z.pow_pos_nonneg; lia). lia.
Qed.

Lemma le_bytes_value l : Forall is_byte l -> le_bytes (length l) (le_value l) = l.
Proof.
  induction 1 as [|b l Hb Hl IH]; cbn [length le_bytes le_value]; [done|].
  unfold is_byte in Hb. rewrite (Z.mul_comm 256), Z_mod_plus_full, Z.div_add by lia.
  rewrite Z.mod_small, Z.div_small, Z.add_0_l by lia. by rewrite IH.
Qed.

Lemma le_value_range l : Forall is_byte l -> 0 <= le_value l < 256 ^ Z.of_nat (length l).
Proof.
  induction 1 as [|b l Hb Hl IH]; cbn [length le_value]; [cbn; lia|].
  unfold is_byte in Hb. rewrite Nat2Z.inj_succ, Z.pow_succ_r by lia. lia.
Qed.

#[export] Hint Rewrite length_le_bytes : golist.

(** ** NUL-terminated strings: the prefix before the first 0 byte *)
Fixpoint cstr (l : list Z) : list Z :=
  match l with
  | [] => []
  | b :: l => if b =? 0 then [] else b :: cstr l
  end.

Lemma cstr_no_nul l : 0 ∉ cstr l.
Proof.
  induction l as [|b l IH]; cbn; [apply not_elem_of_nil|].
  destruct (Z.eqb_spec b 0); [apply not_elem_of_nil|].
  rewrite not_elem_of_cons. split; [lia|done].
Qed.

Lemma cstr_terminated s l : 0 ∉ s -> cstr (s ++ 0 :: l) = s.
Proof.
  induction s as [|b s IH]; cbn; [done|].
  rewrite not_elem_of_cons. intros [Hb Hs].
  destruct (Z.eqb_spec b 0); [lia|]. by rewrite IH.
Qed.

Lemma cstr_id l : 0 ∉ l -> cstr l = l.
Proof.
  induction l as [|b l IH]; [done|]. rewrite not_elem_of_cons. intros [Hb Hl]. cbn.
  rewrite (proj2 (Z.eqb_neq b 0)) by congruence. by rewrite IH.
Qed.

Lemma cstr_length l : (length (cstr l) <= length l)%nat.
Proof. induction l as [|b l IH]; cbn; [lia|]. destruct (b =? 0); cbn; lia. Qed.

(** ** Memory a C function may write through a pointer: it overwrites a
    prefix of the cells it was given and never their number. *)
Definition refill (old new : list Z) : list Z :=
  take (length old) (new ++ drop (length new) old).

Lemma length_refill old new : length (refill old new) = length old.
Proof.
  unfold refill. rewrite length_take, length_app, length_drop. lia.
Qed.

Lemma refill_nil old : refill old [] = old.
Proof. unfold refill. cbn. apply firstn_all. Qed.

Lemma refill_full old new : length new = length old -> refill old new = new.
Proof.
  intros H. unfold refill. rewrite H, drop_all, app_nil_r.
  rewrite <- H. apply firstn_all.
Qed.

#[export] Hint Rewrite length_refill : golist.

(** ** State passing

    [ST] threads a state; [GoM] also has the two ways a Go function fails to
    return: [throw]/[panic] with a message, and, for a loop unrolled by fuel,
    running out of it.  Theorems rule the last outcome out. *)
Definition ST (S A : Type) : Type := S -> A * S.
Definition st_ret {S A} (a : A) : ST S A := fun s => (a, s).
Definition st_bind {S A B} (m : ST S A) (k : A -> ST S B) : ST S B :=
  fun s => let (a, s') := m s in k a s'.

Inductive res (S A : Type) : Type :=
| Ret (a : A) (s : S)
| Throw (msg : string) (s : S)
| NoFuel.
Arguments Ret {S A} a s.
Arguments Throw {S A} msg s.
Arguments NoFuel {S A}.

Definition GoM (S A : Type) : Type := S -> res S A.
Definition go_ret {S A} (a : A) : GoM S A := fun s => Ret a s.
Definition go_throw {S A} (msg : string) : GoM S A := fun s => Throw msg s.
Definition go_bind {S A B} (m : GoM S A) (k : A -> GoM S B) : GoM S B :=
  fun s => match m s with
           | Ret a s' => k a s'
           | Throw msg s' => Throw msg s'
           | NoFuel => NoFuel
           end.
Definition go_get {S} : GoM S S := fun s => Ret s s.
Definition go_put {S} (s : S) : GoM S unit := fun _ => Ret tt s.
Definition go_modify {S} (f : S -> S) : GoM S unit := fun s => Ret tt (f s).
Definition go_lift {S A} (m : ST S A) : GoM S A := fun s => let (a, s') := m s in Ret a s'.

Declare Scope go_scope.
Delimit Scope go_scope with go.
Notation "'let*' x := m 'in' k" := (st_bind m (fun x => k))
  (at level 10, x pattern, m at level 100, k at level 200) : go_scope.
Notation "'let!' x := m 'in' k" := (go_bind m (fun x => k))
  (at level 10, x pattern, m at level 100, k at level 200) : go_scope.
Notation "m1 ;! m2" := (go_bind m1 (fun _ => m2))
  (at level 100, m2 at level 200, right associativity) : go_scope.
Open Scope go_scope.

(** Splits a do-nothing outcome from the others. *)
Definition returns {S A} (r : res S A) : Prop := match r with Ret _ _ => True | _ => False end.

(** Symbolic execution of the monads. *)
Ltac mrun :=
  unfold st_bind, st_ret, go_bind, go_ret, go_throw, go_get, go_put, go_modify, go_lift in *.

(** ** Weakest preconditions

    [wp m Q s]: [m] run in [s] ends with a result and a state satisfying [Q]; for
    [GoM] that also says it neither throws nor runs out of fuel. *)
Definition wp {S A} (m : ST S A) (Q : A -> S -> Prop) (s : S) : Prop :=
  let (a, s') := m s in Q a s'.

Definition go_wp {S A} (m : GoM S A) (Q : A -> S -> Prop) (s : S) : Prop :=
  match m s with Ret a s' => Q a s' | Throw _ _ | NoFuel => False end.

Section wps.
Context {S A B : Type}.

Lemma wp_ret (a : A) Q (s : S) : Q a s -> wp (st_ret a) Q s.
Proof. done. Qed.

Lemma wp_bind (m : ST S A) (k : A -> ST S B) Q s :
  wp m (fun a => wp (k a) Q) s -> wp (st_bind m k) Q s.
Proof. unfold wp, st_bind. by destruct (m s). Qed.

Lemma wp_mono (m : ST S A) (P Q : A -> S -> Prop) s :
  wp m P s -> (forall a s', P a s' -> Q a s') -> wp m Q s.
Proof. unfold wp. destruct (m s). auto. Qed.

Lemma wp_and (m : ST S A) (P Q : A -> S -> Prop) s :
  wp m P s -> wp m Q s -> wp m (fun a s' => P a s' /\ Q a s') s.
Proof. unfold wp. destruct (m s). auto. Qed.

Lemma go_wp_ret (a : A) Q (s : S) : Q a s -> go_wp (go_ret a) Q s.
Proof. done. Qed.

Lemma go_wp_bind (m : GoM S A) (k : A -> GoM S B) Q s :
  go_wp m (fun a => go_wp (k a) Q) s -> go_wp (go_bind m k) Q s.
Proof. unfold go_wp, go_bind. by destruct (m s). Qed.

Lemma go_wp_mono (m : GoM S A) (P Q : A -> S -> Prop) s :
  go_wp m P s -> (forall a s', P a s' -> Q a s') -> go_wp m Q s.
Proof. unfold go_wp. destruct (m s); auto. Qed.

Lemma go_wp_lift (m : ST S A) Q s : wp m Q s -> go_wp (go_lift m) Q s.
Proof. unfold wp, go_wp, go_lift. by destruct (m s). Qed.
End wps.

(** ** Deciding a property of all [n]-bit words by evaluation *)
Fixpoint all_below (n : nat) (base : Z) (p : Z -> bool) : bool :=
  match n with
  | O => p base
  | S n => all_below n base p && all_below n (base + 2 ^ Z.of_nat n) p
  end.

Lemma all_below_spec n : forall base p, all_below n base p = true ->
  forall z, base <= z < base + 2 ^ Z.of_nat n -> p z = true.
Proof.
  induction n as [|n IH]; intros base p H z Hz.
  - replace z with base by (change (2 ^ Z.of_nat 0) with 1 in Hz; lia). exact H.
  - cbn [all_below] in H. apply andb_true_iff in H as [H1 H2].
    rewrite Nat2Z.inj_succ, Z.pow_succ_r in Hz by lia.
    destruct (Z.ltb_spec z (base + 2 ^ Z.of_nat n)); [apply (IH base)|apply (IH (base + 2 ^ Z.of_nat n))];
      auto; lia.
Qed.
