(* ===== verification/Libc.v ===== *)
(** * Libc: the bridge from Go to libc.so.3

    QNX has no system-call instruction a Go program may use: every kernel
    service is a C function of libc.so.3 (or libsocket.so.3), called through
    [asmsysvicall6] of runtime/sys_qnx_arm.s.  The C library is not part of the
    repository's Go code, so it is a parameter: a class [Libc] over an abstract
    world [W], whose [libc_call] is one C call.  What the Go side relies on is
    that errno is a memory cell ([LibcErrno]); nothing else is assumed of it.

    Arguments are values rather than addresses: an integer or register word, a
    NUL-terminated copy of a Go string, a NULL-terminated array of such strings
    ([CVec]), or a region of Go memory given cell by cell ([CBuf]), which the call
    may overwrite in place ([refill]).  The state
    keeps the history of calls, so a theorem can say which calls were made. *)
From Stdlib Require Import ZArith Lia List Bool String.
From stdpp Require Import base list gmap strings numbers tactics option.
From S2P Require Import Prelude.

Inductive carg : Type :=
| CInt (z : Z)
| CStr (s : list Z)
| CBuf (l : list Z)
| CNull
| CVec (ss : list (list Z))
| CFun (f : string).

#[export] Instance carg_eq_dec : EqDecision carg.
Proof. solve_decision. Defined.

(** What a C call gives back: the two result registers and the new contents of
    the regions passed by address, in argument order. *)
Record reply : Type := mkReply { rp_r1 : Z; rp_r2 : Z; rp_bufs : list (list Z) }.

Class Libc (W : Type) : Type := {
  libc_call : string -> list carg -> W -> W * reply;
  libc_errno : W -> Z;
  libc_set_errno : Z -> W -> W;
}.

(** errno is an int-sized cell reached through [__get_errno_ptr]. *)
Class LibcErrno (W : Type) `{!Libc W} : Prop := {
  libc_errno_set : forall e w, libc_errno (libc_set_errno e w) = e;
}.

Inductive event : Type :=
| EvCall (fn : string) (args : list carg)
| EvEnterSyscall
| EvExitSyscall.

#[export] Instance event_eq_dec : EqDecision event.
Proof. solve_decision. Defined.

(** The machine state the bridge sees: the world, whether the current M has
    cached its errno pointer ([m.mOS.perrno <> 0]), and the history. *)
Record osst (W : Type) : Type := mkOs { os_w : W; os_perrno : bool; os_trace : list event }.
Arguments mkOs {W} os_w os_perrno os_trace.
Arguments os_w {W} o.
Arguments os_perrno {W} o.
Arguments os_trace {W} o.

Definition os_log {W} (e : event) (s : osst W) : osst W :=
  mkOs (os_w s) (os_perrno s) (os_trace s ++ [e]).

(** runtime2.go's libcall; the fields written by the call are [lc_r1], [lc_r2],
    [lc_err] and, through the pointers in [lc_args], [lc_bufs]. *)
Record libcall : Type := mkLibcall {
  lc_fn : string; lc_n : Z; lc_args : list carg;
  lc_r1 : Z; lc_r2 : Z; lc_err : Z; lc_bufs : list (list Z) }.

Definition new_libcall (fn : string) (n : Z) (args : list carg) : libcall :=
  mkLibcall fn n args 0 0 0 [].

(** The regions among the arguments, before and after the call. *)
Definition arg_buf (a : carg) : option (list Z) :=
  match a with CBuf l => Some l | _ => None end.

Definition arg_bufs (args : list carg) : list (list Z) := omap arg_buf args.

Fixpoint refill_all (old new : list (list Z)) : list (list Z) :=
  match old, new with
  | o :: old, n :: new => refill o n :: refill_all old new
  | o :: old, [] => o :: refill_all old []
  | [], _ => []
  end.

Lemma length_refill_all old new : length (refill_all old new) = length old.
Proof. revert new. induction old as [|o old IH]; intros [|n new]; cbn; auto. Qed.

Lemma refill_all_lengths old new : map length (refill_all old new) = map length old.
Proof.
  revert new. induction old as [|o old IH]; intros [|n new]; cbn; [done..| |];
    rewrite ?length_refill, IH; done.
Qed.

(** The first region after a call. *)
Lemma nth_refill_all b bs bufs : nth 0 (refill_all (b :: bs) bufs) [] = refill b (nth 0 bufs b).
Proof. destruct bufs; cbn [refill_all nth]; [by rewrite refill_full|done]. Qed.

Section bridge.
Context {W : Type} `{!Libc W}.

(** asmsysvicall6 (sys_qnx_arm.s): clear errno when its pointer is cached, call
    [fn] with the first [n] words (at most 4 in registers and 2 on the stack),
    store r0 and r1, read errno back when its pointer is cached. *)
Definition asmsysvicall6 (lc : libcall) (s : osst W) : libcall * osst W :=
  let w1 := if os_perrno s then libc_set_errno 0 (os_w s) else os_w s in
  let args := take (Z.to_nat (Z.min (lc_n lc) 6)) (lc_args lc) in
  let '(w2, rp) := libc_call (lc_fn lc) args w1 in
  let err := if os_perrno s then u32 (libc_errno w2) else lc_err lc in
  (mkLibcall (lc_fn lc) (lc_n lc) (lc_args lc) (u32 (rp_r1 rp)) (u32 (rp_r2 rp)) err
     (refill_all (arg_bufs args) (rp_bufs rp)),
   mkOs w2 (os_perrno s) (os_trace s ++ [EvCall (lc_fn lc) args])).

(** What every bridge call guarantees, whatever the C function does. *)
Lemma asmsysvicall6_out lc s lc' s' :
  asmsysvicall6 lc s = (lc', s') ->
  in_u 32 (lc_r1 lc') /\ in_u 32 (lc_r2 lc') /\
  os_perrno s' = os_perrno s /\
  (os_perrno s = true -> lc_err lc' = u32 (libc_errno (os_w s'))) /\
  lc_fn lc' = lc_fn lc /\
  length (lc_bufs lc') =
    length (arg_bufs (take (Z.to_nat (Z.min (lc_n lc) 6)) (lc_args lc))) /\
  os_trace s' =
    os_trace s ++ [EvCall (lc_fn lc) (take (Z.to_nat (Z.min (lc_n lc) 6)) (lc_args lc))].
Proof.
  unfold asmsysvicall6. destruct (libc_call _ _ _) as [w2 rp]. intros [= <- <-]. cbn.
  split_and!; try done; try (apply wrapu_range; lia).
  - intros ->. done.
  - apply length_refill_all.
Qed.

(** The regions keep their sizes. *)
Lemma asmsysvicall6_lengths lc s lc' s' :
  asmsysvicall6 lc s = (lc', s') ->
  map length (lc_bufs lc') =
    map length (arg_bufs (take (Z.to_nat (Z.min (lc_n lc) 6)) (lc_args lc))).
Proof.
  unfold asmsysvicall6. destruct (libc_call _ _ _) as [w2 rp]. intros [= <- <-]. cbn.
  apply refill_all_lengths.
Qed.

(** ** runtime/syscall_qnx.go: the entry points of package syscall *)
Record sysres : Type := mkSysres {
  sr_r1 : Z; sr_r2 : Z; sr_err : Z; sr_bufs : list (list Z) }.

Abbreviation SysM := (ST (osst W)).

Definition entersyscallblock : SysM unit := fun s => (tt, os_log EvEnterSyscall s).
Definition exitsyscall : SysM unit := fun s => (tt, os_log EvExitSyscall s).

Definition syscall_sysvicall6 (fn : string) (nargs : Z) (args : list carg) : SysM sysres :=
  let* _ := entersyscallblock in
  let* call := asmsysvicall6 (new_libcall fn nargs args) in
  let* _ := exitsyscall in
  st_ret (mkSysres (lc_r1 call) (lc_r2 call) (lc_err call) (lc_bufs call)).

Definition syscall_rawsysvicall6 (fn : string) (nargs : Z) (args : list carg) : SysM sysres :=
  let* call := asmsysvicall6 (new_libcall fn nargs args) in
  st_ret (mkSysres (lc_r1 call) (lc_r2 call) (lc_err call) (lc_bufs call)).

(** What a bridge call does to the state, as one equation. *)
Definition bridge_world (s : osst W) : W :=
  if os_perrno s then libc_set_errno 0 (os_w s) else os_w s.

Lemma sysvicall6_run fn nargs args s :
  let args' := take (Z.to_nat (Z.min nargs 6)) args in
  let '(w2, rp) := libc_call fn args' (bridge_world s) in
  syscall_sysvicall6 fn nargs args s =
    (mkSysres (u32 (rp_r1 rp)) (u32 (rp_r2 rp))
       (if os_perrno s then u32 (libc_errno w2) else 0)
       (refill_all (arg_bufs args') (rp_bufs rp)),
     mkOs w2 (os_perrno s)
       (os_trace s ++ [EvEnterSyscall; EvCall fn args'; EvExitSyscall])).
Proof.
  cbv zeta. unfold syscall_sysvicall6, entersyscallblock, exitsyscall, asmsysvicall6,
    bridge_world, os_log. mrun. cbn.
  destruct (libc_call _ _ _) as [w2 rp] eqn:E. cbn.
  by rewrite <- !app_assoc.
Qed.

Lemma rawsysvicall6_run fn nargs args s :
  let args' := take (Z.to_nat (Z.min nargs 6)) args in
  let '(w2, rp) := libc_call fn args' (bridge_world s) in
  syscall_rawsysvicall6 fn nargs args s =
    (mkSysres (u32 (rp_r1 rp)) (u32 (rp_r2 rp))
       (if os_perrno s then u32 (libc_errno w2) else 0)
       (refill_all (arg_bufs args') (rp_bufs rp)),
     mkOs w2 (os_perrno s) (os_trace s ++ [EvCall fn args'])).
Proof.
  cbv zeta. unfold syscall_rawsysvicall6, asmsysvicall6, bridge_world. mrun. cbn.
  by destruct (libc_call _ _ _) as [w2 rp] eqn:E.
Qed.

(** The same as rules for [wp]. *)
Lemma wp_sysvicall6 fn nargs args Q s :
  (forall w2 rp, libc_call fn (take (Z.to_nat (Z.min nargs 6)) args) (bridge_world s) = (w2, rp) ->
     Q (mkSysres (u32 (rp_r1 rp)) (u32 (rp_r2 rp))
          (if os_perrno s then u32 (libc_errno w2) else 0)
          (refill_all (arg_bufs (take (Z.to_nat (Z.min nargs 6)) args)) (rp_bufs rp)))
       (mkOs w2 (os_perrno s)
          (os_trace s ++ [EvEnterSyscall; EvCall fn (take (Z.to_nat (Z.min nargs 6)) args); EvExitSyscall]))) ->
  wp (syscall_sysvicall6 fn nargs args) Q s.
Proof.
  intros H. pose proof (sysvicall6_run fn nargs args s) as R. cbv zeta in R. unfold wp.
  destruct (libc_call _ _ _) as [w2 rp]. rewrite R. by apply H.
Qed.

(** The calls of a history, scheduler brackets left out. *)
Definition ev_call (e : event) : option (string * list carg) :=
  match e with EvCall fn args => Some (fn, args) | EvEnterSyscall | EvExitSyscall => None end.
Definition calls_of (t : list event) : list (string * list carg) := omap ev_call t.

Lemma calls_of_app t1 t2 : calls_of (t1 ++ t2) = calls_of t1 ++ calls_of t2.
Proof. unfold calls_of. apply omap_app. Qed.

(** [made s calls s']: [s'] has the history of [s] with [calls] added. *)
Definition made (s : osst W) (calls : list (string * list carg)) (s' : osst W) : Prop :=
  os_perrno s' = os_perrno s /\ calls_of (os_trace s') = calls_of (os_trace s) ++ calls.

Lemma made_refl s : made s [] s.
Proof. split; [done|]. by rewrite app_nil_r. Qed.

Lemma made_trans s1 c1 s2 c2 s3 : made s1 c1 s2 -> made s2 c2 s3 -> made s1 (c1 ++ c2) s3.
Proof. intros [Hp E1] [Hp' E2]. split; [congruence|]. by rewrite E2, E1, app_assoc. Qed.

(** A call through the bridge: anything may come back, one call is recorded. *)
Lemma wp_call fn nargs args Q s :
  (forall r s', made s [(fn, take (Z.to_nat (Z.min nargs 6)) args)] s' -> Q r s') ->
  wp (syscall_sysvicall6 fn nargs args) Q s.
Proof.
  intros H. apply wp_sysvicall6. intros w2 rp _. apply H. split; [done|]. cbn [os_trace]. by rewrite calls_of_app.
Qed.
End bridge.

Abbreviation SysM W := (ST (osst W)).

(** ** A scripted C library

    A concrete [Libc] that answers each call with the next line of a script: the
    errno it leaves and its reply.  Witnesses run the code against it. *)
Module Script.
Record line : Type := mkLine { ln_errno : option Z; ln_reply : reply }.
Record world : Type := mkWorld { sw_lines : list line; sw_errno : Z }.

Definition call (_ : string) (_ : list carg) (w : world) : world * reply :=
  match sw_lines w with
  | [] => (w, mkReply 0 0 [])
  | l :: ls => (mkWorld ls (default (sw_errno w) (ln_errno l)), ln_reply l)
  end.

#[global] Instance libc : Libc world := {|
  libc_call := call;
  libc_errno := sw_errno;
  libc_set_errno e w := mkWorld (sw_lines w) e;
|}.

#[global] Instance libc_errno_ok : LibcErrno world.
Proof. split. reflexivity. Qed.

Definition ok (r1 : Z) (bufs : list (list Z)) : line := mkLine None (mkReply r1 0 bufs).
Definition fail (e : Z) : line := mkLine (Some e) (mkReply (-1) 0 []).
Definition start (ls : list line) : osst world := mkOs (mkWorld ls 0) true [].
End Script.
