(* ===== verification/RuntimeOS.v ===== *)
(** * RuntimeOS: runtime/os_qnx.go

    The runtime's own libc calls ([sysvicall0]..[sysvicall6], which also record
    the outermost call for the profiler), semaphores, clocks, file and memory
    primitives, random data, and thread creation.  State: the bridge state, the
    current M's QNX fields and the package variables the file owns. *)
From Stdlib Require Import ZArith Lia List Bool String.
From stdpp Require Import base list gmap strings numbers tactics option.
From S2P Require Import Prelude Libc.

(** ** defs_qnx_arm.go: the constants this file uses *)
Definition _EINTR : Z := 4.
Definition _EAGAIN : Z := 11.
Definition _ETIMEDOUT : Z := 260.
Definition _PROT_NONE : Z := 0.
Definition _PROT_READ : Z := 256.
Definition _PROT_WRITE : Z := 512.
Definition _MAP_ANON : Z := 524288.
Definition _MAP_PRIVATE : Z := 2.
Definition _MAP_FIXED : Z := 16.
Definition _CLOCK_REALTIME : Z := 0.
Definition _CLOCK_MONOTONIC : Z := 2.
Definition _O_RDONLY : Z := 0.
Definition _O_NONBLOCK : Z := 128.
Definition _SIG_SETMASK : Z := 2.
Definition _F_GETFL : Z := 3.
Definition _F_SETFL : Z := 4.
Definition _F_SETFD : Z := 2.
Definition _FD_CLOEXEC : Z := 1.
Definition _PTHREAD_CREATE_DETACHED : Z := 1.

(** struct timespec: two signed 32-bit fields. *)
Record timespec : Type := mkTimespec { tv_sec : Z; tv_nsec : Z }.
Definition timespec0 : timespec := mkTimespec 0 0.
Definition ts_cells (ts : timespec) : list Z := [tv_sec ts; tv_nsec ts].
Definition ts_of_cells (l : list Z) : timespec :=
  mkTimespec (i32 (nth 0 l 0)) (i32 (nth 1 l 0)).
Definition ts_ok (ts : timespec) : Prop := in_s 32 (tv_sec ts) /\ in_s 32 (tv_nsec ts).

(** timespec.setNsec *)
Definition setNsec (ns : Z) : timespec :=
  mkTimespec (i32 (goquot ns 1000000000)) (i32 (gorem ns 1000000000)).

(** The QNX part of an M (type mOS) with the three libcall fields of type m;
    [m_has] is [getg().m != nil]. *)
Record mos : Type := mkMos {
  m_has : bool;
  m_libcallg : Z; m_libcallpc : Z; m_libcallsp : Z;
  m_waitsema : Z;
  m_ts : timespec }.

(** Package variables: qnxWallOffset (uint64 bits), numCPUStartup, physPageSize. *)
Record osvars : Type := mkOsvars { v_walloff : Z; v_ncpu : Z; v_pagesize : Z }.

Record rtst (W : Type) : Type := mkRt { rt_os : osst W; rt_m : mos; rt_vars : osvars }.
Arguments mkRt {W} rt_os rt_m rt_vars.
Arguments rt_os {W} r.
Arguments rt_m {W} r.
Arguments rt_vars {W} r.

Abbreviation RtM W := (GoM (rtst W)).

Definition set_m {W} (m : mos) (s : rtst W) : rtst W := mkRt (rt_os s) m (rt_vars s).
Definition set_vars {W} (v : osvars) (s : rtst W) : rtst W := mkRt (rt_os s) (rt_m s) v.
Definition set_libcallsp (sp : Z) (m : mos) : mos :=
  mkMos (m_has m) (m_libcallg m) (m_libcallpc m) sp (m_waitsema m) (m_ts m).
Definition set_waitsema (a : Z) (m : mos) : mos :=
  mkMos (m_has m) (m_libcallg m) (m_libcallpc m) (m_libcallsp m) a (m_ts m).
Definition set_ts (ts : timespec) (m : mos) : mos :=
  mkMos (m_has m) (m_libcallg m) (m_libcallpc m) (m_libcallsp m) (m_waitsema m) ts.

(** The running goroutine's caller pc and sp (sys.GetCallerPC, GetCallerSP). *)
Record frame : Type := mkFrame { fr_g : Z; fr_pc : Z; fr_sp : Z }.

Section os_qnx.
Context {W : Type} `{!Libc W} (fr : frame).

(** ** sysvicallN *)
Definition asmcgocall_libcall (lc : libcall) : RtM W libcall := fun s =>
  let '(lc', os') := asmsysvicall6 lc (rt_os s) in
  Ret lc' (mkRt os' (rt_m s) (rt_vars s)).

(** The body all sysvicallN share: remember the caller when this is the
    outermost libc call of the M, make the call, forget it again. *)
Definition libcall_frame (fn : string) (n : Z) (args : list carg) : RtM W libcall :=
  let! s := go_get in
  let m := rt_m s in
  let mp := m_has m && (m_libcallsp m =? 0) in
  (if mp then go_put (set_m (mkMos (m_has m) (fr_g fr) (fr_pc fr) (fr_sp fr)
                               (m_waitsema m) (m_ts m)) s)
   else go_ret tt) ;!
  let! lc := asmcgocall_libcall (new_libcall fn n args) in
  (if mp then go_modify (fun s => set_m (set_libcallsp 0 (rt_m s)) s) else go_ret tt) ;!
  go_ret lc.

Definition sysvicall0 (fn : string) : RtM W Z :=
  let! lc := libcall_frame fn 0 [CFun fn] in go_ret (lc_r1 lc).

(** r1, err and the memory the call wrote through its pointer arguments. *)
Definition sysvicall1Err (fn : string) (a1 : carg) : RtM W (Z * Z * list (list Z)) :=
  let! lc := libcall_frame fn 1 [a1] in go_ret (lc_r1 lc, lc_err lc, lc_bufs lc).

Definition sysvicall1 (fn : string) (a1 : carg) : RtM W Z :=
  let! (r1, _, _) := sysvicall1Err fn a1 in go_ret r1.

Definition sysvicall2Err (fn : string) (a1 a2 : carg) : RtM W (Z * Z * list (list Z)) :=
  let! lc := libcall_frame fn 2 [a1; a2] in go_ret (lc_r1 lc, lc_err lc, lc_bufs lc).

Definition sysvicall2 (fn : string) (a1 a2 : carg) : RtM W (Z * list (list Z)) :=
  let! (r1, _, bufs) := sysvicall2Err fn a1 a2 in go_ret (r1, bufs).

Definition sysvicall3Err (fn : string) (a1 a2 a3 : carg) : RtM W (Z * Z * list (list Z)) :=
  let! lc := libcall_frame fn 3 [a1; a2; a3] in go_ret (lc_r1 lc, lc_err lc, lc_bufs lc).

Definition sysvicall3 (fn : string) (a1 a2 a3 : carg) : RtM W (Z * list (list Z)) :=
  let! (r1, _, bufs) := sysvicall3Err fn a1 a2 a3 in go_ret (r1, bufs).

Definition sysvicall4 (fn : string) (a1 a2 a3 a4 : carg) : RtM W (Z * list (list Z)) :=
  let! lc := libcall_frame fn 4 [a1; a2; a3; a4] in go_ret (lc_r1 lc, lc_bufs lc).

Definition sysvicall5 (fn : string) (a1 a2 a3 a4 a5 : carg) : RtM W (Z * list (list Z)) :=
  let! lc := libcall_frame fn 5 [a1; a2; a3; a4; a5] in go_ret (lc_r1 lc, lc_bufs lc).

Definition sysvicall6 (fn : string) (a1 a2 a3 a4 a5 a6 : carg) : RtM W (Z * list (list Z)) :=
  let! lc := libcall_frame fn 6 [a1; a2; a3; a4; a5; a6] in go_ret (lc_r1 lc, lc_bufs lc).

(** The int32 read through mp.perrno: a nil pointer faults. *)
Definition read_perrno : RtM W Z := fun s =>
  if os_perrno (rt_os s) then Ret (i32 (libc_errno (os_w (rt_os s)))) s
  else Throw "nil pointer dereference" s.

(** ** Semaphores *)
Definition sizeof_semt : Z := 8.

Definition semacreate : RtM W unit :=
  let! s := go_get in
  if negb (m_waitsema (rt_m s) =? 0) then go_ret tt else
  let! lc := asmcgocall_libcall (new_libcall "malloc" 1 [CInt sizeof_semt]) in
  let sem := lc_r1 lc in
  let! (r, _) := sysvicall3 "sem_init" (CInt sem) (CInt 0) (CInt 0) in
  if negb (r =? 0) then go_throw "sem_init" else
  go_modify (fun s => set_m (set_waitsema sem (rt_m s)) s).

(** The deadline semasleep computes from the current time [now] and [ns]. *)
Definition semasleep_deadline (now : timespec) (ns : Z) : timespec :=
  let sec := i64 (goquot ns 1000000000 + tv_sec now) in
  let nsec := i64 (gorem ns 1000000000 + tv_nsec now) in
  if 1000000000 <=? nsec
  then mkTimespec (i32 (sec + 1)) (i32 (nsec - 1000000000))
  else mkTimespec (i32 sec) (i32 nsec).

(** The [for] loop of the untimed case; fuel bounds the EINTR retries. *)
Fixpoint semasleep_forever (fuel : nat) : RtM W Z :=
  match fuel with
  | O => fun _ => NoFuel
  | S fuel =>
    let! s := go_get in
    let! (r, _, _) := sysvicall1Err "sem_wait" (CInt (m_waitsema (rt_m s))) in
    if r =? 0 then go_ret 0 else
    let! e := read_perrno in
    if e =? _EINTR then semasleep_forever fuel else go_throw "sem_wait"
  end.

Definition semasleep (fuel : nat) (ns : Z) : RtM W Z :=
  if 0 <=? ns then
    let! s := go_get in
    let! (_, bufs) := sysvicall2 "clock_gettime" (CInt _CLOCK_REALTIME)
                         (CBuf (ts_cells (m_ts (rt_m s)))) in
    let dl := semasleep_deadline (ts_of_cells (nth 0 bufs [])) ns in
    go_modify (fun s => set_m (set_ts dl (rt_m s)) s) ;!
    let! s := go_get in
    let! (r, _) := sysvicall2 "sem_timedwait" (CInt (m_waitsema (rt_m s)))
                      (CBuf (ts_cells (m_ts (rt_m s)))) in
    if negb (r =? 0) then
      let! e := read_perrno in
      if (e =? _ETIMEDOUT) || (e =? _EAGAIN) || (e =? _EINTR) then go_ret (-1)
      else go_throw "sem_timedwait"
    else go_ret 0
  else semasleep_forever fuel.

Definition semawakeup (waitsema : Z) : RtM W unit :=
  let! r := sysvicall1 "sem_post" (CInt waitsema) in
  if negb (r =? 0) then go_throw "sem_post" else go_ret tt.

Definition osyield_no_g : RtM W unit := let! _ := sysvicall0 "sched_yield" in go_ret tt.
Definition osyield : RtM W unit := let! _ := sysvicall0 "sched_yield" in go_ret tt.

Definition getCPUCount : Z := 1.

(** ** Clocks *)
Definition clock_read (clock : Z) : RtM W timespec :=
  let! (_, bufs) := sysvicall2 "clock_gettime" (CInt clock) (CBuf (ts_cells timespec0)) in
  go_ret (ts_of_cells (nth 0 bufs [])).

Definition nanotime1 : RtM W Z :=
  let! ts := clock_read _CLOCK_MONOTONIC in
  go_ret (i64 (tv_sec ts * 1000000000 + tv_nsec ts)).

Definition cputicks : RtM W Z := nanotime1.

(** walltime's result for the time [ts] and the offset [off]. *)
Definition walltime_of (ts : timespec) (off : Z) : Z * Z :=
  if off =? 0 then (tv_sec ts, tv_nsec ts) else
  let t := i64 (i64 (tv_sec ts * 1000000000 + tv_nsec ts) + off) in
  (goquot t 1000000000, i32 (gorem t 1000000000)).

Definition walltime : RtM W (Z * Z) :=
  let! ts := clock_read _CLOCK_REALTIME in
  let! s := go_get in
  go_ret (walltime_of ts (i64 (v_walloff (rt_vars s)))).

Definition setQnxWallOffset (nsec : Z) : RtM W unit :=
  go_modify (fun s => set_vars (mkOsvars (u64 nsec) (v_ncpu (rt_vars s))
                                  (v_pagesize (rt_vars s))) s).

Definition usleep_ts (usec : Z) : timespec :=
  mkTimespec (i32 (usec / 1000000)) (i32 (u32 (usec `mod` 1000000 * 1000))).

Definition usleep (usec : Z) : RtM W unit :=
  let! _ := sysvicall2 "nanosleep" (CBuf (ts_cells (usleep_ts usec))) CNull in go_ret tt.

Definition usleep_no_g (usec : Z) : RtM W unit := usleep usec.

(** ** Files and memory *)
Definition write1 (fd : Z) (p : list Z) (n : Z) : RtM W Z :=
  let! (r, _) := sysvicall3 "write" (CInt fd) (CBuf p) (CInt (u32 n)) in go_ret (i32 r).

(** The result and the bytes now in the buffer. *)
Definition read (fd : Z) (p : list Z) (n : Z) : RtM W (Z * list Z) :=
  let! (r, err, bufs) := sysvicall3Err "read" (CInt (u32 fd)) (CBuf p) (CInt (u32 n)) in
  if i32 r <? 0 then go_ret (i32 (- i32 err), nth 0 bufs []) else
  go_ret (i32 r, nth 0 bufs []).

Definition closefd (fd : Z) : RtM W Z :=
  let! r := sysvicall1 "close" (CInt (u32 fd)) in go_ret (i32 r).

Definition open (name : list Z) (mode perm : Z) : RtM W Z :=
  let! (r, _) := sysvicall3 "open" (CStr name) (CInt (u32 mode)) (CInt (u32 perm)) in
  go_ret (i32 r).

Definition exit (r : Z) : RtM W unit := let! _ := sysvicall1 "exit" (CInt (u32 r)) in go_ret tt.

Definition mmap (addr n prot flags fd off : Z) : RtM W (Z * Z) :=
  let! (r, _) := sysvicall6 "mmap" (CInt addr) (CInt n) (CInt (u32 prot)) (CInt (u32 flags))
                    (CInt (u32 fd)) (CInt off) in
  if r =? 2 ^ 32 - 1 then let! e := read_perrno in go_ret (0, e) else go_ret (r, 0).

Definition munmap (addr n : Z) : RtM W unit :=
  let! _ := sysvicall2 "munmap" (CInt addr) (CInt n) in go_ret tt.

Definition madvise (addr n flags : Z) : RtM W unit := go_ret tt.

(** ** Random data *)
Definition _dev_random : list Z := [47; 100; 101; 118; 47; 114; 97; 110; 100; 111; 109].

Definition getRandomData (r : list Z) : RtM W (list Z) :=
  let! fd := open _dev_random _O_RDONLY 0 in
  if fd <? 0 then go_ret r else
  if (length r =? 0)%nat then go_throw "index out of range" else
  let! (_, r') := read fd r (Z.of_nat (length r)) in
  let! _ := closefd fd in
  go_ret r'.

Definition readRandom (r : list Z) : RtM W (Z * list Z) :=
  let! r' := getRandomData r in
  go_ret (Z.of_nat (length r), r').

(** ** Descriptors *)
Definition fcntl (fd cmd arg : Z) : RtM W (Z * Z) :=
  let! (r, err, _) := sysvicall3Err "fcntl" (CInt (u32 fd)) (CInt (u32 cmd)) (CInt (u32 arg)) in
  go_ret (i32 r, i32 err).

Definition pipe : RtM W (Z * Z * Z) :=
  let! (ret, err, bufs) := sysvicall1Err "pipe" (CBuf [0; 0]) in
  if i32 ret =? -1 then go_ret (-1, -1, i32 err) else
  let fds := nth 0 bufs [] in
  go_ret (i32 (nth 0 fds 0), i32 (nth 1 fds 0), 0).

Definition setNonblock (fd : Z) : RtM W unit :=
  let! (flags, _) := fcntl fd _F_GETFL 0 in
  if negb (flags =? -1) then let! _ := fcntl fd _F_SETFL (Z.lor flags _O_NONBLOCK) in go_ret tt
  else go_ret tt.

(** os_unix.go *)
Definition closeonexec (fd : Z) : RtM W unit :=
  let! _ := fcntl fd _F_SETFD _FD_CLOEXEC in go_ret tt.

(** nbpipe_pipe.go *)
Definition nonblockingPipe : RtM W (Z * Z * Z) :=
  let! (r, w, errno) := pipe in
  if negb (errno =? 0) then go_ret (-1, -1, errno) else
  closeonexec r ;! setNonblock r ;! closeonexec w ;! setNonblock w ;!
  go_ret (r, w, errno).

Definition raise (sig : Z) : RtM W unit :=
  let! pid := sysvicall0 "getpid" in
  let! _ := sysvicall2 "kill" (CInt pid) (CInt sig) in go_ret tt.

Definition raiseproc (sig : Z) : RtM W unit := raise sig.

(** [nil] is [None]; the result is what the call left in [old]. *)
Definition opt_arg (o : option (list Z)) : carg :=
  match o with Some l => CBuf l | None => CNull end.

Definition sigprocmask (how : Z) (new old : option (list Z)) : RtM W (list (list Z)) :=
  let! (_, bufs) := sysvicall3 "sigprocmask" (CInt (u32 how)) (opt_arg new) (opt_arg old) in
  go_ret bufs.

(** ** Start-up *)
Definition init_perrno : RtM W unit :=
  let! p := sysvicall0 "__get_errno_ptr" in
  go_modify (fun s => mkRt (mkOs (os_w (rt_os s)) (negb (p =? 0)) (os_trace (rt_os s)))
                           (rt_m s) (rt_vars s)).

Definition osinit : RtM W unit :=
  go_modify (fun s => set_vars (mkOsvars (v_walloff (rt_vars s)) getCPUCount 4096) s) ;!
  init_perrno.

(** minit caches this thread's errno pointer; the signal part of minit
    (minitSignals) is outside this file. *)
Definition minit_perrno : RtM W unit := init_perrno.

(** ** Threads *)
Definition sigset_all : list Z := [2 ^ 32 - 1; 2 ^ 32 - 1].
Definition pthreadattr0 : list Z := replicate 64 0.

Definition newosproc (mp : Z) : RtM W unit :=
  let! (r, _, b) := sysvicall1Err "pthread_attr_init" (CBuf pthreadattr0) in
  if negb (r =? 0) then go_throw "pthread_attr_init" else
  let attr := nth 0 b [] in
  let! (r, b) := sysvicall2 "pthread_attr_setstacksize" (CBuf attr) (CInt 2097152) in
  if negb (r =? 0) then go_throw "pthread_attr_setstacksize" else
  let attr := nth 0 b [] in
  let! (r, b) := sysvicall2 "pthread_attr_setdetachstate" (CBuf attr)
                    (CInt _PTHREAD_CREATE_DETACHED) in
  if negb (r =? 0) then go_throw "pthread_attr_setdetachstate" else
  let attr := nth 0 b [] in
  let! b := sigprocmask _SIG_SETMASK (Some sigset_all) (Some [0; 0]) in
  let oset := nth 1 b [] in
  let! (ret, _) := sysvicall4 "pthread_create" (CBuf [0]) (CBuf attr) (CFun "tstart")
                      (CInt mp) in
  let! _ := sigprocmask _SIG_SETMASK (Some oset) None in
  if negb (ret =? 0) then go_throw "newosproc" else go_ret tt.

(** * Lemmas *)

(** The M after a tracked call: the caller is remembered, the depth is back. *)
Definition frame_m (m : mos) : mos :=
  if m_has m && (m_libcallsp m =? 0)
  then mkMos (m_has m) (fr_g fr) (fr_pc fr) 0 (m_waitsema m) (m_ts m) else m.

Lemma libcall_frame_run fn n args s :
  libcall_frame fn n args s =
    let '(lc, os') := asmsysvicall6 (new_libcall fn n args) (rt_os s) in
    Ret lc (mkRt os' (frame_m (rt_m s)) (rt_vars s)).
Proof.
  unfold libcall_frame, asmcgocall_libcall, frame_m, set_m. mrun. cbn.
  destruct (m_has (rt_m s) && _); cbn; by destruct (asmsysvicall6 _ _) as [lc os'].
Qed.

Lemma frame_m_sp m : m_libcallsp (frame_m m) = m_libcallsp m.
Proof.
  unfold frame_m. destruct (m_has m && _) eqn:E; [|done].
  apply andb_true_iff in E as [_ E]. cbn. lia.
Qed.

Lemma frame_m_sema m : m_waitsema (frame_m m) = m_waitsema m.
Proof. unfold frame_m. by destruct (m_has m && _). Qed.

Lemma frame_m_ts m : m_ts (frame_m m) = m_ts m.
Proof. unfold frame_m. by destruct (m_has m && _). Qed.

Lemma ts_of_cells_ok l : ts_ok (ts_of_cells l).
Proof. split; apply wraps_range; lia. Qed.
End os_qnx.

(** Runs one bridge call: names its outcome [lc], [os'] with the equation [E]. *)
Ltac rt_call E lc os' :=
  cbv beta zeta;
  lazymatch goal with
  | |- context [libcall_frame ?fr ?fn ?n ?args ?s] =>
    rewrite (libcall_frame_run fr fn n args s);
    destruct (asmsysvicall6 (new_libcall fn n args) (rt_os s)) as [lc os'] eqn:E
  end;
  cbn [rt_os rt_m rt_vars] in *.

Ltac rt_run := repeat (mrun; cbn [rt_os rt_m rt_vars]).

Section os_qnx_props.
Context {W : Type} `{!Libc W} (fr : frame).

(** For any wait that ends before the 32-bit time_t does, the absolute
    deadline semasleep hands to sem_timedwait is normalised and is exactly the
    current time plus ns. *)
Theorem semasleep_deadline_exact now ns :
  0 <= ns ->
  0 <= tv_nsec now < 1000000000 ->
  in_s 32 (tv_sec now) ->
  ns / 1000000000 + tv_sec now + 1 < 2 ^ 31 ->
  let dl := semasleep_deadline now ns in
  0 <= tv_nsec dl < 1000000000 /\
  tv_sec dl * 1000000000 + tv_nsec dl =
    tv_sec now * 1000000000 + tv_nsec now + ns.
Proof.
  intros Hns Hn Hs Hb. unfold semasleep_deadline.
  rewrite goquot_nonneg, gorem_nonneg by lia.
  pose proof (Z.div_mod ns 1000000000 ltac:(lia)) as Hdm.
  pose proof (Z.mod_pos_bound ns 1000000000 ltac:(lia)).
  pose proof (Z.div_pos ns 1000000000 ltac:(lia) ltac:(lia)).
  rewrite !(wraps_small 64) by golia.
  destruct (Z.leb_spec 1000000000 (ns `mod` 1000000000 + tv_nsec now)); cbn;
    rewrite !(wraps_small 32) by golia; lia.
Qed.

(** The timed branch, for the two calls it makes. *)
Lemma semasleep_timed_run fuel ns s :
  0 <= ns ->
  semasleep fr fuel ns s =
    let '(lc1, os1) := asmsysvicall6 (new_libcall "clock_gettime" 2
                         [CInt _CLOCK_REALTIME; CBuf (ts_cells (m_ts (rt_m s)))]) (rt_os s) in
    let dl := semasleep_deadline (ts_of_cells (nth 0 (lc_bufs lc1) [])) ns in
    let '(lc2, os2) := asmsysvicall6 (new_libcall "sem_timedwait" 2
                         [CInt (m_waitsema (rt_m s)); CBuf (ts_cells dl)]) os1 in
    let s' := mkRt os2 (frame_m fr (set_ts dl (frame_m fr (rt_m s)))) (rt_vars s) in
    if lc_r1 lc2 =? 0 then Ret 0 s' else
    match read_perrno s' with
    | Ret e _ => if (e =? _ETIMEDOUT) || (e =? _EAGAIN) || (e =? _EINTR) then Ret (-1) s'
                 else Throw "sem_timedwait" s'
    | Throw m _ => Throw m s'
    | NoFuel => NoFuel
    end.
Proof.
  intros Hns. unfold semasleep. rewrite (proj2 (Z.leb_le 0 ns) Hns).
  unfold sysvicall2, sysvicall2Err. rt_run. rt_call E1 lc1 os1. rt_run.
  unfold set_m. rewrite libcall_frame_run. cbn [rt_os rt_m rt_vars m_ts set_ts m_waitsema].
  rewrite frame_m_sema.
  destruct (asmsysvicall6 (new_libcall "sem_timedwait" _ _) os1) as [lc2 os2]. cbn.
  destruct (lc_r1 lc2 =? 0); cbn; [done|].
  unfold read_perrno. cbn. destruct (os_perrno os2); cbn; [|done].
  by destruct (_ || _).
Qed.

(** C34: semasleep(ns) with ns >= 0, on an M that has its errno pointer, makes exactly two
    C calls: clock_gettime, then sem_timedwait on its semaphore with the deadline computed
    from what the clock gave (the time plus ns, normalised, when that is within the 32-bit
    time_t).  What sem_timedwait returned decides: 0 is returned exactly when the call
    returned 0; otherwise the errno it left is -1 for ETIMEDOUT, EAGAIN and EINTR and a
    throw for any other.  The profiler's call depth and the semaphore stay as they were. *)
Theorem semasleep_timed_outcome fuel ns s :
  0 <= ns -> os_perrno (rt_os s) = true ->
  let ts0 := ts_cells (m_ts (rt_m s)) in
  let '(w1, rp1) := libc_call "clock_gettime" [CInt _CLOCK_REALTIME; CBuf ts0] (libc_set_errno 0 (os_w (rt_os s))) in
  let now := ts_of_cells (refill ts0 (nth 0 (rp_bufs rp1) ts0)) in
  let dl := semasleep_deadline now ns in
  let wait := [CInt (m_waitsema (rt_m s)); CBuf (ts_cells dl)] in
  let '(w2, rp2) := libc_call "sem_timedwait" wait (libc_set_errno 0 w1) in
  (0 <= tv_nsec now < 1000000000 -> ns / 1000000000 + tv_sec now + 1 < 2 ^ 31 ->
     0 <= tv_nsec dl < 1000000000 /\
     tv_sec dl * 1000000000 + tv_nsec dl = tv_sec now * 1000000000 + tv_nsec now + ns) /\
  exists s',
    semasleep fr fuel ns s =
      (if u32 (rp_r1 rp2) =? 0 then Ret 0 s'
       else if bool_decide (i32 (libc_errno w2) ∈ [_ETIMEDOUT; _EAGAIN; _EINTR]) then Ret (-1) s'
       else Throw "sem_timedwait" s') /\
    os_w (rt_os s') = w2 /\
    os_trace (rt_os s') = os_trace (rt_os s) ++
      [EvCall "clock_gettime" [CInt _CLOCK_REALTIME; CBuf ts0]; EvCall "sem_timedwait" wait] /\
    m_ts (rt_m s') = dl /\ m_libcallsp (rt_m s') = m_libcallsp (rt_m s) /\ m_waitsema (rt_m s') = m_waitsema (rt_m s).
Proof.
  intros Hns Hp ts0. pose proof (semasleep_timed_run fuel ns s Hns) as R. cbv zeta in R. fold ts0 in R.
  unfold asmsysvicall6 in R. cbn [lc_fn lc_n lc_args new_libcall] in R. rewrite Hp in R.
  change (take (Z.to_nat (Z.min 2 6)) [CInt _CLOCK_REALTIME; CBuf ts0]) with [CInt _CLOCK_REALTIME; CBuf ts0] in R.
  destruct (libc_call "clock_gettime" _ _) as [w1 rp1]. cbn [lc_bufs os_perrno os_w os_trace] in R.
  change (arg_bufs [CInt _CLOCK_REALTIME; CBuf ts0]) with [ts0] in R. rewrite nth_refill_all in R.
  set (now := ts_of_cells _) in *. set (dl := semasleep_deadline now ns) in *.
  change (take (Z.to_nat (Z.min 2 6)) [?a; ?b]) with [a; b] in R. cbv zeta.
  destruct (libc_call "sem_timedwait" _ _) as [w2 rp2]. cbn [lc_r1] in R. split.
  { intros H1 H2. apply semasleep_deadline_exact; [done..| |done]. apply ts_of_cells_ok. }
  eexists. split; [rewrite R; clear R|].
  { unfold read_perrno. cbn [rt_os os_perrno os_w]. destruct (u32 (rp_r1 rp2) =? 0); [reflexivity|].
    destruct (Z.eqb_spec (i32 (libc_errno w2)) _ETIMEDOUT) as [-> |]; [reflexivity|].
    destruct (Z.eqb_spec (i32 (libc_errno w2)) _EAGAIN) as [-> |]; [reflexivity|].
    destruct (Z.eqb_spec (i32 (libc_errno w2)) _EINTR) as [-> |]; [reflexivity|].
    rewrite bool_decide_eq_false_2; [reflexivity|]. set_solver. }
  cbn [rt_os rt_m os_w os_trace]. rewrite !frame_m_sp, !frame_m_sema, !frame_m_ts. cbn [set_ts m_ts m_libcallsp m_waitsema].
  rewrite frame_m_sp, frame_m_sema, <- app_assoc. by split_and!.
Qed.

Lemma semasleep_forever_step fuel s :
  semasleep_forever fr (S fuel) s =
    let '(lc, os') := asmsysvicall6 (new_libcall "sem_wait" 1
                        [CInt (m_waitsema (rt_m s))]) (rt_os s) in
    let s' := mkRt os' (frame_m fr (rt_m s)) (rt_vars s) in
    if lc_r1 lc =? 0 then Ret 0 s' else
    match read_perrno s' with
    | Ret e _ => if e =? _EINTR then semasleep_forever fr fuel s' else Throw "sem_wait" s'
    | Throw m _ => Throw m s'
    | NoFuel => NoFuel
    end.
Proof.
  cbn [semasleep_forever]. unfold sysvicall1Err. rt_run. rt_call E lc os'.
  destruct (lc_r1 lc =? 0); [done|]. unfold read_perrno. cbn [rt_os].
  destruct (os_perrno os'); [|done]. by destruct (_ =? _EINTR).
Qed.

(** [n] interrupted sem_wait calls, then one that acquires. *)
Inductive sem_wait_after (sema : Z) : nat -> osst W -> Prop :=
| sem_wait_now os lc os' :
    asmsysvicall6 (new_libcall "sem_wait" 1 [CInt sema]) os = (lc, os') ->
    lc_r1 lc = 0 -> sem_wait_after sema 0 os
| sem_wait_eintr n os lc os' :
    asmsysvicall6 (new_libcall "sem_wait" 1 [CInt sema]) os = (lc, os') ->
    lc_r1 lc <> 0 -> i32 (libc_errno (os_w os')) = _EINTR ->
    sem_wait_after sema n os' -> sem_wait_after sema (S n) os.

(** An untimed semasleep absorbs any number of EINTRs and returns 0 after
    the first successful sem_wait: n interrupted calls cost n retries. *)
Theorem semasleep_untimed_terminates n ns s :
  ns < 0 -> os_perrno (rt_os s) = true ->
  sem_wait_after (m_waitsema (rt_m s)) n (rt_os s) ->
  exists s', semasleep fr (S n) ns s = Ret 0 s' /\
    os_trace (rt_os s') = os_trace (rt_os s) ++
      replicate (S n) (EvCall "sem_wait" [CInt (m_waitsema (rt_m s))]) /\
    m_libcallsp (rt_m s') = m_libcallsp (rt_m s).
Proof.
  intros Hns Hp Hw. unfold semasleep. rewrite (proj2 (Z.leb_gt 0 ns) Hns).
  revert s Hp Hw. induction n as [|n IH]; intros s Hp Hw; inversion Hw; subst;
    rewrite semasleep_forever_step;
    match goal with H : asmsysvicall6 _ _ = _ |- _ =>
      rewrite H; apply asmsysvicall6_out in H as (_ & _ & Hp' & _ & _ & _ & Ht) end;
    cbv zeta.
  - rewrite (proj2 (Z.eqb_eq (lc_r1 lc) 0)) by done.
    eexists. split; [reflexivity|]. cbn. by rewrite frame_m_sp.
  - rewrite (proj2 (Z.eqb_neq (lc_r1 lc) 0)) by done.
    unfold read_perrno. cbn [rt_os]. rewrite Hp', Hp.
    match goal with H : i32 _ = _EINTR |- _ => rewrite H end. rewrite Z.eqb_refl.
    edestruct (IH (mkRt os' (frame_m fr (rt_m s)) (rt_vars s))) as (s' & -> & Ht' & Hsp);
      cbn [rt_os rt_m]; [by rewrite Hp'|by rewrite frame_m_sema|].
    exists s'. rewrite Hsp, Ht'. cbn [rt_os rt_m]. rewrite Ht, frame_m_sp, frame_m_sema.
    by rewrite <- app_assoc.
Qed.

(** After setQnxWallOffset(off), a wall-clock reading whose corrected value
    is not before 1970 is normalised and is exactly CLOCK_REALTIME plus off. *)
Theorem walltime_corrected off s :
  in_s 64 off -> off <> 0 ->
  let '(lc, _) := asmsysvicall6 (new_libcall "clock_gettime" 2
                    [CInt _CLOCK_REALTIME; CBuf [0; 0]]) (rt_os s) in
  let ts := ts_of_cells (nth 0 (lc_bufs lc) []) in
  let t := tv_sec ts * 1000000000 + tv_nsec ts + off in
  0 <= t < 2 ^ 63 ->
  exists sec nsec s',
    (setQnxWallOffset off ;! walltime fr) s = Ret (sec, nsec) s' /\
    0 <= nsec < 1000000000 /\ sec * 1000000000 + nsec = t.
Proof.
  intros Hoff Hnz. destruct (asmsysvicall6 _ _) as [lc os'] eqn:E.
  set (ts := ts_of_cells _). cbv zeta. intros Ht.
  destruct (ts_of_cells_ok (nth 0 (lc_bufs lc) [])) as [Hs Hn]. fold ts in Hs, Hn.
  unfold setQnxWallOffset, walltime, clock_read, sysvicall2, sysvicall2Err. rt_run.
  rewrite libcall_frame_run. unfold set_vars. cbn [rt_os rt_m rt_vars].
  change (ts_cells timespec0) with [0; 0]. rewrite E. cbn [v_walloff rt_vars].
  fold ts. clearbody ts. rewrite (wraps_wrapu 64), (wraps_small 64 ltac:(lia) off Hoff) by lia.
  unfold walltime_of. rewrite (proj2 (Z.eqb_neq off 0) Hnz).
  rewrite (wraps_small 64 ltac:(lia) (tv_sec ts * 1000000000 + tv_nsec ts)) by golia.
  rewrite (wraps_small 64) by golia.
  rewrite goquot_nonneg, gorem_nonneg by lia.
  pose proof (Z.mod_pos_bound (tv_sec ts * 1000000000 + tv_nsec ts + off) 1000000000 ltac:(lia)).
  rewrite (wraps_small 32) by golia.
  do 3 eexists. split; [reflexivity|]. split; [done|].
  pose proof (Z.div_mod (tv_sec ts * 1000000000 + tv_nsec ts + off) 1000000000 ltac:(lia)). lia.
Qed.

(** A corrected time before 1970 has a negative nanosecond part. *)
Lemma walltime_before_epoch ts off :
  off <> 0 -> ts_ok ts -> in_s 64 off ->
  - 2 ^ 63 <= tv_sec ts * 1000000000 + tv_nsec ts + off < 0 ->
  gorem (tv_sec ts * 1000000000 + tv_nsec ts + off) 1000000000 <> 0 ->
  snd (walltime_of ts off) < 0.
Proof.
  intros Hnz [Hs Hn] Hoff Ht Hr. unfold walltime_of.
  rewrite (proj2 (Z.eqb_neq off 0) Hnz). cbn [snd].
  rewrite (wraps_small 64 ltac:(lia) (tv_sec ts * 1000000000 + tv_nsec ts)) by golia.
  rewrite (wraps_small 64) by golia.
  pose proof (Z.rem_nonpos (tv_sec ts * 1000000000 + tv_nsec ts + off) 1000000000
                ltac:(lia) ltac:(lia)).
  pose proof (Z.rem_bound_abs (tv_sec ts * 1000000000 + tv_nsec ts + off) 1000000000 ltac:(lia)).
  rewrite (wraps_small 32) by golia. lia.
Qed.

(** The calls made since [s]. *)
Definition calls_since (s s' : rtst W) (evs : list event) : Prop :=
  os_trace (rt_os s') = os_trace (rt_os s) ++ evs.

Definition res_state {S A} (r : res S A) : option S :=
  match r with Ret _ s | Throw _ s => Some s | NoFuel => None end.

(** Newosproc creates the thread with every signal blocked and puts back the
    mask it found, also when pthread_create fails; when one of the attribute
    calls fails it throws without having touched the mask. *)
Theorem newosproc_restores_sigmask mp s :
  let out := newosproc fr mp s in
  (exists s' evs, res_state out = Some s' /\ ~ returns out /\ calls_since s s' evs /\
     forall args, EvCall "sigprocmask" args ∉ evs) \/
  (exists s' attr b1 b2 b3 os1 lc os2,
     res_state out = Some s' /\
     asmsysvicall6 (new_libcall "sigprocmask" 3
       [CInt _SIG_SETMASK; CBuf sigset_all; CBuf [0; 0]]) os1 = (lc, os2) /\
     calls_since s s'
       [EvCall "pthread_attr_init" [CBuf b1];
        EvCall "pthread_attr_setstacksize" [CBuf b2; CInt 2097152];
        EvCall "pthread_attr_setdetachstate" [CBuf b3; CInt _PTHREAD_CREATE_DETACHED];
        EvCall "sigprocmask" [CInt _SIG_SETMASK; CBuf sigset_all; CBuf [0; 0]];
        EvCall "pthread_create" [CBuf [0]; CBuf attr; CFun "tstart"; CInt mp];
        EvCall "sigprocmask" [CInt _SIG_SETMASK; CBuf (nth 1 (lc_bufs lc) []); CNull]]).
Proof.
  cbv zeta. unfold newosproc, sysvicall1Err, sysvicall2, sysvicall2Err, sysvicall4, sigprocmask,
    sysvicall3, sysvicall3Err, calls_since. rt_run.
  rt_call E1 lc1 os1. apply asmsysvicall6_out in E1 as (_ & _ & _ & _ & _ & _ & T1). cbn in T1.
  destruct (lc_r1 lc1 =? 0); cbn [negb]; [|left; do 2 eexists;
    split_and!; [reflexivity|by intros []|exact T1|set_solver]].
  rt_call E2 lc2 os2. apply asmsysvicall6_out in E2 as (_ & _ & _ & _ & _ & _ & T2). cbn in T2.
  rewrite T1, <- app_assoc in T2.
  destruct (lc_r1 lc2 =? 0); cbn [negb]; [|left; do 2 eexists;
    split_and!; [reflexivity|by intros []|exact T2|set_solver]].
  rt_call E3 lc3 os3. apply asmsysvicall6_out in E3 as (_ & _ & _ & _ & _ & _ & T3). cbn in T3.
  rewrite T2, <- app_assoc in T3.
  destruct (lc_r1 lc3 =? 0); cbn [negb]; [|left; do 2 eexists;
    split_and!; [reflexivity|by intros []|exact T3|set_solver]].
  rt_call E4 lc4 os4. pose proof E4 as E4'.
  apply asmsysvicall6_out in E4 as (_ & _ & _ & _ & _ & _ & T4). cbn in T4.
  rt_call E5 lc5 os5. apply asmsysvicall6_out in E5 as (_ & _ & _ & _ & _ & _ & T5). cbn in T5.
  rt_call E6 lc6 os6. apply asmsysvicall6_out in E6 as (_ & _ & _ & _ & _ & _ & T6). cbn in T6.
  rewrite T5, T4, T3, <- !app_assoc in T6. cbn in T6.
  right. eexists _, (nth 0 (lc_bufs lc3) []), _, _, _, os3, lc4, os4.
  split; [|split; [exact E4'|]].
  - by destruct (lc_r1 lc5 =? 0).
  - cbn. rewrite T6. reflexivity.
Qed.

(** What one fcntl call answers and the events of the two descriptor setters. *)
Lemma fcntl_run fd cmd arg s :
  exists s' r e,
    fcntl fr fd cmd arg s = Ret (r, e) s' /\
    calls_since s s' [EvCall "fcntl" [CInt (u32 fd); CInt (u32 cmd); CInt (u32 arg)]].
Proof.
  unfold fcntl, sysvicall3Err, calls_since. rt_run. rt_call E lc os'.
  apply asmsysvicall6_out in E as (_ & _ & _ & _ & _ & _ & T).
  do 3 eexists. split; [reflexivity|]. exact T.
Qed.

Definition fd_setup_events (fd flags : Z) : list event :=
  [EvCall "fcntl" [CInt (u32 fd); CInt _F_SETFD; CInt _FD_CLOEXEC];
   EvCall "fcntl" [CInt (u32 fd); CInt _F_GETFL; CInt 0]] ++
  (if flags =? -1 then []
   else [EvCall "fcntl" [CInt (u32 fd); CInt _F_SETFL; CInt (u32 (Z.lor flags _O_NONBLOCK))]]).

Lemma fd_setup_run fd s :
  exists s' flags,
    (closeonexec fr fd ;! setNonblock fr fd) s = Ret tt s' /\
    calls_since s s' (fd_setup_events fd flags).
Proof.
  unfold closeonexec, setNonblock, calls_since, fd_setup_events. rt_run.
  destruct (fcntl_run fd _F_SETFD _FD_CLOEXEC s) as (s1 & r1 & e1 & -> & T1).
  destruct (fcntl_run fd _F_GETFL 0 s1) as (s2 & r2 & e2 & -> & T2).
  unfold calls_since in *. rewrite T1, <- app_assoc in T2. cbn in T2.
  destruct (Z.eqb_spec r2 (-1)) as [->|Hne]; cbn.
  - exists s2, (-1). by rewrite T2.
  - destruct (fcntl_run fd _F_SETFL (Z.lor r2 _O_NONBLOCK) s2) as (s3 & r3 & e3 & -> & T3).
    unfold calls_since in T3. rewrite T2, <- app_assoc in T3. exists s3, r2.
    rewrite (proj2 (Z.eqb_neq r2 (-1)) Hne). by rewrite T3.
Qed.

(** NonblockingPipe reports the errno and no descriptors when pipe fails
    with an errno; otherwise it marks both descriptors close-on-exec and adds
    O_NONBLOCK to the flags it read back, for each end, in that order. *)
Theorem nonblockingPipe_outcome s :
  let '(lc, os') := asmsysvicall6 (new_libcall "pipe" 1 [CBuf [0; 0]]) (rt_os s) in
  let fds := nth 0 (lc_bufs lc) [] in
  let r := i32 (nth 0 fds 0) in
  let w := i32 (nth 1 fds 0) in
  (i32 (lc_r1 lc) = -1 -> i32 (lc_err lc) <> 0 ->
     exists s', nonblockingPipe fr s = Ret (-1, -1, i32 (lc_err lc)) s' /\
       calls_since s s' [EvCall "pipe" [CBuf [0; 0]]]) /\
  (i32 (lc_r1 lc) <> -1 ->
     exists s' f1 f2, nonblockingPipe fr s = Ret (r, w, 0) s' /\
       calls_since s s' (EvCall "pipe" [CBuf [0; 0]] ::
                           fd_setup_events r f1 ++ fd_setup_events w f2)).
Proof.
  unfold nonblockingPipe, pipe, sysvicall1Err. rt_run. rt_call E lc os'.
  apply asmsysvicall6_out in E as (_ & _ & _ & _ & _ & _ & T). cbn in T. split.
  - intros -> He. rewrite Z.eqb_refl, (proj2 (Z.eqb_neq _ 0) He). cbn.
    eexists. split; [reflexivity|]. exact T.
  - intros Hr. rewrite (proj2 (Z.eqb_neq _ (-1)) Hr). cbn [negb Z.eqb].
    set (s0 := mkRt os' _ _). set (r := i32 (nth 0 _ 0)). set (w := i32 (nth 1 _ 0)).
    destruct (fd_setup_run r s0) as (s1 & f1 & R1 & T1).
    destruct (fd_setup_run w s1) as (s2 & f2 & R2 & T2). unfold calls_since in *.
    mrun. destruct (closeonexec fr r s0) as [[] sa| |]; [|done..]. rewrite R1.
    destruct (closeonexec fr w s1) as [[] sb| |]; [|done..]. rewrite R2.
    exists s2, f1, f2. split; [done|]. rewrite T2, T1. cbn [rt_os s0]. rewrite T.
    by rewrite <- !app_assoc.
Qed.

(** ReadRandom reports the full length of the buffer on every path: also
    when /dev/random cannot be opened, in which case the buffer is untouched. *)
Theorem readRandom_reports_full r s :
  r <> [] ->
  let '(lc, _) := asmsysvicall6 (new_libcall "open" 3
                    [CStr _dev_random; CInt _O_RDONLY; CInt 0]) (rt_os s) in
  exists r' s', readRandom fr r s = Ret (Z.of_nat (length r), r') s' /\
    length r' = length r /\
    (i32 (lc_r1 lc) < 0 -> r' = r).
Proof.
  intros Hr. unfold readRandom, getRandomData, open, sysvicall3, sysvicall3Err. rt_run.
  rewrite libcall_frame_run. change (u32 _O_RDONLY) with _O_RDONLY. change (u32 0) with 0.
  destruct (asmsysvicall6 (new_libcall "open" 3 _) _) as [lc os1]. cbn [lc_r1].
  destruct (Z.ltb_spec (i32 (lc_r1 lc)) 0) as [Hlt|Hge].
  { do 2 eexists. split; [reflexivity|]. done. }
  destruct (Nat.eqb_spec (length r) 0) as [H0|_]; [by destruct r|].
  unfold read, closefd, sysvicall1, sysvicall1Err, sysvicall3Err. rt_run. rt_call E lc2 os2.
  apply asmsysvicall6_lengths in E as El. cbn in El.
  destruct (lc_bufs lc2) as [|b [|]] eqn:Eb; try done. injection El as El.
  destruct (i32 (lc_r1 lc2) <? 0); cbn [nth]; rt_call E3 lc3 os3;
    (do 2 eexists; split; [reflexivity|]; split; [done|lia]).
Qed.
End os_qnx_props.

(** ** Concrete runs *)
Definition demo_frame : frame := mkFrame 100 200 300.
Definition demo_rt (ls : list Script.line) : rtst Script.world :=
  mkRt (Script.start ls) (mkMos true 0 0 0 77 timespec0) (mkOsvars 0 1 4096).

Lemma semasleep_deadline_exact_witness :
  let dl := semasleep_deadline (mkTimespec 100 999999999) 1500000001 in
  0 <= tv_nsec dl < 1000000000 /\
  tv_sec dl * 1000000000 + tv_nsec dl = 100 * 1000000000 + 999999999 + 1500000001.
Proof.
  apply (semasleep_deadline_exact (mkTimespec 100 999999999) 1500000001);
    cbn [tv_sec tv_nsec]; try (vm_compute; intuition congruence).
Defined.

(** The clock says 9 s 8 ns; the wait of 5 ns times out. *)
Lemma semasleep_timed_outcome_witness :
  exists s', semasleep demo_frame 0 5 (demo_rt [Script.ok 0 [[9; 8]]; Script.fail _ETIMEDOUT]) = Ret (-1) s' /\
    m_ts (rt_m s') = mkTimespec 9 13 /\ m_waitsema (rt_m s') = 77.
Proof.
  destruct (semasleep_timed_outcome demo_frame 0 5 (demo_rt [Script.ok 0 [[9; 8]]; Script.fail _ETIMEDOUT])
    ltac:(lia) eq_refl) as (_ & s' & E & _ & _ & Hts & _ & Hw).
  exists s'. split; [rewrite E; vm_compute; reflexivity|]. split; [rewrite Hts; vm_compute; reflexivity|exact Hw].
Defined.

Lemma semasleep_untimed_terminates_witness :
  exists s', semasleep demo_frame 2 (-1) (demo_rt [Script.fail _EINTR; Script.ok 0 []]) = Ret 0 s' /\
    os_trace (rt_os s') = replicate 2 (EvCall "sem_wait" [CInt 77]) /\
    m_libcallsp (rt_m s') = 0.
Proof.
  apply (semasleep_untimed_terminates demo_frame 1 (-1)
           (demo_rt [Script.fail _EINTR; Script.ok 0 []])); [lia|reflexivity|].
  eapply sem_wait_eintr; [reflexivity|discriminate|reflexivity|].
  eapply sem_wait_now; reflexivity.
Defined.

Lemma walltime_corrected_witness :
  exists sec nsec s',
    (setQnxWallOffset 1750000000000000000 ;! walltime demo_frame)
      (demo_rt [Script.ok 0 [[496; 500]]]) = Ret (sec, nsec) s' /\
    0 <= nsec < 1000000000 /\ sec * 1000000000 + nsec = 1750000496000000500.
Proof.
  pose proof (walltime_corrected demo_frame 1750000000000000000
                (demo_rt [Script.ok 0 [[496; 500]]])) as H.
  apply H; vm_compute; intuition congruence.
Defined.

Lemma nonblockingPipe_outcome_witness :
  exists s' f1 f2,
    nonblockingPipe demo_frame (demo_rt [Script.ok 0 [[5; 6]]]) = Ret (5, 6, 0) s' /\
    calls_since (demo_rt [Script.ok 0 [[5; 6]]]) s'
      (EvCall "pipe" [CBuf [0; 0]] :: fd_setup_events 5 f1 ++ fd_setup_events 6 f2).
Proof.
  pose proof (nonblockingPipe_outcome demo_frame (demo_rt [Script.ok 0 [[5; 6]]])) as H.
  apply H. vm_compute. discriminate.
Defined.

Lemma readRandom_reports_full_witness :
  exists r' s', readRandom demo_frame [0; 0; 0] (demo_rt [Script.fail 2]) = Ret (3, r') s' /\
    length r' = 3%nat /\ (i32 (2 ^ 32 - 1) < 0 -> r' = [0; 0; 0]).
Proof.
  exact (readRandom_reports_full demo_frame [0; 0; 0] (demo_rt [Script.fail 2])
           ltac:(discriminate)).
Defined.
