(* ===== verification/MemQnx.v ===== *)
(** * MemQnx: memory from the system

    runtime/mem_bsd.go and runtime/mem.go: the states a region of the address space goes
    through (None, Reserved, Prepared, Ready), on mmap and munmap of RuntimeOS.v.  A state
    has the world, the sysMemStat counters by name and gcController.mappedReady.

    The address space is part of the world: [space] gives the protection of a page, if it
    is mapped.  What is assumed of the C library is what POSIX says of mmap and munmap on
    anonymous memory ([AddressSpaceLaws]); a system that obeys them is at the end of the
    file.  The abstract specification is mem.go's own: sets of pages by state.  Constants
    of the platform (GOOS is qnx, no sbrk, no ASAN) are put in; of sysReserveAligned the
    case for windows is left out with them. *)
From Stdlib Require Import ZArith Lia List Bool String.
From stdpp Require Import base list gmap sets strings numbers tactics option.
From S2P Require Import Prelude Libc RuntimeOS.

Definition _qnxMAP_LAZY : Z := 0x80.
Definition _ENOMEM : Z := 12.
Definition _MADV_DONTNEED : Z := 0.
Definition _MADV_FREE : Z := 0.

Record memst (W : Type) : Type := mkMem { mem_rt : rtst W; mem_stats : gmap string Z; mem_ready : Z }.
Arguments mkMem {W} mem_rt mem_stats mem_ready.
Arguments mem_rt {W} m.
Arguments mem_stats {W} m.
Arguments mem_ready {W} m.

Abbreviation MemM W := (GoM (memst W)).

Section mem.
Context {W : Type} `{!Libc W} (fr : frame).
(** debug.madvdontneed *)
Context (madvdontneed : Z).

Definition on_rt {A} (m : RtM W A) : MemM W A := fun s =>
  match m (mem_rt s) with
  | Ret a r => Ret a (mkMem r (mem_stats s) (mem_ready s))
  | Throw msg r => Throw msg (mkMem r (mem_stats s) (mem_ready s))
  | NoFuel => NoFuel
  end.

(** ** runtime/mem_bsd.go *)
Definition sysAllocOS (n : Z) : MemM W Z :=
  let! (v, err) := on_rt (mmap fr 0 n (Z.lor _PROT_READ _PROT_WRITE) (Z.lor _MAP_ANON _MAP_PRIVATE) (-1) 0) in
  if negb (err =? 0) then go_ret 0 else go_ret v.

Definition sysUnusedOS (v n : Z) : MemM W unit :=
  if negb (madvdontneed =? 0) then on_rt (madvise v n _MADV_DONTNEED) else on_rt (madvise v n _MADV_FREE).

Definition sysUsedOS (v n : Z) : MemM W unit := go_ret tt.
Definition sysFreeOS (v n : Z) : MemM W unit := on_rt (munmap fr v n).

Definition sysFaultOS (v n : Z) : MemM W unit :=
  on_rt (mmap fr v n _PROT_NONE (Z.lor (Z.lor _MAP_ANON _MAP_PRIVATE) _MAP_FIXED) (-1) 0) ;! go_ret tt.

Definition sysReserveOS (v n : Z) : MemM W Z :=
  let flags := Z.lor _MAP_ANON _MAP_PRIVATE in
  let flags := Z.lor flags _qnxMAP_LAZY in
  let! (p, err) := on_rt (mmap fr v n _PROT_NONE flags (-1) 0) in
  if negb (err =? 0) then go_ret 0 else go_ret p.

Definition sysMapOS (v n : Z) : MemM W unit :=
  let! (p, err) := on_rt (mmap fr v n (Z.lor _PROT_READ _PROT_WRITE)
                            (Z.lor (Z.lor _MAP_ANON _MAP_FIXED) _MAP_PRIVATE) (-1) 0) in
  if err =? _ENOMEM then go_throw "runtime: out of memory" else
  if negb (p =? v) || negb (err =? 0) then go_throw "runtime: cannot map pages in arena address space" else
  go_ret tt.

Definition needZeroAfterSysUnusedOS : bool := true.

(** ** runtime/mem.go *)

(** sysMemStat.add *)
Definition stat_of (stat : string) (s : memst W) : Z := default 0 (mem_stats s !! stat).
Definition sysMemStat_add (stat : string) (n : Z) : MemM W unit :=
  let! s := go_get in
  let val := u64 (stat_of stat s + n) in
  go_put (mkMem (mem_rt s) (<[stat := val]> (mem_stats s)) (mem_ready s)) ;!
  if ((0 <? n) && (i64 val <? n)) || ((n <? 0) && (i64 (i64 val + n) <? n)) then go_throw "sysMemStat overflow"
  else go_ret tt.

(** gcController.mappedReady.Add *)
Definition mappedReady_Add (n : Z) : MemM W unit :=
  go_modify (fun s => mkMem (mem_rt s) (mem_stats s) (u64 (mem_ready s + n))).

Definition sysAlloc (n : Z) (sysStat : string) : MemM W Z :=
  sysMemStat_add sysStat (i64 n) ;!
  mappedReady_Add (i64 n) ;!
  sysAllocOS n.

Definition sysUnused (v n : Z) : MemM W unit :=
  mappedReady_Add (- i64 n) ;! sysUnusedOS v n.

Definition sysUsed (v n prepared : Z) : MemM W unit :=
  mappedReady_Add (i64 prepared) ;! sysUsedOS v n.

Definition sysFree (v n : Z) (sysStat : string) : MemM W unit :=
  sysMemStat_add sysStat (- i64 n) ;!
  mappedReady_Add (- i64 n) ;!
  sysFreeOS v n.

Definition sysFault (v n : Z) : MemM W unit :=
  mappedReady_Add (- i64 n) ;! sysFaultOS v n.

Definition sysReserve (v n : Z) : MemM W Z := sysReserveOS v n.
Definition sysUnreserve (v n : Z) : MemM W unit := sysFreeOS v n.

Definition alignUp (n a : Z) : Z := Z.ldiff (u32 (u32 (n + a) - 1)) (u32 (a - 1)).

Definition sysReserveAligned (v size align : Z) : MemM W (Z * Z) :=
  let! p := sysReserve v (u32 (size + align)) in
  if p =? 0 then go_ret (0, 0) else
  if Z.land p (u32 (align - 1)) =? 0 then go_ret (p, u32 (size + align)) else
  let pAligned := alignUp p align in
  let end_ := u32 (pAligned + size) in
  let endLen := u32 (u32 (u32 (p + size) + align) - end_) in
  sysFreeOS p (u32 (pAligned - p)) ;!
  (if 0 <? endLen then sysFreeOS end_ endLen else go_ret tt) ;!
  go_ret (pAligned, size).

Definition sysMap (v n : Z) (sysStat : string) : MemM W unit :=
  sysMemStat_add sysStat (i64 n) ;! sysMapOS v n.
End mem.

(** ** What the C library promises *)
Definition in_range (v n x : Z) : bool := (v / 4096 <=? x) && (x <? (v + n) / 4096).
Definition is_region (v n : Z) : Prop := 0 < v /\ 0 < n /\ v mod 4096 = 0 /\ n mod 4096 = 0 /\ v + n <= 2 ^ 32.

Class AddressSpace (W : Type) : Type := { space : W -> Z -> option Z }.

(** In the pages of a region the protection is [o], elsewhere it is as before. *)
Definition updated (v n : Z) (o : option Z) (sp sp' : Z -> option Z) : Prop :=
  forall x, sp' x = if in_range v n x then o else sp x.

Class AddressSpaceLaws (W : Type) `{!Libc W, !AddressSpace W} : Prop := {
  space_errno : forall e w x, space (libc_set_errno e w) x = space w x;
  space_mmap : forall v n prot flags w w' rp,
    has_bits flags _MAP_ANON = true -> has_bits flags _MAP_FIXED = false ->
    0 <= v -> v mod 4096 = 0 -> 0 < n < 2 ^ 32 -> n mod 4096 = 0 ->
    libc_call "mmap" [CInt v; CInt n; CInt prot; CInt flags; CInt (u32 (-1)); CInt 0] w = (w', rp) ->
    u32 (rp_r1 rp) = 2 ^ 32 - 1 /\ (forall x, space w' x = space w x) \/
    is_region (u32 (rp_r1 rp)) n /\ (forall x, in_range (u32 (rp_r1 rp)) n x = true -> space w x = None) /\
    updated (u32 (rp_r1 rp)) n (Some prot) (space w) (space w');
  space_mmap_fixed : forall v n prot flags w w' rp,
    has_bits flags _MAP_ANON = true -> has_bits flags _MAP_FIXED = true -> is_region v n ->
    libc_call "mmap" [CInt v; CInt n; CInt prot; CInt flags; CInt (u32 (-1)); CInt 0] w = (w', rp) ->
    u32 (rp_r1 rp) = 2 ^ 32 - 1 /\ (forall x, in_range v n x = false -> space w' x = space w x) \/
    u32 (rp_r1 rp) = v /\ updated v n (Some prot) (space w) (space w');
  space_munmap : forall v n w w' rp, is_region v n ->
    libc_call "munmap" [CInt v; CInt n] w = (w', rp) -> updated v n None (space w) (space w');
}.

(** ** The abstract specification: mem.go's states *)
Definition pages (v n : Z) : gset Z := list_to_set (seqZ (v / 4096) (n / 4096)).

(** [r_drift]: bytes counted in mappedReady by a sysAlloc that got nothing. *)
Record regions : Type := mkRegions { r_reserved : gset Z; r_prepared : gset Z; r_ready : gset Z; r_drift : Z }.
Definition owned (a : regions) : gset Z := r_reserved a ∪ r_prepared a ∪ r_ready a.

Inductive memop : Type :=
| OAlloc (n : Z) (stat : string)
| OUnused (v n : Z)
| OUsed (v n prepared : Z)
| OFree (v n : Z) (stat : string)
| OFault (v n : Z)
| OReserve (v n : Z)
| OReserveAligned (v size align : Z)
| OUnreserve (v n : Z)
| OMap (v n : Z) (stat : string).

(** The protocol: in which state a region has to be. *)
Definition request (v n : Z) : Prop := 0 <= v /\ v mod 4096 = 0 /\ 0 < n < 2 ^ 32 /\ n mod 4096 = 0.
Definition allowed (o : memop) (a : regions) : Prop :=
  match o with
  | OAlloc n _ => request 0 n
  | OReserve v n => request v n
  | OReserveAligned v size align =>
    request v size /\ size + align < 2 ^ 32 /\ exists k, 12 <= k /\ align = 2 ^ k
  | OUnused v n | OFree v n _ | OFault v n => is_region v n /\ pages v n ⊆ r_ready a
  | OUsed v n prepared =>
    is_region v n /\ pages v n ⊆ r_prepared a ∪ r_ready a /\ prepared = 4096 * Z.of_nat (size (pages v n ∩ r_prepared a))
  | OUnreserve v n | OMap v n _ => is_region v n /\ pages v n ⊆ r_reserved a
  end.

Definition readable_writable : Z := Z.lor _PROT_READ _PROT_WRITE.

(** What an operation that returned [(p, n)] does; [sp] is the address space it left. *)
Definition after (o : memop) (r : Z * Z) (sp : Z -> option Z) (a : regions) : regions :=
  let 'mkRegions res pre rdy drift := a in
  match o with
  | OAlloc n _ => if r.1 =? 0 then mkRegions res pre rdy (drift + n) else mkRegions res pre (rdy ∪ pages r.1 n) drift
  | OUnused v n => mkRegions res (pre ∪ pages v n) (rdy ∖ pages v n) drift
  | OUsed v n _ => mkRegions res (pre ∖ pages v n) (rdy ∪ pages v n) drift
  | OFree v n _ => mkRegions res pre (rdy ∖ pages v n) drift
  | OFault v n =>
    mkRegions (if decide (set_Forall (fun x => sp x = Some _PROT_NONE) (pages v n)) then res ∪ pages v n else res)
      pre (rdy ∖ pages v n) drift
  | OReserve _ _ | OReserveAligned _ _ _ => if r.1 =? 0 then a else mkRegions (res ∪ pages r.1 r.2) pre rdy drift
  | OUnreserve v n => mkRegions (res ∖ pages v n) pre rdy drift
  | OMap v n _ => mkRegions (res ∖ pages v n) (pre ∪ pages v n) rdy drift
  end.

(** The sysMemStat counter stays within an int64, as sysMemStat.add insists. *)
Definition stat_change (o : memop) : option (string * Z) :=
  match o with OAlloc n stat | OMap _ n stat => Some (stat, n) | OFree _ n stat => Some (stat, - n) | _ => None end.

(** ** Regions as sets of pages *)
Lemma elem_of_pages v n x : v mod 4096 = 0 -> 0 <= n -> x ∈ pages v n <-> in_range v n x = true.
Proof.
  intros Hv Hn. unfold pages, in_range. rewrite elem_of_list_to_set, elem_of_seqZ, andb_true_iff, Z.leb_le, Z.ltb_lt.
  replace ((v + n) / 4096) with (v / 4096 + n / 4096); [tauto|]. Z.div_mod_to_equations. lia.
Qed.
Lemma not_in_pages v n x : v mod 4096 = 0 -> 0 <= n -> x ∉ pages v n -> in_range v n x = false.
Proof. intros Hv Hn H. destruct (in_range v n x) eqn:E; [|done]. by apply elem_of_pages in E. Qed.

Lemma size_pages v n : 0 <= n -> n mod 4096 = 0 -> 4096 * Z.of_nat (size (pages v n)) = n.
Proof.
  intros Hn Hm. unfold pages. rewrite size_list_to_set by apply NoDup_seqZ. rewrite length_seqZ. Z.div_mod_to_equations. lia.
Qed.

Lemma size_gained (X Y : gset Z) : 4096 * Z.of_nat (size (X ∪ Y)) = 4096 * Z.of_nat (size X) + 4096 * Z.of_nat (size (Y ∖ X)).
Proof. rewrite size_union_alt. lia. Qed.
Lemma size_lost (X Y : gset Z) : Y ⊆ X -> 4096 * Z.of_nat (size (X ∖ Y)) = 4096 * Z.of_nat (size X) - 4096 * Z.of_nat (size Y).
Proof. intros H. rewrite size_difference by done. pose proof (subseteq_size _ _ H). lia. Qed.

Section refinement.
Context {W : Type} `{!Libc W, !AddressSpace W, !AddressSpaceLaws W} (fr : frame) (madvdontneed : Z).

Definition run_op (o : memop) : MemM W (Z * Z) :=
  match o with
  | OAlloc n stat => let! p := sysAlloc fr n stat in go_ret (p, n)
  | OUnused v n => sysUnused madvdontneed v n ;! go_ret (v, n)
  | OUsed v n prepared => sysUsed v n prepared ;! go_ret (v, n)
  | OFree v n stat => sysFree fr v n stat ;! go_ret (v, n)
  | OFault v n => sysFault fr v n ;! go_ret (v, n)
  | OReserve v n => let! p := sysReserve fr v n in go_ret (p, n)
  | OReserveAligned v size align => sysReserveAligned fr v size align
  | OUnreserve v n => sysUnreserve fr v n ;! go_ret (v, n)
  | OMap v n stat => sysMap fr v n stat ;! go_ret (v, n)
  end.

Definition space_of (s : memst W) : Z -> option Z := space (os_w (rt_os (mem_rt s))).

(** The state agrees with the abstract one. *)
Record mem_rel (s : memst W) (a : regions) : Prop := {
  mr_errno : os_perrno (rt_os (mem_rt s)) = true;
  mr_reserved : forall x, x ∈ r_reserved a -> space_of s x = Some _PROT_NONE;
  mr_mapped : forall x, x ∈ r_prepared a \/ x ∈ r_ready a -> space_of s x = Some readable_writable;
  mr_res_pre : r_reserved a ## r_prepared a;
  mr_res_rdy : r_reserved a ## r_ready a;
  mr_pre_rdy : r_prepared a ## r_ready a;
  mr_ready : mem_ready s = u64 (4096 * Z.of_nat (size (r_ready a)) + r_drift a) }.

Definition stat_fits (o : memop) (s : memst W) : Prop :=
  match stat_change o with
  | Some (stat, d) => 0 <= stat_of stat s < 2 ^ 63 /\ 0 <= stat_of stat s + d < 2 ^ 63
  | None => True
  end.
Definition stats_after (o : memop) (s : memst W) : gmap string Z :=
  match stat_change o with
  | Some (stat, d) => <[stat := stat_of stat s + d]> (mem_stats s)
  | None => mem_stats s
  end.

(** *** Rules *)
Definition runs_to {S A} (m : GoM S A) (Q : A -> S -> Prop) (E : string -> Prop) (s : S) : Prop :=
  match m s with Ret a s' => Q a s' | Throw msg _ => E msg | NoFuel => False end.

Lemma runs_to_bind {S A B} (m : GoM S A) (k : A -> GoM S B) Q E s :
  runs_to m (fun a => runs_to (k a) Q E) E s -> runs_to (go_bind m k) Q E s.
Proof using. unfold runs_to, go_bind. by destruct (m s). Qed.

Definition space_rt (r : rtst W) : Z -> option Z := space (os_w (rt_os r)).

(** The state [s] with [r] as the machine. *)
Definition with_rt (s : memst W) (r : rtst W) : memst W := mkMem r (mem_stats s) (mem_ready s).

Lemma mmap_run v n prot flags (r : rtst W) : os_perrno (rt_os r) = true -> exists w' rp,
  libc_call "mmap" [CInt v; CInt n; CInt (u32 prot); CInt (u32 flags); CInt (u32 (-1)); CInt 0] (bridge_world (rt_os r)) = (w', rp) /\
  exists r', os_perrno (rt_os r') = true /\ space_rt r' = space w' /\
  mmap fr v n prot flags (-1) 0 r =
    Ret (if u32 (rp_r1 rp) =? 2 ^ 32 - 1 then (0, i32 (libc_errno w')) else (u32 (rp_r1 rp), 0)) r'.
Proof using.
  intros Hp. destruct (libc_call _ _ (bridge_world (rt_os r))) as [w' rp] eqn:E. exists w', rp. split; [done|].
  unfold mmap, sysvicall6, go_bind. rewrite libcall_frame_run. unfold asmsysvicall6, new_libcall.
  cbn [lc_fn lc_n lc_args]. unfold bridge_world in E. change (take _ ?l) with l. rewrite E. unfold go_ret. cbn.
  rewrite Hp. unfold read_perrno.
  destruct (u32 (rp_r1 rp) =? 2 ^ 32 - 1); refine (ex_intro _ _ (conj _ (conj _ eq_refl))); done.
Qed.

Lemma space_bridge (r : rtst W) x : space (bridge_world (rt_os r)) x = space_rt r x.
Proof using All. unfold bridge_world, space_rt. destruct (os_perrno _); [apply space_errno|done]. Qed.

Section mmaps.
Context (v n prot flags : Z) (Q : Z * Z -> memst W -> Prop) (E : string -> Prop) (s : memst W).
Context (Hs : os_perrno (rt_os (mem_rt s)) = true) (Hp : u32 prot = prot) (Hf : u32 flags = flags).
Context (Ha : has_bits flags _MAP_ANON = true).

Lemma mmap_any : has_bits flags _MAP_FIXED = false -> request v n ->
  (forall e r, os_perrno (rt_os r) = true -> (forall x, space_rt r x = space_of s x) -> Q (0, e) (with_rt s r)) ->
  (forall p r, os_perrno (rt_os r) = true -> is_region p n -> (forall x, in_range p n x = true -> space_of s x = None) ->
     updated p n (Some prot) (space_of s) (space_rt r) -> Q (p, 0) (with_rt s r)) ->
  runs_to (on_rt (mmap fr v n prot flags (-1) 0)) Q E s.
Proof using All.
  intros Hx (Hv1 & Hv2 & Hn & Hn2) H1 H2. destruct (mmap_run v n prot flags (mem_rt s) Hs) as (w' & rp & Hc & r & Hr & Hsp & Hrun).
  unfold runs_to, on_rt. rewrite Hrun. rewrite Hp, Hf in Hc. pose proof (space_bridge (mem_rt s)) as Hb.
  destruct (space_mmap _ _ _ _ _ _ _ Ha Hx Hv1 Hv2 Hn Hn2 Hc) as [[-> Hu]|(Hreg & Hfree & Hu)].
  - apply H1; [done|]. intros x. rewrite Hsp, Hu. apply Hb.
  - rewrite (proj2 (Z.eqb_neq _ _)) by (destruct Hreg as (? & ? & ? & ? & ?); zify_mod).
    apply H2; [done|done| |].
    + intros x Hi. rewrite <- (Hfree x Hi). symmetry. apply Hb.
    + intros x. rewrite Hsp, Hu. destruct (in_range _ _ _); [done|]. apply Hb.
Qed.

Lemma mmap_at : has_bits flags _MAP_FIXED = true -> is_region v n ->
  (forall e r, os_perrno (rt_os r) = true -> (forall x, in_range v n x = false -> space_rt r x = space_of s x) -> Q (0, e) (with_rt s r)) ->
  (forall r, os_perrno (rt_os r) = true -> updated v n (Some prot) (space_of s) (space_rt r) -> Q (v, 0) (with_rt s r)) ->
  runs_to (on_rt (mmap fr v n prot flags (-1) 0)) Q E s.
Proof using All.
  intros Hx Hreg H1 H2. destruct (mmap_run v n prot flags (mem_rt s) Hs) as (w' & rp & Hc & r & Hr & Hsp & Hrun).
  unfold runs_to, on_rt. rewrite Hrun. rewrite Hp, Hf in Hc. pose proof (space_bridge (mem_rt s)) as Hb.
  destruct (space_mmap_fixed _ _ _ _ _ _ _ Ha Hx Hreg Hc) as [[-> Hu]|[Hr1 Hu]].
  - apply H1; [done|]. intros x Hi. rewrite Hsp, Hu by done. apply Hb.
  - rewrite Hr1 in *. rewrite (proj2 (Z.eqb_neq v _)) by (destruct Hreg as (? & ? & ? & ? & ?); zify_mod).
    apply H2; [done|]. intros x. rewrite Hsp, Hu. destruct (in_range _ _ _); [done|]. apply Hb.
Qed.
End mmaps.

Lemma munmap_at v n Q E s : os_perrno (rt_os (mem_rt s)) = true -> is_region v n ->
  (forall r, os_perrno (rt_os r) = true -> updated v n None (space_of s) (space_rt r) -> Q tt (with_rt s r)) ->
  runs_to (sysFreeOS fr v n) Q E s.
Proof using All.
  intros Hs Hreg H. unfold sysFreeOS, munmap, sysvicall2, sysvicall2Err, runs_to, on_rt, go_bind. rewrite libcall_frame_run.
  unfold asmsysvicall6, new_libcall. cbn [lc_fn lc_n lc_args]. change (take _ ?l) with l.
  pose proof (space_bridge (mem_rt s)) as Hb. unfold bridge_world in Hb.
  destruct (libc_call _ _ _) as [w' rp] eqn:E'. unfold go_ret. cbn. apply H; [done|]. intros x. unfold space_rt. cbn.
  rewrite (space_munmap _ _ _ _ _ Hreg E'). destruct (in_range _ _ _); [done|]. apply Hb.
Qed.

Lemma stat_add_runs stat d Q E (s : memst W) : - 2 ^ 63 < d < 2 ^ 63 -> 0 <= stat_of stat s < 2 ^ 63 -> 0 <= stat_of stat s + d < 2 ^ 63 ->
  Q tt (mkMem (mem_rt s) (<[stat := stat_of stat s + d]> (mem_stats s)) (mem_ready s)) ->
  runs_to (sysMemStat_add stat d) Q E s.
Proof using.
  intros Hd H0 H1 H. unfold sysMemStat_add, runs_to, go_bind, go_get, go_put. rewrite (wrapu_small 64) by (unfold in_u; lia).
  assert (i64 (stat_of stat s + d) = stat_of stat s + d) as -> by (apply wraps_small; unfold in_s; lia).
  destruct (Z.ltb_spec 0 d), (Z.ltb_spec d 0), (Z.ltb_spec (stat_of stat s + d) d); cbn; try lia; try done.
  - assert (i64 (stat_of stat s + d + d) = stat_of stat s + d + d) as -> by (apply wraps_small; unfold in_s; lia).
    destruct (Z.ltb_spec (stat_of stat s + d + d) d); [lia|done].
Qed.

Lemma mappedReady_runs d Q E (s : memst W) :
  Q tt (mkMem (mem_rt s) (mem_stats s) (u64 (mem_ready s + d))) -> runs_to (mappedReady_Add d) Q E s.
Proof using. done. Qed.

Lemma runs_to_ret {A} (r : A) Q E (s : memst W) : Q r s -> runs_to (go_ret r) Q E s.
Proof using. done. Qed.

Lemma updated_in v n o sp sp' x : is_region v n -> updated v n o sp sp' -> x ∈ pages v n -> sp' x = o.
Proof using. intros (? & ? & ? & ? & ?) Hu Hx. rewrite Hu. by apply elem_of_pages in Hx as ->; [|done|lia]. Qed.
Lemma updated_out v n o sp sp' x : is_region v n -> updated v n o sp sp' -> x ∉ pages v n -> sp' x = sp x.
Proof using. intros (? & ? & ? & ? & ?) Hu Hx. rewrite Hu, not_in_pages by (done || lia). done. Qed.

(** What the theorem says of an operation. *)
Definition refines (o : memop) (s : memst W) (a : regions) (r : Z * Z) (s' : memst W) : Prop :=
  let a' := after o r (space_of s') a in
  mem_rel s' a' /\ mem_stats s' = stats_after o s /\
  forall x, x ∉ owned a -> x ∉ owned a' -> space_of s' x = space_of s x.

Lemma u64_add x y : u64 (u64 x + y) = u64 (x + y).
Proof using. apply wrapu_eqm. destruct (wrapu_spec 64 ltac:(lia) x) as [k ->]. exists k. lia. Qed.

Lemma i64_small n : 0 <= n < 2 ^ 32 -> i64 n = n.
Proof using. intros H. apply wraps_small; unfold in_s; lia. Qed.
Lemma region_size v n : is_region v n -> 0 < n < 2 ^ 32.
Proof using. intros (? & ? & ? & ? & ?). lia. Qed.

(** *** The operations *)

(** No call into the system: the pages keep their protection. *)
Lemma rel_quiet s s' a a' :
  mem_rel s a -> mem_rt s' = mem_rt s -> r_reserved a' = r_reserved a ->
  (forall x, x ∈ r_prepared a' \/ x ∈ r_ready a' -> x ∈ r_prepared a \/ x ∈ r_ready a) -> r_prepared a' ## r_ready a' ->
  mem_ready s' = u64 (4096 * Z.of_nat (size (r_ready a')) + r_drift a') -> mem_rel s' a'.
Proof using.
  intros [H1 H2 H3 H4 H5 H6 H7] Es Er Hm Hd Hn. split; unfold space_of in *; rewrite ?Es, ?Er; try done.
  - intros x Hx. apply H3. by apply Hm.
  - intros x Hx Hx'. destruct (Hm x); [by left|by apply (H4 x)|by apply (H5 x)].
  - intros x Hx Hx'. destruct (Hm x); [by right|by apply (H4 x)|by apply (H5 x)].
Qed.

Lemma OUnused_ok v n s a : mem_rel s a -> allowed (OUnused v n) a ->
  runs_to (run_op (OUnused v n)) (refines (OUnused v n) s a) (fun _ => False) s.
Proof using All.
  intros Hr [Hreg Hsub]. pose proof (region_size _ _ Hreg) as Hn. destruct a as [res pre rdy drift]. cbn in Hsub.
  cbn [run_op]. unfold sysUnused, sysUnusedOS. apply runs_to_bind, runs_to_bind, mappedReady_runs.
  assert (refines (OUnused v n) s (mkRegions res pre rdy drift) (v, n)
    (mkMem (mem_rt s) (mem_stats s) (u64 (mem_ready s + - i64 n)))) as Hdone.
  { split; [|split; [done|intros x _ _; done]]. apply (rel_quiet s _ (mkRegions res pre rdy drift)); try done; cbn.
    - set_solver.
    - destruct Hr; cbn in *. set_solver.
    - rewrite (mr_ready _ _ Hr), u64_add, (i64_small n), size_lost by (done || lia). cbn. f_equal.
      destruct Hreg as (? & ? & ? & ? & ?). rewrite (size_pages v n) by lia. lia. }
  destruct (negb (madvdontneed =? 0)); exact Hdone.
Qed.

Lemma OUsed_ok v n prepared s a : mem_rel s a -> allowed (OUsed v n prepared) a ->
  runs_to (run_op (OUsed v n prepared)) (refines (OUsed v n prepared) s a) (fun _ => False) s.
Proof using All.
  intros Hr (Hreg & Hsub & Hp). pose proof (region_size _ _ Hreg) as Hn. destruct a as [res pre rdy drift]. cbn in Hsub, Hp.
  cbn [run_op]. unfold sysUsed. apply runs_to_bind, runs_to_bind, mappedReady_runs. unfold sysUsedOS. apply runs_to_ret. apply runs_to_ret.
  split; [|split; [done|intros x _ _; done]]. apply (rel_quiet s _ (mkRegions res pre rdy drift)); try done; cbn.
  - set_solver.
  - destruct Hr; cbn in *. set_solver.
  - assert (pages v n ∖ rdy = pages v n ∩ pre) as Hd by (destruct Hr; cbn in *; set_solver).
    assert (size (pages v n ∩ pre) <= size (pages v n))%nat by (apply subseteq_size; set_solver).
    destruct Hreg as (? & ? & ? & ? & ?). pose proof (size_pages v n ltac:(lia) ltac:(lia)).
    rewrite (mr_ready _ _ Hr), u64_add, (i64_small prepared), size_gained, Hd by (done || lia). cbn. f_equal. lia.
Qed.

(** The pages of a region get the protection [o]. *)
Lemma rel_moved o v n op r s s' a :
  mem_rel s a -> is_region v n -> updated v n o (space_of s) (space_of s') -> os_perrno (rt_os (mem_rt s')) = true ->
  mem_stats s' = stats_after op s ->
  let a' := after op r (space_of s') a in
  pages v n ⊆ owned a ∪ owned a' ->
  (forall x, x ∈ r_reserved a' -> x ∈ r_reserved a /\ x ∉ pages v n \/ x ∈ pages v n /\ o = Some _PROT_NONE) ->
  (forall x, x ∈ r_prepared a' \/ x ∈ r_ready a' ->
     (x ∈ r_prepared a \/ x ∈ r_ready a) /\ x ∉ pages v n \/ x ∈ pages v n /\ o = Some readable_writable) ->
  r_reserved a' ## r_prepared a' -> r_reserved a' ## r_ready a' -> r_prepared a' ## r_ready a' ->
  mem_ready s' = u64 (4096 * Z.of_nat (size (r_ready a')) + r_drift a') -> refines op s a r s'.
Proof using.
  intros [H1 H2 H3 H4 H5 H6 H7] Hreg Hu He Hst a' Hown Hres Hmap D1 D2 D3 Hn. split; [|split; [done|]].
  - split; try done.
    + intros x Hx. destruct (Hres x Hx) as [[Ha Hp]|[Hp ->]]; [|by eapply updated_in].
      rewrite (updated_out v n o (space_of s)) by done. auto.
    + intros x Hx. destruct (Hmap x Hx) as [[Ha Hp]|[Hp ->]]; [|by eapply updated_in].
      rewrite (updated_out v n o (space_of s)) by done. auto.
  - intros x Hx Hx'. eapply updated_out; [done|done|]. intros Hp. apply Hown, elem_of_union in Hp. by destruct Hp.
Qed.

(** A fresh region is nobody's. *)
Lemma fresh_pages p n s a : mem_rel s a -> is_region p n -> (forall x, in_range p n x = true -> space_of s x = None) ->
  pages p n ## owned a.
Proof using.
  intros Hr (? & ? & ? & ? & ?) Hf x Hx Ho. apply elem_of_pages in Hx; [|done|lia]. apply Hf in Hx. unfold owned in Ho.
  rewrite !elem_of_union in Ho. destruct Ho as [[Ho|Ho]|Ho].
  - rewrite (mr_reserved _ _ Hr x Ho) in Hx. done.
  - rewrite (mr_mapped _ _ Hr x) in Hx; [done|by left].
  - rewrite (mr_mapped _ _ Hr x) in Hx; [done|by right].
Qed.

Ltac counts := cbn [with_rt mem_ready mem_rt mem_stats after r_ready r_drift r_reserved r_prepared].
Ltac sets Hsub H4 H5 H6 := unfold owned; cbn; clear - Hsub H4 H5 H6; set_solver.

Lemma OFree_ok v n stat s a : mem_rel s a -> allowed (OFree v n stat) a -> stat_fits (OFree v n stat) s ->
  runs_to (run_op (OFree v n stat)) (refines (OFree v n stat) s a) (fun _ => False) s.
Proof using All.
  intros Hr [Hreg Hsub] [Hf1 Hf2]. pose proof (region_size _ _ Hreg) as Hn. destruct a as [res pre rdy drift]. cbn in Hsub.
  cbn [run_op]. unfold sysFree. rewrite (i64_small n) by lia. apply runs_to_bind, runs_to_bind, stat_add_runs; [lia|done|done|].
  apply runs_to_bind, mappedReady_runs, munmap_at; [apply Hr|done|]. intros r He Hu. apply runs_to_ret.
  assert (Hr' := Hr). destruct Hr' as [H1 H2 H3 H4 H5 H6 H7]. cbn in H4, H5, H6, H7.
  eapply (rel_moved None v n); [exact Hr|exact Hreg|exact Hu|exact He|done|..]; try sets Hsub H4 H5 H6.
  counts. rewrite H7, u64_add, size_lost by done. destruct Hreg as (? & ? & ? & ? & ?). rewrite (size_pages v n) by lia. f_equal. lia.
Qed.

Lemma OUnreserve_ok v n s a : mem_rel s a -> allowed (OUnreserve v n) a ->
  runs_to (run_op (OUnreserve v n)) (refines (OUnreserve v n) s a) (fun _ => False) s.
Proof using All.
  intros Hr [Hreg Hsub]. destruct a as [res pre rdy drift]. cbn in Hsub.
  cbn [run_op]. unfold sysUnreserve. apply runs_to_bind, munmap_at; [apply Hr|done|]. intros r He Hu. apply runs_to_ret.
  assert (Hr' := Hr). destruct Hr' as [H1 H2 H3 H4 H5 H6 H7]. cbn in H4, H5, H6, H7.
  eapply (rel_moved None v n); [exact Hr|exact Hreg|exact Hu|exact He|done|..]; try sets Hsub H4 H5 H6. exact H7.
Qed.

(** What sysMap throws when it gets no memory. *)
Definition map_throws (msg : string) : Prop :=
  msg = "runtime: out of memory"%string \/ msg = "runtime: cannot map pages in arena address space"%string.

Lemma OMap_ok v n stat s a : mem_rel s a -> allowed (OMap v n stat) a -> stat_fits (OMap v n stat) s ->
  runs_to (run_op (OMap v n stat)) (refines (OMap v n stat) s a) map_throws s.
Proof using All.
  intros Hr [Hreg Hsub] [Hf1 Hf2]. pose proof (region_size _ _ Hreg) as Hn. destruct a as [res pre rdy drift]. cbn in Hsub.
  cbn [run_op]. unfold sysMap, sysMapOS. rewrite (i64_small n) by lia. apply runs_to_bind, runs_to_bind, stat_add_runs; [lia|done|done|].
  apply runs_to_bind, mmap_at; try done; [apply Hr| |].
  - intros e r He Hu. destruct (e =? _ENOMEM); [by left|]. destruct (Z.eqb_spec 0 v) as [<-|]; [by destruct Hreg|]. by right.
  - intros r He Hu. change (0 =? _ENOMEM) with false. cbn [negb]. rewrite !Z.eqb_refl. cbn [negb orb].
    apply runs_to_ret. apply runs_to_ret. assert (Hr' := Hr). destruct Hr' as [H1 H2 H3 H4 H5 H6 H7]. cbn in H4, H5, H6, H7.
    eapply (rel_moved (Some readable_writable) v n); [exact Hr|exact Hreg|exact Hu|exact He|done|..]; try sets Hsub H4 H5 H6.
    exact H7.
Qed.

Lemma OFault_ok v n s a : mem_rel s a -> allowed (OFault v n) a ->
  runs_to (run_op (OFault v n)) (refines (OFault v n) s a) (fun _ => False) s.
Proof using All.
  intros Hr [Hreg Hsub]. pose proof (region_size _ _ Hreg) as Hn. destruct a as [res pre rdy drift]. cbn in Hsub.
  cbn [run_op]. unfold sysFault, sysFaultOS. rewrite (i64_small n) by lia. apply runs_to_bind, runs_to_bind, mappedReady_runs.
  assert (Hr' := Hr). destruct Hr' as [H1 H2 H3 H4 H5 H6 H7]. cbn in H4, H5, H6, H7.
  assert (u64 (mem_ready s + - n) = u64 (4096 * Z.of_nat (size (rdy ∖ pages v n)) + drift)) as Hc.
  { rewrite H7, u64_add, size_lost by done. destruct Hreg as (? & ? & ? & ? & ?). rewrite (size_pages v n) by lia. f_equal. lia. }
  set (s1 := mkMem (mem_rt s) (mem_stats s) (u64 (mem_ready s + - n))).
  (* the result of mmap is not looked at *)
  assert (forall r, os_perrno (rt_os r) = true -> (forall x, x ∉ pages v n -> space_rt r x = space_of s x) ->
    refines (OFault v n) s (mkRegions res pre rdy drift) (v, n) (with_rt s1 r)) as Hdone.
  { intros r He Hu. unfold refines. cbn [after]. destruct (decide _) as [Hall|_].
    - split; [|split; [done|]].
      + split; counts; try done; try (clear - Hsub H4 H5 H6; set_solver).
        * intros x [Hx|Hx]%elem_of_union; [|by apply Hall]. rewrite <- (H2 x Hx). apply Hu. cbn in Hx. clear - Hsub H5 Hx. set_solver.
        * intros x Hx. rewrite <- (H3 x) by (clear - Hx; set_solver). apply Hu. clear - Hsub H6 Hx. set_solver.
      + intros x Hx _. apply Hu. clear - Hx Hsub. unfold owned in Hx. cbn in Hx. set_solver.
    - split; [|split; [done|]].
      + split; counts; try done; try (clear - Hsub H4 H5 H6; set_solver).
        * intros x Hx. rewrite <- (H2 x Hx). apply Hu. clear - Hsub H5 Hx. set_solver.
        * intros x Hx. rewrite <- (H3 x) by (clear - Hx; set_solver). apply Hu. clear - Hsub H6 Hx. set_solver.
      + intros x Hx _. apply Hu. clear - Hx Hsub. unfold owned in Hx. cbn in Hx. set_solver. }
  assert (0 <= n /\ v mod 4096 = 0) as [? ?] by (destruct Hreg as (? & ? & ? & ? & ?); lia).
  apply runs_to_bind, mmap_at; try done; intros; apply runs_to_ret, runs_to_ret; apply Hdone; try done; intros x Hx.
  - match goal with H : forall x, in_range _ _ x = false -> _ |- _ => apply H end. by apply not_in_pages.
  - by eapply updated_out.
Qed.

(** Nothing was mapped. *)
Lemma rel_failed op r s s' a : mem_rel s a -> os_perrno (rt_os (mem_rt s')) = true ->
  (forall x, space_of s' x = space_of s x) -> mem_stats s' = stats_after op s ->
  let a' := after op r (space_of s') a in
  r_reserved a' = r_reserved a -> r_prepared a' = r_prepared a -> r_ready a' = r_ready a ->
  mem_ready s' = u64 (4096 * Z.of_nat (size (r_ready a)) + r_drift a') -> refines op s a r s'.
Proof using.
  intros [H1 H2 H3 H4 H5 H6 H7] He Hu Hst a' E1 E2 E3 Hn. split; [|by split].
  fold a'. split; rewrite ?E1, ?E2, ?E3; try done; intros x Hx; rewrite Hu; auto.
Qed.

Lemma OReserve_ok v n s a : mem_rel s a -> allowed (OReserve v n) a ->
  runs_to (run_op (OReserve v n)) (refines (OReserve v n) s a) (fun _ => False) s.
Proof using All.
  intros Hr Hreq. destruct a as [res pre rdy drift].
  cbn [run_op]. unfold sysReserve, sysReserveOS. apply runs_to_bind, runs_to_bind, mmap_any; try done; [apply Hr| |].
  - intros e r He Hu.
    assert (refines (OReserve v n) s (mkRegions res pre rdy drift) (0, n) (with_rt s r)) as Hdone.
    { apply rel_failed; try done. apply Hr. }
    by destruct (negb (e =? 0)).
  - intros p r He Hreg Hf Hu. change (negb (0 =? 0)) with false. apply runs_to_ret, runs_to_ret.
    pose proof (fresh_pages p n s _ Hr Hreg Hf) as Hfr. unfold owned in Hfr. cbn in Hfr.
    assert (p <> 0) as Hp%Z.eqb_neq by (destruct Hreg; lia).
    assert (Hr' := Hr). destruct Hr' as [H1 H2 H3 H4 H5 H6 H7]. cbn in H4, H5, H6, H7.
    eapply (rel_moved (Some _PROT_NONE) p n); [exact Hr|exact Hreg|exact Hu|exact He|done|..];
      cbn [after fst snd]; rewrite Hp; try sets Hfr H4 H5 H6.
    exact H7.
Qed.

Lemma OAlloc_ok n stat s a : mem_rel s a -> allowed (OAlloc n stat) a -> stat_fits (OAlloc n stat) s ->
  runs_to (run_op (OAlloc n stat)) (refines (OAlloc n stat) s a) (fun _ => False) s.
Proof using All.
  intros Hr Hreq [Hf1 Hf2]. pose proof Hreq as (_ & _ & Hn & _). destruct a as [res pre rdy drift].
  assert (Hr' := Hr). destruct Hr' as [H1 H2 H3 H4 H5 H6 H7]. cbn in H4, H5, H6, H7.
  cbn [run_op]. unfold sysAlloc, sysAllocOS. rewrite (i64_small n) by lia. apply runs_to_bind, runs_to_bind, stat_add_runs; [lia|done|done|].
  apply runs_to_bind, mappedReady_runs, runs_to_bind, mmap_any; try done.
  - intros e r He Hu.
    assert (refines (OAlloc n stat) s (mkRegions res pre rdy drift) (0, n)
      (with_rt (mkMem (mem_rt s) (<[stat := stat_of stat s + n]> (mem_stats s)) (u64 (mem_ready s + n))) r)) as Hdone.
    { apply rel_failed; try done. counts. cbn [fst]. change (0 =? 0) with true. counts. rewrite H7, u64_add. f_equal. lia. }
    by destruct (negb (e =? 0)).
  - intros p r He Hreg Hf Hu. change (negb (0 =? 0)) with false. apply runs_to_ret, runs_to_ret.
    pose proof (fresh_pages p n s _ Hr Hreg Hf) as Hfr. unfold owned in Hfr. cbn in Hfr.
    assert (p <> 0) as Hp%Z.eqb_neq by (destruct Hreg; lia).
    eapply (rel_moved (Some readable_writable) p n); [exact Hr|exact Hreg|exact Hu|exact He|done|..];
      cbn [after fst snd]; rewrite Hp; try sets Hfr H4 H5 H6.
    counts. rewrite H7, u64_add, size_gained. replace (pages p n ∖ rdy) with (pages p n) by (clear - Hfr; set_solver).
    destruct Hreg as (? & ? & ? & ? & ?). rewrite (size_pages p n) by lia. f_equal. lia.
Qed.

(** *** sysReserveAligned *)
Section aligned.
Context (p size align k : Z) (Hk : 12 <= k) (Ha : align = 2 ^ k) (Hs : 0 < size) (Hs2 : size mod 4096 = 0).
Context (Hreg : is_region p (size + align)) (Hsa : size + align < 2 ^ 32).

Lemma align_pages : align mod 4096 = 0 /\ 4096 <= align.
Proof using Hk Ha.
  rewrite Ha. replace k with (12 + (k - 12)) by lia. rewrite Z.pow_add_r by lia. change (2 ^ 12) with 4096.
  pose proof (pow2_pos (k - 12) ltac:(lia)). split; [rewrite Z.mul_comm; apply Z.mod_mul; lia|nia].
Qed.

Lemma aligned_test : (Z.land p (u32 (align - 1)) =? 0) = (p mod align =? 0).
Proof using Hk Ha Hs Hsa.
  pose proof align_pages. rewrite wrapu_small by (unfold in_u; lia). by rewrite Ha, land_ones_mod by lia.
Qed.

(** The cut: [A] is the aligned address. *)
Lemma alignUp_cut : p mod align <> 0 -> exists A, alignUp p align = A /\ A mod align = 0 /\ p < A < p + align /\
  is_region p (A - p) /\ is_region (A + size) (p + size + align - (A + size)) /\ is_region A size.
Proof using All.
  intros Hm. destruct align_pages as [Hap Hal]. destruct Hreg as (R1 & R2 & R3 & R4 & R5).
  assert (alignUp p align = align * ((p + align - 1) / align)) as E.
  { unfold alignUp. rewrite (wrapu_small 32 (p + align)) by (unfold in_u; lia). rewrite !wrapu_small by (unfold in_u; lia).
    rewrite ldiff_sub, Ha, land_ones_mod by lia. rewrite <- Ha. pose proof (Z.div_mod (p + align - 1) align ltac:(lia)). lia. }
  exists (align * ((p + align - 1) / align)). split; [done|]. split; [rewrite Z.mul_comm; apply Z.mod_mul; lia|].
  set (q := (p + align - 1) / align) in *.
  assert (p < align * q < p + align) as Hq.
  { subst q. pose proof (Z.div_mod (p + align - 1) align ltac:(lia)). pose proof (Z.mod_pos_bound (p + align - 1) align ltac:(lia)).
    pose proof (Z.div_mod p align ltac:(lia)). pose proof (Z.mod_pos_bound p align ltac:(lia)).
    assert ((p + align - 1) / align = p / align + 1) as ->; [|lia].
    replace (p + align - 1) with ((p mod align - 1) + (p / align + 1) * align) by lia.
    rewrite Z.div_add, Z.div_small by lia. lia. }
  assert ((align * q) mod 4096 = 0) as Hq2 by (rewrite Z.mul_mod, Hap by lia; reflexivity).
  split; [done|]. unfold is_region. split_and!; zify_mod.
Qed.

Lemma endLen_eq A : p < A < p + align ->
  u32 (u32 (u32 (p + size) + align) - u32 (A + size)) = p + size + align - (A + size).
Proof using All.
  intros HA. destruct Hreg as (R1 & R2 & R3 & R4 & R5). rewrite <- (wrapu_small 32 (p + size + align - (A + size))) by (unfold in_u; lia).
  apply wrapu_eqm. destruct (wrapu_spec 32 ltac:(lia) (u32 (p + size) + align)) as [k1 ->].
  destruct (wrapu_spec 32 ltac:(lia) (p + size)) as [k2 ->]. destruct (wrapu_spec 32 ltac:(lia) (A + size)) as [k3 ->].
  exists (k1 + k2 - k3). lia.
Qed.

Lemma cut_inside A x : p < A < p + align -> in_range A size x = true -> in_range p (size + align) x = true.
Proof using Hk. unfold in_range. rewrite !andb_true_iff, !Z.leb_le, !Z.ltb_lt. intros HA [H1 H2]. zify_mod. Qed.

(** What is left when both ends are unmapped again. *)
Lemma trimmed A sp sp1 sp2 sp3 : p < A < p + align -> A mod 4096 = 0 ->
  (forall x, in_range p (size + align) x = true -> sp x = None) ->
  updated p (size + align) (Some _PROT_NONE) sp sp1 -> updated p (A - p) None sp1 sp2 ->
  updated (A + size) (p + size + align - (A + size)) None sp2 sp3 -> updated A size (Some _PROT_NONE) sp sp3.
Proof using All.
  intros HA Hm Hf H1 H2 H3 x. rewrite H3, H2, H1. specialize (Hf x). destruct align_pages as [Hap Hal].
  destruct Hreg as (R1 & R2 & R3 & R4 & R5).
  destruct (in_range p (size + align) x) eqn:E1; [rewrite (Hf eq_refl)|];
    destruct (in_range A size x) eqn:E2, (in_range p (A - p) x) eqn:E3, (in_range (A + size) _ x) eqn:E4; try done;
    exfalso; clear Hf H1 H2 H3; unfold in_range in *; rewrite ?andb_true_iff, ?andb_false_iff, ?Z.leb_le, ?Z.ltb_lt, ?Z.leb_gt, ?Z.ltb_ge in *;
    zify_mod.
Qed.
End aligned.

(** A result of sysReserveAligned: nothing, with nothing changed, or a region that was free
    and is now reserved. *)
Definition reserved_aligned (size align : Z) (sp : Z -> option Z) (pn : Z * Z) (sp' : Z -> option Z) : Prop :=
  pn = (0, 0) /\ (forall x, sp' x = sp x) \/
  is_region pn.1 pn.2 /\ pn.1 mod align = 0 /\ (pn.2 = size \/ pn.2 = size + align) /\
  (forall x, in_range pn.1 pn.2 x = true -> sp x = None) /\ updated pn.1 pn.2 (Some _PROT_NONE) sp sp'.

Lemma sysReserve_runs v n (Q : Z -> memst W -> Prop) E s : os_perrno (rt_os (mem_rt s)) = true -> request v n ->
  (forall r, os_perrno (rt_os r) = true -> (forall x, space_rt r x = space_of s x) -> Q 0 (with_rt s r)) ->
  (forall p r, os_perrno (rt_os r) = true -> is_region p n -> (forall x, in_range p n x = true -> space_of s x = None) ->
     updated p n (Some _PROT_NONE) (space_of s) (space_rt r) -> Q p (with_rt s r)) ->
  runs_to (sysReserve fr v n) Q E s.
Proof using All.
  intros He Hreq H1 H2. unfold sysReserve, sysReserveOS. apply runs_to_bind, mmap_any; try done.
  intros e r He' Hu. pose proof (H1 r He' Hu). by destruct (negb (e =? 0)).
Qed.

Lemma reserve_aligned_run v size align E s : os_perrno (rt_os (mem_rt s)) = true ->
  request v size -> size + align < 2 ^ 32 -> (exists k, 12 <= k /\ align = 2 ^ k) ->
  runs_to (sysReserveAligned fr v size align)
    (fun pn s' => os_perrno (rt_os (mem_rt s')) = true /\ mem_stats s' = mem_stats s /\ mem_ready s' = mem_ready s /\
       reserved_aligned size align (space_of s) pn (space_of s')) E s.
Proof using All.
  intros He (Hv1 & Hv2 & Hs & Hs2) Hsa (k & Hk & Ha). destruct (align_pages align k Hk Ha) as [Hap Hal].
  unfold sysReserveAligned. rewrite (wrapu_small 32 (size + align)) by (unfold in_u; lia).
  apply runs_to_bind, sysReserve_runs; [done| | |].
  { split_and!; try done; [lia|]. rewrite Z.add_mod, Hs2, Hap by lia. done. }
  { intros r He' Hu. cbn [Z.eqb]. apply runs_to_ret. split_and!; try done. by left. }
  intros p r He' Hreg Hf Hu. assert (p <> 0) as ->%Z.eqb_neq by (destruct Hreg; lia).
  rewrite (aligned_test p size align k) by (done || lia). destruct (Z.eqb_spec (p mod align) 0) as [Hm|Hm].
  { apply runs_to_ret. split_and!; try done. right. by split_and!; [..|right| |]. }
  destruct (alignUp_cut p size align k Hk Ha ltac:(lia) Hs2 Hreg Hsa Hm) as (A & -> & HA & HpA & R1 & R2 & R3).
  rewrite (endLen_eq p size align k) by (done || lia).
  rewrite (wrapu_small 32 (A - p)), (wrapu_small 32 (A + size)) by (destruct R1, R2, R3, Hreg; unfold in_u; lia).
  apply runs_to_bind, munmap_at; [done|done|]. intros r2 He2 Hu2.
  rewrite (proj2 (Z.ltb_lt 0 _)) by (destruct R2 as (? & ? & ?); lia).
  apply runs_to_bind, munmap_at; [done|done|]. intros r3 He3 Hu3. apply runs_to_ret. split_and!; try done. right.
  split_and!; try done; [by left| |].
  - cbn [fst snd]. intros x Hx. apply Hf. by apply (cut_inside p size align k Hk A).
  - eapply (trimmed p size align k); try done; [lia|by destruct R3 as (? & ? & ? & _)].
Qed.

Lemma runs_to_mono {S A} (m : GoM S A) (Q Q' : A -> S -> Prop) (E E' : string -> Prop) s :
  runs_to m Q E s -> (forall a s', Q a s' -> Q' a s') -> (forall msg, E msg -> E' msg) -> runs_to m Q' E' s.
Proof using. unfold runs_to. destruct (m s); auto. Qed.

Lemma OReserveAligned_ok v size align s a : mem_rel s a -> allowed (OReserveAligned v size align) a ->
  runs_to (run_op (OReserveAligned v size align)) (refines (OReserveAligned v size align) s a) (fun _ => False) s.
Proof using All.
  intros Hr (Hreq & Hsa & Hk). eapply runs_to_mono; [eapply (reserve_aligned_run v size align (fun _ => False)); try done; apply Hr| |done].
  intros [p n] s' (He & Hst & Hn & Hres). destruct a as [res pre rdy drift].
  assert (Hr' := Hr). destruct Hr' as [H1 H2 H3 H4 H5 H6 H7]. cbn in H4, H5, H6, H7.
  destruct Hres as [[[= -> ->] Hu]|(Hreg & _ & _ & Hf & Hu)]; [apply rel_failed; try done; by rewrite Hn|]. cbn [fst snd] in *.
  pose proof (fresh_pages p n s _ Hr Hreg Hf) as Hfr. unfold owned in Hfr. cbn in Hfr.
  assert (p <> 0) as Hp%Z.eqb_neq by (destruct Hreg; lia).
  eapply (rel_moved (Some _PROT_NONE) p n); [exact Hr|exact Hreg|exact Hu|exact He|done|..];
    cbn [after fst snd]; rewrite Hp; try sets Hfr H4 H5 H6.
  rewrite Hn. exact H7.
Qed.

(** ** Theorems *)

(** C16: mem.go's state machine is implemented.  Whatever the C library does within POSIX,
    an operation on a region in the state mem.go asks for takes the state of the machine
    as it takes the abstract one: reserved pages are mapped without access, prepared and
    ready ones can be read and written, mappedReady counts the bytes that are ready (and
    those of an allocation that failed), the sysMemStat moves by the size, and no page of
    anybody else is touched.  Only sysMap can throw, when it gets no memory. *)
Theorem mem_refines o s a : mem_rel s a -> allowed o a -> stat_fits o s ->
  runs_to (run_op o) (refines o s a) (fun msg => (exists v n stat, o = OMap v n stat) /\ map_throws msg) s.
Proof using All.
  intros Hr Ha Hf. destruct o;
    [ eapply runs_to_mono; [by apply OAlloc_ok|done|done]
    | eapply runs_to_mono; [by apply OUnused_ok|done|done]
    | eapply runs_to_mono; [by apply OUsed_ok|done|done]
    | eapply runs_to_mono; [by apply OFree_ok|done|done]
    | eapply runs_to_mono; [by apply OFault_ok|done|done]
    | eapply runs_to_mono; [by apply OReserve_ok|done|done]
    | eapply runs_to_mono; [by apply OReserveAligned_ok|done|done]
    | eapply runs_to_mono; [by apply OUnreserve_ok|done|done]
    | eapply runs_to_mono; [by apply OMap_ok|done|by eauto] ].
Qed.

(** C17: sysReserveAligned returns a region on a multiple of align, of the size asked for or
    the whole of what it reserved, free before and reserved now, with both ends given back
    and nothing else changed; or nothing, with nothing changed. *)
Theorem sysReserveAligned_aligned v size align s : os_perrno (rt_os (mem_rt s)) = true ->
  request v size -> size + align < 2 ^ 32 -> (exists k, 12 <= k /\ align = 2 ^ k) ->
  exists pn s', sysReserveAligned fr v size align s = Ret pn s' /\ mem_stats s' = mem_stats s /\ mem_ready s' = mem_ready s /\
    reserved_aligned size align (space_of s) pn (space_of s').
Proof using All.
  intros He Hreq Hsa Hk. pose proof (reserve_aligned_run v size align (fun _ => False) s He Hreq Hsa Hk) as H.
  unfold runs_to in H. destruct (sysReserveAligned fr v size align s) as [pn s'| |]; [|done|done].
  exists pn, s'. by destruct H as (_ & ? & ? & ?).
Qed.
End refinement.

(** ** A system that keeps the promise

    Pages in a finite map; without MAP_FIXED a mapping goes to the hint, or to the second
    page, if it is free there, and fails otherwise. *)
Module Pages.
Record world : Type := mkWorld { pw_pages : gmap Z Z; pw_errno : Z }.

Definition set_pages (v n : Z) (o : option Z) (m : gmap Z Z) : gmap Z Z :=
  foldr (fun x m => partial_alter (fun _ => o) x m) m (seqZ (v / 4096) (n / 4096)).

Definition fits (m : gmap Z Z) (p n : Z) : bool :=
  (0 <? p) && (p mod 4096 =? 0) && (p + n <=? 2 ^ 32) &&
  forallb (fun x => bool_decide (m !! x = None)) (seqZ (p / 4096) (n / 4096)).

Definition call (fn : string) (args : list carg) (w : world) : world * reply :=
  match args with
  | [CInt v; CInt n; CInt prot; CInt flags; _; _] =>
    if has_bits flags _MAP_FIXED then (mkWorld (set_pages v n (Some prot) (pw_pages w)) (pw_errno w), mkReply v 0 [])
    else
      let p := if v =? 0 then 4096 else v in
      if fits (pw_pages w) p n then (mkWorld (set_pages p n (Some prot) (pw_pages w)) (pw_errno w), mkReply p 0 [])
      else (mkWorld (pw_pages w) _ENOMEM, mkReply (-1) 0 [])
  | [CInt v; CInt n] => (mkWorld (set_pages v n None (pw_pages w)) (pw_errno w), mkReply 0 0 [])
  | _ => (w, mkReply 0 0 [])
  end.

#[global] Instance libc : Libc world := {|
  libc_call := call; libc_errno := pw_errno; libc_set_errno e w := mkWorld (pw_pages w) e |}.
#[global] Instance address_space : AddressSpace world := {| space w x := pw_pages w !! x |}.

Lemma lookup_set_list l o (m : gmap Z Z) x :
  foldr (fun x m => partial_alter (fun _ => o) x m) m l !! x = if decide (x ∈ l) then o else m !! x.
Proof.
  induction l as [|y l IH]; cbn; [done|]. destruct (decide (x = y)) as [->|Hne].
  - rewrite lookup_partial_alter_eq. by rewrite decide_True by (by left).
  - rewrite lookup_partial_alter_ne, IH by done. destruct (decide (x ∈ l)) as [H|H].
    + by rewrite decide_True by (by right).
    + rewrite decide_False; [done|]. intros [Hx|Hx]%elem_of_cons; done.
Qed.

Lemma elem_of_seq_pages v n x : v mod 4096 = 0 -> 0 <= n -> x ∈ seqZ (v / 4096) (n / 4096) <-> in_range v n x = true.
Proof. intros Hv Hn. rewrite <- (elem_of_pages v n x) by done. unfold pages. by rewrite elem_of_list_to_set. Qed.

Lemma set_pages_updated v n o m : is_region v n -> updated v n o (fun x => m !! x) (fun x => set_pages v n o m !! x).
Proof.
  intros (? & ? & ? & ? & ?) x. unfold set_pages. rewrite lookup_set_list. destruct (decide _) as [H'|H'].
  - by apply elem_of_seq_pages in H' as ->; [|done|lia].
  - destruct (in_range v n x) eqn:E; [|done]. apply elem_of_seq_pages in E; [done|done|lia].
Qed.

#[global] Instance laws : AddressSpaceLaws world.
Proof.
  split; [done| | |].
  - intros v n prot flags w w' rp _ Hx Hv1 Hv2 Hn Hn2. cbn. rewrite Hx. destruct (fits _ _ n) eqn:E; intros [= <- <-]; cbn.
    + set (p := if v =? 0 then 4096 else v) in *. unfold fits in E. rewrite !andb_true_iff, Z.ltb_lt, Z.eqb_eq, Z.leb_le in E.
      destruct E as [[[E1 E2] E3] E4]. right. rewrite (wrapu_small 32 p) by (unfold in_u; lia).
      assert (is_region p n) as Hreg by (unfold is_region; lia). split; [done|]. split; [|by apply set_pages_updated].
      intros x Hin. apply elem_of_seq_pages in Hin; [|done|lia].
      rewrite forallb_forall in E4. apply (bool_decide_eq_true_1 _ (E4 x (proj1 (list_elem_of_In _ _) Hin))).
    + left. done.
  - intros v n prot flags w w' rp _ Hx Hreg. cbn. rewrite Hx. intros [= <- <-]. right. cbn.
    destruct (Hreg) as (? & ? & ? & ? & ?). rewrite wrapu_small by (unfold in_u; lia). split; [done|]. by apply set_pages_updated.
  - intros v n w w' rp Hreg. cbn. intros [= <- <-]. by apply set_pages_updated.
Qed.
End Pages.

Definition demo_mem : memst Pages.world :=
  mkMem (mkRt (mkOs (Pages.mkWorld ∅ 0) true []) (mkMos true 0 0 0 0 timespec0) (mkOsvars 0 1 4096)) ∅ 0.

Lemma demo_rel : mem_rel demo_mem (mkRegions ∅ ∅ ∅ 0).
Proof. split; cbn; try done; set_solver. Qed.

Lemma mem_refines_witness : exists r s', run_op demo_frame 0 (OAlloc 8192 "heap") demo_mem = Ret r s' /\
  mem_rel s' (mkRegions ∅ ∅ (∅ ∪ pages 4096 8192) 0).
Proof.
  pose proof (mem_refines demo_frame 0 (OAlloc 8192 "heap") demo_mem (mkRegions ∅ ∅ ∅ 0) demo_rel) as H.
  unfold runs_to in H. destruct (run_op _ _ _ demo_mem) as [r s'|msg s'|] eqn:E; [|by vm_compute in E|by vm_compute in E].
  exists r, s'. split; [done|]. assert (r.1 = 4096) as Hr by (vm_compute in E; by injection E as <- _).
  destruct H as [H _]; [split_and!; done|split_and!; done|].
  unfold after in H. rewrite Hr in H. exact H.
Defined.

(** A reservation that is not on a multiple of 64 KB is cut at both ends. *)
Lemma sysReserveAligned_aligned_witness : exists s',
  sysReserveAligned demo_frame 0 65536 65536 demo_mem = Ret (65536, 65536) s' /\
  updated 65536 65536 (Some _PROT_NONE) (space_of demo_mem) (space_of s').
Proof.
  destruct (sysReserveAligned_aligned demo_frame 0 0 65536 65536 demo_mem) as (pn & s' & E & _ & _ & H);
    [done|split_and!; done|done|by exists 16|].
  assert (pn = (65536, 65536)) as -> by (vm_compute in E; by injection E as <- _).
  exists s'. split; [exact E|]. by destruct H as [[? _]|(_ & _ & _ & _ & H)].
Defined.
