(* ===== verification/Netpoll.v ===== *)
(** * Netpoll: runtime/netpoll.go, the poller's portable half

    A [pollDesc] is the runtime's record of one pollable descriptor: two binary
    semaphores ([rg], [wg]) that park one reader and one writer, two deadline
    timers, and [atomicInfo], the lock-free summary of the fields the lock
    protects.  The code that runs with [pd.lock] held is a computation on one
    descriptor ([GoM pollDesc]); [on_pd] runs it on a descriptor of the heap.
    The platform's half is the class [Poller] (NetpollQnx.v is an instance).

    A goroutine that parks is resumed in the state an environment function
    gives: it stands for everything other threads did meanwhile.  The races
    inside the operations are the subject of NetpollSema.v. *)
From Stdlib Require Import ZArith Lia List Bool String.
From stdpp Require Import base list gmap strings numbers tactics option.
From S2P Require Import Prelude.

Definition pollNoError : Z := 0.
Definition pollErrClosing : Z := 1.
Definition pollErrTimeout : Z := 2.
Definition pollErrNotPollable : Z := 3.

Definition pdNil : Z := 0.
Definition pdReady : Z := 1.
Definition pdWait : Z := 2.

Definition pollBlockSize : Z := 4 * 1024.
(** 1 << tagAlignBits (tagptr.go): pollDescPadded is padded to it. *)
Definition tagAlign : Z := Z.shiftl 1 9.
(** tagptr_32bit.go *)
Definition tagBits : Z := 32.

(** The modes are the characters r and w, and their sum. *)
Definition mode_r : Z := 114.
Definition mode_w : Z := 119.
Definition mode_rw : Z := mode_r + mode_w.

(** The three timer callbacks, and of a [timer] the fields netpoll sets; [t_when]
    is 0 when the timer is stopped. *)
Inductive deadline_fn : Type := netpollDeadline | netpollReadDeadline | netpollWriteDeadline.

#[export] Instance deadline_fn_eq_dec : EqDecision deadline_fn.
Proof. solve_decision. Defined.

Record timer : Type := mkTimer { t_when : Z; t_fn : deadline_fn; t_arg : Z; t_seq : Z }.
Definition timer0 : timer := mkTimer 0 netpollDeadline 0 0.

Record pollDesc : Type := mkPollDesc {
  pd_link : Z;
  pd_fd : Z;
  pd_fdseq : Z;
  pd_atomicInfo : Z;
  pd_rg : Z;
  pd_wg : Z;
  pd_closing : bool;
  pd_rrun : bool;
  pd_wrun : bool;
  pd_user : Z;
  pd_rseq : Z;
  pd_rt : timer;
  pd_rd : Z;
  pd_wseq : Z;
  pd_wt : timer;
  pd_wd : Z;
  pd_self : Z }.

Definition pollDesc0 : pollDesc :=
  mkPollDesc 0 0 0 0 0 0 false false false 0 0 timer0 0 0 timer0 0 0.

Definition set_link (v : Z) (p : pollDesc) : pollDesc :=
  mkPollDesc v (pd_fd p) (pd_fdseq p) (pd_atomicInfo p) (pd_rg p) (pd_wg p) (pd_closing p)
    (pd_rrun p) (pd_wrun p) (pd_user p) (pd_rseq p) (pd_rt p) (pd_rd p)
    (pd_wseq p) (pd_wt p) (pd_wd p) (pd_self p).
Definition set_fd (v : Z) (p : pollDesc) : pollDesc :=
  mkPollDesc (pd_link p) v (pd_fdseq p) (pd_atomicInfo p) (pd_rg p) (pd_wg p)
    (pd_closing p) (pd_rrun p) (pd_wrun p) (pd_user p) (pd_rseq p) (pd_rt p)
    (pd_rd p) (pd_wseq p) (pd_wt p) (pd_wd p) (pd_self p).
Definition set_fdseq (v : Z) (p : pollDesc) : pollDesc :=
  mkPollDesc (pd_link p) (pd_fd p) v (pd_atomicInfo p) (pd_rg p) (pd_wg p) (pd_closing p)
    (pd_rrun p) (pd_wrun p) (pd_user p) (pd_rseq p) (pd_rt p) (pd_rd p)
    (pd_wseq p) (pd_wt p) (pd_wd p) (pd_self p).
Definition set_atomicInfo (v : Z) (p : pollDesc) : pollDesc :=
  mkPollDesc (pd_link p) (pd_fd p) (pd_fdseq p) v (pd_rg p) (pd_wg p) (pd_closing p)
    (pd_rrun p) (pd_wrun p) (pd_user p) (pd_rseq p) (pd_rt p) (pd_rd p)
    (pd_wseq p) (pd_wt p) (pd_wd p) (pd_self p).
Definition set_rg (v : Z) (p : pollDesc) : pollDesc :=
  mkPollDesc (pd_link p) (pd_fd p) (pd_fdseq p) (pd_atomicInfo p) v (pd_wg p)
    (pd_closing p) (pd_rrun p) (pd_wrun p) (pd_user p) (pd_rseq p) (pd_rt p)
    (pd_rd p) (pd_wseq p) (pd_wt p) (pd_wd p) (pd_self p).
Definition set_wg (v : Z) (p : pollDesc) : pollDesc :=
  mkPollDesc (pd_link p) (pd_fd p) (pd_fdseq p) (pd_atomicInfo p) (pd_rg p) v
    (pd_closing p) (pd_rrun p) (pd_wrun p) (pd_user p) (pd_rseq p) (pd_rt p)
    (pd_rd p) (pd_wseq p) (pd_wt p) (pd_wd p) (pd_self p).
Definition set_closing (v : bool) (p : pollDesc) : pollDesc :=
  mkPollDesc (pd_link p) (pd_fd p) (pd_fdseq p) (pd_atomicInfo p) (pd_rg p) (pd_wg p) v
    (pd_rrun p) (pd_wrun p) (pd_user p) (pd_rseq p) (pd_rt p) (pd_rd p)
    (pd_wseq p) (pd_wt p) (pd_wd p) (pd_self p).
Definition set_rrun (v : bool) (p : pollDesc) : pollDesc :=
  mkPollDesc (pd_link p) (pd_fd p) (pd_fdseq p) (pd_atomicInfo p) (pd_rg p) (pd_wg p)
    (pd_closing p) v (pd_wrun p) (pd_user p) (pd_rseq p) (pd_rt p) (pd_rd p)
    (pd_wseq p) (pd_wt p) (pd_wd p) (pd_self p).
Definition set_wrun (v : bool) (p : pollDesc) : pollDesc :=
  mkPollDesc (pd_link p) (pd_fd p) (pd_fdseq p) (pd_atomicInfo p) (pd_rg p) (pd_wg p)
    (pd_closing p) (pd_rrun p) v (pd_user p) (pd_rseq p) (pd_rt p) (pd_rd p)
    (pd_wseq p) (pd_wt p) (pd_wd p) (pd_self p).
Definition set_user (v : Z) (p : pollDesc) : pollDesc :=
  mkPollDesc (pd_link p) (pd_fd p) (pd_fdseq p) (pd_atomicInfo p) (pd_rg p) (pd_wg p)
    (pd_closing p) (pd_rrun p) (pd_wrun p) v (pd_rseq p) (pd_rt p) (pd_rd p)
    (pd_wseq p) (pd_wt p) (pd_wd p) (pd_self p).
Definition set_rseq (v : Z) (p : pollDesc) : pollDesc :=
  mkPollDesc (pd_link p) (pd_fd p) (pd_fdseq p) (pd_atomicInfo p) (pd_rg p) (pd_wg p)
    (pd_closing p) (pd_rrun p) (pd_wrun p) (pd_user p) v (pd_rt p) (pd_rd p)
    (pd_wseq p) (pd_wt p) (pd_wd p) (pd_self p).
Definition set_rt (v : timer) (p : pollDesc) : pollDesc :=
  mkPollDesc (pd_link p) (pd_fd p) (pd_fdseq p) (pd_atomicInfo p) (pd_rg p) (pd_wg p)
    (pd_closing p) (pd_rrun p) (pd_wrun p) (pd_user p) (pd_rseq p) v (pd_rd p)
    (pd_wseq p) (pd_wt p) (pd_wd p) (pd_self p).
Definition set_rd (v : Z) (p : pollDesc) : pollDesc :=
  mkPollDesc (pd_link p) (pd_fd p) (pd_fdseq p) (pd_atomicInfo p) (pd_rg p) (pd_wg p)
    (pd_closing p) (pd_rrun p) (pd_wrun p) (pd_user p) (pd_rseq p) (pd_rt p) v
    (pd_wseq p) (pd_wt p) (pd_wd p) (pd_self p).
Definition set_wseq (v : Z) (p : pollDesc) : pollDesc :=
  mkPollDesc (pd_link p) (pd_fd p) (pd_fdseq p) (pd_atomicInfo p) (pd_rg p) (pd_wg p)
    (pd_closing p) (pd_rrun p) (pd_wrun p) (pd_user p) (pd_rseq p) (pd_rt p)
    (pd_rd p) v (pd_wt p) (pd_wd p) (pd_self p).
Definition set_wt (v : timer) (p : pollDesc) : pollDesc :=
  mkPollDesc (pd_link p) (pd_fd p) (pd_fdseq p) (pd_atomicInfo p) (pd_rg p) (pd_wg p)
    (pd_closing p) (pd_rrun p) (pd_wrun p) (pd_user p) (pd_rseq p) (pd_rt p)
    (pd_rd p) (pd_wseq p) v (pd_wd p) (pd_self p).
Definition set_wd (v : Z) (p : pollDesc) : pollDesc :=
  mkPollDesc (pd_link p) (pd_fd p) (pd_fdseq p) (pd_atomicInfo p) (pd_rg p) (pd_wg p)
    (pd_closing p) (pd_rrun p) (pd_wrun p) (pd_user p) (pd_rseq p) (pd_rt p)
    (pd_rd p) (pd_wseq p) (pd_wt p) v (pd_self p).
Definition set_self (v : Z) (p : pollDesc) : pollDesc :=
  mkPollDesc (pd_link p) (pd_fd p) (pd_fdseq p) (pd_atomicInfo p) (pd_rg p) (pd_wg p)
    (pd_closing p) (pd_rrun p) (pd_wrun p) (pd_user p) (pd_rseq p) (pd_rt p)
    (pd_rd p) (pd_wseq p) (pd_wt p) (pd_wd p) v.

(** ** pollInfo *)
Definition pollClosing : Z := 1.
Definition pollEventErr : Z := 2.
Definition pollExpiredReadDeadline : Z := 4.
Definition pollExpiredWriteDeadline : Z := 8.
Definition pollFDSeq : Z := 16.
Definition pollFDSeqBits : Z := 20.
Definition pollFDSeqMask : Z := Z.shiftl 1 pollFDSeqBits - 1.

Definition info_closing (i : Z) : bool := has_bits i pollClosing.
Definition info_eventErr (i : Z) : bool := has_bits i pollEventErr.
Definition info_expiredReadDeadline (i : Z) : bool := has_bits i pollExpiredReadDeadline.
Definition info_expiredWriteDeadline (i : Z) : bool := has_bits i pollExpiredWriteDeadline.

Definition flag (b : bool) (v : Z) : Z := if b then v else 0.

Definition publishInfo (pd : pollDesc) : pollDesc :=
  let info := flag (pd_closing pd) pollClosing in
  let info := Z.lor info (flag (pd_rd pd <? 0) pollExpiredReadDeadline) in
  let info := Z.lor info (flag (pd_wd pd <? 0) pollExpiredWriteDeadline) in
  let info := Z.lor info (u32 (Z.shiftl (Z.land (pd_fdseq pd) pollFDSeqMask) pollFDSeq)) in
  set_atomicInfo (Z.lor (Z.land (pd_atomicInfo pd) pollEventErr) info) pd.

Definition setEventErr (b : bool) (seq : Z) (pd : pollDesc) : pollDesc :=
  let mSeq := Z.land seq pollFDSeqMask in
  let x := pd_atomicInfo pd in
  let xSeq := Z.land (Z.shiftr x pollFDSeq) pollFDSeqMask in
  if negb (seq =? 0) && negb (xSeq =? mSeq) then pd else
  if negb (Bool.eqb (has_bits x pollEventErr) b)
  then set_atomicInfo (Z.lxor x pollEventErr) pd else pd.

Definition netpollcheckerr (pd : pollDesc) (mode : Z) : Z :=
  let info := pd_atomicInfo pd in
  if info_closing info then pollErrClosing else
  if ((mode =? mode_r) && info_expiredReadDeadline info)
     || ((mode =? mode_w) && info_expiredWriteDeadline info) then pollErrTimeout else
  if (mode =? mode_r) && info_eventErr info then pollErrNotPollable else
  pollNoError.

(** ** The semaphore of a mode *)
Definition gpp (mode : Z) (pd : pollDesc) : Z := if mode =? mode_w then pd_wg pd else pd_rg pd.
Definition set_gpp (mode v : Z) (pd : pollDesc) : pollDesc :=
  if mode =? mode_w then set_wg v pd else set_rg v pd.

(** The descriptor afterwards, the goroutine that was parked (0 for nil), and the
    adjustment of netpollWaiters. *)
Definition netpollunblock (pd : pollDesc) (mode : Z) (ioready : bool) : pollDesc * Z * Z :=
  let old := gpp mode pd in
  if old =? pdReady then (pd, 0, 0) else
  if (old =? pdNil) && negb ioready then (pd, 0, 0) else
  let new := if ioready then pdReady else pdNil in
  let pd := set_gpp mode new pd in
  if old =? pdWait then (pd, pdNil, 0) else
  if negb (old =? pdNil) then (pd, old, -1) else (pd, old, 0).

(** ** Under pd.lock *)
Abbreviation PdM := (GoM pollDesc).

Definition unblock (mode : Z) (ioready : bool) : PdM (Z * Z) := fun pd =>
  let '(pd', g, delta) := netpollunblock pd mode ioready in Ret (g, delta) pd'.

(** time.go: modify throws on a time that is not positive; stop sets when to 0. *)
Definition timer_modify (when : Z) (f : deadline_fn) (arg seq : Z) (t : timer) : option timer :=
  if when <=? 0 then None else Some (mkTimer when f arg seq).
Definition timer_stop (t : timer) : timer := mkTimer 0 (t_fn t) (t_arg t) (t_seq t).

Definition rt_modify (when : Z) (f : deadline_fn) (seq : Z) : PdM unit := fun pd =>
  match timer_modify when f (pd_self pd) seq (pd_rt pd) with
  | Some t => Ret tt (set_rt t pd)
  | None => Throw "timer when must be positive" pd
  end.
Definition wt_modify (when : Z) (f : deadline_fn) (seq : Z) : PdM unit := fun pd =>
  match timer_modify when f (pd_self pd) seq (pd_wt pd) with
  | Some t => Ret tt (set_wt t pd)
  | None => Throw "timer when must be positive" pd
  end.
Definition rt_stop (pd : pollDesc) : pollDesc := set_rt (timer_stop (pd_rt pd)) pd.
Definition wt_stop (pd : pollDesc) : pollDesc := set_wt (timer_stop (pd_wt pd)) pd.

(** [d] relative to now, saturating when the sum overflows. *)
Definition deadline_abs (now d : Z) : Z :=
  if 0 <? d then let d := i64 (d + now) in if d <=? 0 then 2 ^ 63 - 1 else d else d.

Definition is_combo (pd : pollDesc) : bool := (0 <? pd_rd pd) && (pd_rd pd =? pd_wd pd).

(** The read half of pollSetDeadline's timer handling. *)
Definition setDeadline_rt (rd0 : Z) (combo0 : bool) : PdM unit :=
  let! pd := go_get in
  let combo := is_combo pd in
  let rtf := if combo then netpollDeadline else netpollReadDeadline in
  if negb (pd_rrun pd) then
    if 0 <? pd_rd pd then
      rt_modify (pd_rd pd) rtf (pd_rseq pd) ;! go_modify (set_rrun true)
    else go_ret tt
  else if negb (pd_rd pd =? rd0) || negb (Bool.eqb combo combo0) then
    go_modify (set_rseq (u32 (pd_rseq pd + 1))) ;!
    let! pd := go_get in
    if 0 <? pd_rd pd then rt_modify (pd_rd pd) rtf (pd_rseq pd)
    else go_modify (fun pd => set_rrun false (rt_stop pd))
  else go_ret tt.

(** And the write half. *)
Definition setDeadline_wt (wd0 : Z) (combo0 : bool) : PdM unit :=
  let! pd := go_get in
  let combo := is_combo pd in
  if negb (pd_wrun pd) then
    if (0 <? pd_wd pd) && negb combo then
      wt_modify (pd_wd pd) netpollWriteDeadline (pd_wseq pd) ;! go_modify (set_wrun true)
    else go_ret tt
  else if negb (pd_wd pd =? wd0) || negb (Bool.eqb combo combo0) then
    go_modify (set_wseq (u32 (pd_wseq pd + 1))) ;!
    let! pd := go_get in
    if (0 <? pd_wd pd) && negb combo
    then wt_modify (pd_wd pd) netpollWriteDeadline (pd_wseq pd)
    else go_modify (fun pd => set_wrun false (wt_stop pd))
  else go_ret tt.

(** The goroutines unblocked for reading and writing and the waiters' delta. *)
Definition setDeadline_locked (now d mode : Z) : PdM (Z * Z * Z) :=
  let! pd := go_get in
  if pd_closing pd then go_ret (0, 0, 0) else
  let rd0 := pd_rd pd in
  let wd0 := pd_wd pd in
  let combo0 := is_combo pd in
  let d := deadline_abs now d in
  go_modify (fun pd => if (mode =? mode_r) || (mode =? mode_rw) then set_rd d pd else pd) ;!
  go_modify (fun pd => if (mode =? mode_w) || (mode =? mode_rw) then set_wd d pd else pd) ;!
  go_modify publishInfo ;!
  setDeadline_rt rd0 combo0 ;!
  setDeadline_wt wd0 combo0 ;!
  let! pd := go_get in
  let! (rg, d1) := if pd_rd pd <? 0 then unblock mode_r false else go_ret (0, 0) in
  let! (wg, d2) := if pd_wd pd <? 0 then unblock mode_w false else go_ret (0, 0) in
  go_ret (rg, wg, d1 + d2).

Definition pollUnblock_locked : PdM (Z * Z * Z) :=
  let! pd := go_get in
  if pd_closing pd then go_throw "runtime: unblock on closing polldesc" else
  go_modify (fun pd => set_closing true pd) ;!
  go_modify (fun pd => set_rseq (u32 (pd_rseq pd + 1)) pd) ;!
  go_modify (fun pd => set_wseq (u32 (pd_wseq pd + 1)) pd) ;!
  go_modify publishInfo ;!
  let! (rg, d1) := unblock mode_r false in
  let! (wg, d2) := unblock mode_w false in
  go_modify (fun pd => if pd_rrun pd then set_rrun false (rt_stop pd) else pd) ;!
  go_modify (fun pd => if pd_wrun pd then set_wrun false (wt_stop pd) else pd) ;!
  go_ret (rg, wg, d1 + d2).

Definition deadlineimpl_locked (seq : Z) (read write : bool) : PdM (Z * Z * Z) :=
  let! pd := go_get in
  let currentSeq := if negb read then pd_wseq pd else pd_rseq pd in
  if negb (seq =? currentSeq) then go_ret (0, 0, 0) else
  let! (rg, d1) :=
    if read then
      if (pd_rd pd <=? 0) || negb (pd_rrun pd)
      then go_throw "runtime: inconsistent read deadline" else
      go_modify (fun pd => publishInfo (set_rd (-1) pd)) ;! unblock mode_r false
    else go_ret (0, 0) in
  let! pd := go_get in
  let! (wg, d2) :=
    if write then
      if (pd_wd pd <=? 0) || (negb (pd_wrun pd) && negb read)
      then go_throw "runtime: inconsistent write deadline" else
      go_modify (fun pd => publishInfo (set_wd (-1) pd)) ;! unblock mode_w false
    else go_ret (0, 0) in
  go_ret (rg, wg, d1 + d2).

Definition pollOpen_locked (self fd : Z) : PdM unit :=
  let! pd := go_get in
  if negb (pd_wg pd =? pdNil) && negb (pd_wg pd =? pdReady)
  then go_throw "runtime: blocked write on free polldesc" else
  if negb (pd_rg pd =? pdNil) && negb (pd_rg pd =? pdReady)
  then go_throw "runtime: blocked read on free polldesc" else
  go_modify (set_fd fd) ;!
  go_modify (fun pd => if pd_fdseq pd =? 0 then set_fdseq 1 pd else pd) ;!
  go_modify (set_closing false) ;!
  go_modify (setEventErr false 0) ;!
  go_modify (fun pd => set_rseq (u32 (pd_rseq pd + 1)) pd) ;!
  go_modify (set_rg pdNil) ;!
  go_modify (set_rd 0) ;!
  go_modify (fun pd => set_wseq (u32 (pd_wseq pd + 1)) pd) ;!
  go_modify (set_wg pdNil) ;!
  go_modify (set_wd 0) ;!
  go_modify (set_self self) ;!
  go_modify publishInfo.

(** pollCache.free's update of the descriptor. *)
Definition free_locked (pd : pollDesc) : pollDesc :=
  publishInfo (set_fdseq (Z.land (pd_fdseq pd + 1) (Z.shiftl 1 tagBits - 1)) pd).

(** pollClose's checks. *)
Definition pollClose_check : PdM unit :=
  let! pd := go_get in
  if negb (pd_closing pd) then go_throw "runtime: close polldesc w/o unblock" else
  if negb (pd_wg pd =? pdNil) && negb (pd_wg pd =? pdReady)
  then go_throw "runtime: blocked write on closing polldesc" else
  if negb (pd_rg pd =? pdNil) && negb (pd_rg pd =? pdReady)
  then go_throw "runtime: blocked read on closing polldesc" else go_ret tt.

(** ** The poller's state: descriptors by address, the free list, the count of
    parked goroutines, the goroutines made ready (oldest first), and the backend. *)
Record npst (B : Type) : Type := mkNp {
  np_inited : bool;
  np_pds : gmap Z pollDesc;
  np_first : Z;
  np_next : Z;
  np_waiters : Z;
  np_ready : list Z;
  np_backend : B }.
Arguments mkNp {B} np_inited np_pds np_first np_next np_waiters np_ready np_backend.
Arguments np_inited {B} n.
Arguments np_pds {B} n.
Arguments np_first {B} n.
Arguments np_next {B} n.
Arguments np_waiters {B} n.
Arguments np_ready {B} n.
Arguments np_backend {B} n.

Abbreviation NpM B := (GoM (npst B)).

Section state.
Context {B : Type}.

Definition set_inited (i : bool) (s : npst B) : npst B :=
  mkNp i (np_pds s) (np_first s) (np_next s) (np_waiters s) (np_ready s) (np_backend s).
Definition set_pds (m : gmap Z pollDesc) (s : npst B) : npst B :=
  mkNp (np_inited s) m (np_first s) (np_next s) (np_waiters s) (np_ready s) (np_backend s).
Definition set_first (a : Z) (s : npst B) : npst B :=
  mkNp (np_inited s) (np_pds s) a (np_next s) (np_waiters s) (np_ready s) (np_backend s).
Definition set_next (a : Z) (s : npst B) : npst B :=
  mkNp (np_inited s) (np_pds s) (np_first s) a (np_waiters s) (np_ready s) (np_backend s).
Definition set_waiters (n : Z) (s : npst B) : npst B :=
  mkNp (np_inited s) (np_pds s) (np_first s) (np_next s) n (np_ready s) (np_backend s).
Definition set_ready (l : list Z) (s : npst B) : npst B :=
  mkNp (np_inited s) (np_pds s) (np_first s) (np_next s) (np_waiters s) l (np_backend s).
Definition set_backend (b : B) (s : npst B) : npst B :=
  mkNp (np_inited s) (np_pds s) (np_first s) (np_next s) (np_waiters s) (np_ready s) b.

(** Run [m] on the descriptor at [a]; a pointer to none faults. *)
Definition on_pd {A} (a : Z) (m : PdM A) : NpM B A := fun s =>
  match np_pds s !! a with
  | None => Throw "nil pointer dereference" s
  | Some pd =>
    match m pd with
    | Ret x pd' => Ret x (set_pds (<[a := pd']> (np_pds s)) s)
    | Throw msg pd' => Throw msg (set_pds (<[a := pd']> (np_pds s)) s)
    | NoFuel => NoFuel
    end
  end.

(** Run [m] on the backend. *)
Definition on_backend {A} (m : GoM B A) : NpM B A := fun s =>
  match m (np_backend s) with
  | Ret x b => Ret x (set_backend b s)
  | Throw msg b => Throw msg (set_backend b s)
  | NoFuel => NoFuel
  end.

Definition netpollgoready (g : Z) : NpM B unit :=
  go_modify (fun s => set_ready (np_ready s ++ [g]) s).

Definition netpollAdjustWaiters (delta : Z) : NpM B unit :=
  if negb (delta =? 0) then go_modify (fun s => set_waiters (u32 (np_waiters s + delta)) s)
  else go_ret tt.

Definition netpollAnyWaiters : NpM B bool :=
  let! s := go_get in go_ret (0 <? np_waiters s).

(** What every unblocker does once the lock is released. *)
Definition release (out : Z * Z * Z) : NpM B unit :=
  let '(rg, wg, delta) := out in
  (if negb (rg =? 0) then netpollgoready rg else go_ret tt) ;!
  (if negb (wg =? 0) then netpollgoready wg else go_ret tt) ;!
  netpollAdjustWaiters delta.

Definition poll_runtime_pollSetDeadline (now a d mode : Z) : NpM B unit :=
  let! out := on_pd a (setDeadline_locked now d mode) in release out.

Definition poll_runtime_pollUnblock (a : Z) : NpM B unit :=
  let! out := on_pd a pollUnblock_locked in release out.

Definition netpolldeadlineimpl (a seq : Z) (read write : bool) : NpM B unit :=
  let! out := on_pd a (deadlineimpl_locked seq read write) in release out.

(** A timer's callback, by the function the timer was given. *)
Definition run_deadline (t : timer) : NpM B unit :=
  match t_fn t with
  | netpollDeadline => netpolldeadlineimpl (t_arg t) (t_seq t) true true
  | netpollReadDeadline => netpolldeadlineimpl (t_arg t) (t_seq t) true false
  | netpollWriteDeadline => netpolldeadlineimpl (t_arg t) (t_seq t) false true
  end.

(** [toRun] is threaded, last pushed first; the result is it and the delta. *)
Definition netpollready (toRun : list Z) (a mode : Z) : NpM B (list Z * Z) :=
  let! (rg, d1) := if (mode =? mode_r) || (mode =? mode_rw)
                   then on_pd a (unblock mode_r true) else go_ret (0, 0) in
  let! (wg, d2) := if (mode =? mode_w) || (mode =? mode_rw)
                   then on_pd a (unblock mode_w true) else go_ret (0, 0) in
  let toRun := if negb (rg =? 0) then rg :: toRun else toRun in
  let toRun := if negb (wg =? 0) then wg :: toRun else toRun in
  go_ret (toRun, d1 + d2).

Definition poll_runtime_pollReset (a mode : Z) : NpM B Z :=
  on_pd a (let! pd := go_get in
           let errcode := netpollcheckerr pd mode in
           if negb (errcode =? pollNoError) then go_ret errcode else
           go_modify (fun pd => if mode =? mode_r then set_rg pdNil pd
                                else if mode =? mode_w then set_wg pdNil pd else pd) ;!
           go_ret pollNoError).

Definition netpollblockcommit (gp a mode : Z) : NpM B bool :=
  let! r := on_pd a (let! pd := go_get in
                     if gpp mode pd =? pdWait
                     then go_modify (set_gpp mode gp) ;! go_ret true
                     else go_ret false) in
  if r then netpollAdjustWaiters 1 ;! go_ret true else go_ret false.

(** proc.go's gopark with that commit function: park unless it says no, and be
    resumed in the state [env] makes. *)
Definition gopark (env : npst B -> npst B) (commit : NpM B bool) : NpM B unit :=
  let! parked := commit in
  if parked then go_modify env else go_ret tt.

Definition netpollblock (env : npst B -> npst B) (gp a mode : Z) (waitio : bool) : NpM B bool :=
  let! consumed := on_pd a (
    let! pd := go_get in
    if gpp mode pd =? pdReady then go_modify (set_gpp mode pdNil) ;! go_ret true else
    if gpp mode pd =? pdNil then go_modify (set_gpp mode pdWait) ;! go_ret false else
    go_throw "runtime: double wait") in
  if consumed then go_ret true else
  let! errcode := on_pd a (let! pd := go_get in go_ret (netpollcheckerr pd mode)) in
  (if waitio || (errcode =? pollNoError)
   then gopark env (netpollblockcommit gp a mode) else go_ret tt) ;!
  let! old := on_pd a (let! pd := go_get in
                       go_modify (set_gpp mode pdNil) ;! go_ret (gpp mode pd)) in
  if pdWait <? old then go_throw "runtime: corrupted polldesc" else
  go_ret (old =? pdReady).

(** The retry loop of pollWait; [envs] lists the environments of its parks and
    bounds the retries. *)
Fixpoint pollWait_loop (envs : list (npst B -> npst B)) (gp a mode : Z) : NpM B Z :=
  match envs with
  | [] => fun _ => NoFuel
  | env :: envs =>
    let! ok := netpollblock env gp a mode false in
    if ok then go_ret pollNoError else
    let! errcode := on_pd a (let! pd := go_get in go_ret (netpollcheckerr pd mode)) in
    if negb (errcode =? pollNoError) then go_ret errcode else
    pollWait_loop envs gp a mode
  end.

(** ** pollCache *)
Fixpoint alloc_loop (n : nat) (i : Z) (mem : Z) : NpM B unit :=
  match n with
  | O => go_ret tt
  | S n =>
    let pd := mem + i * tagAlign in
    let! s := go_get in
    go_modify (set_pds (<[pd := set_link (np_first s) pollDesc0]> (np_pds s))) ;!
    go_modify (set_first pd) ;!
    alloc_loop n (i + 1) mem
  end.

Definition alloc_count : Z :=
  let n := pollBlockSize / tagAlign in if n =? 0 then 1 else n.

(** alloc's last lines: pop the head of the list. *)
Definition alloc_take : NpM B Z :=
  let! s := go_get in
  let pd := np_first s in
  let! link := on_pd pd (let! p := go_get in go_ret (pd_link p)) in
  go_modify (set_first link) ;!
  go_ret pd.

Definition alloc : NpM B Z :=
  let! s := go_get in
  (if np_first s =? 0 then
     let mem := np_next s in
     go_modify (set_next (mem + alloc_count * tagAlign)) ;!
     alloc_loop (Z.to_nat alloc_count) 0 mem
   else go_ret tt) ;!
  alloc_take.

Definition free (a : Z) : NpM B unit :=
  on_pd a (go_modify free_locked) ;!
  let! s := go_get in
  on_pd a (go_modify (set_link (np_first s))) ;!
  go_modify (set_first a).
End state.

(** ** The platform's half *)
Class Poller (B : Type) : Type := {
  netpollinit : NpM B unit;
  netpollopen : Z -> Z -> NpM B Z;
  netpollclose : Z -> NpM B Z;
  netpollarm : Z -> Z -> NpM B unit;
}.

Section ops.
Context {B : Type} `{!Poller B}.

Definition netpollGenericInit : NpM B unit :=
  let! s := go_get in
  if negb (np_inited s) then netpollinit ;! go_modify (set_inited true) else go_ret tt.

(** The address, 0 for nil, and the errno. *)
Definition poll_runtime_pollOpen (fd : Z) : NpM B (Z * Z) :=
  let! a := alloc in
  on_pd a (pollOpen_locked a fd) ;!
  let! errno := netpollopen fd a in
  if negb (errno =? 0) then free a ;! go_ret (0, errno) else go_ret (a, 0).

Definition poll_runtime_pollClose (a : Z) : NpM B unit :=
  on_pd a pollClose_check ;!
  let! fd := on_pd a (let! pd := go_get in go_ret (pd_fd pd)) in
  let! _ := netpollclose fd in
  free a.

(** QNX is one of the level-triggered systems, so the descriptor is armed first. *)
Definition poll_runtime_pollWait (envs : list (npst B -> npst B)) (gp a mode : Z) : NpM B Z :=
  let! errcode := on_pd a (let! pd := go_get in go_ret (netpollcheckerr pd mode)) in
  if negb (errcode =? pollNoError) then go_ret errcode else
  netpollarm a mode ;!
  pollWait_loop envs gp a mode.
End ops.

(** ** pollInfo: what is published *)
Lemma flag_testbit b k i : 0 <= k -> 0 <= i ->
  Z.testbit (flag b (2 ^ k)) i = b && (i =? k).
Proof.
  intros Hk Hi. destruct b; cbn [flag andb]; [|apply Z.bits_0].
  destruct (Z.eqb_spec i k) as [->|]; [by apply Z.pow2_bits_true|by apply Z.pow2_bits_false; lia].
Qed.

Lemma fdseq_field_low x i : 0 <= i < 16 -> Z.testbit (u32 (Z.shiftl x pollFDSeq)) i = false.
Proof.
  intros Hi. unfold wrapu. rewrite Z.mod_pow2_bits_low by lia.
  rewrite Z.shiftl_spec by lia. apply Z.testbit_neg_r. unfold pollFDSeq. lia.
Qed.

Lemma info_bits i :
  info_closing i = Z.testbit i 0 /\ info_eventErr i = Z.testbit i 1 /\
  info_expiredReadDeadline i = Z.testbit i 2 /\ info_expiredWriteDeadline i = Z.testbit i 3.
Proof.
  split_and!; [apply (has_bits_pow2 i 0)|apply (has_bits_pow2 i 1)
              |apply (has_bits_pow2 i 2)|apply (has_bits_pow2 i 3)]; lia.
Qed.

Lemma publishInfo_bit pd i : 0 <= i < 16 ->
  Z.testbit (pd_atomicInfo (publishInfo pd)) i =
    (Z.testbit (pd_atomicInfo pd) i && (i =? 1))
    || (pd_closing pd && (i =? 0)) || ((pd_rd pd <? 0) && (i =? 2))
    || ((pd_wd pd <? 0) && (i =? 3)).
Proof.
  intros Hi. cbn [publishInfo pd_atomicInfo set_atomicInfo].
  rewrite !Z.lor_spec, Z.land_spec, fdseq_field_low, orb_false_r by done.
  change pollClosing with (2 ^ 0). change pollExpiredReadDeadline with (2 ^ 2).
  change pollExpiredWriteDeadline with (2 ^ 3). change pollEventErr with (flag true (2 ^ 1)).
  rewrite !flag_testbit by lia. cbn [andb]. by rewrite !orb_assoc.
Qed.

(** What netpollcheckerr reads is what the locked fields say. *)
Definition info_published (pd : pollDesc) : Prop :=
  info_closing (pd_atomicInfo pd) = pd_closing pd /\
  info_expiredReadDeadline (pd_atomicInfo pd) = (pd_rd pd <? 0) /\
  info_expiredWriteDeadline (pd_atomicInfo pd) = (pd_wd pd <? 0).

Lemma publishInfo_published pd : info_published (publishInfo pd).
Proof.
  unfold info_published. destruct (info_bits (pd_atomicInfo (publishInfo pd))) as (-> & _ & -> & ->).
  rewrite !publishInfo_bit by lia. cbn -[Z.testbit].
  by rewrite ?andb_false_r, ?andb_true_r, ?orb_false_r, ?orb_false_l.
Qed.

Lemma publishInfo_eventErr pd :
  info_eventErr (pd_atomicInfo (publishInfo pd)) = info_eventErr (pd_atomicInfo pd).
Proof.
  destruct (info_bits (pd_atomicInfo (publishInfo pd))) as (_ & -> & _).
  destruct (info_bits (pd_atomicInfo pd)) as (_ & -> & _).
  rewrite publishInfo_bit by lia. cbn -[Z.testbit].
  by rewrite ?andb_false_r, ?andb_true_r, ?orb_false_r.
Qed.

(** The error code as a function of the fields. *)
Definition checkerr_spec (closing rexp wexp everr : bool) (mode : Z) : Z :=
  if closing then pollErrClosing
  else if ((mode =? mode_r) && rexp) || ((mode =? mode_w) && wexp) then pollErrTimeout
  else if (mode =? mode_r) && everr then pollErrNotPollable
  else pollNoError.

Lemma netpollcheckerr_published pd mode : info_published pd ->
  netpollcheckerr pd mode =
    checkerr_spec (pd_closing pd) (pd_rd pd <? 0) (pd_wd pd <? 0)
      (info_eventErr (pd_atomicInfo pd)) mode.
Proof. intros (H1 & H2 & H3). unfold netpollcheckerr. by rewrite H1, H2, H3. Qed.

(** setEventErr with sequence 0 sets its bit and no other. *)
Lemma setEventErr_bit b pd i : 0 <= i ->
  Z.testbit (pd_atomicInfo (setEventErr b 0 pd)) i =
    if i =? 1 then b else Z.testbit (pd_atomicInfo pd) i.
Proof.
  intros Hi. unfold setEventErr. cbn [negb andb Z.eqb].
  pose proof (has_bits_pow2 (pd_atomicInfo pd) 1 ltac:(lia)) as Hb. change (2 ^ 1) with pollEventErr in Hb.
  destruct (Bool.eqb (has_bits _ _) b) eqn:E; cbn [negb].
  - apply Bool.eqb_prop in E. destruct (Z.eqb_spec i 1) as [->|]; [congruence|done].
  - apply Bool.eqb_false_iff in E. cbn [pd_atomicInfo set_atomicInfo]. rewrite Z.lxor_spec.
    change pollEventErr with (2 ^ 1). destruct (Z.eqb_spec i 1) as [->|].
    + rewrite Z.pow2_bits_true by lia. rewrite <- Hb. by destruct (has_bits _ _), b.
    + rewrite Z.pow2_bits_false by lia. apply xorb_false_r.
Qed.

(** ** Deadline timers

    One descriptor and the callbacks of its timers that have fired but not run
    yet.  A step is an operation under the lock, a timer firing (which is one-shot),
    or a fired callback being run; between them the semaphores and the error bit
    may change.  [ds_live] tells a descriptor in use from one on the free list. *)
Module Deadlines.
Record dsys : Type := mkDs { ds_live : bool; ds_pd : pollDesc; ds_fly : list timer }.

Definition run_locked (t : timer) : PdM (Z * Z * Z) :=
  match t_fn t with
  | netpollDeadline => deadlineimpl_locked (t_seq t) true true
  | netpollReadDeadline => deadlineimpl_locked (t_seq t) true false
  | netpollWriteDeadline => deadlineimpl_locked (t_seq t) false true
  end.

(** The timers' sequence numbers are uintptrs; a callback would have to stay in
    flight over 2^32 changes of its deadline to meet its number again. *)
Definition seq_room (pd : pollDesc) : Prop := pd_rseq pd < 2 ^ 32 - 1 /\ pd_wseq pd < 2 ^ 32 - 1.

Definition set_mode_ok (mode : Z) : Prop := mode = mode_r \/ mode = mode_w \/ mode = mode_rw.

Inductive dstep : dsys -> dsys -> Prop :=
| ds_open a fd pd pd' fly :
    seq_room pd -> pollOpen_locked a fd pd = Ret tt pd' ->
    dstep (mkDs false pd fly) (mkDs true pd' fly)
| ds_set now d mode pd out pd' fly :
    seq_room pd -> setDeadline_locked now d mode pd = Ret out pd' ->
    dstep (mkDs true pd fly) (mkDs true pd' fly)
| ds_unblock pd out pd' fly :
    seq_room pd -> pollUnblock_locked pd = Ret out pd' ->
    dstep (mkDs true pd fly) (mkDs true pd' fly)
| ds_close pd pd' fly :
    pollClose_check pd = Ret tt pd' ->
    dstep (mkDs true pd fly) (mkDs false (free_locked pd') fly)
| ds_fire_rt live pd fly :
    0 < t_when (pd_rt pd) ->
    dstep (mkDs live pd fly) (mkDs live (rt_stop pd) (pd_rt pd :: fly))
| ds_fire_wt live pd fly :
    0 < t_when (pd_wt pd) ->
    dstep (mkDs live pd fly) (mkDs live (wt_stop pd) (pd_wt pd :: fly))
| ds_run live pd t l1 l2 out pd' :
    run_locked t pd = Ret out pd' ->
    dstep (mkDs live pd (l1 ++ t :: l2)) (mkDs live pd' (l1 ++ l2))
| ds_sem live mode v pd fly :
    dstep (mkDs live pd fly) (mkDs live (set_gpp mode v pd) fly)
| ds_err live b pd fly :
    dstep (mkDs live pd fly) (mkDs live (setEventErr b 0 pd) fly).

Definition dinit : dsys := mkDs false pollDesc0 [].

Inductive reachable : dsys -> Prop :=
| reach_init : reachable dinit
| reach_step s s' : reachable s -> dstep s s' -> reachable s'.

(** The callbacks in flight that would still be obeyed. *)
Definition is_write (t : timer) : bool :=
  match t_fn t with netpollWriteDeadline => true | _ => false end.
Definition current (write : bool) (seq : Z) (fly : list timer) : list timer :=
  List.filter (fun t => Bool.eqb (is_write t) write && (t_seq t =? seq)) fly.
Arguments current : simpl never.

(** One side's timer: when it is wanted it is armed as [arm] or its callback is
    the one in flight; when it is not, neither. *)
Definition side (want : bool) (arm t : timer) (fly : list timer) : Prop :=
  if want then (t = arm /\ fly = []) \/ (t_when t = 0 /\ exists t', fly = [t'] /\ t_fn t' = t_fn arm)
  else t_when t = 0 /\ fly = [].

Definition rfn (pd : pollDesc) : deadline_fn :=
  if is_combo pd then netpollDeadline else netpollReadDeadline.
Definition rarm (pd : pollDesc) : timer := mkTimer (pd_rd pd) (rfn pd) (pd_self pd) (pd_rseq pd).
Definition warm (pd : pollDesc) : timer :=
  mkTimer (pd_wd pd) netpollWriteDeadline (pd_self pd) (pd_wseq pd).

Definition rside (pd : pollDesc) (fly : list timer) : Prop :=
  side (pd_rrun pd && (0 <? pd_rd pd)) (rarm pd) (pd_rt pd) (current false (pd_rseq pd) fly).
Definition wside (pd : pollDesc) (fly : list timer) : Prop :=
  side (pd_wrun pd && (0 <? pd_wd pd)) (warm pd) (pd_wt pd) (current true (pd_wseq pd) fly).

Definition older (write : bool) (seq : Z) (fly : list timer) : Prop :=
  Forall (fun t => is_write t = write -> t_seq t <= seq) fly.

Record dinv (s : dsys) : Prop := {
  di_r : rside (ds_pd s) (ds_fly s);
  di_w : wside (ds_pd s) (ds_fly s);
  di_combo : pd_wrun (ds_pd s) = true -> 0 < pd_wd (ds_pd s) -> is_combo (ds_pd s) = false;
  di_rseq : older false (pd_rseq (ds_pd s)) (ds_fly s) /\ in_u 32 (pd_rseq (ds_pd s));
  di_wseq : older true (pd_wseq (ds_pd s)) (ds_fly s) /\ in_u 32 (pd_wseq (ds_pd s));
  di_idle : ds_live s && negb (pd_closing (ds_pd s)) = false ->
            pd_rrun (ds_pd s) = false /\ pd_wrun (ds_pd s) = false;
  di_rcov : ds_live s && negb (pd_closing (ds_pd s)) = true ->
            0 < pd_rd (ds_pd s) -> pd_rrun (ds_pd s) = true;
  di_wcov : ds_live s && negb (pd_closing (ds_pd s)) = true ->
            0 < pd_wd (ds_pd s) -> pd_wrun (ds_pd s) || is_combo (ds_pd s) = true;
}.

Lemma current_older write seq fly : older write seq fly -> current write (seq + 1) fly = [].
Proof.
  unfold current. induction 1 as [|t fly Ht _ IH]; cbn; [done|].
  destruct (is_write t), write, (Z.eqb_spec (t_seq t) (seq + 1)); cbn; try done;
    specialize (Ht eq_refl); lia.
Qed.

Lemma older_succ write seq fly : older write seq fly -> older write (seq + 1) fly.
Proof. apply Forall_impl. intros t H Hw. specialize (H Hw). lia. Qed.

Lemma unblock_run mode io pd : exists out v, unblock mode io pd = Ret out (set_gpp mode v pd).
Proof.
  unfold unblock, netpollunblock.
  assert (pd = set_gpp mode (gpp mode pd) pd) as Hid
    by (unfold set_gpp, gpp; destruct (mode =? mode_w), pd; reflexivity).
  destruct (gpp mode pd =? pdReady); [eexists _, _; by rewrite <- Hid|].
  destruct (_ && _); [eexists _, _; by rewrite <- Hid|].
  destruct (gpp mode pd =? pdWait); [by eexists _, _|].
  destruct (negb _); by eexists _, _.
Qed.

(** The two timer stages of setDeadline, for a descriptor whose deadline fields
    have just been changed from those of [pd0]. *)
Lemma setDeadline_rt_ok pd0 pd fly :
  pd_rrun pd = pd_rrun pd0 -> pd_rseq pd = pd_rseq pd0 -> pd_rt pd = pd_rt pd0 ->
  pd_self pd = pd_self pd0 ->
  rside pd0 fly -> older false (pd_rseq pd0) fly -> 0 <= pd_rseq pd0 < 2 ^ 32 - 1 ->
  exists run seq t,
    let pd' := set_rt t (set_rseq seq (set_rrun run pd)) in
    setDeadline_rt (pd_rd pd0) (is_combo pd0) pd = Ret tt pd' /\
    rside pd' fly /\ older false seq fly /\ in_u 32 seq /\ (0 < pd_rd pd -> run = true).
Proof.
  intros Hrun Hseq Ht Hself Hside Hold Hroom. unfold setDeadline_rt. mrun.
  rewrite Hrun. unfold rside, side in Hside.
  destruct (pd_rrun pd0) eqn:Er; cbn [negb andb] in *.
  - destruct (negb (pd_rd pd =? pd_rd pd0) || negb (Bool.eqb (is_combo pd) (is_combo pd0))) eqn:Ech.
    + assert (u32 (pd_rseq pd + 1) = pd_rseq pd0 + 1) as Hu by (rewrite Hseq; word_small).
      cbn [pd_rd set_rseq pd_rseq]. rewrite Hu.
      destruct (Z.ltb_spec 0 (pd_rd pd)) as [Hp|Hn].
      * unfold rt_modify, timer_modify. cbn [pd_rt set_rseq pd_self pd_rseq].
        rewrite (proj2 (Z.leb_gt _ 0) Hp). exists true, (pd_rseq pd0 + 1), (mkTimer (pd_rd pd) (rfn pd) (pd_self pd) (pd_rseq pd0 + 1)).
        split; [destruct pd; cbn in *; subst; reflexivity|].
        unfold rside, side. cbn. rewrite (proj2 (Z.ltb_lt 0 _) Hp), current_older by done.
        split_and!; [left; done|by apply older_succ|golia|done].
      * exists false, (pd_rseq pd0 + 1), (timer_stop (pd_rt pd)).
        split; [destruct pd; cbn in *; subst; reflexivity|].
        unfold rside, side. cbn. rewrite current_older by done.
        split_and!; [done..|by apply older_succ|golia|lia].
    + apply orb_false_iff in Ech as [E1 E2]. apply negb_false_iff in E1, E2.
      apply Z.eqb_eq in E1. apply Bool.eqb_prop in E2.
      eexists true, (pd_rseq pd0), (pd_rt pd0).
      split; [destruct pd; cbn in *; subst; reflexivity|].
      split_and!; [|done|golia|done].
      unfold rside, side. cbn [pd_rrun pd_rd pd_rt pd_rseq set_rt set_rseq set_rrun andb].
      rewrite E1. destruct (0 <? pd_rd pd0); [|done].
      assert (rarm (set_rt (pd_rt pd0) (set_rseq (pd_rseq pd0) (set_rrun true pd))) = rarm pd0) as ->.
      { unfold rarm, rfn.
        change (is_combo (set_rt _ _)) with (is_combo pd). cbn. by rewrite E1, E2, Hself. }
      done.
  - destruct Hside as [Hw Hf]. destruct (Z.ltb_spec 0 (pd_rd pd)) as [Hp|Hn].
    + unfold rt_modify, timer_modify. rewrite (proj2 (Z.leb_gt _ 0) Hp).
      exists true, (pd_rseq pd0), (mkTimer (pd_rd pd) (rfn pd) (pd_self pd) (pd_rseq pd)). split; [destruct pd; cbn in *; subst; reflexivity|].
      unfold rside, side. cbn. rewrite (proj2 (Z.ltb_lt 0 _) Hp), Hf.
      split_and!; [left; by rewrite Hseq|done|golia|done].
    + eexists false, (pd_rseq pd0), (pd_rt pd0).
      split; [destruct pd; cbn in *; subst; reflexivity|].
      unfold rside, side. cbn. split_and!; [done..|golia|lia].
Qed.

Lemma setDeadline_wt_ok pd0 pd fly :
  pd_wrun pd = pd_wrun pd0 -> pd_wseq pd = pd_wseq pd0 -> pd_wt pd = pd_wt pd0 ->
  pd_self pd = pd_self pd0 ->
  wside pd0 fly -> older true (pd_wseq pd0) fly -> 0 <= pd_wseq pd0 < 2 ^ 32 - 1 ->
  (pd_wrun pd0 = true -> 0 < pd_wd pd0 -> is_combo pd0 = false) ->
  exists run seq t,
    let pd' := set_wt t (set_wseq seq (set_wrun run pd)) in
    setDeadline_wt (pd_wd pd0) (is_combo pd0) pd = Ret tt pd' /\
    wside pd' fly /\ older true seq fly /\ in_u 32 seq /\
    (0 < pd_wd pd -> run || is_combo pd = true) /\
    (run = true -> 0 < pd_wd pd -> is_combo pd = false).
Proof.
  intros Hrun Hseq Ht Hself Hside Hold Hroom Hc. unfold setDeadline_wt. mrun.
  rewrite Hrun. unfold wside, side in Hside.
  destruct (pd_wrun pd0) eqn:Er; cbn [negb andb] in *.
  - destruct (negb (pd_wd pd =? pd_wd pd0) || negb (Bool.eqb (is_combo pd) (is_combo pd0))) eqn:Ech.
    + assert (u32 (pd_wseq pd + 1) = pd_wseq pd0 + 1) as Hu by (rewrite Hseq; word_small).
      cbn [pd_wd set_wseq pd_wseq]. rewrite Hu.
      destruct ((0 <? pd_wd pd) && negb (is_combo pd)) eqn:Ew.
      * apply andb_true_iff in Ew as [Hp%Z.ltb_lt Hnc%negb_true_iff].
        unfold wt_modify, timer_modify. cbn [pd_wt set_wseq pd_self pd_wseq].
        rewrite (proj2 (Z.leb_gt _ 0) Hp).
        exists true, (pd_wseq pd0 + 1),
          (mkTimer (pd_wd pd) netpollWriteDeadline (pd_self pd) (pd_wseq pd0 + 1)).
        split; [destruct pd; cbn in *; subst; reflexivity|].
        unfold wside, side. cbn. rewrite (proj2 (Z.ltb_lt 0 _) Hp), current_older by done.
        split_and!; [left; done|by apply older_succ|golia|done|done].
      * exists false, (pd_wseq pd0 + 1), (timer_stop (pd_wt pd)).
        split; [destruct pd; cbn in *; subst; reflexivity|].
        unfold wside, side. cbn. rewrite current_older by done.
        split_and!; [done..|by apply older_succ|golia| |done].
        intros Hp. apply Z.ltb_lt in Hp. rewrite Hp in Ew. by apply negb_false_iff in Ew.
    + apply orb_false_iff in Ech as [E1 E2]. apply negb_false_iff in E1, E2.
      apply Z.eqb_eq in E1. apply Bool.eqb_prop in E2.
      exists true, (pd_wseq pd0), (pd_wt pd0).
      split; [destruct pd; cbn in *; subst; reflexivity|].
      split_and!; [|done|golia|done|].
      * unfold wside, side, warm in *.
        cbn [pd_wrun pd_wd pd_wt pd_wseq pd_self set_wt set_wseq set_wrun andb].
        by rewrite E1, Hself.
      * rewrite E1, E2. done.
  - destruct Hside as [Hw Hf]. destruct ((0 <? pd_wd pd) && negb (is_combo pd)) eqn:Ew.
    + apply andb_true_iff in Ew as [Hp%Z.ltb_lt Hnc%negb_true_iff].
      unfold wt_modify, timer_modify. rewrite (proj2 (Z.leb_gt _ 0) Hp).
      exists true, (pd_wseq pd0),
        (mkTimer (pd_wd pd) netpollWriteDeadline (pd_self pd) (pd_wseq pd)).
      split; [destruct pd; cbn in *; subst; reflexivity|].
      unfold wside, side. cbn. rewrite (proj2 (Z.ltb_lt 0 _) Hp), Hf.
      split_and!; [left; by rewrite Hseq|done|golia|done|done].
    + exists false, (pd_wseq pd0), (pd_wt pd0).
      split; [destruct pd; cbn in *; subst; reflexivity|].
      unfold wside, side. cbn. split_and!; [done..|golia| |done].
      intros Hp. apply Z.ltb_lt in Hp. rewrite Hp in Ew. by apply negb_false_iff in Ew.
Qed.

Lemma seq_in_u x : in_u 32 x -> x < 2 ^ 32 - 1 -> 0 <= x < 2 ^ 32 - 1.
Proof. unfold in_u. lia. Qed.

Lemma setDeadline_ok now d mode pd fly :
  dinv (mkDs true pd fly) -> seq_room pd ->
  exists out pd', setDeadline_locked now d mode pd = Ret out pd' /\ dinv (mkDs true pd' fly).
Proof.
  intros HI [Rr Rw]. pose proof HI as [Hr Hw Hc [Hro Hri] [Hwo Hwi] Hid Hrc Hwc]. cbn in Hr, Hw, Hc, Hro, Hri, Hwo, Hwi, Hid, Hrc, Hwc.
  unfold setDeadline_locked. mrun.
  destruct (pd_closing pd) eqn:Ecl; [by eexists _, pd|].
  set (pd1 := publishInfo _).
  assert (pd_rrun pd1 = pd_rrun pd /\ pd_rseq pd1 = pd_rseq pd /\ pd_rt pd1 = pd_rt pd /\
          pd_self pd1 = pd_self pd /\ pd_wrun pd1 = pd_wrun pd /\ pd_wseq pd1 = pd_wseq pd /\
          pd_wt pd1 = pd_wt pd /\ pd_closing pd1 = false) as (F1 & F2 & F3 & F4 & F5 & F6 & F7 & F8).
  { subst pd1. destruct (_ || (mode =? mode_rw)), (_ || (mode =? mode_rw)); done. }
  clearbody pd1.
  destruct (setDeadline_rt_ok pd pd1 fly F1 F2 F3 F4 Hr Hro (seq_in_u _ Hri Rr))
    as (run & seq & t & -> & Hr' & Hro' & Hri' & Hrun).
  set (pd2 := set_rt _ _) in *.
  destruct (setDeadline_wt_ok pd pd2 fly F5 F6 F7 F4 Hw Hwo (seq_in_u _ Hwi Rw) Hc)
    as (wrun & wseq & wt & -> & Hw' & Hwo' & Hwi' & Hcov & Hcmb).
  set (pd3 := set_wt _ _) in *.
  assert (forall v1 v2, dinv (mkDs true (set_gpp mode_w v1 (set_gpp mode_r v2 pd3)) fly)) as Hinv.
  { intros v1 v2. split; cbn; try done; rewrite F8; done. }
  assert (pd3 = set_gpp mode_w (pd_wg pd3) (set_gpp mode_r (pd_rg pd3) pd3)) as Hid3 by done.
  destruct (pd_rd pd3 <? 0).
  - destruct (unblock_run mode_r false pd3) as ([rg d1] & v2 & ->).
    destruct (pd_wd _ <? 0).
    + destruct (unblock_run mode_w false (set_gpp mode_r v2 pd3)) as ([wg d2] & v1 & ->). eauto.
    + eexists _, _. split; [reflexivity|]. apply (Hinv (pd_wg pd3) v2).
  - destruct (pd_wd _ <? 0).
    + destruct (unblock_run mode_w false pd3) as ([wg d2] & v1 & ->).
      eexists _, _. split; [reflexivity|]. apply (Hinv v1 (pd_rg pd3)).
    + eexists _, _. split; [reflexivity|]. apply (Hinv (pd_wg pd3) (pd_rg pd3)).
Qed.

Lemma pollUnblock_ok pd fly :
  dinv (mkDs true pd fly) -> seq_room pd -> pd_closing pd = false ->
  exists out pd', pollUnblock_locked pd = Ret out pd' /\ dinv (mkDs true pd' fly).
Proof.
  intros HI [Rr Rw] Ecl. pose proof HI as [Hr Hw Hc [Hro Hri] [Hwo Hwi] Hid Hrc Hwc].
  cbn in Hr, Hw, Hc, Hro, Hri, Hwo, Hwi, Hid, Hrc, Hwc.
  unfold pollUnblock_locked. mrun. rewrite Ecl.
  set (pd1 := publishInfo _).
  assert (pd_rrun pd1 = pd_rrun pd /\ pd_rseq pd1 = pd_rseq pd + 1 /\ pd_rt pd1 = pd_rt pd /\
          pd_wrun pd1 = pd_wrun pd /\ pd_wseq pd1 = pd_wseq pd + 1 /\
          pd_wt pd1 = pd_wt pd /\ pd_closing pd1 = true) as (F1 & F2 & F3 & F4 & F5 & F6 & F7).
  { split_and!; try done; apply wrapu_small; golia. }
  clearbody pd1.
  destruct (unblock_run mode_r false pd1) as ([rg d1] & v1 & ->).
  destruct (unblock_run mode_w false (set_gpp mode_r v1 pd1)) as ([wg d2] & v2 & ->).
  eexists _, _. split; [reflexivity|].
  assert (current false (pd_rseq pd1) fly = []) as Cr by (rewrite F2; by apply current_older).
  assert (current true (pd_wseq pd1) fly = []) as Cw by (rewrite F5; by apply current_older).
  assert (pd_rrun pd1 = false -> t_when (pd_rt pd1) = 0) as Tr.
  { rewrite F1, F3. intros E. unfold rside, side in Hr. rewrite E in Hr. apply Hr. }
  assert (pd_wrun pd1 = false -> t_when (pd_wt pd1) = 0) as Tw.
  { rewrite F4, F6. intros E. unfold wside, side in Hw. rewrite E in Hw. apply Hw. }
  cbn [pd_rrun set_gpp Z.eqb mode_r mode_w Pos.eqb set_rg set_wg].
  destruct (pd_rrun pd1) eqn:E1, (pd_wrun pd1) eqn:E2; cbn; rewrite ?E1, ?E2;
    split; unfold rside, wside, side; cbn; rewrite ?E1, ?E2, ?F7; cbn;
    try done; try (split; [auto|done]);
    try (split; [rewrite ?F2, ?F5; by apply older_succ|rewrite ?F2, ?F5; golia]).
Qed.

Lemma pollOpen_ok a fd pd pd' fly :
  dinv (mkDs false pd fly) -> seq_room pd ->
  pollOpen_locked a fd pd = Ret tt pd' -> dinv (mkDs true pd' fly).
Proof.
  intros HI [Rr Rw]. pose proof HI as [Hr Hw Hc [Hro Hri] [Hwo Hwi] Hid Hrc Hwc].
  cbn in Hr, Hw, Hc, Hro, Hri, Hwo, Hwi, Hid, Hrc, Hwc. destruct (Hid eq_refl) as [Er Ew].
  unfold rside, wside, side in Hr, Hw. rewrite Er in Hr. rewrite Ew in Hw. cbn in Hr, Hw.
  unfold pollOpen_locked. mrun. destruct (_ && _); [done|]. destruct (_ && _); [done|].
  intros [= <-].
  set (pdf := if pd_fdseq _ =? 0 then _ else _).
  assert (pd_rrun pdf = false /\ pd_rseq pdf = pd_rseq pd /\ pd_rt pdf = pd_rt pd /\
          pd_wrun pdf = false /\ pd_wseq pdf = pd_wseq pd /\ pd_wt pdf = pd_wt pd)
    as (F1 & F2 & F3 & F4 & F5 & F6) by (subst pdf; destruct (_ =? 0); done).
  clearbody pdf. unfold setEventErr. cbn [negb andb Z.eqb].
  destruct (negb (Bool.eqb _ false)); split; unfold rside, wside, side; cbn;
    rewrite ?F1, ?F2, ?F3, ?F4, ?F5, ?F6; cbn; try done;
    rewrite ?(wrapu_small 32 (pd_rseq pd + 1)), ?(wrapu_small 32 (pd_wseq pd + 1)) by golia;
    rewrite ?current_older by done; try done;
    try (split; [by apply older_succ|golia]);
    (split; [first [apply Hr|apply Hw]|done]).
Qed.

(** Changes that leave the timers' fields alone preserve the invariant. *)
Definition same_timing (pd pd' : pollDesc) : Prop :=
  pd_closing pd' = pd_closing pd /\ pd_rrun pd' = pd_rrun pd /\ pd_wrun pd' = pd_wrun pd /\
  pd_rseq pd' = pd_rseq pd /\ pd_wseq pd' = pd_wseq pd /\ pd_rd pd' = pd_rd pd /\
  pd_wd pd' = pd_wd pd /\ pd_rt pd' = pd_rt pd /\ pd_wt pd' = pd_wt pd /\
  pd_self pd' = pd_self pd.

Lemma same_timing_inv live pd pd' fly :
  same_timing pd pd' -> dinv (mkDs live pd fly) -> dinv (mkDs live pd' fly).
Proof.
  intros (E1 & E2 & E3 & E4 & E5 & E6 & E7 & E8 & E9 & E10) [Hr Hw Hc Hro Hwo Hid Hrc Hwc].
  cbn in *. unfold rside, wside, rarm, warm, rfn, is_combo in *.
  split; cbn; unfold rside, wside, rarm, warm, rfn, is_combo;
    rewrite ?E1, ?E2, ?E3, ?E4, ?E5, ?E6, ?E7, ?E8, ?E9, ?E10; done.
Qed.

(** What firing does to one side: the armed timer becomes the one in flight. *)
Lemma side_fire want arm t fly cur :
  side want arm t fly -> 0 < t_when t ->
  cur = t :: fly -> side want arm (timer_stop t) cur.
Proof.
  unfold side. intros Hs Hp ->. destruct want; [|lia].
  destruct Hs as [[-> ->]|[H _]]; [|lia]. right. split; [done|]. by exists arm.
Qed.

Lemma side_armed want arm t fly : side want arm t fly -> 0 < t_when t ->
  want = true /\ t = arm /\ fly = [].
Proof. unfold side. destruct want; [|lia]. intros [[-> ->]|[H _]]; [done|lia]. Qed.

Lemma current_cons write seq t fly :
  current write seq (t :: fly) =
    if Bool.eqb (is_write t) write && (t_seq t =? seq) then t :: current write seq fly
    else current write seq fly.
Proof. done. Qed.

Lemma fire_rt_ok live pd fly :
  dinv (mkDs live pd fly) -> 0 < t_when (pd_rt pd) ->
  dinv (mkDs live (rt_stop pd) (pd_rt pd :: fly)).
Proof.
  intros [Hr Hw Hc [Hro Hri] [Hwo Hwi] Hid Hrc Hwc] Hp. cbn in *.
  destruct (side_armed _ _ _ _ Hr Hp) as (Hwant & Ht & Hcur).
  assert (is_write (pd_rt pd) = false) as Hnw.
  { rewrite Ht. unfold is_write, rarm, rfn. cbn. by destruct (is_combo pd). }
  assert (t_seq (pd_rt pd) = pd_rseq pd) as Hsq by (by rewrite Ht).
  split; cbn; try done.
  - unfold rside. cbn. eapply side_fire; [exact Hr|done|].
    rewrite current_cons, Hnw, Hsq, Z.eqb_refl. done.
  - unfold wside. cbn. rewrite current_cons, Hnw. exact Hw.
  - split; [constructor; [|done]; rewrite Hsq; lia|done].
  - split; [constructor; [|done]; by rewrite Hnw|done].
Qed.

Lemma fire_wt_ok live pd fly :
  dinv (mkDs live pd fly) -> 0 < t_when (pd_wt pd) ->
  dinv (mkDs live (wt_stop pd) (pd_wt pd :: fly)).
Proof.
  intros [Hr Hw Hc [Hro Hri] [Hwo Hwi] Hid Hrc Hwc] Hp. cbn in *.
  destruct (side_armed _ _ _ _ Hw Hp) as (Hwant & Ht & Hcur).
  assert (is_write (pd_wt pd) = true) as Hnw by (by rewrite Ht).
  assert (t_seq (pd_wt pd) = pd_wseq pd) as Hsq by (by rewrite Ht).
  split; cbn; try done.
  - unfold rside. cbn. rewrite current_cons, Hnw. exact Hr.
  - unfold wside. cbn. eapply side_fire; [exact Hw|done|].
    rewrite current_cons, Hnw, Hsq, Z.eqb_refl. done.
  - split; [constructor; [|done]; by rewrite Hnw|done].
  - split; [constructor; [|done]; rewrite Hsq; lia|done].
Qed.

Lemma current_app write seq l1 l2 :
  current write seq (l1 ++ l2) = current write seq l1 ++ current write seq l2.
Proof. apply List.filter_app. Qed.

(** Dropping a callback that is not current changes nothing. *)
Lemma current_drop write seq l1 t l2 :
  Bool.eqb (is_write t) write && (t_seq t =? seq) = false ->
  current write seq (l1 ++ l2) = current write seq (l1 ++ t :: l2).
Proof. intros H. by rewrite !current_app, current_cons, H. Qed.

Lemma older_drop write seq l1 t l2 : older write seq (l1 ++ t :: l2) -> older write seq (l1 ++ l2).
Proof.
  unfold older. rewrite !Forall_app, Forall_cons_iff. intros (H1 & _ & H2). by split.
Qed.

(** A current callback in flight: its timer is wanted, and it is the only one. *)
Lemma side_flying want arm tm write seq l1 t l2 :
  side want arm tm (current write seq (l1 ++ t :: l2)) ->
  is_write t = write -> t_seq t = seq ->
  want = true /\ t_fn t = t_fn arm /\ t_when tm = 0 /\ current write seq (l1 ++ l2) = [].
Proof.
  intros Hs Hw Hq. rewrite current_app, current_cons, Hw, Hq, Z.eqb_refl in Hs.
  rewrite (proj2 (Bool.eqb_true_iff write write) eq_refl) in Hs. cbn [andb] in Hs. rewrite current_app. unfold side in Hs.
  destruct want.
  - destruct Hs as [[_ H]|[H1 (t' & H2 & H3)]]; [by destruct (current write seq l1)|].
    destruct (current write seq l1) as [|x l]; cbn in H2.
    + injection H2 as <- ->. done.
    + injection H2 as -> H2. by destruct l.
  - destruct Hs as [_ H]. by destruct (current write seq l1).
Qed.

Lemma side_off arm tm fly : t_when tm = 0 -> fly = [] -> side false arm tm fly.
Proof. done. Qed.

Lemma is_combo_expired pd : 0 < pd_rd pd -> is_combo pd = true -> 0 < pd_wd pd.
Proof. unfold is_combo. intros H1 [_ H2%Z.eqb_eq]%andb_true_iff. lia. Qed.

Lemma same_timing_refl pd : same_timing pd pd.
Proof. by split_and!. Qed.

Lemma same_timing_gpp mode v pd : same_timing pd (set_gpp mode v pd).
Proof. unfold set_gpp. by destruct (mode =? mode_w). Qed.

(** A stale callback is ignored. *)
Lemma run_stale t pd :
  t_seq t <> (if is_write t then pd_wseq pd else pd_rseq pd) ->
  run_locked t pd = Ret (0, 0, 0) pd.
Proof.
  unfold run_locked, deadlineimpl_locked, is_write. mrun.
  destruct (t_fn t); intros H%Z.eqb_neq; cbn; by rewrite H.
Qed.

Lemma drop_inv live pd l1 t l2 :
  dinv (mkDs live pd (l1 ++ t :: l2)) ->
  t_seq t <> (if is_write t then pd_wseq pd else pd_rseq pd) ->
  dinv (mkDs live pd (l1 ++ l2)).
Proof.
  intros [Hr Hw Hc [Hro Hri] [Hwo Hwi] Hid Hrc Hwc] Hst. cbn in *.
  split; cbn; try done; try (split; [by eapply older_drop|done]).
  - unfold rside in *. rewrite (current_drop _ _ _ t); [done|].
    destruct (is_write t); [done|]. by apply Z.eqb_neq in Hst.
  - unfold wside in *. rewrite (current_drop _ _ _ t); [done|].
    destruct (is_write t); [|done]. by apply Z.eqb_neq in Hst.
Qed.

(** Running the current read callback (for the read side alone or for both). *)
Lemma run_read_ok live pd l1 t l2 :
  dinv (mkDs live pd (l1 ++ t :: l2)) -> is_write t = false -> t_seq t = pd_rseq pd ->
  exists out pd', run_locked t pd = Ret out pd' /\ dinv (mkDs live pd' (l1 ++ l2)).
Proof.
  intros [Hr Hw Hc [Hro Hri] [Hwo Hwi] Hid Hrc Hwc] Hnw Hsq. cbn in *.
  destruct (side_flying _ _ _ _ _ _ _ _ Hr Hnw Hsq) as ([Hrun Hrd]%andb_true_iff & Hfn & Hwhen & Hcur).
  apply Z.ltb_lt in Hrd. cbn in Hfn.
  assert (wside pd (l1 ++ l2)) as Hw'.
  { unfold wside in *. rewrite (current_drop _ _ _ t); [done|]. by rewrite Hnw. }
  apply older_drop in Hro, Hwo.
  unfold run_locked, deadlineimpl_locked. mrun. unfold rfn in Hfn.
  destruct (is_combo pd) eqn:Eco; rewrite Hfn; cbn [negb]; rewrite Hsq, Z.eqb_refl; cbn [negb];
    rewrite (proj2 (Z.leb_gt _ 0) Hrd), Hrun; cbn [negb orb].
  - pose proof (is_combo_expired _ Hrd Eco) as Hwd.
    assert (pd_wrun pd = false) as Ew
      by (destruct (pd_wrun pd); [discriminate (Hc eq_refl Hwd)|done]).
    destruct (unblock_run mode_r false (publishInfo (set_rd (-1) pd))) as ([rg d1] & v1 & ->).
    cbn [pd_wd set_gpp mode_r mode_w Z.eqb Pos.eqb set_rg publishInfo set_atomicInfo set_rd].
    rewrite (proj2 (Z.leb_gt _ 0) Hwd). cbn [negb orb andb]. rewrite andb_false_r.
    destruct (unblock_run mode_w false (publishInfo (set_wd (-1)
      (set_gpp mode_r v1 (publishInfo (set_rd (-1) pd)))))) as ([wg d2] & v2 & Eu).
    change (unblock mode_w false _) with
      (unblock mode_w false (publishInfo (set_wd (-1)
        (set_gpp mode_r v1 (publishInfo (set_rd (-1) pd)))))). rewrite Eu.
    eexists _, _. split; [reflexivity|].
    unfold wside, side in Hw'. rewrite Ew in Hw'. cbn in Hw'.
    split; cbn; unfold rside, wside; cbn; rewrite ?Hrun, ?Ew; cbn; try done.
    intros E. destruct (Hid E) as [Hx _]. congruence.
  - destruct (unblock_run mode_r false (publishInfo (set_rd (-1) pd))) as ([rg d1] & v1 & ->).
    eexists _, _. split; [reflexivity|].
    split; cbn; unfold rside; cbn; rewrite ?Hrun; cbn; try done.
    intros E. destruct (Hid E) as [Hx _]. congruence.
Qed.

Lemma run_write_ok live pd l1 t l2 :
  dinv (mkDs live pd (l1 ++ t :: l2)) -> is_write t = true -> t_seq t = pd_wseq pd ->
  exists out pd', run_locked t pd = Ret out pd' /\ dinv (mkDs live pd' (l1 ++ l2)).
Proof.
  intros [Hr Hw Hc [Hro Hri] [Hwo Hwi] Hid Hrc Hwc] Hnw Hsq. cbn in *.
  destruct (side_flying _ _ _ _ _ _ _ _ Hw Hnw Hsq) as ([Hrun Hwd]%andb_true_iff & Hfn & Hwhen & Hcur).
  apply Z.ltb_lt in Hwd. cbn in Hfn. specialize (Hc Hrun Hwd).
  assert (rside pd (l1 ++ l2)) as Hr'.
  { unfold rside in *. rewrite (current_drop _ _ _ t); [done|]. by rewrite Hnw. }
  apply older_drop in Hro, Hwo.
  unfold run_locked, deadlineimpl_locked. mrun. rewrite Hfn. cbn [negb].
  rewrite Hsq, Z.eqb_refl. cbn [negb]. rewrite (proj2 (Z.leb_gt _ 0) Hwd), Hrun. cbn [negb orb andb].
  destruct (unblock_run mode_w false (publishInfo (set_wd (-1) pd))) as ([wg d1] & v1 & ->).
  eexists _, _. split; [reflexivity|].
  assert (is_combo (set_wd (-1) pd) = false) as Hc'.
  { unfold is_combo. cbn [pd_rd pd_wd set_wd].
    destruct (Z.ltb_spec 0 (pd_rd pd)); [|done]. cbn [andb]. apply Z.eqb_neq. lia. }
  split; cbn; try done.
  - unfold rside, rarm, rfn in *. cbn [pd_rrun pd_rd pd_rt pd_rseq pd_self set_gpp mode_w Z.eqb
      Pos.eqb set_wg publishInfo set_atomicInfo set_wd].
    change (is_combo (set_wg v1 _)) with (is_combo (set_wd (-1) pd)). rewrite Hc'. rewrite Hc in Hr'. exact Hr'.
  - unfold wside. cbn. by rewrite Hrun.
Qed.

Lemma run_ok live pd l1 t l2 :
  dinv (mkDs live pd (l1 ++ t :: l2)) ->
  exists out pd', run_locked t pd = Ret out pd' /\ dinv (mkDs live pd' (l1 ++ l2)).
Proof.
  intros HI.
  destruct (Z.eq_dec (t_seq t) (if is_write t then pd_wseq pd else pd_rseq pd)) as [E|E].
  - destruct (is_write t) eqn:Ew; [by apply run_write_ok|by apply run_read_ok].
  - rewrite run_stale by done. eexists _, _. split; [reflexivity|]. by eapply drop_inv.
Qed.

Lemma setEventErr_timing b pd : same_timing pd (setEventErr b 0 pd).
Proof. unfold setEventErr. cbn. by destruct (negb _). Qed.

Lemma pollClose_ok pd fly :
  pd_closing pd = true -> dinv (mkDs true pd fly) -> dinv (mkDs false (free_locked pd) fly).
Proof.
  intros Hcl HI. apply (same_timing_inv false pd); [done|].
  destruct HI as [Hr Hw Hc Hro Hwo Hid Hrc Hwc]. cbn in *. rewrite Hcl in Hid.
  split; cbn; try done.
Qed.

Lemma pollClose_check_inv pd pd' : pollClose_check pd = Ret tt pd' -> pd' = pd /\ pd_closing pd = true.
Proof.
  unfold pollClose_check. mrun. destruct (pd_closing pd); [|done]. cbn.
  destruct (_ && _); [done|]. destruct (_ && _); [done|]. by intros [= ->].
Qed.

Lemma dinv_step s s' : dinv s -> dstep s s' -> dinv s'.
Proof.
  intros HI Hs. destruct Hs.
  - by eapply pollOpen_ok.
  - edestruct setDeadline_ok as (o & p & E & H'); [exact HI|done|].
    rewrite E in H0. by injection H0 as <- <-.
  - destruct (pd_closing pd) eqn:Ecl.
    + unfold pollUnblock_locked in H0. mrun. by rewrite Ecl in H0.
    + edestruct pollUnblock_ok as (o & p & E & H'); [exact HI|done..|].
      rewrite E in H0. by injection H0 as <- <-.
  - destruct (pollClose_check_inv _ _ H) as [-> Hcl]. by apply pollClose_ok.
  - by apply fire_rt_ok.
  - by apply fire_wt_ok.
  - destruct (run_ok _ _ _ _ _ HI) as (o & p & E & H').
    rewrite E in H. by injection H as <- <-.
  - eapply same_timing_inv; [apply same_timing_gpp|done].
  - eapply same_timing_inv; [apply setEventErr_timing|done].
Qed.

Lemma dinv_init : dinv dinit.
Proof. split; cbn; try done; (split; [constructor|golia]). Qed.

Lemma dinv_reachable s : reachable s -> dinv s.
Proof. induction 1; [apply dinv_init|by eapply dinv_step]. Qed.

(** The published summary is only changed together with what it summarises. *)
Definition same_info (pd pd' : pollDesc) : Prop :=
  pd_closing pd' = pd_closing pd /\ pd_rd pd' = pd_rd pd /\ pd_wd pd' = pd_wd pd /\
  pd_atomicInfo pd' = pd_atomicInfo pd.

Lemma same_info_refl pd : same_info pd pd.
Proof. by split_and!. Qed.

Lemma same_info_trans p1 p2 p3 : same_info p1 p2 -> same_info p2 p3 -> same_info p1 p3.
Proof. intros (?&?&?&?) (?&?&?&?). split_and!; congruence. Qed.

Lemma same_info_published pd pd' : same_info pd pd' -> info_published pd -> info_published pd'.
Proof. intros (E1 & E2 & E3 & E4). unfold info_published. by rewrite E1, E2, E3, E4. Qed.

Lemma same_info_gpp mode v pd : same_info pd (set_gpp mode v pd).
Proof. unfold set_gpp. by destruct (mode =? mode_w). Qed.

Lemma unblock_info mode io pd out pd' : unblock mode io pd = Ret out pd' -> same_info pd pd'.
Proof.
  destruct (unblock_run mode io pd) as (o & v & ->). intros [= <- <-]. apply same_info_gpp.
Qed.

Lemma setDeadline_rt_info rd0 c0 pd out pd' : setDeadline_rt rd0 c0 pd = Ret out pd' -> same_info pd pd'.
Proof.
  unfold setDeadline_rt, rt_modify, timer_modify. mrun.
  repeat (case_match; simplify_eq; try done); intros [= _ <-]; unfold same_info; by split_and!.
Qed.

Lemma setDeadline_wt_info wd0 c0 pd out pd' : setDeadline_wt wd0 c0 pd = Ret out pd' -> same_info pd pd'.
Proof.
  unfold setDeadline_wt, wt_modify, timer_modify. mrun.
  repeat (case_match; simplify_eq; try done); intros [= _ <-]; unfold same_info; by split_and!.
Qed.

Lemma setEventErr_published b pd : info_published pd -> info_published (setEventErr b 0 pd).
Proof.
  unfold info_published. pose proof (info_bits (pd_atomicInfo (setEventErr b 0 pd))) as (-> & _ & -> & ->).
  pose proof (info_bits (pd_atomicInfo pd)) as (-> & _ & -> & ->).
  rewrite !setEventErr_bit by lia. cbn [Z.eqb Pos.eqb].
  destruct (setEventErr_timing b pd) as (-> & _ & _ & _ & _ & -> & -> & _). done.
Qed.

Lemma setDeadline_published now d mode pd out pd' :
  info_published pd -> setDeadline_locked now d mode pd = Ret out pd' -> info_published pd'.
Proof.
  intros HI. unfold setDeadline_locked. mrun. destruct (pd_closing pd); [by intros [= _ <-]|].
  set (pd1 := publishInfo _).
  assert (info_published pd1) as H1 by apply publishInfo_published. clearbody pd1. clear HI.
  destruct (setDeadline_rt _ _ pd1) as [[] pd2| |] eqn:E2; [|done..].
  apply setDeadline_rt_info in E2.
  destruct (setDeadline_wt _ _ pd2) as [[] pd3| |] eqn:E3; [|done..].
  apply setDeadline_wt_info in E3.
  intros H. apply (same_info_published pd1); [|done].
  eapply same_info_trans; [exact E2|]. eapply same_info_trans; [exact E3|].
  destruct (pd_rd pd3 <? 0).
  - destruct (unblock mode_r false pd3) as [[rg d1] pd4| |] eqn:E4; [|done..].
    eapply same_info_trans; [by eapply unblock_info|].
    destruct (pd_wd pd3 <? 0); [|injection H as _ <-; apply same_info_refl].
    destruct (unblock mode_w false pd4) as [[wg d2] pd5| |] eqn:E5; [|done..].
    injection H as _ <-. by eapply unblock_info.
  - destruct (pd_wd pd3 <? 0); [|injection H as _ <-; apply same_info_refl].
    destruct (unblock mode_w false pd3) as [[wg d2] pd5| |] eqn:E5; [|done..].
    injection H as _ <-. by eapply unblock_info.
Qed.

Lemma pollUnblock_published pd out pd' : pollUnblock_locked pd = Ret out pd' -> info_published pd'.
Proof.
  unfold pollUnblock_locked. mrun. destruct (pd_closing pd); [done|].
  set (pd1 := publishInfo _).
  assert (info_published pd1) as H1 by apply publishInfo_published. clearbody pd1.
  destruct (unblock mode_r false pd1) as [[rg d1] pd2| |] eqn:E2; [|done..].
  destruct (unblock mode_w false pd2) as [[wg d2] pd3| |] eqn:E3; [|done..].
  intros [= _ <-]. apply (same_info_published pd3).
  - destruct (pd_rrun pd3); cbn [pd_wrun set_rrun rt_stop set_rt];
      (destruct (pd_wrun pd3); by repeat split).
  - apply (same_info_published pd1); [|done].
    eapply same_info_trans; by eapply unblock_info.
Qed.

Lemma pollOpen_published a fd pd pd' : pollOpen_locked a fd pd = Ret tt pd' -> info_published pd'.
Proof.
  unfold pollOpen_locked. mrun. destruct (_ && _); [done|]. destruct (_ && _); [done|].
  intros [= <-]. apply publishInfo_published.
Qed.

Lemma run_published t pd out pd' :
  info_published pd -> run_locked t pd = Ret out pd' -> info_published pd'.
Proof.
  intros HI. unfold run_locked, deadlineimpl_locked. mrun.
  assert (forall mode p g p', unblock mode false (publishInfo p) = Ret g p' -> info_published p') as Hu.
  { intros mode p g p' E. eapply same_info_published; [by eapply unblock_info|].
    apply publishInfo_published. }
  destruct (t_fn t); cbn [negb]; (destruct (negb _); [by intros [= _ <-]|]).
  - destruct (_ || _); [done|].
    destruct (unblock mode_r false _) as [[rg d1] pd1| |] eqn:E1; [|done..].
    destruct (_ || _); [done|].
    destruct (unblock mode_w false _) as [[wg d2] pd2| |] eqn:E2; [|done..].
    intros [= _ <-]. by eapply Hu.
  - destruct (_ || _); [done|].
    destruct (unblock mode_r false _) as [[rg d1] pd1| |] eqn:E1; [|done..].
    intros [= _ <-]. by eapply Hu.
  - destruct (_ || _); [done|].
    destruct (unblock mode_w false _) as [[wg d1] pd1| |] eqn:E1; [|done..].
    intros [= _ <-]. by eapply Hu.
Qed.

Lemma published_reachable s : reachable s -> info_published (ds_pd s).
Proof.
  induction 1 as [|s s' _ IH Hs]; [done|]. destruct Hs; cbn [ds_pd] in *.
  - eapply pollOpen_published. eassumption.
  - eapply setDeadline_published; eassumption.
  - eapply pollUnblock_published. eassumption.
  - apply publishInfo_published.
  - done.
  - done.
  - eapply run_published; eassumption.
  - eapply same_info_published; [apply same_info_gpp|done].
  - by apply setEventErr_published.
Qed.

(** C12: in every history of a descriptor (opened, given deadlines, unblocked,
    closed and reused, its timers firing and their callbacks running at any
    later time), no operation hits an internal-consistency throw: the callbacks
    never find an inconsistent deadline, and no timer is ever set to a time
    that is not positive. *)
Theorem deadline_timers_never_throw s :
  reachable s ->
  (forall t, t ∈ ds_fly s -> returns (run_locked t (ds_pd s))) /\
  (ds_live s = true -> seq_room (ds_pd s) ->
   (forall now d mode, returns (setDeadline_locked now d mode (ds_pd s))) /\
   (pd_closing (ds_pd s) = false -> returns (pollUnblock_locked (ds_pd s)))).
Proof.
  intros HR. destruct s as [live pd fly]. apply dinv_reachable in HR. cbn [ds_pd ds_fly ds_live]. split.
  - intros t (l1 & l2 & ->)%list_elem_of_split.
    by destruct (run_ok _ _ _ _ _ HR) as (o & p & -> & _).
  - intros -> Hroom. split.
    + intros now d mode. by destruct (setDeadline_ok now d mode _ _ HR Hroom) as (o & p & -> & _).
    + intros Hcl. by destruct (pollUnblock_ok _ _ HR Hroom Hcl) as (o & p & -> & _).
Qed.

(** The timer [tm] will run [f] for this deadline, or already fired and its
    callback [f] with the current sequence number is in flight. *)
Definition covered (f : deadline_fn) (when seq : Z) (tm : timer) (fly : list timer) : Prop :=
  (t_when tm = when /\ t_fn tm = f /\ t_seq tm = seq) \/
  (exists t, t ∈ fly /\ t_fn t = f /\ t_seq t = seq).

Lemma side_covered arm tm w seq fly :
  side true arm tm (current w seq fly) -> t_seq arm = seq ->
  covered (t_fn arm) (t_when arm) seq tm fly.
Proof.
  intros [[-> _]|(_ & t' & Hf & Hfn)] Hs; [left; done|]. right. exists t'.
  assert (t' ∈ current w seq fly) as Hin by (rewrite Hf; by left).
  apply list_elem_of_In, filter_In in Hin as [Hin [_ Hq%Z.eqb_eq]%andb_true_iff].
  apply list_elem_of_In in Hin. done.
Qed.

(** C37: no deadline is lost: while a descriptor is open, a read deadline in the
    future is always covered by the read timer, and a write deadline by the
    write timer or, when both are the same, by the combined one. *)
Theorem deadlines_always_covered s :
  reachable s -> ds_live s = true -> pd_closing (ds_pd s) = false ->
  let pd := ds_pd s in
  (0 < pd_rd pd ->
     covered (if pd_rd pd =? pd_wd pd then netpollDeadline else netpollReadDeadline)
       (pd_rd pd) (pd_rseq pd) (pd_rt pd) (ds_fly s)) /\
  (0 < pd_wd pd -> pd_rd pd <> pd_wd pd ->
     covered netpollWriteDeadline (pd_wd pd) (pd_wseq pd) (pd_wt pd) (ds_fly s)).
Proof.
  intros HR Hl Hcl. apply dinv_reachable in HR as [Hr Hw Hc Hro Hwo Hid Hrc Hwc].
  rewrite Hl, Hcl in *. specialize (Hrc eq_refl). specialize (Hwc eq_refl). split.
  - intros Hp. unfold rside in Hr. rewrite Hrc in Hr by done.
    rewrite (proj2 (Z.ltb_lt 0 _) Hp) in Hr. cbn [andb] in Hr.
    apply side_covered in Hr; [|done]. cbn in Hr. unfold rfn, is_combo in Hr.
    by rewrite (proj2 (Z.ltb_lt 0 _) Hp) in Hr.
  - intros Hp Hne. unfold wside in Hw. specialize (Hwc Hp). unfold is_combo in Hwc.
    rewrite (proj2 (Z.eqb_neq _ _) Hne), andb_false_r, orb_false_r in Hwc.
    rewrite Hwc, (proj2 (Z.ltb_lt 0 _) Hp) in Hw. by apply side_covered in Hw.
Qed.

(** Netpollcheckerr, which reads atomicInfo without the lock, reports in
    every reachable state exactly what the locked fields say. *)
Theorem checkerr_reports_locked_fields s mode :
  reachable s ->
  netpollcheckerr (ds_pd s) mode =
    checkerr_spec (pd_closing (ds_pd s)) (pd_rd (ds_pd s) <? 0) (pd_wd (ds_pd s) <? 0)
      (info_eventErr (pd_atomicInfo (ds_pd s))) mode.
Proof. intros HR. by apply netpollcheckerr_published, published_reachable. Qed.
End Deadlines.

(** ** Blocking *)
Section blocking.
Context {B : Type}.

Lemma on_pd_run {A} a (m : PdM A) (s : npst B) pd x pd' :
  np_pds s !! a = Some pd -> m pd = Ret x pd' ->
  on_pd a m s = Ret x (set_pds (<[a := pd']> (np_pds s)) s).
Proof. intros Ha Hm. unfold on_pd. by rewrite Ha, Hm. Qed.

Lemma on_pd_read {A} a (f : pollDesc -> A) (s : npst B) pd :
  np_pds s !! a = Some pd -> on_pd a (let! p := go_get in go_ret (f p)) s = Ret (f pd) s.
Proof.
  intros Ha. erewrite on_pd_run by done. f_equal.
  unfold set_pds. rewrite insert_id by done. by destruct s.
Qed.

Lemma on_pd_eq {A} a (m : PdM A) (s : npst B) pd :
  np_pds s !! a = Some pd ->
  on_pd a m s = match m pd with
                | Ret x pd' => Ret x (set_pds (<[a := pd']> (np_pds s)) s)
                | Throw msg pd' => Throw msg (set_pds (<[a := pd']> (np_pds s)) s)
                | NoFuel => NoFuel
                end.
Proof. intros Ha. unfold on_pd. by rewrite Ha. Qed.

(** The state in which the goroutine [gp] has parked on [a]. *)
Definition parked (gp a mode : Z) (pd : pollDesc) (s : npst B) : npst B :=
  set_waiters (u32 (np_waiters s + 1)) (set_pds (<[a := set_gpp mode gp pd]> (np_pds s)) s).

Lemma gpp_set mode v pd : gpp mode (set_gpp mode v pd) = v.
Proof. unfold gpp, set_gpp. by destruct (mode =? mode_w). Qed.

Lemma set_gpp_set mode v1 v2 pd : set_gpp mode v1 (set_gpp mode v2 pd) = set_gpp mode v1 pd.
Proof. unfold set_gpp. by destruct (mode =? mode_w). Qed.

Lemma checkerr_gpp mode v pd m : netpollcheckerr (set_gpp mode v pd) m = netpollcheckerr pd m.
Proof. unfold set_gpp. by destruct (mode =? mode_w). Qed.

Lemma set_pds_set (m1 m2 : gmap Z pollDesc) (s : npst B) : set_pds m1 (set_pds m2 s) = set_pds m1 s.
Proof. done. Qed.

(** The four ways netpollblock behaves.  A pending notification is consumed
    at once; a second waiter of the same mode is a throw; an error state makes it
    return false without parking and with the semaphore released; otherwise the
    goroutine parks (and is counted), and when resumed it reports, and consumes,
    whatever notification is there. *)
Theorem netpollblock_outcome (env : npst B -> npst B) gp a mode s pd :
  np_pds s !! a = Some pd ->
  let out := netpollblock env gp a mode false s in
  let nil_at p t := set_pds (<[a := set_gpp mode pdNil p]> (np_pds t)) t in
  (gpp mode pd = pdReady -> out = Ret true (nil_at pd s)) /\
  (gpp mode pd <> pdReady -> gpp mode pd <> pdNil ->
     out = Throw "runtime: double wait" s) /\
  (gpp mode pd = pdNil -> netpollcheckerr pd mode <> pollNoError ->
     out = Ret false (nil_at pd s)) /\
  (gpp mode pd = pdNil -> netpollcheckerr pd mode = pollNoError ->
     forall pd', np_pds (env (parked gp a mode pd s)) !! a = Some pd' ->
     let s' := env (parked gp a mode pd s) in
     out = if pdWait <? gpp mode pd' then Throw "runtime: corrupted polldesc" (nil_at pd' s')
           else Ret (gpp mode pd' =? pdReady) (nil_at pd' s')).
Proof.
  intros Ha out nil_at. subst out. unfold netpollblock, gopark, netpollblockcommit. mrun.
  rewrite (on_pd_eq _ _ _ _ Ha).
  split_and!.
  - intros ->. done.
  - intros E1 E2. rewrite (proj2 (Z.eqb_neq _ _) E1), (proj2 (Z.eqb_neq _ _) E2).
    f_equal. unfold set_pds. rewrite insert_id by done. by destruct s.
  - intros -> He. cbn [Z.eqb pdNil pdReady].
    erewrite on_pd_eq by (apply lookup_insert_eq). rewrite checkerr_gpp.
    rewrite (proj2 (Z.eqb_neq _ _) He). cbn [orb].
    erewrite on_pd_eq by (cbn; rewrite insert_insert_eq; apply lookup_insert_eq).
    cbn [np_pds set_pds]. rewrite !insert_insert_eq, gpp_set. by rewrite set_gpp_set.
  - intros -> He pd' Hp. cbn [Z.eqb pdNil pdReady].
    erewrite on_pd_eq by (apply lookup_insert_eq). rewrite checkerr_gpp, He.
    cbn [orb Z.eqb pollNoError].
    erewrite on_pd_eq by (cbn; rewrite insert_insert_eq; apply lookup_insert_eq).
    rewrite gpp_set. cbn [Z.eqb pdWait Pos.eqb]. unfold netpollAdjustWaiters. mrun.
    cbn [Z.eqb negb np_pds set_pds]. rewrite !set_pds_set, set_gpp_set, !insert_insert_eq.
    change (set_waiters _ _) with (parked gp a mode pd s).
    rewrite (on_pd_eq _ _ _ _ Hp). by destruct (pdWait <? gpp mode pd').
Qed.
End blocking.

(** ** The free list *)
Section pollcache.
Context {B : Type}.

Inductive chain (m : gmap Z pollDesc) : Z -> list Z -> Prop :=
| chain_nil : chain m 0 []
| chain_cons a pd l : m !! a = Some pd -> chain m (pd_link pd) l -> chain m a (a :: l).

(** No goroutine waits on the descriptor. *)
Definition sem_idle (pd : pollDesc) : Prop :=
  (pd_rg pd = pdNil \/ pd_rg pd = pdReady) /\ (pd_wg pd = pdNil \/ pd_wg pd = pdReady).

(** [l] is the free list; memory below [np_next] is handed out in descriptors. *)
Record cache_ok (s : npst B) (l : list Z) : Prop := {
  ca_chain : chain (np_pds s) (np_first s) l;
  ca_nodup : NoDup l;
  ca_next : 0 < np_next s;
  ca_dom : forall a pd, np_pds s !! a = Some pd -> 0 < a < np_next s;
  ca_idle : forall a pd, a ∈ l -> np_pds s !! a = Some pd -> sem_idle pd }.

Lemma chain_ext m m' a l :
  (forall b, b ∈ l -> m' !! b = m !! b) -> chain m a l -> chain m' a l.
Proof.
  intros Hm. induction 1 as [|a pd l Ha Hc IH]; [constructor|].
  econstructor; [rewrite Hm by (by left); done|]. apply IH. intros b Hb. apply Hm. by right.
Qed.

Lemma chain_in m a l b : chain m a l -> b ∈ l -> is_Some (m !! b).
Proof.
  induction 1 as [|a pd l Ha Hc IH]; [by intros ?%not_elem_of_nil|].
  intros [->|Hb]%elem_of_cons; [by eexists|by apply IH].
Qed.

Lemma chain_cons_inv m x a l : chain m x (a :: l) ->
  x = a /\ exists pd, m !! a = Some pd /\ chain m (pd_link pd) l.
Proof. intros H. inversion H; subst. eauto. Qed.

(** The allocation loop adds n descriptors, the last at the head. *)
Lemma alloc_loop_ok n : forall i mem (s : npst B) l,
  cache_ok s l -> 0 < mem -> 0 <= i -> mem + (i + Z.of_nat n) * tagAlign <= np_next s ->
  (forall b, mem + i * tagAlign <= b -> np_pds s !! b = None) ->
  exists s' l',
    alloc_loop n i mem s = Ret tt s' /\ cache_ok s' (l' ++ l) /\ length l' = n /\
    np_next s' = np_next s /\ np_waiters s' = np_waiters s /\ np_ready s' = np_ready s /\
    np_backend s' = np_backend s /\ np_inited s' = np_inited s /\
    (forall b pd, np_pds s !! b = Some pd -> np_pds s' !! b = Some pd) /\
    (forall b, b ∈ l' -> np_pds s !! b = None).
Proof.
  induction n as [|n IH]; intros i mem s l Hc Hm Hi Hb Hfr.
  { exists s, []. split_and!; try done. intros b Hb'. by apply not_elem_of_nil in Hb'. }
  cbn [alloc_loop]. mrun. set (p := mem + i * tagAlign).
  set (s1 := set_first p _). assert (tagAlign = 512) as HT by done.
  assert (np_pds s !! p = None) as Hp by (apply Hfr; lia).
  assert (p ∉ l) as Hpl.
  { intros Hin. destruct (chain_in _ _ _ _ (ca_chain _ _ Hc) Hin) as [x Hx]. congruence. }
  assert (0 < p) as Hp0 by lia.
  destruct (IH (i + 1) mem s1 (p :: l)) as (s' & l' & E & Hc' & Hl & H1 & H2 & H3 & H4 & H5 & H6 & H7);
    [|lia|lia|cbn; lia| |].
  - split; cbn.
    + econstructor; [apply lookup_insert_eq|]. cbn. eapply chain_ext; [|apply Hc].
      intros b Hb'. apply lookup_insert_ne. congruence.
    + by apply NoDup_cons_2; [|apply Hc].
    + apply Hc.
    + intros b pd. destruct (decide (b = p)) as [->|Hne]; [lia|].
      rewrite lookup_insert_ne by done. apply Hc.
    + intros b pd. destruct (decide (b = p)) as [->|Hne].
      * rewrite lookup_insert_eq. intros _ [= <-]. by repeat split; left.
      * rewrite lookup_insert_ne by done. intros [?|Hin]%elem_of_cons; [done|]. by apply Hc.
  - intros b Hb'. cbn. rewrite lookup_insert_ne by lia. apply Hfr. lia.
  - exists s', (l' ++ [p]). rewrite <- app_assoc. cbn. rewrite length_app. cbn.
    split_and!; try done; [lia| |].
    + intros b pd Hbd. apply H6. cbn. rewrite lookup_insert_ne; congruence.
    + intros b [Hb'| ->%list_elem_of_singleton]%elem_of_app; [|done].
      specialize (H7 b Hb'). cbn in H7. destruct (decide (b = p)) as [->|Hne]; [done|].
      by rewrite lookup_insert_ne in H7.
Qed.

(** What a step of the cache leaves alone. *)
Definition cache_frame (s s' : npst B) : Prop :=
  np_waiters s' = np_waiters s /\ np_ready s' = np_ready s /\
  np_backend s' = np_backend s /\ np_inited s' = np_inited s.

Lemma alloc_pop (s : npst B) a l :
  cache_ok s (a :: l) ->
  exists pd s',
    alloc_take s = Ret a s' /\
    cache_ok s' l /\ (a ∉ l) /\ np_pds s !! a = Some pd /\ np_pds s' = np_pds s /\
    cache_frame s s' /\ np_next s' = np_next s.
Proof.
  intros Hc. destruct (chain_cons_inv _ _ _ _ (ca_chain _ _ Hc)) as (E1 & pd & Ha & Hl).
  pose proof (ca_nodup _ _ Hc) as [Hnin Hnd]%list.NoDup_cons.
  exists pd, (set_first (pd_link pd) s). unfold alloc_take, go_bind at 1, go_get at 1.
  unfold go_bind at 1. rewrite E1, (on_pd_read _ _ _ _ Ha).
  split_and!; try done. split; cbn; try done; [apply Hc..|].
  intros b p Hb. apply Hc. by right.
Qed.

Lemma alloc_ok (s : npst B) l :
  cache_ok s l ->
  exists a pd s' l',
    alloc s = Ret a s' /\ cache_ok s' l' /\ (a ∉ l') /\ np_pds s' !! a = Some pd /\
    (a ∈ l \/ np_pds s !! a = None) /\ sem_idle pd /\ cache_frame s s' /\
    (forall b, b ∈ l' -> b ∈ l \/ np_pds s !! b = None) /\
    (forall b p, np_pds s !! b = Some p -> np_pds s' !! b = Some p).
Proof.
  intros Hc. unfold alloc. unfold go_bind at 1, go_get at 1. unfold go_bind at 1.
  destruct l as [|a l].
  - assert (np_first s = 0) as -> by (pose proof (ca_chain _ _ Hc) as H; by inversion H).
    cbn [Z.eqb]. unfold go_bind at 1, go_modify at 1. pose proof (ca_next _ _ Hc) as Hn.
    set (s0 := set_next _ s).
    assert (cache_ok s0 []) as Hc0.
    { split; cbn [np_pds np_first np_next s0 set_next]; change (alloc_count * tagAlign) with 4096;
        [apply Hc|apply NoDup_nil_2|lia| |by intros b pd ?%not_elem_of_nil].
      intros b pd Hb. apply Hc in Hb. lia. }
    destruct (alloc_loop_ok (Z.to_nat alloc_count) 0 (np_next s) s0 [] Hc0 Hn)
      as (s1 & l1 & -> & Hc1 & Hlen & H1 & H2 & H3 & H4 & H5 & H6 & H7); [lia|by cbn| |].
    { intros b Hb. cbn. destruct (np_pds s !! b) eqn:E; [|done]. apply Hc in E. lia. }
    destruct l1 as [|a l1]; [done|]. rewrite app_nil_r in Hc1.
    destruct (alloc_pop _ _ _ Hc1) as (pd & s' & -> & Hc2 & Hn2 & Ha & Hp & (F1 & F2 & F3 & F4) & _).
    exists a, pd, s', l1. rewrite Hp. split_and!; try done.
    + right. apply (H7 a). by left.
    + eapply Hc1; [by left|done].
    + unfold cache_frame. by rewrite F1, F2, F3, F4, H2, H3, H4, H5.
    + intros b Hb. right. apply (H7 b). by right.
  - destruct (chain_cons_inv _ _ _ _ (ca_chain _ _ Hc)) as (E1 & pd0 & Ha & Hl).
    assert (np_first s <> 0) as Hnz by (rewrite E1; apply (ca_dom _ _ Hc) in Ha; lia).
    rewrite (proj2 (Z.eqb_neq _ _) Hnz). cbv beta iota delta [go_ret].
    destruct (alloc_pop _ _ _ Hc) as (pd & s' & -> & Hc2 & Hn2 & Ha' & Hp & Hf & _).
    exists a, pd, s', l. rewrite Hp. split_and!; try done; [left; by left| |].
    + eapply Hc; [by left|done].
    + intros b Hb. left. by right.
Qed.

(** The descriptor pollCache.free leaves behind, given the old head of the list. *)
Definition freed (first : Z) (pd : pollDesc) : pollDesc := set_link first (free_locked pd).

Lemma free_ok a (s : npst B) pd l :
  cache_ok s l -> a ∉ l -> np_pds s !! a = Some pd -> sem_idle pd ->
  let s' := set_first a (set_pds (<[a := freed (np_first s) pd]> (np_pds s)) s) in
  free a s = Ret tt s' /\ cache_ok s' (a :: l).
Proof.
  intros Hc Hn Ha Hidle s'. unfold free. mrun. rewrite (on_pd_eq _ _ _ _ Ha).
  cbv beta. erewrite on_pd_eq by (apply lookup_insert_eq). cbn [np_pds set_pds np_first].
  rewrite insert_insert_eq. split; [done|].
  split; cbn.
  - econstructor; [apply lookup_insert_eq|]. cbn. eapply chain_ext; [|apply Hc].
    intros b Hb. apply lookup_insert_ne. congruence.
  - by apply NoDup_cons_2; [|apply Hc].
  - apply Hc.
  - intros b p. destruct (decide (b = a)) as [->|Hne]; [intros _; by eapply Hc|].
    rewrite lookup_insert_ne by done. apply Hc.
  - intros b p. destruct (decide (b = a)) as [->|Hne].
    + rewrite lookup_insert_eq. intros _ [= <-]. exact Hidle.
    + rewrite lookup_insert_ne by done. intros [?|Hin]%elem_of_cons; [done|]. by apply Hc.
Qed.
End pollcache.

(** ** What the portable half asks of a backend

    [bk_inv s reg]: the backend watches exactly the descriptors [reg];
    [bk_fresh s fd]: it can take [fd].  Opening and closing touch nothing of the
    shared state but the cookie [user]. *)
Definition user_frame {B} (s s' : npst B) : Prop :=
  np_first s' = np_first s /\ np_next s' = np_next s /\ np_waiters s' = np_waiters s /\
  np_ready s' = np_ready s /\ np_inited s' = np_inited s /\
  forall b, set_user 0 <$> np_pds s' !! b = set_user 0 <$> np_pds s !! b.

Class PollerLaws (B : Type) `{!Poller B} : Type := {
  bk_inv : npst B -> list Z -> Prop;
  bk_fresh : npst B -> Z -> Prop;
  bk_nodup s reg : bk_inv s reg -> NoDup reg;
  bk_stable s s' reg :
    bk_inv s reg -> np_backend s' = np_backend s ->
    (forall a, a ∈ reg -> (pd_user <$> np_pds s' !! a) = (pd_user <$> np_pds s !! a) /\
                          (pd_fd <$> np_pds s' !! a) = (pd_fd <$> np_pds s !! a)) ->
    bk_inv s' reg;
  bk_fresh_stable s s' fd : bk_fresh s fd -> np_backend s' = np_backend s -> bk_fresh s' fd;
  bk_open fd a pd s reg :
    bk_inv s reg -> bk_fresh s fd -> a ∉ reg -> a <> 0 ->
    np_pds s !! a = Some pd -> pd_fd pd = fd ->
    exists e s', netpollopen fd a s = Ret e s' /\ user_frame s s' /\
      bk_inv s' (if e =? 0 then a :: reg else reg);
  bk_close fd a pd s reg :
    bk_inv s reg -> a ∈ reg -> np_pds s !! a = Some pd -> pd_fd pd = fd ->
    exists e s' reg', netpollclose fd s = Ret e s' /\ user_frame s s' /\
      bk_inv s' reg' /\ Permutation reg (a :: reg');
}.

Section lifecycle.
Context {B : Type} `{!Poller B} `{!PollerLaws B}.

(** The whole poller: descriptors are on the free list [l], watched ([reg]), or
    owned by an operation in progress. *)
Record poller_ok (s : npst B) (l reg : list Z) : Prop := {
  po_cache : cache_ok s l;
  po_bk : bk_inv s reg;
  po_disj : forall a, a ∈ reg -> a ∉ l;
  po_reg : forall a, a ∈ reg -> is_Some (np_pds s !! a) }.

Lemma user_frame_lookup (s s' : npst B) b pd :
  user_frame s s' -> np_pds s !! b = Some pd ->
  exists u, np_pds s' !! b = Some (set_user u pd).
Proof.
  intros (_ & _ & _ & _ & _ & H) Hb. specialize (H b). rewrite Hb in H. cbn in H.
  destruct (np_pds s' !! b) as [pd'|] eqn:E; [|done]. injection H as H'.
  exists (pd_user pd'). f_equal. destruct pd, pd'. unfold set_user in *. cbn in *.
  by simplify_eq.
Qed.

Lemma user_frame_none (s s' : npst B) b :
  user_frame s s' -> np_pds s !! b = None -> np_pds s' !! b = None.
Proof.
  intros (_ & _ & _ & _ & _ & H) Hb. specialize (H b). rewrite Hb in H. cbn in H.
  by destruct (np_pds s' !! b).
Qed.

Lemma user_frame_back (s s' : npst B) b pd :
  user_frame s s' -> np_pds s' !! b = Some pd ->
  exists pd0, np_pds s !! b = Some pd0 /\ pd = set_user (pd_user pd) pd0.
Proof.
  intros HF Hb. destruct (np_pds s !! b) as [pd0|] eqn:E.
  - destruct (user_frame_lookup _ _ _ _ HF E) as [u Hu]. exists pd0. split; [done|].
    rewrite Hb in Hu. by injection Hu as ->.
  - rewrite (user_frame_none _ _ _ HF E) in Hb. done.
Qed.

Lemma chain_user (s s' : npst B) a l :
  user_frame s s' -> chain (np_pds s) a l -> chain (np_pds s') a l.
Proof.
  intros HF. induction 1 as [|a pd l Ha _ IH]; [constructor|].
  destruct (user_frame_lookup _ _ _ _ HF Ha) as [u Hu]. econstructor; [exact Hu|exact IH].
Qed.

Lemma cache_user (s s' : npst B) l : user_frame s s' -> cache_ok s l -> cache_ok s' l.
Proof.
  intros HF [Hc Hn Hx Hd Hi]. pose proof HF as (E1 & E2 & _). split.
  - rewrite E1. by eapply chain_user.
  - done.
  - by rewrite E2.
  - intros a pd Ha. destruct (user_frame_back _ _ _ _ HF Ha) as (p & Hp & _). rewrite E2. by eapply Hd.
  - intros a pd Hin Ha. destruct (user_frame_back _ _ _ _ HF Ha) as (p & Hp & ->).
    exact (Hi a p Hin Hp).
Qed.

(** A change of one descriptor off the list keeps the cache. *)
Lemma cache_update (s : npst B) l a pd pd' :
  cache_ok s l -> a ∉ l -> np_pds s !! a = Some pd ->
  cache_ok (set_pds (<[a := pd']> (np_pds s)) s) l.
Proof.
  intros [Hc Hn Hx Hd Hi] Hnin Ha. split; cbn; try done.
  - eapply chain_ext; [|done]. intros b Hb. apply lookup_insert_ne. congruence.
  - intros b p. destruct (decide (b = a)) as [->|]; [intros _; by eapply Hd|].
    rewrite lookup_insert_ne by done. apply Hd.
  - intros b p Hb. rewrite lookup_insert_ne by congruence. by apply Hi.
Qed.

(** A descriptor as pollOpen leaves it. *)
Definition opened (a fd : Z) (pd : pollDesc) : Prop :=
  pd_fd pd = fd /\ pd_self pd = a /\ pd_closing pd = false /\ pd_rd pd = 0 /\ pd_wd pd = 0 /\
  pd_rg pd = pdNil /\ pd_wg pd = pdNil /\ pd_fdseq pd <> 0 /\
  forall mode, netpollcheckerr pd mode = pollNoError.

Lemma pollOpen_locked_run a fd pd :
  sem_idle pd -> exists pd', pollOpen_locked a fd pd = Ret tt pd' /\ opened a fd pd'.
Proof.
  intros [Hr Hw]. unfold pollOpen_locked. mrun.
  assert (forall x, x = pdNil \/ x = pdReady -> negb (x =? pdNil) && negb (x =? pdReady) = false) as Hx
    by (by intros x [-> | ->]).
  rewrite (Hx _ Hr), (Hx _ Hw). eexists. split; [reflexivity|].
  set (pd0 := if pd_fdseq _ =? 0 then _ else _).
  assert (pd_fd pd0 = fd /\ pd_fdseq pd0 <> 0) as [E1 E2].
  { subst pd0. destruct (Z.eqb_spec (pd_fdseq (set_fd fd pd)) 0); cbn in *; [done|done]. }
  clearbody pd0. set (pd1 := setEventErr false 0 (set_closing false pd0)).
  assert (pd_fd pd1 = fd /\ pd_fdseq pd1 <> 0 /\ pd_closing pd1 = false /\
          info_eventErr (pd_atomicInfo pd1) = false) as (F1 & F2 & F3 & F4).
  { destruct (info_bits (pd_atomicInfo pd1)) as (_ & -> & _). unfold pd1 at 4.
    rewrite setEventErr_bit by lia. unfold pd1, setEventErr. cbn. by destruct (negb _). }
  clearbody pd1. match goal with |- opened _ _ (publishInfo ?p) => set (pd2 := p) end.
  split_and!; try done.
  intros mode. rewrite netpollcheckerr_published by apply publishInfo_published.
  rewrite publishInfo_eventErr. change (pd_atomicInfo pd2) with (pd_atomicInfo pd1). rewrite F4.
  change (pd_closing (publishInfo pd2)) with (pd_closing pd1). rewrite F3.
  unfold checkerr_spec. cbn. by rewrite !andb_false_r.
Qed.

Lemma opened_user a fd u pd : opened a fd pd -> opened a fd (set_user u pd).
Proof. done. Qed.

(** PollOpen hands out a descriptor that nobody else uses, fully reset, and
    the backend watches it; when the backend refuses, the caller gets nil and the
    errno, and the descriptor is back on the free list, its sequence number bumped
    so that a stale notification cannot reach its next user. *)
Theorem pollOpen_registers (s : npst B) l reg fd :
  poller_ok s l reg -> bk_fresh s fd ->
  exists a e s' l' pd,
    np_pds s' !! a = Some pd /\ (a ∉ reg) /\
    if e =? 0 then
      poll_runtime_pollOpen fd s = Ret (a, 0) s' /\ a <> 0 /\
      poller_ok s' l' (a :: reg) /\ opened a fd pd
    else
      poll_runtime_pollOpen fd s = Ret (0, e) s' /\ poller_ok s' (a :: l') reg /\
      exists q, q <> 0 /\ pd_fdseq pd = Z.land (q + 1) (2 ^ 32 - 1).
Proof.
  intros [Hc Hb Hdj Hrg] Hf.
  destruct (alloc_ok s l Hc) as (a & pd0 & s1 & l1 & Ea & Hc1 & Hn1 & Ha1 & Hfrom & Hid & Hfr & Hl1 & Hext).
  assert (a ∉ reg) as Hnr.
  { intros Hin. destruct Hfrom as [Hl|Hnone]; [by eapply Hdj|].
    destruct (Hrg a Hin) as [x Hx]. congruence. }
  destruct (pollOpen_locked_run a fd pd0 Hid) as (pd1 & Eo & Hop).
  set (s2 := set_pds (<[a := pd1]> (np_pds s1)) s1).
  assert (cache_ok s2 l1) as Hc2 by (by eapply cache_update).
  assert (np_backend s2 = np_backend s) as Hbk by apply Hfr.
  assert (bk_inv s2 reg) as Hb2.
  { eapply bk_stable; [exact Hb|done|]. intros b Hin. destruct (Hrg b Hin) as [p Hp].
    cbn. rewrite lookup_insert_ne by congruence. by rewrite (Hext _ _ Hp), Hp. }
  assert (np_pds s2 !! a = Some pd1) as Ha2 by apply lookup_insert_eq.
  destruct (bk_open fd a pd1 s2 reg) as (e & s3 & Eb & Hfr3 & Hb3); try done;
    [by eapply bk_fresh_stable|apply (ca_dom _ _ Hc1) in Ha1; lia|by apply Hop|].
  destruct (user_frame_lookup _ _ _ _ Hfr3 Ha2) as [u Ha3].
  assert (poll_runtime_pollOpen fd s =
          (if negb (e =? 0) then free a ;! go_ret (0, e) else go_ret (a, 0)) s3) as Erun.
  { unfold poll_runtime_pollOpen. unfold go_bind at 1. rewrite Ea. unfold go_bind at 1.
    rewrite (on_pd_run _ _ _ _ _ _ Ha1 Eo). unfold go_bind at 1. fold s2. by rewrite Eb. }
  exists a, e. rewrite Erun. clear Erun.
  assert (forall b, b ∈ reg -> is_Some (np_pds s3 !! b)) as Hrg3.
  { intros b Hin. destruct (Hrg b Hin) as [p Hp]. assert (b <> a) as Hba by congruence.
    assert (np_pds s2 !! b = Some p) as Hp2.
    { cbn. rewrite lookup_insert_ne by done. by apply Hext. }
    destruct (user_frame_lookup _ _ _ _ Hfr3 Hp2) as [u' ->]. by eexists. }
  assert (forall b, b ∈ reg -> b ∉ l1) as Hdj1.
  { intros b Hin Hb'. destruct (Hl1 b Hb') as [?|Hno]; [by eapply Hdj|].
    destruct (Hrg b Hin) as [p Hp]. congruence. }
  pose proof (cache_user _ _ _ Hfr3 Hc2) as Hc3.
  destruct (Z.eqb_spec e 0) as [->|He]; cbn [negb].
  - exists s3, l1, (set_user u pd1). split_and!; try done.
    + apply (ca_dom _ _ Hc1) in Ha1. lia.
    + split; [done..| |].
      * intros b [->|Hin]%elem_of_cons; [done|by apply Hdj1].
      * intros b [->|Hin]%elem_of_cons; [by eexists|by apply Hrg3].
  - assert (sem_idle (set_user u pd1)) as Hid3 by (split; left; apply Hop).
    destruct (free_ok a s3 _ l1 Hc3 Hn1 Ha3 Hid3) as [Efr Hc4].
    unfold go_bind at 1. rewrite Efr. set (s4 := set_first _ _) in *.
    exists s4, l1, (freed (np_first s3) (set_user u pd1)).
    split_and!; try done; [apply lookup_insert_eq| |].
    + split; [done| | |].
      * eapply bk_stable; [exact Hb3|done|]. intros b Hin. cbn.
        by rewrite lookup_insert_ne by congruence.
      * intros b Hin [->|Hb']%elem_of_cons; [done|by eapply Hdj1].
      * intros b Hin. cbn. rewrite lookup_insert_ne by congruence. by apply Hrg3.
    + exists (pd_fdseq pd1). split; [apply Hop|reflexivity].
Qed.

(** PollClose of an unblocked descriptor stops the backend watching it and
    puts it on the free list with its sequence number bumped; the other
    descriptors stay watched. *)
Theorem pollClose_retires (s : npst B) l reg a pd :
  poller_ok s l reg -> a ∈ reg -> np_pds s !! a = Some pd ->
  pd_closing pd = true -> sem_idle pd ->
  exists s' reg' pd',
    poll_runtime_pollClose a s = Ret tt s' /\
    poller_ok s' (a :: l) reg' /\ Permutation reg (a :: reg') /\
    np_pds s' !! a = Some pd' /\ pd_fdseq pd' = Z.land (pd_fdseq pd + 1) (2 ^ 32 - 1) /\
    pd_closing pd' = true /\ np_waiters s' = np_waiters s /\ np_ready s' = np_ready s.
Proof.
  intros [Hc Hb Hdj Hrg] Hin Ha Hcl [Hr Hw].
  assert (forall x, x = pdNil \/ x = pdReady -> negb (x =? pdNil) && negb (x =? pdReady) = false) as Hx
    by (by intros x [-> | ->]).
  assert (pollClose_check pd = Ret tt pd) as Hck.
  { unfold pollClose_check. mrun. by rewrite Hcl, (Hx _ Hr), (Hx _ Hw). }
  assert (set_pds (<[a := pd]> (np_pds s)) s = s) as Hs.
  { unfold set_pds. rewrite insert_id by done. by destruct s. }
  destruct (bk_close (pd_fd pd) a pd s reg) as (e & s1 & reg' & Ec & Hfr & Hb1 & Hp); try done.
  destruct (user_frame_lookup _ _ _ _ Hfr Ha) as [u Ha1].
  pose proof (cache_user _ _ _ Hfr Hc) as Hc1.
  assert (sem_idle (set_user u pd)) as Hid1 by done.
  destruct (free_ok a s1 _ l Hc1 (Hdj a Hin) Ha1 Hid1) as [Efr Hc2].
  set (s2 := set_first _ _) in *.
  exists s2, reg', (freed (np_first s1) (set_user u pd)).
  assert (a ∉ reg') as Hnr.
  { pose proof (bk_nodup _ _ Hb) as Hnd. rewrite Hp in Hnd. by apply list.NoDup_cons in Hnd as [? _]. }
  split_and!; try done; [|split| | |].
  - unfold poll_runtime_pollClose. unfold go_bind at 1.
    rewrite (on_pd_run _ _ _ _ _ _ Ha Hck), Hs. unfold go_bind at 1.
    rewrite (on_pd_read _ _ _ _ Ha). unfold go_bind at 1. by rewrite Ec, Efr.
  - done.
  - eapply bk_stable; [exact Hb1|done|]. intros b Hb'. cbn. by rewrite lookup_insert_ne by congruence.
  - intros b Hb' [->|Hl]%elem_of_cons; [done|]. apply (Hdj b); [|done]. rewrite Hp. by right.
  - intros b Hb'. cbn. rewrite lookup_insert_ne by congruence.
    destruct (Hrg b) as [p Hpb]; [rewrite Hp; by right|].
    destruct (user_frame_lookup _ _ _ _ Hfr Hpb) as [u' ->]. by eexists.
  - apply lookup_insert_eq.
  - apply Hfr.
  - apply Hfr.
Qed.
End lifecycle.

(** ** Readiness *)
Definition parked_in (mode : Z) (pd : pollDesc) : list Z :=
  let g := gpp mode pd in
  if (g =? pdNil) || (g =? pdReady) || (g =? pdWait) then [] else [g].

Lemma unblock_ready_run mode pd :
  unblock mode true pd =
    Ret (nth 0 (parked_in mode pd) 0, - Z.of_nat (length (parked_in mode pd)))
        (set_gpp mode pdReady pd).
Proof.
  unfold unblock, netpollunblock, parked_in. set (g := gpp mode pd).
  destruct (Z.eqb_spec g pdReady) as [E|E].
  { rewrite orb_true_r. cbn. f_equal. subst g. unfold gpp, set_gpp, pdReady in *.
    destruct (mode =? mode_w), pd; cbn in *; by subst. }
  rewrite andb_false_r, orb_false_r.
  destruct (Z.eqb_spec g pdWait) as [->|E2]; [done|].
  destruct (Z.eqb_spec g pdNil) as [->|E3]; [done|]. done.
Qed.

(** netpollready in full: the goroutines parked in the given modes, the reader
    first, are pushed on the list, and the delta is minus their number. *)
Lemma netpollready_run {B} (s : npst B) toRun a mode pd :
  np_pds s !! a = Some pd ->
  let r := (mode =? mode_r) || (mode =? mode_rw) in
  let w := (mode =? mode_w) || (mode =? mode_rw) in
  let new := (if w then parked_in mode_w pd else []) ++ (if r then parked_in mode_r pd else []) in
  let pd1 := if r then set_gpp mode_r pdReady pd else pd in
  let pd2 := if w then set_gpp mode_w pdReady pd1 else pd1 in
  netpollready toRun a mode s =
    Ret (new ++ toRun, - Z.of_nat (length new)) (set_pds (<[a := pd2]> (np_pds s)) s).
Proof.
  intros Ha r w. unfold netpollready. fold r w.
  assert (forall m p, nth 0 (parked_in m p) 0 = 0 <-> parked_in m p = []) as Hz.
  { intros m p. unfold parked_in. destruct (Z.eqb_spec (gpp m p) pdNil); cbn; [done|].
    destruct (gpp m p =? pdReady), (gpp m p =? pdWait); cbn; done. }
  assert (forall m p, length (parked_in m p) = 0%nat \/ length (parked_in m p) = 1%nat) as Hl.
  { intros m p. unfold parked_in. destruct (_ || (gpp m p =? pdWait)); auto. }
  assert (set_pds (<[a := pd]> (np_pds s)) s = s) as Hs.
  { unfold set_pds. rewrite insert_id by done. by destruct s. }
  assert (forall m p (tr : list Z), (if negb (nth 0 (parked_in m p) 0 =? 0)
            then nth 0 (parked_in m p) 0 :: tr else tr) = parked_in m p ++ tr) as Hpush.
  { intros m p tr. destruct (Z.eqb_spec (nth 0 (parked_in m p) 0) 0) as [E|E]; cbn.
    - apply Hz in E. by rewrite E.
    - destruct (Hl m p) as [H|H]; destruct (parked_in m p) as [|x [|]]; done. }
  assert (forall v, parked_in mode_w (set_gpp mode_r v pd) = parked_in mode_w pd) as Hrw by done.
  unfold go_bind at 1. destruct r, w.
  - rewrite (on_pd_run _ _ _ _ _ _ Ha (unblock_ready_run mode_r pd)).
    unfold go_bind. erewrite on_pd_run; [|apply lookup_insert_eq|apply unblock_ready_run].
    unfold go_ret. rewrite !Hpush, Hrw. cbn [np_pds set_pds].
    rewrite insert_insert_eq, length_app, <- app_assoc. do 2 f_equal. lia.
  - rewrite (on_pd_run _ _ _ _ _ _ Ha (unblock_ready_run mode_r pd)). mrun.
    rewrite Hpush. cbn [Z.eqb negb app]. do 2 f_equal. lia.
  - mrun. rewrite (on_pd_run _ _ _ _ _ _ Ha (unblock_ready_run mode_w pd)).
    rewrite Hpush, app_nil_r. cbn [Z.eqb negb]. done.
  - mrun. by rewrite Hs.
Qed.

(** The 16 bits of fdseq that survive in atomicInfo. *)
Lemma publishInfo_fdseq pd : in_u 32 (pd_atomicInfo pd) ->
  Z.shiftr (pd_atomicInfo (publishInfo pd)) pollFDSeq = pd_fdseq pd `mod` 2 ^ 16.
Proof.
  intros Hin. apply Z.bits_inj'. intros n Hn. rewrite Z.shiftr_spec by lia.
  rewrite Z.testbit_mod_pow2 by lia. cbn [publishInfo pd_atomicInfo set_atomicInfo].
  rewrite !Z.lor_spec, Z.land_spec.
  change pollEventErr with (flag true (2 ^ 1)). change pollClosing with (2 ^ 0).
  change pollExpiredReadDeadline with (2 ^ 2). change pollExpiredWriteDeadline with (2 ^ 3).
  unfold pollFDSeq. rewrite !flag_testbit by lia.
  rewrite !(proj2 (Z.eqb_neq (n + 16) _)) by lia. rewrite !andb_false_r. cbn [orb].
  unfold wrapu. rewrite Z.testbit_mod_pow2 by lia.
  rewrite Z.shiftl_spec by lia. replace (n + 16 - 16) with n by lia.
  rewrite Z.land_spec. change pollFDSeqMask with (Z.ones 20).
  destruct (Z.ltb_spec n 16) as [H|H].
  - rewrite (Z.ones_spec_low 20) by lia. rewrite (proj2 (Z.ltb_lt _ 32)) by lia.
    by rewrite andb_true_r.
  - rewrite (proj2 (Z.ltb_ge _ 32)) by lia. done.
Qed.

(** SetEventErr called with the descriptor's own current sequence number takes
    effect only while that number's low 20 bits are below 2^16: the summary keeps
    16 bits of the field it calls a 20-bit one, so a larger number reads as stale
    and the event error is dropped. *)
Theorem setEventErr_own_seq b pd0 :
  in_u 32 (pd_atomicInfo pd0) -> pd_fdseq pd0 <> 0 ->
  let pd := publishInfo pd0 in
  let low20 := Z.land (pd_fdseq pd) pollFDSeqMask in
  (low20 < 2 ^ 16 -> info_eventErr (pd_atomicInfo (setEventErr b (pd_fdseq pd) pd)) = b) /\
  (2 ^ 16 <= low20 -> setEventErr b (pd_fdseq pd) pd = pd).
Proof.
  intros Hi Hnz pd low20. unfold setEventErr.
  change (pd_fdseq pd) with (pd_fdseq pd0) in *. rewrite (proj2 (Z.eqb_neq _ 0) Hnz).
  rewrite (publishInfo_fdseq pd0 Hi : Z.shiftr (pd_atomicInfo pd) pollFDSeq = _). fold low20.
  assert (pollFDSeqMask = 2 ^ 20 - 1) as HM by done.
  assert (low20 = pd_fdseq pd0 `mod` 2 ^ 20) as Hl20 by (apply (land_ones_mod _ 20); lia).
  rewrite HM, land_ones_mod by lia.
  assert (pd_fdseq pd0 `mod` 2 ^ 16 = low20 `mod` 2 ^ 16) as Hm.
  { rewrite Hl20. change (2 ^ 20) with (2 ^ 16 * 2 ^ 4).
    rewrite Z.rem_mul_r by lia. rewrite (Z.mul_comm (2 ^ 16)), Z_mod_plus_full.
    symmetry. apply Z.mod_mod. lia. }
  pose proof (Z.mod_pos_bound (pd_fdseq pd0) (2 ^ 16) ltac:(lia)).
  pose proof (Z.mod_pos_bound (pd_fdseq pd0) (2 ^ 20) ltac:(lia)).
  rewrite (Z.mod_small (pd_fdseq pd0 `mod` 2 ^ 16) (2 ^ 20)) by lia. cbn [negb andb].
  split; intros HL.
  - rewrite Hm, Z.mod_small by lia. rewrite Z.eqb_refl. cbn [negb].
    pose proof (setEventErr_bit b pd 1 ltac:(lia)) as Hb. cbn [Z.eqb Pos.eqb] in Hb.
    unfold setEventErr in Hb. cbn [Z.eqb negb andb] in Hb.
    match goal with |- info_eventErr ?i = _ => destruct (info_bits i) as (_ & -> & _) end. exact Hb.
  - assert (pd_fdseq pd0 `mod` 2 ^ 16 <> low20) as Hne by lia.
    by rewrite (proj2 (Z.eqb_neq _ _) Hne).
Qed.

(** ** Concrete runs *)
Definition res_get {S A} (d : S) (r : res S A) : S := match r with Ret _ s | Throw _ s => s | NoFuel => d end.

(** A descriptor opened for fd 5, given one deadline for both directions at time
    1000, 500 ns ahead; then its timer fires. *)
Definition demo_open : pollDesc := res_get pollDesc0 (pollOpen_locked 512 5 pollDesc0).
Definition demo_set : pollDesc := res_get pollDesc0 (setDeadline_locked 1000 500 mode_rw demo_open).
Definition demo_fired : Deadlines.dsys :=
  Deadlines.mkDs true (rt_stop demo_set) [pd_rt demo_set].

Lemma demo_set_reachable : Deadlines.reachable (Deadlines.mkDs true demo_set []).
Proof.
  eapply Deadlines.reach_step.
  - eapply Deadlines.reach_step; [apply Deadlines.reach_init|].
    apply (Deadlines.ds_open 512 5 pollDesc0 demo_open []); [by vm_compute|reflexivity].
  - by apply (Deadlines.ds_set 1000 500 mode_rw demo_open (0, 0, 0) demo_set []); [vm_compute|].
Qed.

Lemma demo_fired_reachable : Deadlines.reachable demo_fired.
Proof.
  eapply Deadlines.reach_step; [apply demo_set_reachable|].
  apply (Deadlines.ds_fire_rt true demo_set []). reflexivity.
Qed.

Lemma deadline_timers_never_throw_witness :
  returns (Deadlines.run_locked (pd_rt demo_set) (rt_stop demo_set)) /\
  returns (setDeadline_locked 2000 7 mode_r (rt_stop demo_set)).
Proof.
  destruct (Deadlines.deadline_timers_never_throw demo_fired demo_fired_reachable) as [H1 H2].
  split; [apply H1; by left|].
  apply (proj1 (H2 eq_refl ltac:(vm_compute; split; reflexivity)) 2000 7 mode_r).
Defined.

Lemma deadlines_always_covered_witness :
  Deadlines.covered netpollDeadline 1500 1 (rt_stop demo_set).(pd_rt) [pd_rt demo_set].
Proof.
  apply (proj1 (Deadlines.deadlines_always_covered demo_fired demo_fired_reachable eq_refl eq_refl)
           ltac:(reflexivity)).
Defined.

Lemma checkerr_reports_locked_fields_witness : netpollcheckerr (rt_stop demo_set) mode_r = pollNoError.
Proof. exact (Deadlines.checkerr_reports_locked_fields demo_fired mode_r demo_fired_reachable). Defined.

Definition demo_np : npst unit := mkNp true {[512 := demo_open]} 0 4608 0 [] tt.

Lemma netpollblock_outcome_witness :
  netpollblock (fun s => set_pds (<[512 := set_rg pdReady demo_open]> (np_pds s)) s) 4096 512 mode_r false demo_np
    = Ret true (mkNp true {[512 := demo_open]} 0 4608 1 [] tt).
Proof.
  destruct (netpollblock_outcome
    (fun s => set_pds (<[512 := set_rg pdReady demo_open]> (np_pds s)) s)
    4096 512 mode_r demo_np demo_open ltac:(vm_compute; reflexivity)) as (_ & _ & _ & H).
  rewrite (H ltac:(vm_compute; reflexivity) ltac:(vm_compute; reflexivity)
             (set_rg pdReady demo_open) (lookup_insert_eq _ _ _)).
  vm_compute. reflexivity.
Defined.

Lemma setEventErr_own_seq_witness :
  setEventErr true 65536 (publishInfo (set_fdseq 65536 pollDesc0)) =
    publishInfo (set_fdseq 65536 pollDesc0).
Proof.
  apply (proj2 (setEventErr_own_seq true (set_fdseq 65536 pollDesc0)
    ltac:(vm_compute; intuition congruence) ltac:(discriminate))). vm_compute. discriminate.
Defined.
