(* ===== verification/NetpollQnx.v ===== *)
(** * NetpollQnx: runtime/netpoll_qnx.go, the poll(2) backend

    The arrays [pfds] and [pds] run in parallel: entry 0 is the read end of the
    wake pipe, entry [pd.user] belongs to the descriptor [pd].  The file is an
    instance of Netpoll's [Poller], and its laws are discharged here.  The two
    mutexes are left out of these definitions (each function runs as one step); the
    handshake by which they exclude each other is not modelled. *)
From Stdlib Require Import ZArith Lia List Bool String.
From stdpp Require Import base list gmap strings numbers tactics option.
From S2P Require Import Prelude Libc RuntimeOS Netpoll.

Definition _POLLIN : Z := Z.lor 1 4.
Definition _POLLOUT : Z := 2.
Definition _POLLERR : Z := 32.
Definition _POLLHUP : Z := 64.

Record pollfd : Type := mkPollfd { pf_fd : Z; pf_events : Z; pf_revents : Z }.

#[export] Instance pollfd_eq_dec : EqDecision pollfd.
Proof. solve_decision. Defined.

Definition set_events (e : Z) (p : pollfd) : pollfd := mkPollfd (pf_fd p) e (pf_revents p).

(** The array as memory cells and back. *)
Definition pollfd_cells (l : list pollfd) : list Z :=
  flat_map (fun p => [pf_fd p; pf_events p; pf_revents p]) l.

Fixpoint pollfds_of_cells (n : nat) (c : list Z) : list pollfd :=
  match n with
  | O => []
  | S n => mkPollfd (i32 (nth 0 c 0)) (i16 (nth 1 c 0)) (i16 (nth 2 c 0))
             :: pollfds_of_cells n (drop 3 c)
  end.

Record qnxpoll (W : Type) : Type := mkQp {
  qp_rt : rtst W;
  qp_pfds : list pollfd;
  qp_pds : list Z;
  qp_rdwake : Z;
  qp_wrwake : Z;
  qp_pending : Z;
  qp_wakesig : Z }.
Arguments mkQp {W} qp_rt qp_pfds qp_pds qp_rdwake qp_wrwake qp_pending qp_wakesig.
Arguments qp_rt {W} q.
Arguments qp_pfds {W} q.
Arguments qp_pds {W} q.
Arguments qp_rdwake {W} q.
Arguments qp_wrwake {W} q.
Arguments qp_pending {W} q.
Arguments qp_wakesig {W} q.

Section fields.
Context {W : Type}.
Implicit Type q : qnxpoll W.
Definition set_rt' (x : rtst W) q : qnxpoll W :=
  mkQp x (qp_pfds q) (qp_pds q) (qp_rdwake q) (qp_wrwake q) (qp_pending q) (qp_wakesig q).
Definition set_pfds (x : list pollfd) q : qnxpoll W :=
  mkQp (qp_rt q) x (qp_pds q) (qp_rdwake q) (qp_wrwake q) (qp_pending q) (qp_wakesig q).
Definition set_qpds (x : list Z) q : qnxpoll W :=
  mkQp (qp_rt q) (qp_pfds q) x (qp_rdwake q) (qp_wrwake q) (qp_pending q) (qp_wakesig q).
Definition set_wake (r w : Z) q : qnxpoll W :=
  mkQp (qp_rt q) (qp_pfds q) (qp_pds q) r w (qp_pending q) (qp_wakesig q).
Definition set_pending (x : Z) q : qnxpoll W :=
  mkQp (qp_rt q) (qp_pfds q) (qp_pds q) (qp_rdwake q) (qp_wrwake q) x (qp_wakesig q).
Definition set_wakesig (x : Z) q : qnxpoll W :=
  mkQp (qp_rt q) (qp_pfds q) (qp_pds q) (qp_rdwake q) (qp_wrwake q) (qp_pending q) x.
End fields.

Definition pollNoWakeCapMs : Z := 10.

(** The timeout handed to poll, in ms; 2^32-1 is [^uintptr(0)], no timeout. *)
Definition netpoll_timeout (delay wrwake : Z) : Z :=
  let timeout := if delay <? 0 then 2 ^ 32 - 1
                 else if delay <? 1000000 then 1
                 else if delay <? 1000000000000000 then u32 (goquot delay 1000000)
                 else 1000000000 in
  if (wrwake <? 0) && ((timeout =? 2 ^ 32 - 1) || (pollNoWakeCapMs <? timeout))
  then pollNoWakeCapMs else timeout.

(** The ready modes of one entry. *)
Definition ready_mode (revents : Z) : Z :=
  (if has_bits revents (Z.lor (Z.lor _POLLIN _POLLHUP) _POLLERR) then mode_r else 0) +
  (if has_bits revents (Z.lor (Z.lor _POLLOUT _POLLHUP) _POLLERR) then mode_w else 0).

(** Its events once the reported ones are disarmed. *)
Definition disarm (p : pollfd) : pollfd :=
  let e := pf_events p in
  let e := if has_bits (pf_revents p) (Z.lor (Z.lor _POLLIN _POLLHUP) _POLLERR)
           then Z.land e (Z.lnot _POLLIN) else e in
  let e := if has_bits (pf_revents p) (Z.lor (Z.lor _POLLOUT _POLLHUP) _POLLERR)
           then Z.land e (Z.lnot _POLLOUT) else e in
  set_events e p.

Section qnx.
Context {W : Type} `{!Libc W} (fr : frame).

Abbreviation QM := (GoM (qnxpoll W)).
Abbreviation NM := (NpM (qnxpoll W)).

(** Runtime calls made from the poller. *)
Definition on_rt {A} (m : RtM W A) : QM A := fun q =>
  match m (qp_rt q) with
  | Ret x r => Ret x (set_rt' r q)
  | Throw msg r => Throw msg (set_rt' r q)
  | NoFuel => NoFuel
  end.

Definition poll (npfds timeout : Z) : QM (Z * Z) :=
  let! q := go_get in
  let! (r, err, bufs) := on_rt (sysvicall3Err fr "poll" (CBuf (pollfd_cells (qp_pfds q)))
                                  (CInt npfds) (CInt timeout)) in
  go_modify (set_pfds (pollfds_of_cells (length (qp_pfds q)) (nth 0 bufs []))) ;!
  go_ret (i32 r, i32 err).

Definition qnx_netpollinit : QM unit :=
  let! (r, w, errno) := on_rt (nonblockingPipe fr) in
  (if negb (errno =? 0) then go_modify (set_wake (-1) (-1)) else go_modify (set_wake r w)) ;!
  let! q := go_get in
  go_modify (set_pfds [mkPollfd (qp_rdwake q) _POLLIN 0]) ;!
  go_modify (set_qpds [0]).

Definition netpollIsPollDescriptor (fd : Z) (q : qnxpoll W) : bool :=
  (fd =? u32 (qp_rdwake q)) || (fd =? u32 (qp_wrwake q)).

Definition netpollwakeup : QM unit :=
  let! q := go_get in
  if qp_wrwake q <? 0 then go_ret tt else
  if qp_pending q =? 0 then
    go_modify (set_pending 1) ;!
    let! _ := on_rt (write1 fr (u32 (qp_wrwake q)) [0] 1) in go_ret tt
  else go_ret tt.

Definition qnx_netpollopen (fd a : Z) : NM Z :=
  on_backend netpollwakeup ;!
  let! s := go_get in
  let q := np_backend s in
  on_pd a (go_modify (set_user (u32 (Z.of_nat (length (qp_pfds q)))))) ;!
  on_backend (go_modify (fun q => set_pfds (qp_pfds q ++ [mkPollfd (i32 fd) 0 0]) q)) ;!
  on_backend (go_modify (fun q => set_qpds (qp_pds q ++ [a]) q)) ;!
  go_ret 0.

(** The first entry for [fd], from index [i] on. *)
Fixpoint find_pfd (fd : Z) (i : nat) (l : list pollfd) : option nat :=
  match l with
  | [] => None
  | p :: l => if pf_fd p =? fd then Some i else find_pfd fd (S i) l
  end.

(** [x[i] = x[len(x)-1]; x = x[:len(x)-1]] *)
Definition swap_remove {A} (i : nat) (l : list A) : list A :=
  match list.last l with
  | Some x => removelast (<[i := x]> l)
  | None => l
  end.

Definition qnx_netpollclose (fd : Z) : NM Z :=
  on_backend netpollwakeup ;!
  let! s := go_get in
  let q := np_backend s in
  match find_pfd (i32 fd) 0 (qp_pfds q) with
  | None => go_ret 0
  | Some i =>
    on_backend (go_modify (fun q => set_pfds (swap_remove i (qp_pfds q)) q)) ;!
    on_pd (default 0 (list.last (qp_pds q))) (go_modify (set_user (u32 (Z.of_nat i)))) ;!
    on_backend (go_modify (fun q => set_qpds (swap_remove i (qp_pds q)) q)) ;!
    go_ret 0
  end.

(** [pfds[i].events |= e], a fault when i is out of range. *)
Definition or_events (i e : Z) : QM unit := fun q =>
  match qp_pfds q !! Z.to_nat i with
  | Some p => Ret tt (set_pfds (<[Z.to_nat i := set_events (Z.lor (pf_events p) e) p]>
                                  (qp_pfds q)) q)
  | None => Throw "index out of range" q
  end.

Definition qnx_netpollarm (a mode : Z) : NM unit :=
  on_backend netpollwakeup ;!
  let! user := on_pd a (let! pd := go_get in go_ret (pd_user pd)) in
  if mode =? mode_r then on_backend (or_events user _POLLIN)
  else if mode =? mode_w then on_backend (or_events user _POLLOUT)
  else go_ret tt.

Definition netpollBreak : QM unit :=
  let! q := go_get in
  if qp_wrwake q <? 0 then go_ret tt else
  if negb (qp_wakesig q =? 0) then go_ret tt else
  go_modify (set_wakesig 1) ;!
  let! _ := on_rt (write1 fr (u32 (qp_wrwake q)) [0] 1) in go_ret tt.

(** [for read(rdwake, &b[0], 1) == 1 {}]; fuel bounds the bytes in the pipe. *)
Fixpoint drain (fuel : nat) (b : list Z) : QM unit :=
  match fuel with
  | O => fun _ => NoFuel
  | S fuel =>
    let! q := go_get in
    let! (n, b) := on_rt (read fr (qp_rdwake q) b 1) in
    if n =? 1 then drain fuel b else go_ret tt
  end.

(** The scan of the entries from index [i] on, [k] of them, while n > 0. *)
Fixpoint netpoll_loop (k i : nat) (n : Z) (toRun : list Z) (delta : Z) : NM (list Z * Z) :=
  match k with
  | O => go_ret (toRun, delta)
  | S k =>
    if n <=? 0 then go_ret (toRun, delta) else
    let! s := go_get in
    let q := np_backend s in
    match qp_pfds q !! i, qp_pds q !! i with
    | Some p, Some a =>
      on_backend (go_modify (set_pfds (<[i := disarm p]> (qp_pfds q)))) ;!
      let mode := ready_mode (pf_revents p) in
      if negb (mode =? 0) then
        on_pd a (go_modify (setEventErr (pf_revents p =? _POLLERR) 0)) ;!
        let! (toRun, d) := netpollready toRun a mode in
        netpoll_loop k (S i) (n - 1) toRun (delta + d)
      else netpoll_loop k (S i) n toRun delta
    | _, _ => go_throw "index out of range"
    end
  end.

(** Whether the wake pipe is readable, once poll has answered [n]. *)
Definition woken_up (n : Z) (l : list pollfd) : bool :=
  match l with
  | p :: _ => negb (n =? 0) &&
              has_bits (pf_revents p) (Z.lor (Z.lor _POLLIN _POLLHUP) _POLLERR)
  | [] => false
  end.

(** netpoll from poll's answer [n >= 0] on. *)
Definition netpoll_ready (fuel : nat) (n : Z) : NM (list Z * Z) :=
  let! s := go_get in
  let wake := woken_up n (qp_pfds (np_backend s)) in
  (if wake then on_backend (drain fuel [0] ;! go_modify (set_wakesig 0)) else go_ret tt) ;!
  netpoll_loop (length (qp_pfds (np_backend s)) - 1) 1
    (if wake then n - 1 else n) [] 0.

(** [goto retry] after an EINTR needs timeout = 0, which netpoll_timeout never
    is, so the code after the label runs once. *)
Definition netpoll (fuel : nat) (delay : Z) : NM (list Z * Z) :=
  let! s := go_get in
  if delay =? 0 then go_ret ([], 0) else
  let timeout := netpoll_timeout delay (qp_wrwake (np_backend s)) in
  on_backend (go_modify (set_pending 0)) ;!
  let! (n, e) := on_backend (let! q := go_get in
                             poll (Z.of_nat (length (qp_pfds q))) timeout) in
  if n <? 0 then
    if negb (e =? _EINTR) then go_throw "poll failed"
    else if 0 <? timeout then go_ret ([], 0) else fun _ => NoFuel
  else netpoll_ready fuel n.
End qnx.

#[export] Instance qnx_poller {W} `{!Libc W} (fr : frame) : Poller (qnxpoll W) := {
  netpollinit := on_backend (qnx_netpollinit fr);
  netpollopen := qnx_netpollopen fr;
  netpollclose := qnx_netpollclose fr;
  netpollarm := qnx_netpollarm fr;
}.

(** ** The timeout *)

(** What netpoll asks of poll(2).  Without a wake pipe it never blocks more than
    10 ms; with one, a negative delay blocks for ever and a positive delay for
    a non-zero number of milliseconds that is not longer than the delay rounded
    up to 1 ms, and is exactly the delay in whole milliseconds up to 10^15 ns. *)
Theorem netpoll_timeout_bounds delay wrwake :
  in_s 64 delay -> delay <> 0 ->
  let t := netpoll_timeout delay wrwake in
  0 < t < 2 ^ 32 /\
  (wrwake < 0 -> t <= pollNoWakeCapMs) /\
  (0 <= wrwake -> (t = 2 ^ 32 - 1 <-> delay < 0)) /\
  (0 < delay -> t * 1000000 <= Z.max delay 1000000) /\
  (0 <= wrwake -> 1000000 <= delay < 1000000000000000 ->
     t * 1000000 <= delay < (t + 1) * 1000000).
Proof.
  intros Hd Hnz t. unfold t, netpoll_timeout, pollNoWakeCapMs.
  destruct (Z.ltb_spec delay 0) as [H0|H0].
  { destruct (Z.ltb_spec wrwake 0); cbn [andb orb Z.eqb]; [|rewrite ?Z.eqb_refl; golia].
    rewrite Z.eqb_refl. cbn [orb]. lia. }
  rewrite goquot_nonneg by lia.
  destruct (Z.ltb_spec delay 1000000) as [H1|H1].
  { destruct (Z.ltb_spec wrwake 0); cbn [andb]; try lia.
    destruct (_ || _) eqn:E; [|lia].
    apply orb_true_iff in E as [?%Z.eqb_eq|?%Z.ltb_lt]; lia. }
  assert (forall x, 0 < x < 2 ^ 32 - 1 -> x * 1000000 <= delay ->
    let t := if (wrwake <? 0) && ((x =? 2 ^ 32 - 1) || (10 <? x)) then 10 else x in
    0 < t < 2 ^ 32 /\ (wrwake < 0 -> t <= 10) /\ (0 <= wrwake -> t = 2 ^ 32 - 1 <-> delay < 0) /\
    (0 < delay -> t * 1000000 <= Z.max delay 1000000) /\ (0 <= wrwake -> t = x)) as Hx.
  { intros x Hx Hxd. rewrite (proj2 (Z.eqb_neq x _)) by lia. cbn [orb].
    destruct (Z.ltb_spec wrwake 0), (Z.ltb_spec 10 x); cbn [andb]; cbv zeta; lia. }
  pose proof (Z.div_mod delay 1000000 ltac:(lia)).
  pose proof (Z.mod_pos_bound delay 1000000 ltac:(lia)).
  destruct (Z.ltb_spec delay 1000000000000000) as [Hlt|Hge].
  - rewrite (wrapu_small 32) by golia.
    destruct (Hx (delay / 1000000)) as (A & A1 & A2 & A3 & A4); [lia..|].
    do 4 (split; [assumption|]). intros Hw Hr. rewrite A4 by done. lia.
  - destruct (Hx 1000000000) as (A & A1 & A2 & A3 & A4); [lia..|].
    do 4 (split; [assumption|]). lia.
Qed.

(** ** Removing an entry by moving the last one over it *)
Lemma swap_remove_snoc {A} i (l : list A) x :
  (i <= length l)%nat -> swap_remove i (l ++ [x]) = <[i := x]> l.
Proof.
  intros Hi. unfold swap_remove. rewrite last_snoc.
  destruct (decide (i = length l)) as [->|Hne].
  - rewrite insert_app_r_alt, Nat.sub_diag by lia. cbn [insert list_insert].
    rewrite removelast_last. by rewrite list_insert_ge by lia.
  - rewrite insert_app_l by lia. apply removelast_last.
Qed.

Lemma insert_last_perm {A} i (l : list A) x y :
  (l ++ [x]) !! i = Some y -> Permutation (l ++ [x]) (y :: <[i := x]> l).
Proof.
  intros Hy. pose proof (lookup_lt_Some _ _ _ Hy) as Hlt. rewrite length_app in Hlt. cbn in Hlt.
  destruct (decide (i = length l)) as [->|Hne].
  - rewrite lookup_app_r, Nat.sub_diag in Hy by lia. injection Hy as ->.
    rewrite list_insert_ge by lia. symmetry. apply Permutation_cons_append.
  - rewrite lookup_app_l in Hy by lia. rewrite insert_take_drop by lia.
    rewrite <- (take_drop_middle l i y Hy) at 1. rewrite <- app_assoc. cbn.
    rewrite <- Permutation_middle. constructor. apply Permutation_app_head.
    symmetry. apply Permutation_cons_append.
Qed.

Lemma find_pfd_spec fd l : forall k i p,
  NoDup (map pf_fd l) -> l !! i = Some p -> pf_fd p = fd -> find_pfd fd k l = Some (k + i)%nat.
Proof.
  induction l as [|x l IH]; intros k i p Hnd Hi Hp; [done|]. cbn in *.
  apply list.NoDup_cons in Hnd as [Hx Hnd]. destruct i as [|i].
  - injection Hi as ->. rewrite Hp, Z.eqb_refl. f_equal. lia.
  - cbn in Hi. destruct (Z.eqb_spec (pf_fd x) fd) as [E|E].
    + exfalso. apply Hx. rewrite E, <- Hp. apply list_elem_of_fmap_2.
      by eapply list_elem_of_lookup_2.
    + rewrite (IH (S k) i p) by done. f_equal. lia.
Qed.

Section qnx_props.
Context {W : Type} `{!Libc W} (fr : frame).

(** A call into the C library cannot fail to return, and leaves the poller's own
    variables alone. *)
Definition same_arrays (q q' : qnxpoll W) : Prop :=
  qp_pfds q' = qp_pfds q /\ qp_pds q' = qp_pds q /\
  qp_rdwake q' = qp_rdwake q /\ qp_wrwake q' = qp_wrwake q.

Lemma write1_run fd p n (s : rtst W) :
  exists r s', write1 fr fd p n s = Ret r s' /\
    os_trace (rt_os s') = os_trace (rt_os s) ++ [EvCall "write" [CInt fd; CBuf p; CInt (u32 n)]].
Proof.
  unfold write1, sysvicall3, sysvicall3Err. rt_run. rt_call E lc os'.
  apply asmsysvicall6_out in E as (_ & _ & _ & _ & _ & _ & T). do 2 eexists. split; [done|exact T].
Qed.

Lemma read_run fd p n (s : rtst W) :
  exists r b s', read fr fd p n s = Ret (r, b) s'.
Proof.
  unfold read, sysvicall3Err. rt_run. rt_call E lc os'.
  destruct (i32 (lc_r1 lc) <? 0); by do 3 eexists.
Qed.

Lemma netpollwakeup_run (q : qnxpoll W) :
  exists q', netpollwakeup fr q = Ret tt q' /\ same_arrays q q' /\ qp_wakesig q' = qp_wakesig q.
Proof.
  unfold netpollwakeup. mrun. destruct (qp_wrwake q <? 0); [by exists q|].
  destruct (qp_pending q =? 0); [|by exists q]. unfold on_rt.
  destruct (write1_run (u32 (qp_wrwake q)) [0] 1 (qp_rt q)) as (r & s' & Ew & _).
  cbn [qp_rt set_pending]. rewrite Ew. by eexists.
Qed.

(** ** The watched descriptors *)
Definition entry_ok (s : npst (qnxpoll W)) (i : nat) (a : Z) : Prop :=
  exists pd p, np_pds s !! a = Some pd /\ qp_pfds (np_backend s) !! i = Some p /\
    pd_user pd = Z.of_nat i /\ pf_fd p = i32 (pd_fd pd).

Record qnx_inv (s : npst (qnxpoll W)) (reg : list Z) : Prop := {
  qi_pds : exists l, qp_pds (np_backend s) = 0 :: l /\ Permutation reg l;
  qi_len : length (qp_pfds (np_backend s)) = length (qp_pds (np_backend s));
  qi_room : Z.of_nat (length (qp_pfds (np_backend s))) < 2 ^ 32;
  qi_nodup : NoDup reg /\ (0 ∉ reg);
  qi_fds : NoDup (map pf_fd (qp_pfds (np_backend s)));
  qi_entry : forall i a, qp_pds (np_backend s) !! S i = Some a -> entry_ok s (S i) a }.

Definition qnx_fresh (s : npst (qnxpoll W)) (fd : Z) : Prop :=
  (i32 fd ∉ map pf_fd (qp_pfds (np_backend s))) /\
  Z.of_nat (length (qp_pfds (np_backend s))) < 2 ^ 32 - 1.

Lemma qi_reg_entry s reg a : qnx_inv s reg -> a ∈ reg ->
  exists i, qp_pds (np_backend s) !! S i = Some a /\ entry_ok s (S i) a.
Proof.
  intros H Hin. destruct (qi_pds _ _ H) as (l & El & Hp).
  rewrite Hp in Hin. apply list_elem_of_lookup in Hin as [i Hi]. exists i.
  assert (qp_pds (np_backend s) !! S i = Some a) as Hs by (by rewrite El).
  split; [done|]. by apply H.
Qed.

Lemma qi_entry_reg s reg i a :
  qnx_inv s reg -> qp_pds (np_backend s) !! S i = Some a -> a ∈ reg.
Proof.
  intros H Hi. destruct (qi_pds _ _ H) as (l & El & Hp). rewrite El in Hi. cbn in Hi.
  rewrite Hp. by eapply list_elem_of_lookup_2.
Qed.

Lemma qi_pds_nodup s reg : qnx_inv s reg -> NoDup (qp_pds (np_backend s)).
Proof.
  intros H. destruct (qi_pds _ _ H) as (l & -> & Hp). destruct (qi_nodup _ _ H) as [Hn H0].
  rewrite Hp in Hn, H0. by apply NoDup_cons_2.
Qed.

Lemma qnx_stable s s' reg :
  qnx_inv s reg -> np_backend s' = np_backend s ->
  (forall a, a ∈ reg -> (pd_user <$> np_pds s' !! a) = (pd_user <$> np_pds s !! a) /\
                        (pd_fd <$> np_pds s' !! a) = (pd_fd <$> np_pds s !! a)) ->
  qnx_inv s' reg.
Proof.
  intros H Hb Hs. split; rewrite ?Hb; try apply H.
  intros i a Hi. pose proof (qi_entry_reg _ _ _ _ H Hi) as Hin.
  destruct (qi_entry _ _ H i a Hi) as (pd & p & E1 & E2 & E3 & E4).
  destruct (Hs a Hin) as [Hu Hf]. rewrite E1 in Hu, Hf.
  destruct (np_pds s' !! a) as [pd'|] eqn:E; [|done]. cbn in Hu, Hf.
  injection Hu as Hu. injection Hf as Hf.
  exists pd', p. rewrite Hb. split_and!; congruence.
Qed.

(** The same with the arrays unchanged but the rest of the backend not. *)
Lemma qnx_same_arrays s s' reg :
  qnx_inv s reg -> same_arrays (np_backend s) (np_backend s') -> np_pds s' = np_pds s ->
  qnx_inv s' reg.
Proof.
  intros [H1 H2 H3 H4 H5 H6] (E1 & E2 & _) Hp.
  split; rewrite ?E1, ?E2; try done.
  intros i a Hi. destruct (H6 i a Hi) as (pd & p & A & B & C). exists pd, p. by rewrite Hp, E1.
Qed.

(** ** Opening *)
Lemma on_backend_run {A} (m : GoM (qnxpoll W) A) (s : npst (qnxpoll W)) x q :
  m (np_backend s) = Ret x q -> on_backend m s = Ret x (set_backend q s).
Proof. intros H. unfold on_backend. by rewrite H. Qed.

Lemma qnx_open_run fd a pd (s : npst (qnxpoll W)) :
  np_pds s !! a = Some pd ->
  Z.of_nat (length (qp_pfds (np_backend s))) < 2 ^ 32 ->
  exists q s', qnx_netpollopen fr fd a s = Ret 0 s' /\
    same_arrays (np_backend s) q /\
    np_backend s' = set_qpds (qp_pds q ++ [a]) (set_pfds (qp_pfds q ++ [mkPollfd (i32 fd) 0 0]) q) /\
    s' = set_backend (np_backend s') (set_pds (<[a :=
           set_user (Z.of_nat (length (qp_pfds (np_backend s)))) pd]> (np_pds s)) s).
Proof.
  intros Ha Hr. destruct (netpollwakeup_run (np_backend s)) as (q & Ew & Hq & _).
  unfold qnx_netpollopen. unfold go_bind at 1. rewrite (on_backend_run _ _ _ _ Ew).
  mrun. erewrite on_pd_eq by exact Ha. cbn [np_backend set_backend].
  destruct Hq as (E1 & E2 & E3 & E4). rewrite E1.
  rewrite (wrapu_small 32) by (unfold in_u; lia).
  unfold on_backend. cbn [np_backend set_backend set_pds qp_pfds qp_pds set_pfds].
  eexists q, _. split; [reflexivity|]. cbn. by rewrite E1, E2.
Qed.

Lemma insert_user_frame (s : npst (qnxpoll W)) a pd u q :
  np_pds s !! a = Some pd ->
  user_frame s (set_backend q (set_pds (<[a := set_user u pd]> (np_pds s)) s)).
Proof.
  intros Ha. split_and!; try done. intros b. cbn.
  destruct (decide (b = a)) as [->|Hne]; [by rewrite lookup_insert_eq, Ha|].
  by rewrite lookup_insert_ne.
Qed.

Lemma qnx_open_inv fd a pd s reg :
  qnx_inv s reg -> qnx_fresh s fd -> a ∉ reg -> a <> 0 -> np_pds s !! a = Some pd ->
  pd_fd pd = fd ->
  exists e s', qnx_netpollopen fr fd a s = Ret e s' /\ user_frame s s' /\
    qnx_inv s' (if e =? 0 then a :: reg else reg).
Proof.
  intros H [Hfd Hroom] Hn H0 Ha Hpf.
  destruct (qnx_open_run fd a pd s Ha) as (q & s' & Er & (E1 & E2 & E3 & E4) & Eb & Es); [lia|].
  rewrite E1, E2 in Eb. exists 0, s'. split; [done|]. split; [rewrite Es; by apply insert_user_frame|].
  cbn [Z.eqb]. destruct (qi_pds _ _ H) as (l & El & Hp). pose proof (qi_len _ _ H) as Hlen.
  split; rewrite ?Eb; cbn [qp_pds qp_pfds set_qpds set_pfds].
  - exists (l ++ [a]). rewrite El. split; [done|]. rewrite Hp. apply Permutation_cons_append.
  - rewrite !length_app. cbn. lia.
  - rewrite length_app. cbn. lia.
  - destruct (qi_nodup _ _ H) as [Hnd Hz]. split; [by apply NoDup_cons_2|].
    by intros [?|?]%elem_of_cons.
  - rewrite map_app. apply list.NoDup_app. split_and!; [apply H| |by apply NoDup_singleton].
    intros x Hx ->%list_elem_of_singleton. by apply Hfd.
  - intros i b Hi. rewrite Es. unfold entry_ok. rewrite Eb. cbn.
    destruct (decide (S i = length (qp_pds (np_backend s)))) as [Ei|Ei].
    + rewrite Ei, lookup_app_r, Nat.sub_diag in Hi by done. injection Hi as <-.
      rewrite lookup_insert_eq. eexists _, _. split; [done|].
      change (Some ?x) with ([x] !! 0%nat). rewrite Ei, <- Hlen, lookup_app_r, Nat.sub_diag by done.
      split; [done|]. cbn. by rewrite Hpf.
    + assert (S i < length (qp_pds (np_backend s)))%nat as Hlt.
      { apply lookup_lt_Some in Hi. rewrite length_app in Hi. cbn in Hi. lia. }
      rewrite lookup_app_l in Hi by done.
      assert (b <> a) as Hba by (intros ->; by apply Hn, (qi_entry_reg _ _ _ _ H Hi)).
      rewrite lookup_insert_ne by done.
      rewrite (lookup_app_l (qp_pfds (np_backend s))) by lia. by apply (qi_entry _ _ H).
Qed.

(** ** Closing *)
Lemma snoc_split {A} (l : list A) n : length l = S n -> exists l0 x, l = l0 ++ [x] /\ length l0 = n.
Proof.
  intros Hl. destruct l as [|y l] using rev_ind; [done|]. exists l, y. split; [done|].
  rewrite length_app in Hl. cbn in Hl. lia.
Qed.

Lemma qnx_close_run fd (s : npst (qnxpoll W)) i pfs px pds ax pd :
  qp_pfds (np_backend s) = pfs ++ [px] -> qp_pds (np_backend s) = pds ++ [ax] ->
  length pfs = length pds -> (i <= length pds)%nat -> Z.of_nat (length pfs) < 2 ^ 32 ->
  find_pfd (i32 fd) 0 (pfs ++ [px]) = Some i -> np_pds s !! ax = Some pd ->
  exists q s', qnx_netpollclose fr fd s = Ret 0 s' /\
    np_backend s' = set_qpds (<[i := ax]> pds) (set_pfds (<[i := px]> pfs) q) /\
    s' = set_backend (np_backend s')
           (set_pds (<[ax := set_user (Z.of_nat i) pd]> (np_pds s)) s).
Proof.
  intros Ep Eq Hl Hi Hr Hf Hax. destruct (netpollwakeup_run (np_backend s)) as (q & Ew & Hq & _).
  destruct Hq as (E1 & E2 & E3 & E4).
  unfold qnx_netpollclose. unfold go_bind at 1. rewrite (on_backend_run _ _ _ _ Ew).
  mrun. cbn [np_backend set_backend]. rewrite E1, Ep, Hf.
  unfold on_backend. cbn [np_backend set_backend qp_pds]. rewrite E2, Eq, last_snoc.
  cbn [default from_option id].
  erewrite on_pd_eq by exact Hax. rewrite (wrapu_small 32) by (unfold in_u; lia).
  cbn [np_backend set_backend set_pds qp_pds set_pfds]. rewrite E1, E2, Ep, Eq.
  rewrite !swap_remove_snoc by lia. eexists q, _. split; [reflexivity|]. done.
Qed.

Lemma qnx_close_inv fd a pd s reg :
  qnx_inv s reg -> a ∈ reg -> np_pds s !! a = Some pd -> pd_fd pd = fd ->
  exists e s' reg', qnx_netpollclose fr fd s = Ret e s' /\ user_frame s s' /\
    qnx_inv s' reg' /\ Permutation reg (a :: reg').
Proof.
  intros H Hin Ha Hpf. destruct (qi_reg_entry _ _ _ H Hin) as (j & Hj & pd' & p & Ea & Ep & Eu & Ef).
  rewrite Ha in Ea. injection Ea as <-. destruct (qi_pds _ _ H) as (l & El & Hp).
  pose proof (qi_len _ _ H) as Hlen. pose proof (qi_pds_nodup _ _ H) as Hnd.
  destruct (snoc_split (qp_pds (np_backend s)) (length l)) as (pds & ax & Eq & Hl1); [by rewrite El|].
  destruct (snoc_split (qp_pfds (np_backend s)) (length l)) as (pfs & px & Epf & Hl2);
    [by rewrite Hlen, El|].
  assert (S j <= length pds)%nat as Hjn.
  { apply lookup_lt_Some in Hj. rewrite Eq, length_app in Hj. cbn in Hj. lia. }
  destruct pds as [|z pds]; [cbn in Hjn; lia|].
  assert (z = 0 /\ l = pds ++ [ax]) as [-> ->].
  { rewrite El in Eq. cbn in Eq. by injection Eq as -> ->. }
  assert (qp_pds (np_backend s) !! S (length pds) = Some ax) as Hlast.
  { rewrite Eq. by apply list_lookup_middle. }
  destruct (qi_entry _ _ H _ _ Hlast) as (pdx & p' & Ex & Ex2 & Exu & Exf).
  assert (p' = px) as ->.
  { rewrite Epf, lookup_app_r in Ex2; cbn in *; [|lia].
    replace (S (length pds) - length pfs)%nat with 0%nat in Ex2 by lia. by injection Ex2. }
  pose proof (qi_room _ _ H) as Hroom.
  destruct (qnx_close_run fd s (S j) pfs px (0 :: pds) ax pdx) as (q & s' & Er & Eb & Es);
    try done; [by rewrite Hl1, Hl2|rewrite Epf, length_app in Hroom; lia| |].
  { rewrite <- Epf. apply (find_pfd_spec _ _ 0 (S j) p); [apply H|done|by rewrite Ef, Hpf]. }
  exists 0, s', (<[j := ax]> pds).
  assert (Permutation (pds ++ [ax]) (a :: <[j := ax]> pds)) as Hperm.
  { apply insert_last_perm. rewrite El in Hj. exact Hj. }
  split_and!; [done|rewrite Es; by apply insert_user_frame| |by rewrite Hp].
  assert (Permutation (pfs ++ [px]) (p :: <[S j := px]> pfs)) as Hpp
    by (apply insert_last_perm; by rewrite <- Epf).
  destruct (qi_nodup _ _ H) as [Hn Hz]. rewrite Hp, Hperm in Hn, Hz.
  split; rewrite ?Eb; cbn [qp_pds qp_pfds set_qpds set_pfds].
  - by exists (<[j := ax]> pds).
  - rewrite !length_insert. cbn in *. lia.
  - rewrite length_insert. rewrite Epf, length_app in Hroom. lia.
  - apply list.NoDup_cons in Hn as [_ Hn]. split; [done|]. rewrite not_elem_of_cons in Hz. apply Hz.
  - pose proof (qi_fds _ _ H) as Hf. rewrite Epf, Hpp in Hf. cbn in Hf.
    by apply list.NoDup_cons in Hf as [_ Hf].
  - intros k b Hk. change (<[j := ax]> pds !! k = Some b) in Hk.
    unfold entry_ok. rewrite Eb, Es. cbn [np_pds np_backend set_backend set_pds qp_pfds set_qpds set_pfds].
    destruct (decide (k = j)) as [->|Hkj].
    + assert (j < length pds)%nat as Hjl
        by (apply lookup_lt_Some in Hk; by rewrite length_insert in Hk).
      rewrite list_lookup_insert_eq in Hk by done.
      injection Hk as <-. rewrite lookup_insert_eq. eexists _, px. split; [done|].
      rewrite list_lookup_insert_eq; [done|]. cbn in Hl1. lia.
    + rewrite list_lookup_insert_ne in Hk by done.
      assert (qp_pds (np_backend s) !! S k = Some b) as Hk'.
      { rewrite Eq, lookup_app_l; [done|]. apply lookup_lt_Some in Hk. cbn. lia. }
      assert (b <> ax) as Hbax.
      { intros ->. pose proof (NoDup_lookup _ _ _ _ Hnd Hk' Hlast). apply lookup_lt_Some in Hk. lia. }
      rewrite lookup_insert_ne by done.
      destruct (qi_entry _ _ H k b Hk') as (pdb & pb & B1 & B2 & B3 & B4).
      exists pdb, pb. split_and!; try done. rewrite list_lookup_insert_ne by lia.
      rewrite Epf, lookup_app_l in B2; [done|]. apply lookup_lt_Some in Hk. cbn in Hl1. lia.
Qed.

(** ** Arming *)

(** Netpollarm of a watched descriptor adds the mode's event bit to that
    descriptor's entry and changes no other entry and no descriptor. *)
Theorem netpollarm_arms s reg a mode :
  qnx_inv s reg -> a ∈ reg -> mode = mode_r \/ mode = mode_w ->
  exists i p s',
    qp_pds (np_backend s) !! i = Some a /\ qp_pfds (np_backend s) !! i = Some p /\
    qnx_netpollarm fr a mode s = Ret tt s' /\
    qp_pfds (np_backend s') =
      <[i := set_events (Z.lor (pf_events p) (if mode =? mode_r then _POLLIN else _POLLOUT)) p]>
        (qp_pfds (np_backend s)) /\
    np_pds s' = np_pds s /\ qnx_inv s' reg.
Proof.
  intros H Hin Hm. destruct (qi_reg_entry _ _ _ H Hin) as (i & Hi & pd & p & E1 & E2 & E3 & E4).
  destruct (netpollwakeup_run (np_backend s)) as (q & Ew & Hq & _).
  pose proof Hq as (F1 & F2 & _).
  set (bit := if mode =? mode_r then _POLLIN else _POLLOUT).
  set (l := <[S i := set_events (Z.lor (pf_events p) bit) p]> (qp_pfds (np_backend s))).
  exists (S i), p, (set_backend (set_pfds l q) s). split; [done|]. split; [done|]. split.
  - unfold qnx_netpollarm. unfold go_bind at 1. rewrite (on_backend_run _ _ _ _ Ew).
    unfold go_bind at 1. erewrite (on_pd_read a pd_user) by exact E1.
    rewrite E3.
    destruct Hm as [-> | ->]; unfold on_backend, or_events; cbn [np_backend set_backend Z.eqb
      mode_r mode_w Pos.eqb]; by rewrite F1, Nat2Z.id, E2.
  - split; [done|]. split; [done|].
    assert (map pf_fd l = map pf_fd (qp_pfds (np_backend s))) as Hfd.
    { unfold l. apply list_eq. intros k. rewrite !list_lookup_fmap.
      destruct (decide (k = S i)) as [->|Hne]; [|by rewrite list_lookup_insert_ne].
      rewrite list_lookup_insert_eq by (by eapply lookup_lt_Some). by rewrite E2. }
    assert (length l = length (qp_pfds (np_backend s))) as Hl by apply length_insert.
    split; cbn [np_backend set_backend qp_pds qp_pfds set_pfds np_pds]; rewrite ?F2, ?Hl, ?Hfd;
      try apply H.
    intros k b Hk.
    destruct (qi_entry _ _ H k b Hk) as (pdb & pb & B1 & B2 & B3 & B4).
    unfold entry_ok. cbn [np_backend set_backend qp_pfds set_pfds np_pds].
    destruct (decide (k = i)) as [->|Hne].
    + rewrite E2 in B2. injection B2 as <-. exists pdb, (set_events (Z.lor (pf_events p) bit) p).
      unfold l. rewrite list_lookup_insert_eq by (by eapply lookup_lt_Some). done.
    + exists pdb, pb. unfold l. rewrite list_lookup_insert_ne by congruence. done.
Qed.
End qnx_props.

(** ** The scan after poll *)
Definition rd_ready (p : pollfd) : bool :=
  has_bits (pf_revents p) (Z.lor (Z.lor _POLLIN _POLLHUP) _POLLERR).
Definition wr_ready (p : pollfd) : bool :=
  has_bits (pf_revents p) (Z.lor (Z.lor _POLLOUT _POLLHUP) _POLLERR).
Definition any_ready (p : pollfd) : bool := rd_ready p || wr_ready p.

Lemma ready_mode_any p : (ready_mode (pf_revents p) =? 0) = negb (any_ready p).
Proof.
  unfold ready_mode, any_ready. fold (rd_ready p) (wr_ready p).
  by destruct (rd_ready p), (wr_ready p).
Qed.

Lemma ready_mode_r p :
  (ready_mode (pf_revents p) =? mode_r) || (ready_mode (pf_revents p) =? mode_rw) = rd_ready p.
Proof.
  unfold ready_mode. fold (rd_ready p) (wr_ready p). by destruct (rd_ready p), (wr_ready p).
Qed.

Lemma ready_mode_w p :
  (ready_mode (pf_revents p) =? mode_w) || (ready_mode (pf_revents p) =? mode_rw) = wr_ready p.
Proof.
  unfold ready_mode. fold (rd_ready p) (wr_ready p). by destruct (rd_ready p), (wr_ready p).
Qed.

(** What one entry does: the goroutines it wakes, and the descriptor after. *)
Definition wakes (p : pollfd) (pd : pollDesc) : list Z :=
  (if wr_ready p then parked_in mode_w pd else []) ++
  (if rd_ready p then parked_in mode_r pd else []).

Definition touched (p : pollfd) (pd : pollDesc) : pollDesc :=
  if any_ready p then
    let pd := setEventErr (pf_revents p =? _POLLERR) 0 pd in
    let pd := if rd_ready p then set_gpp mode_r pdReady pd else pd in
    if wr_ready p then set_gpp mode_w pdReady pd else pd
  else pd.

Lemma disarm_idle p : any_ready p = false -> disarm p = p.
Proof.
  unfold any_ready, disarm. fold (rd_ready p) (wr_ready p).
  destruct (rd_ready p), (wr_ready p); try done. by destruct p.
Qed.

Lemma parked_in_err b mode pd : parked_in mode (setEventErr b 0 pd) = parked_in mode pd.
Proof. unfold setEventErr, parked_in, gpp. cbn. by destruct (negb _). Qed.

Section scan.
Context {W : Type}.
Implicit Type s : npst (qnxpoll W).

(** Entry [i], when its arrays and descriptor are there. *)
Definition entry s (i : nat) : option (pollfd * Z * pollDesc) :=
  p ← qp_pfds (np_backend s) !! i; a ← qp_pds (np_backend s) !! i;
  pd ← np_pds s !! a; Some (p, a, pd).

Definition woken s (i : nat) : list Z :=
  match entry s i with Some (p, _, pd) => wakes p pd | None => [] end.

(** How many of the entries i .. i+k-1 are ready. *)
Fixpoint ready_count s (i k : nat) : Z :=
  match k with
  | O => 0
  | S k => (match qp_pfds (np_backend s) !! i with
            | Some p => if any_ready p then 1 else 0
            | None => 0
            end) + ready_count s (S i) k
  end.

Lemma entry_Some s i p a pd :
  entry s i = Some (p, a, pd) <->
  qp_pfds (np_backend s) !! i = Some p /\ qp_pds (np_backend s) !! i = Some a /\
  np_pds s !! a = Some pd.
Proof.
  unfold entry. split.
  - intros H. destruct (qp_pfds (np_backend s) !! i) as [p'|]; [|done]. cbn in H.
    destruct (qp_pds (np_backend s) !! i) as [a'|]; [|done]. cbn in H.
    destruct (np_pds s !! a') as [pd'|] eqn:E; [|done]. cbn in H. by injection H as -> -> ->.
  - intros (-> & -> & H). cbn. by rewrite H.
Qed.

Lemma ready_count_nonneg s k : forall i, 0 <= ready_count s i k.
Proof.
  induction k as [|k IH]; intros i; cbn; [lia|]. specialize (IH (S i)).
  destruct (_ !! i) as [p|]; [destruct (any_ready p)|]; lia.
Qed.

(** The state after one entry. *)
Definition step_entry s (i : nat) (p : pollfd) (a : Z) (pd : pollDesc) : npst (qnxpoll W) :=
  set_pds (<[a := touched p pd]> (np_pds s))
    (set_backend (set_pfds (<[i := disarm p]> (qp_pfds (np_backend s))) (np_backend s)) s).

Lemma netpoll_loop_step k i n toRun delta s p a pd :
  0 < n -> entry s i = Some (p, a, pd) ->
  netpoll_loop (S k) i n toRun delta s =
    netpoll_loop k (S i) (if any_ready p then n - 1 else n) (wakes p pd ++ toRun)
      (delta - Z.of_nat (length (wakes p pd))) (step_entry s i p a pd).
Proof.
  intros Hn (E1 & E2 & E3)%entry_Some. cbn [netpoll_loop].
  rewrite (proj2 (Z.leb_gt n 0) Hn). unfold go_bind at 1, go_get at 1. rewrite E1, E2.
  unfold go_bind at 1. unfold on_backend at 1. unfold go_modify at 1.
  rewrite ready_mode_any, negb_involutive.
  set (s1 := set_backend _ s). unfold step_entry, touched, wakes. fold s1.
  destruct (any_ready p) eqn:Er.
  - unfold go_bind at 1. erewrite on_pd_eq by exact E3. unfold go_modify at 1.
    set (pd1 := setEventErr _ 0 pd).
    set (s2 := set_pds (<[a := pd1]> (np_pds s1)) s1).
    assert (np_pds s2 !! a = Some pd1) as E4 by apply lookup_insert_eq.
    unfold go_bind at 1. rewrite (netpollready_run s2 toRun a _ pd1 E4).
    assert (forall m, parked_in m pd1 = parked_in m pd) as Hpk by (intros m; apply parked_in_err).
    rewrite ready_mode_r, ready_mode_w, !Hpk, Z.add_opp_r. f_equal.
    unfold s2, set_pds. cbn [np_pds np_inited np_first np_next np_waiters np_ready np_backend].
    by rewrite insert_insert_eq.
  - unfold any_ready in Er. apply orb_false_iff in Er as [-> ->]. cbn [app length].
    rewrite Z.sub_0_r. f_equal. unfold set_pds. cbn [np_pds]. rewrite insert_id by done.
    reflexivity.
Qed.

Lemma entry_step_other s i p a pd j :
  entry s i = Some (p, a, pd) -> NoDup (qp_pds (np_backend s)) -> j <> i ->
  entry (step_entry s i p a pd) j = entry s j.
Proof.
  intros (E1 & E2 & E3)%entry_Some Hnd Hne. unfold entry. cbn.
  rewrite list_lookup_insert_ne by congruence.
  destruct (qp_pfds (np_backend s) !! j) as [p'|]; [|done]. cbn.
  destruct (qp_pds (np_backend s) !! j) as [a'|] eqn:E; [|done]. cbn.
  rewrite lookup_insert_ne; [done|]. intros <-. apply Hne. by eapply NoDup_lookup.
Qed.

Lemma ready_count_step s i p a pd k : forall j, (i < j)%nat ->
  ready_count (step_entry s i p a pd) j k = ready_count s j k.
Proof.
  induction k as [|k IH]; intros j Hj; cbn; [done|]. rewrite IH by lia. f_equal.
  rewrite list_lookup_insert_ne by lia. done.
Qed.

Lemma woken_step s i p a pd k : forall j,
  entry s i = Some (p, a, pd) -> NoDup (qp_pds (np_backend s)) -> (i < j)%nat ->
  flat_map (woken (step_entry s i p a pd)) (rev (seq j k)) = flat_map (woken s) (rev (seq j k)).
Proof.
  intros j He Hnd Hj. rewrite !flat_map_concat_map. f_equal.
  apply map_ext_in. intros x Hx%in_rev%in_seq.
  unfold woken. by rewrite entry_step_other by (done || lia).
Qed.

(** Nothing left to do: the rest of the entries are idle. *)
Lemma scan_idle s k : forall i,
  ready_count s i k <= 0 ->
  (forall j, (i <= j < i + k)%nat -> is_Some (entry s j)) ->
  flat_map (woken s) (rev (seq i k)) = [] /\
  (forall j p a pd, (i <= j < i + k)%nat -> entry s j = Some (p, a, pd) ->
     touched p pd = pd /\ disarm p = p).
Proof.
  induction k as [|k IH]; intros i Hc He; [split; [done|lia]|].
  destruct (He i) as [[[p a] pd] Ei]; [lia|]. pose proof Ei as (E1 & E2 & E3)%entry_Some.
  cbn in Hc. rewrite E1 in Hc. pose proof (ready_count_nonneg s k (S i)).
  destruct (any_ready p) eqn:Er; [lia|].
  destruct (IH (S i)) as [IH1 IH2]; [lia|intros j Hj; apply He; lia|]. split.
  - cbn [seq rev]. rewrite flat_map_app, IH1. cbn. rewrite app_nil_r. unfold woken. rewrite Ei.
    unfold any_ready in Er. apply orb_false_iff in Er as [Er Ew]. unfold wakes. by rewrite Er, Ew.
  - intros j p' a' pd' Hj Ej. destruct (decide (j = i)) as [->|Hne]; [|apply (IH2 j p' a' pd'); [lia|done]].
    rewrite Ei in Ej. injection Ej as <- <- <-. split; [|by apply disarm_idle].
    unfold touched. by rewrite Er.
Qed.

(** What the scan of entries i .. i+k-1 leaves: these entries disarmed and their
    descriptors touched, and nothing else changed. *)
Definition scanned s s' (i k : nat) : Prop :=
  s' = set_pds (np_pds s') (set_backend (set_pfds (qp_pfds (np_backend s')) (np_backend s)) s) /\
  length (qp_pfds (np_backend s')) = length (qp_pfds (np_backend s)) /\
  (forall j, ~ (i <= j < i + k)%nat -> qp_pfds (np_backend s') !! j = qp_pfds (np_backend s) !! j) /\
  (forall a, (forall j, (i <= j < i + k)%nat -> qp_pds (np_backend s) !! j <> Some a) -> np_pds s' !! a = np_pds s !! a) /\
  (forall j p a pd, entry s j = Some (p, a, pd) ->
     entry s' j = Some (if bool_decide (i <= j < i + k)%nat
                        then (disarm p, a, touched p pd) else (p, a, pd))).

Lemma scanned_refl s i k :
  (forall j p a pd, (i <= j < i + k)%nat -> entry s j = Some (p, a, pd) ->
     touched p pd = pd /\ disarm p = p) ->
  scanned s s i k.
Proof.
  intros H. split; [by destruct s as [? ? ? ? ? ? []]|]. do 3 (split; [done|]). intros j p a pd He. rewrite He. case_bool_decide; [|done].
  by destruct (H j p a pd) as [-> ->].
Qed.

Lemma entry_step_same s i p a pd :
  entry s i = Some (p, a, pd) ->
  entry (step_entry s i p a pd) i = Some (disarm p, a, touched p pd).
Proof.
  intros (E1 & E2 & E3)%entry_Some. apply entry_Some. cbn.
  rewrite list_lookup_insert_eq by (by eapply lookup_lt_Some). by rewrite lookup_insert_eq.
Qed.

Lemma netpoll_loop_full k : forall i n toRun delta s,
  NoDup (qp_pds (np_backend s)) ->
  (forall j, (i <= j < i + k)%nat -> is_Some (entry s j)) ->
  ready_count s i k <= n ->
  exists s',
    let new := flat_map (woken s) (rev (seq i k)) in
    netpoll_loop k i n toRun delta s =
      Ret (new ++ toRun, delta - Z.of_nat (length new)) s' /\ scanned s s' i k.
Proof.
  induction k as [|k IH]; intros i n toRun delta s Hnd He Hc.
  { exists s. cbn. rewrite Z.sub_0_r. split; [done|]. apply scanned_refl. lia. }
  destruct (Z.leb_spec n 0) as [Hn|Hn].
  { exists s. destruct (scan_idle s (S k) i) as [Hf Hi]; [lia|done|]. cbv zeta. rewrite Hf.
    cbn [netpoll_loop]. rewrite (proj2 (Z.leb_le n 0) Hn). cbn. rewrite Z.sub_0_r.
    split; [done|]. by apply scanned_refl. }
  destruct (He i) as [[[p a] pd] Ei]; [lia|]. pose proof Ei as (E1 & E2 & E3)%entry_Some.
  rewrite (netpoll_loop_step _ _ _ _ _ _ _ _ _ Hn Ei). set (s1 := step_entry s i p a pd).
  destruct (IH (S i) (if any_ready p then n - 1 else n) (wakes p pd ++ toRun)
              (delta - Z.of_nat (length (wakes p pd))) s1)
    as (s' & -> & Hfr & Hl & Hq & Hd & Hs).
  - done.
  - intros j Hj. unfold s1. rewrite entry_step_other by (done || lia). apply He. lia.
  - unfold s1. rewrite ready_count_step by lia. cbn in Hc. rewrite E1 in Hc.
    destruct (any_ready p); lia.
  - exists s'. cbn [seq rev]. rewrite flat_map_app. cbn [flat_map]. rewrite app_nil_r.
    unfold s1. rewrite woken_step by (done || lia).
    assert (woken s i = wakes p pd) as -> by (unfold woken; by rewrite Ei).
    rewrite <- app_assoc, length_app. split; [do 2 f_equal; lia|].
    split; [rewrite Hfr at 1; reflexivity|]. split; [rewrite Hl; apply length_insert|]. split.
    { intros j Hj. rewrite Hq by lia. unfold s1. cbn. apply list_lookup_insert_ne. lia. }
    split.
    { intros b Hb. rewrite Hd by (intros j Hj; apply Hb; lia). unfold s1. cbn. apply lookup_insert_ne.
      intros <-. apply (Hb i); [lia|done]. }
    intros j p' a' pd' Ej.
    destruct (decide (j = i)) as [->|Hne].
    + rewrite Ei in Ej. injection Ej as <- <- <-.
      rewrite (Hs i (disarm p) a (touched p pd)) by (by apply entry_step_same).
      rewrite bool_decide_eq_false_2 by lia. by rewrite bool_decide_eq_true_2 by lia.
    + rewrite (Hs j p' a' pd') by (unfold s1; by rewrite entry_step_other).
      do 2 case_bool_decide; (done || lia).
Qed.
End scan.

#[export] Instance qnx_laws {W} `{!Libc W} (fr : frame) : @PollerLaws (qnxpoll W) (qnx_poller fr).
Proof.
  refine {| bk_inv := qnx_inv; bk_fresh := qnx_fresh |}.
  - intros s reg H. apply (qi_nodup _ _ H).
  - apply qnx_stable.
  - intros s s' fd [H1 H2] E. unfold qnx_fresh. by rewrite E.
  - intros fd a pd s reg. apply qnx_open_inv.
  - intros fd a pd s reg. apply qnx_close_inv.
Defined.

Section netpoll_props.
Context {W : Type} `{!Libc W} (fr : frame).
Implicit Type s : npst (qnxpoll W).

(** [n] reads of the wake pipe return a byte, and the next one does not. *)
Inductive pipe_bytes : nat -> list Z -> qnxpoll W -> Prop :=
| pipe_empty b q r b' rt :
    read fr (qp_rdwake q) b 1 (qp_rt q) = Ret (r, b') rt -> r <> 1 -> pipe_bytes 0 b q
| pipe_byte n b q b' rt :
    read fr (qp_rdwake q) b 1 (qp_rt q) = Ret (1, b') rt -> pipe_bytes n b' (set_rt' rt q) ->
    pipe_bytes (S n) b q.

Lemma drain_returns n : forall b q fuel, pipe_bytes n b q -> (n < fuel)%nat ->
  exists rt, drain fr fuel b q = Ret tt (set_rt' rt q).
Proof.
  induction n as [|n IH]; intros b q fuel Hp Hf; (destruct fuel as [|fuel]; [lia|]);
    inversion Hp; subst; cbn [drain]; mrun; unfold on_rt at 1.
  - rewrite H. rewrite (proj2 (Z.eqb_neq r 1)) by done. by exists rt.
  - rewrite H0. cbn [Z.eqb Pos.eqb].
    destruct (IH b' (set_rt' rt q) fuel) as (rt' & ->); [done|lia|]. by exists rt'.
Qed.

(** netpollready's and the scan's lists and deltas always match. *)
Lemma netpoll_loop_delta k : forall i n toRun delta s toRun' delta' s',
  netpoll_loop k i n toRun delta s = Ret (toRun', delta') s' ->
  delta' + Z.of_nat (length toRun') = delta + Z.of_nat (length toRun).
Proof.
  induction k as [|k IH]; intros i n toRun delta s toRun' delta' s'; cbn [netpoll_loop].
  { intros [= -> ->]. done. }
  destruct (n <=? 0); [by intros [= -> ->]|]. unfold go_bind at 1, go_get at 1.
  destruct (_ !! i) as [p|]; [|done]. destruct (_ !! i) as [a|]; [|done].
  unfold go_bind at 1, on_backend at 1, go_modify at 1.
  destruct (negb (ready_mode _ =? 0)); [|by apply IH].
  set (s1 := set_backend _ s). unfold go_bind at 1, on_pd at 1.
  destruct (np_pds s1 !! a) as [pd|] eqn:Ea; [|done]. cbn [go_modify].
  set (pd1 := setEventErr _ 0 pd). set (s2 := set_pds _ s1).
  assert (np_pds s2 !! a = Some pd1) as E4 by apply lookup_insert_eq.
  unfold go_bind at 1. rewrite (netpollready_run s2 toRun a _ pd1 E4).
  match goal with |- netpoll_loop _ _ _ (?x ++ toRun) _ _ = _ -> _ => generalize x end.
  intros new H. apply IH in H. rewrite length_app in H. lia.
Qed.

(** Netpoll's two promises to the scheduler: the delta it returns is minus
    the number of goroutines in the list, so a non-zero delta never comes with
    an empty list; and with a zero delay it returns at once, having neither
    polled nor changed anything. *)
Theorem netpoll_delta_matches fuel delay s :
  (forall toRun delta s', netpoll fr fuel delay s = Ret (toRun, delta) s' ->
     delta = - Z.of_nat (length toRun)) /\
  netpoll fr fuel 0 s = Ret ([], 0) s.
Proof.
  split; [|done]. intros toRun delta s'. unfold netpoll. unfold go_bind at 1, go_get at 1.
  destruct (delay =? 0); [by intros [= <- <-]|].
  unfold go_bind at 1, on_backend at 1, go_modify at 1.
  unfold go_bind at 1. destruct (on_backend _ _) as [[n e] s1| |]; [|done..].
  destruct (n <? 0).
  { destruct (negb _); [done|]. destruct (0 <? _); [by intros [= <- <-]|done]. }
  unfold netpoll_ready. unfold go_bind at 1, go_get at 1. unfold go_bind at 1.
  match goal with |- match ?m with _ => _ end = _ -> _ => destruct m as [[] s2| |] end; [|done..].
  intros H. apply netpoll_loop_delta in H. cbn in H. lia.
Qed.

(** The entries the scan looks at are there. *)
Lemma entries_there s reg i : qnx_inv s reg -> (1 <= i < length (qp_pfds (np_backend s)))%nat -> is_Some (entry s i).
Proof.
  intros H Hi. pose proof (qi_len _ _ H) as Hlen. destruct (qi_pds _ _ H) as (l & El & _). destruct i as [|i]; [lia|].
  destruct (lookup_lt_is_Some_2 (qp_pds (np_backend s)) (S i)) as [a Ha]; [rewrite El in *; cbn in *; lia|].
  destruct (qi_entry _ _ H i a Ha) as (pd & p & E1 & E2 & _). exists (p, a, pd). by apply entry_Some.
Qed.

(** What a wakeup leaves of the backend: the reads of the pipe, and the signal cleared. *)
Definition after_wake (wake : bool) (rt : rtst W) (q : qnxpoll W) : qnxpoll W :=
  if wake then set_wakesig 0 (set_rt' rt q) else q.

Lemma drained fuel (wake : bool) s :
  (wake = true -> exists m, pipe_bytes m [0] (np_backend s) /\ (m < fuel)%nat) ->
  exists rt, (if wake then on_backend (drain fr fuel [0] ;! go_modify (set_wakesig 0)) else go_ret tt) s =
    Ret tt (set_backend (after_wake wake rt (np_backend s)) s).
Proof.
  intros Hd. destruct wake; [|exists (qp_rt (np_backend s)); by destruct s].
  destruct (Hd eq_refl) as (m & Hm & Hf). destruct (drain_returns m [0] (np_backend s) fuel Hm Hf) as (rt & E).
  exists rt. unfold on_backend. unfold go_bind at 1. by rewrite E.
Qed.

(** Who waits on a ready entry is in the list. *)
Lemma parked_listed s i k p a pd m : entry s (S i) = Some (p, a, pd) -> (S i < 1 + k)%nat ->
  (m = mode_r /\ rd_ready p = true \/ m = mode_w /\ wr_ready p = true) -> pdWait < gpp m pd ->
  gpp m pd ∈ flat_map (woken s) (rev (seq 1 k)).
Proof.
  intros Ei Hi Hm Hg. apply list_elem_of_In, in_flat_map. exists (S i). split.
  - apply in_rev. rewrite rev_involutive. apply in_seq. lia.
  - unfold woken. rewrite Ei. apply list_elem_of_In. unfold wakes.
    assert (gpp m pd ∈ parked_in m pd) as Hp.
    { unfold parked_in, pdWait, pdNil, pdReady in *. rewrite !(proj2 (Z.eqb_neq _ _)) by lia. by left. }
    apply elem_of_app. destruct Hm as [[-> ->]|[-> ->]]; [right|left]; exact Hp.
Qed.

End netpoll_props.

(** ** Concrete runs: a poller with a wake pipe (fds 3 and 4) watching one closing
    descriptor, fd 7 at address 512, with goroutine 4096 parked on it for reading. *)
Definition demo_pd (rg : Z) : pollDesc :=
  set_rg rg (set_closing true (set_user 1 (set_fdseq 1 (set_fd 7 pollDesc0)))).

Definition demo_watch (rg revents : Z) (ls : list Script.line) : npst (qnxpoll Script.world) :=
  mkNp true {[512 := demo_pd rg]} 0 4608 0 []
    (mkQp (demo_rt ls) [mkPollfd 3 _POLLIN 0; mkPollfd 7 _POLLIN revents] [0; 512] 3 4 0 0).

Lemma demo_entry rg revents ls i a :
  qp_pds (np_backend (demo_watch rg revents ls)) !! S i = Some a ->
  i = 0%nat /\ a = 512.
Proof. destruct i as [|[|i]]; cbn; [by intros [= <-]|done..]. Qed.

Lemma demo_inv rg revents ls : qnx_inv (demo_watch rg revents ls) [512].
Proof.
  split.
  - by exists [512].
  - done.
  - by vm_compute.
  - split; [apply NoDup_singleton|]. by intros ?%list_elem_of_singleton.
  - by apply (bool_decide_unpack _); vm_compute.
  - intros i a [-> ->]%demo_entry. eexists _, _. split; [apply lookup_singleton_eq|]. done.
Qed.

Lemma demo_poller rg revents ls :
  @poller_ok _ (qnx_poller demo_frame) (qnx_laws demo_frame) (demo_watch rg revents ls) [] [512].
Proof.
  split.
  - split; cbn.
    + constructor.
    + apply NoDup_nil_2.
    + done.
    + intros a pd [<- _]%lookup_singleton_Some. done.
    + by intros a pd ?%not_elem_of_nil.
  - apply demo_inv.
  - by intros a _ ?%not_elem_of_nil.
  - intros a ->%list_elem_of_singleton. eexists. apply lookup_singleton_eq.
Qed.

Lemma pollOpen_registers_witness :
  exists a e s' l' pd,
    np_pds s' !! a = Some pd /\ (a ∉ [512]) /\
    if e =? 0 then
      @poll_runtime_pollOpen _ (qnx_poller demo_frame) 9 (demo_watch 0 0 []) = Ret (a, 0) s' /\ a <> 0 /\
      @poller_ok _ _ (qnx_laws demo_frame) s' l' [a; 512] /\ opened a 9 pd
    else
      @poll_runtime_pollOpen _ (qnx_poller demo_frame) 9 (demo_watch 0 0 []) = Ret (0, e) s' /\
      @poller_ok _ _ (qnx_laws demo_frame) s' (a :: l') [512] /\
      exists q, q <> 0 /\ pd_fdseq pd = Z.land (q + 1) (2 ^ 32 - 1).
Proof.
  apply (@pollOpen_registers _ (qnx_poller demo_frame) (qnx_laws demo_frame)
           (demo_watch 0 0 []) [] [512] 9 (demo_poller 0 0 [])).
  split; [|by vm_compute]. apply (bool_decide_unpack _). by vm_compute.
Defined.

Lemma pollClose_retires_witness :
  exists s' reg' pd',
    @poll_runtime_pollClose _ (qnx_poller demo_frame) 512 (demo_watch 0 0 []) = Ret tt s' /\
    @poller_ok _ _ (qnx_laws demo_frame) s' [512] reg' /\ Permutation [512] (512 :: reg') /\
    np_pds s' !! 512 = Some pd' /\ pd_fdseq pd' = 2 /\
    pd_closing pd' = true /\ np_waiters s' = 0 /\ np_ready s' = [].
Proof.
  apply (@pollClose_retires _ (qnx_poller demo_frame) (qnx_laws demo_frame)
           (demo_watch 0 0 []) [] [512] 512 (demo_pd 0) (demo_poller 0 0 [])).
  - by left.
  - apply lookup_singleton_eq.
  - reflexivity.
  - split; by left.
Defined.

Lemma netpoll_timeout_bounds_witness :
  let t := netpoll_timeout 2500000 4 in
  0 < t < 2 ^ 32 /\ (4 < 0 -> t <= pollNoWakeCapMs) /\ (0 <= 4 -> (t = 2 ^ 32 - 1 <-> 2500000 < 0)) /\
  (0 < 2500000 -> t * 1000000 <= Z.max 2500000 1000000) /\
  (0 <= 4 -> 1000000 <= 2500000 < 1000000000000000 -> t * 1000000 <= 2500000 < (t + 1) * 1000000).
Proof. apply (netpoll_timeout_bounds 2500000 4); [golia|lia]. Defined.

Lemma netpollarm_arms_witness :
  exists i p s',
    qp_pds (np_backend (demo_watch 0 0 [])) !! i = Some 512 /\
    qp_pfds (np_backend (demo_watch 0 0 [])) !! i = Some p /\
    qnx_netpollarm demo_frame 512 mode_w (demo_watch 0 0 []) = Ret tt s' /\
    qp_pfds (np_backend s') =
      <[i := set_events (Z.lor (pf_events p) _POLLOUT) p]> (qp_pfds (np_backend (demo_watch 0 0 []))) /\
    np_pds s' = np_pds (demo_watch 0 0 []) /\ qnx_inv s' [512].
Proof.
  apply (netpollarm_arms demo_frame (demo_watch 0 0 []) [512] 512 mode_w (demo_inv 0 0 []));
    [by left|by right].
Defined.

(** poll reports fd 7 readable (revents 1) and hung up (64): 4096 is woken. *)
Definition demo_polled : npst (qnxpoll Script.world) :=
  demo_watch 4096 0 [Script.ok 1 [[3; 5; 0; 7; 5; 65]]].

Lemma netpoll_delta_matches_witness : -1 = - Z.of_nat (length [4096]).
Proof.
  eapply (proj1 (netpoll_delta_matches demo_frame 5 (-1) demo_polled)). vm_compute. reflexivity.
Defined.

