(* ===== verification/NetpollSema.v ===== *)
(** * NetpollSema: the races on a pollDesc's semaphore

    One semaphore word ([rg] or [wg]), the one goroutine that may wait on it, and
    any number of threads unblocking it (poll readiness, deadline timers, close),
    as a step relation in which every atomic operation of netpollblock,
    netpollblockcommit and netpollunblock (runtime/netpoll.go) is a step of its own.
    [sm_err] is what netpollcheckerr would report; a thread that makes it true
    (publishInfo) goes on to unblock, as pollSetDeadline, pollUnblock and the
    deadline callbacks do. *)
From Stdlib Require Import ZArith Lia List Bool String.
From stdpp Require Import base list gmap strings numbers tactics option.
From S2P Require Import Prelude Netpoll.

(** The waiting goroutine's position. *)
Inductive wpc : Type :=
| W_idle                 (* outside netpollblock *)
| W_try                  (* CompareAndSwap(pdReady, pdNil) *)
| W_try2                 (* CompareAndSwap(pdNil, pdWait) *)
| W_chk                  (* the corruption check of the loop *)
| W_wait                 (* about to call netpollcheckerr *)
| W_park                 (* in gopark, before netpollblockcommit's CAS *)
| W_parked
| W_swap                 (* about to Swap(pdNil) *)
| W_throw (msg : string).

(** An unblocking thread's position; [io] is its [ioready] argument. *)
Inductive upc : Type :=
| U_load (io : bool)
| U_cas (io : bool) (old : Z)
| U_ready                (* holds the goroutine: goready comes next *)
| U_adj.                 (* netpollAdjustWaiters(-1) comes next *)

Record sema : Type := mkSm {
  sm_slot : Z; sm_err : bool; sm_w : wpc; sm_us : list upc;
  sm_plus : Z;           (* AdjustWaiters(1) calls still to come *)
  sm_waiters : Z }.      (* netpollWaiters *)

Section sema.
(** The waiting goroutine's address. *)
Context (G : Z) (HG : pdWait < G).

Definition w_to (w : wpc) (s : sema) : sema :=
  mkSm (sm_slot s) (sm_err s) w (sm_us s) (sm_plus s) (sm_waiters s).
Definition slot_to (v : Z) (s : sema) : sema :=
  mkSm v (sm_err s) (sm_w s) (sm_us s) (sm_plus s) (sm_waiters s).
Definition us_to (us : list upc) (s : sema) : sema :=
  mkSm (sm_slot s) (sm_err s) (sm_w s) us (sm_plus s) (sm_waiters s).
Definition err_to (e : bool) (s : sema) : sema :=
  mkSm (sm_slot s) e (sm_w s) (sm_us s) (sm_plus s) (sm_waiters s).
Definition count_to (plus waiters : Z) (s : sema) : sema :=
  mkSm (sm_slot s) (sm_err s) (sm_w s) (sm_us s) plus waiters.

(** The waiter's next atomic operation. *)
Definition w_next (s : sema) : option sema :=
  match sm_w s with
  | W_try => Some (if sm_slot s =? pdReady then w_to W_idle (slot_to pdNil s) else w_to W_try2 s)
  | W_try2 => Some (if sm_slot s =? pdNil then w_to W_wait (slot_to pdWait s) else w_to W_chk s)
  | W_chk => Some (if negb (sm_slot s =? pdReady) && negb (sm_slot s =? pdNil)
                   then w_to (W_throw "runtime: double wait") s else w_to W_try s)
  | W_wait => Some (if sm_err s then w_to W_swap s else w_to W_park s)
  | W_park => Some (if sm_slot s =? pdWait
                    then count_to (sm_plus s + 1) (sm_waiters s) (w_to W_parked (slot_to G s))
                    else w_to W_swap s)
  | W_swap => Some (if pdWait <? sm_slot s
                    then w_to (W_throw "runtime: corrupted polldesc") (slot_to pdNil s)
                    else w_to W_idle (slot_to pdNil s))
  | _ => None
  end.

(** An unblocking thread's next atomic operation: the threads it leaves in its
    place and the state. *)
Definition u_next (u : upc) (s : sema) : list upc * sema :=
  match u with
  | U_load io =>
    let old := sm_slot s in
    if old =? pdReady then ([], s)
    else if (old =? pdNil) && negb io then ([], s)
    else ([U_cas io old], s)
  | U_cas io old =>
    if sm_slot s =? old then
      ((if (old =? pdNil) || (old =? pdWait) then [] else [U_ready]),
       slot_to (if io then pdReady else pdNil) s)
    else ([U_load io], s)
  | U_ready => ([U_adj], match sm_w s with W_parked => w_to W_swap s | _ => s end)
  | U_adj => ([], count_to (sm_plus s) (sm_waiters s - 1) s)
  end.

Inductive sstep : sema -> sema -> Prop :=
| ss_enter s : sm_w s = W_idle -> sstep s (w_to W_try s)
| ss_reset s : sm_w s = W_idle -> sstep s (slot_to pdNil s)
| ss_waiter s s' : w_next s = Some s' -> sstep s s'
| ss_commit s : 0 < sm_plus s -> sstep s (count_to (sm_plus s - 1) (sm_waiters s + 1) s)
| ss_clear s : sstep s (err_to false s)
| ss_io s : sstep s (us_to (U_load true :: sm_us s) s)
| ss_expire s : sstep s (err_to true (us_to (U_load false :: sm_us s) s))
| ss_unblock s l1 u l2 us s' :
    sm_us s = l1 ++ u :: l2 -> u_next u s = (us, s') ->
    sstep s (us_to (l1 ++ us ++ l2) s').

Definition sinit : sema := mkSm pdNil false W_idle [] 0 0.

Inductive sreach : sema -> Prop :=
| sreach_init : sreach sinit
| sreach_step s s' : sreach s -> sstep s s' -> sreach s'.

(** ** The atomic run of an unblocker is netpollunblock *)
Definition slot_pd (v : Z) : pollDesc := set_gpp mode_r v pollDesc0.

Lemma unblock_atomic io s :
  let '(pd', g, delta) := netpollunblock (slot_pd (sm_slot s)) mode_r io in
  match u_next (U_load io) s with
  | ([], s1) => s1 = s /\ pd' = slot_pd (sm_slot s) /\ g = 0 /\ delta = 0
  | (u :: _, s1) =>
    exists us s2, u_next u s1 = (us, s2) /\ pd' = slot_pd (sm_slot s2) /\
      (g <> 0 <-> us = [U_ready]) /\ delta = - Z.of_nat (length us)
  end.
Proof.
  unfold netpollunblock, u_next. change (gpp mode_r (slot_pd (sm_slot s))) with (sm_slot s).
  assert (pdNil <> pdReady /\ pdWait <> pdReady /\ pdNil <> pdWait) as (N1 & N2 & N3) by done.
  destruct (Z.eqb_spec (sm_slot s) pdReady) as [E|E]; [done|].
  destruct (Z.eqb_spec (sm_slot s) pdNil) as [E0|E0]; cbn [andb].
  - destruct io; cbn [negb]; [|done]. rewrite E0. do 2 eexists. split; [reflexivity|]. done.
  - destruct (Z.eqb_spec (sm_slot s) pdWait) as [E1|E1].
    + rewrite E1. do 2 eexists. split; [reflexivity|]. done.
    + cbn [negb]. rewrite Z.eqb_refl, (proj2 (Z.eqb_neq _ pdNil) E0).
      do 2 eexists. split; [reflexivity|]. done.
Qed.

(** ** The invariant *)
Definition holder (u : upc) : bool := match u with U_ready => true | _ => false end.
Definition adjuster (u : upc) : bool := match u with U_adj => true | _ => false end.
(** Still going to unblock because of an error state. *)
Definition urgent (u : upc) : bool :=
  match u with U_load false | U_cas false _ => true | _ => false end.

Definition count (f : upc -> bool) (us : list upc) : Z := Z.of_nat (length (List.filter f us)).

(** What the position of the waiter says about the word. *)
Definition slot_ok (s : sema) : Prop :=
  match sm_w s with
  | W_idle | W_try | W_try2 | W_chk =>
    (sm_slot s = pdNil \/ sm_slot s = pdReady) /\ count holder (sm_us s) = 0
  | W_wait | W_park | W_swap =>
    (sm_slot s = pdNil \/ sm_slot s = pdReady \/ sm_slot s = pdWait) /\ count holder (sm_us s) = 0
  | W_parked =>
    (sm_slot s = G /\ count holder (sm_us s) = 0) \/
    ((sm_slot s = pdNil \/ sm_slot s = pdReady) /\ count holder (sm_us s) = 1)
  | W_throw _ => False
  end.

(** An error state that the waiter did not see has someone still to report it. *)
Definition err_ok (s : sema) : Prop :=
  sm_err s = true ->
  (sm_w s = W_park /\ sm_slot s = pdWait) \/ (sm_w s = W_parked /\ sm_slot s = G) ->
  exists u, u ∈ sm_us s /\ urgent u = true.

(** An unblocker only tries to replace a word it may. *)
Definition cas_ok (u : upc) : Prop :=
  match u with U_cas io old => old <> pdReady /\ (old = pdNil -> io = true) | _ => True end.

Definition waiters_ok (s : sema) : Prop :=
  0 <= sm_plus s /\
  sm_waiters s + sm_plus s =
    (if bool_decide (sm_slot s = G) then 1 else 0) + count holder (sm_us s) + count adjuster (sm_us s).

Record sinv (s : sema) : Prop := {
  si_slot : slot_ok s;
  si_err : err_ok s;
  si_cas : Forall cas_ok (sm_us s);
  si_wait : waiters_ok s }.

Lemma count_app f l1 l2 : count f (l1 ++ l2) = count f l1 + count f l2.
Proof. unfold count. rewrite List.filter_app, length_app. lia. Qed.

Lemma count_cons f u l : count f (u :: l) = (if f u then 1 else 0) + count f l.
Proof. unfold count. cbn. destruct (f u); cbn; lia. Qed.

Lemma count_nonneg f l : 0 <= count f l.
Proof. unfold count. lia. Qed.

Lemma count_nil f : count f [] = 0.
Proof. done. Qed.

(** Splits a value of the slot against the constants and [G]. *)
Ltac slots := unfold pdNil, pdReady, pdWait in *.

Lemma sinv_waiter s s' : sinv s -> w_next s = Some s' -> sinv s'.
Proof.
  intros [Hs He Hc Hw] Hn. unfold w_next in Hn. unfold slot_ok in Hs.
  unfold err_ok in He. unfold waiters_ok in Hw.
  destruct (sm_w s) eqn:Ew; try discriminate;
    repeat match type of Hn with
    | context [if sm_slot s =? ?k then _ else _] => destruct (Z.eqb_spec (sm_slot s) k)
    | context [if negb _ && negb _ then _ else _] =>
        destruct (negb (sm_slot s =? pdReady) && negb (sm_slot s =? pdNil)) eqn:Eb
    | context [if sm_err s then _ else _] => destruct (sm_err s) eqn:Ee
    | context [if pdWait <? sm_slot s then _ else _] => destruct (Z.ltb_spec pdWait (sm_slot s))
    end; injection Hn as <-;
    split; unfold slot_ok, err_ok, waiters_ok; cbn; try done; try (rewrite Ew);
    repeat case_bool_decide; slots; try done; try lia;
    try (by intros _ [[? ?]|[? ?]]); try (by intuition lia).
  by rewrite Ee.
Qed.

Lemma urgent_drop l1 u l2 us :
  (exists x, x ∈ l1 ++ u :: l2 /\ urgent x = true) ->
  urgent u = false \/ (exists x, x ∈ us /\ urgent x = true) ->
  exists x, x ∈ l1 ++ us ++ l2 /\ urgent x = true.
Proof.
  intros (x & Hx & Hu) Hor.
  apply elem_of_app in Hx as [Hx|[->|Hx]%elem_of_cons].
  - exists x. rewrite elem_of_app. auto.
  - destruct Hor as [Hf|(y & Hy & Huy)]; [congruence|]. exists y. rewrite !elem_of_app. auto.
  - exists x. rewrite !elem_of_app. auto.
Qed.

(** The three conjuncts after one step of an unblocker. *)
Ltac u_finish Hcnt Hur He :=
  split; unfold slot_ok, err_ok, waiters_ok; cbn [us_to sm_us sm_w sm_slot sm_err sm_plus sm_waiters];
    rewrite ?Hcnt, ?count_cons, ?count_nil; cbn -[Z.add]; slots; try done;
  first
    [ lia
    | repeat case_bool_decide; lia
    | match goal with |- context [sm_w ?s] => destruct (sm_w s); intuition lia end
    | intros He1 Hp; apply Hur; [by apply He|];
      first [left; done | right; eexists; split; [by left|done]]
    | intros _ Hp; exfalso; intuition congruence
    | intros _ Hp; exfalso; intuition lia
    | idtac ].

Lemma sinv_unblock s l1 u l2 us s' :
  sinv s -> sm_us s = l1 ++ u :: l2 -> u_next u s = (us, s') ->
  sinv (us_to (l1 ++ us ++ l2) s').
Proof.
  intros [Hs He Hc Hw] El Hn.
  unfold slot_ok, err_ok, waiters_ok in *. rewrite El in *.
  apply list.Forall_app in Hc as [Hc1 [Hc0 Hc2]%Forall_cons_iff].
  rewrite !count_app, !count_cons in Hw.
  assert (forall f, count f (l1 ++ us ++ l2) = count f l1 + count f us + count f l2) as Hcnt
    by (intros f; rewrite !count_app; lia).
  assert (forall f, count f (l1 ++ u :: l2) = count f l1 + (if f u then 1 else 0) + count f l2) as Hcnu
    by (intros f; rewrite count_app, count_cons; lia).
  pose proof (urgent_drop l1 u l2 us) as Hur.
  assert (Forall cas_ok us) as Hcu.
  { destruct u as [io|io old| |]; cbn in Hn.
    - destruct (Z.eqb_spec (sm_slot s) pdReady); [by injection Hn as <- <-|].
      destruct (Z.eqb_spec (sm_slot s) pdNil) as [E|E]; destruct io; cbn in Hn;
        injection Hn as <- <-; repeat constructor; done.
    - destruct (sm_slot s =? old); injection Hn as <- <-; [|by repeat constructor].
      destruct (_ || _); by repeat constructor.
    - injection Hn as <- <-. by repeat constructor.
    - by injection Hn as <- <-. }
  assert (Forall cas_ok (l1 ++ us ++ l2)) as Hc' by (by rewrite !list.Forall_app).
  rewrite !Hcnu in *. pose proof (count_nonneg holder l1). pose proof (count_nonneg holder l2).
  pose proof (count_nonneg adjuster l1). pose proof (count_nonneg adjuster l2).
  destruct u as [io|io old| |]; cbn in Hn, Hc0, Hs, Hw, Hur.
  - destruct (Z.eqb_spec (sm_slot s) pdReady) as [E|E];
      [|destruct (Z.eqb_spec (sm_slot s) pdNil) as [E'|E']; destruct io; cbn in Hn];
      injection Hn as <- <-; u_finish Hcnt Hur He.
  - destruct (Z.eqb_spec (sm_slot s) old) as [E|E];
      [destruct (Z.eqb_spec old pdNil) as [E1|E1], (Z.eqb_spec old pdWait) as [E2|E2]; destruct io; cbn in Hn|destruct io];
      injection Hn as <- <-; u_finish Hcnt Hur He;
      destruct (sm_w s); repeat case_bool_decide; intuition lia.
  - assert (sm_w s = W_parked) as Ew by (destruct (sm_w s); intuition lia).
    rewrite Ew in Hn, Hs. injection Hn as <- <-. u_finish Hcnt Hur He.
  - injection Hn as <- <-. u_finish Hcnt Hur He.
Qed.

Lemma sinv_step s s' : sinv s -> sstep s s' -> sinv s'.
Proof.
  intros HI Hs. destruct Hs as [s Ew|s Ew|s s' Hn|s Hp|s|s|s|s l1 u l2 us s' El Hn];
    [..|by eapply sinv_unblock]; [| |by eapply sinv_waiter|..];
    destruct HI as [Hsl He Hc Hw]; unfold slot_ok, err_ok, waiters_ok in *;
    (split; unfold slot_ok, err_ok, waiters_ok; cbn;
      rewrite ?count_cons; cbn [holder adjuster]; slots; rewrite ?Ew in *);
    try done; try (intuition lia); try (by intros _ [[? ?]|[? ?]]).
  - repeat case_bool_decide; intuition lia.
  - intros He1 Hp. destruct (He He1 Hp) as (u & Hu & Hg). exists u. split; [by right|done].
  - by constructor.
  - intros _ _. exists (U_load false). split; [by left|done].
  - by constructor.
Qed.

Lemma sinv_reach s : sreach s -> sinv s.
Proof.
  induction 1 as [|s s' _ IH Hs]; [|by eapply sinv_step].
  split; [cbn; split; [by left|done]|done|constructor|].
  unfold waiters_ok. cbn. rewrite bool_decide_eq_false_2; [done|]. slots. lia.
Qed.

(** However the atomic steps of one waiter and any number of unblockers
    interleave, the waiter never meets a corrupted semaphore: neither the
    double-wait throw nor the corrupted-polldesc throw is reachable. *)
Theorem sema_never_throws s : sreach s -> forall msg, sm_w s <> W_throw msg.
Proof.
  intros HR msg E. apply sinv_reach in HR as [Hs _ _ _]. unfold slot_ok in Hs. by rewrite E in Hs.
Qed.

(** C13: no wakeup is lost: when no unblocking thread is still running, a
    parked goroutine sits in the semaphore word (so that the next
    notification finds it), and no error state it should have been told of
    is published. *)
Theorem sema_no_lost_wakeup s :
  sreach s -> sm_us s = [] -> sm_w s = W_parked -> sm_slot s = G /\ sm_err s = false.
Proof.
  intros HR Hu Ew. apply sinv_reach in HR as [Hs He _ _]. unfold slot_ok, err_ok in *.
  rewrite Ew, Hu in *. cbn in Hs. destruct Hs as [[Hs _]|[_ Hs]]; [|discriminate].
  split; [done|]. destruct (sm_err s) eqn:E; [|done].
  destruct (He eq_refl) as (u & Hin & _); [by right|]. by apply not_elem_of_nil in Hin.
Qed.

(** NetpollWaiters is exact: once nobody has an adjustment outstanding it
    is 1 when the goroutine is parked and 0 when it is not, so that after any
    history the scheduler's view of whether anyone waits is right. *)
Theorem sema_waiters_exact s :
  sreach s -> sm_us s = [] -> sm_plus s = 0 ->
  sm_waiters s = (match sm_w s with W_parked => 1 | _ => 0 end).
Proof.
  intros HR Hu Hp. apply sinv_reach in HR as [Hs _ _ [_ Hw]]. unfold slot_ok in Hs.
  rewrite Hu, Hp in *. unfold count in *. cbn in Hs, Hw. slots.
  destruct (sm_w s); case_bool_decide; intuition lia.
Qed.
End sema.

(** ** A concrete race: the goroutine 4096 passes its error check, a deadline
    expires, its thread reads the word before the commit and swaps after it. *)
Definition race_wait : sema := mkSm pdWait false W_park [] 0 0.
Definition race_parked : sema := mkSm 4096 false W_parked [] 0 1.

Lemma race_wait_reach : sreach 4096 race_wait.
Proof.
  eapply sreach_step; [|apply (ss_waiter _ (mkSm pdWait false W_wait [] 0 0)); reflexivity].
  eapply sreach_step; [|apply (ss_waiter _ (mkSm pdNil false W_try2 [] 0 0)); reflexivity].
  eapply sreach_step; [|apply (ss_waiter _ (mkSm pdNil false W_try [] 0 0)); reflexivity].
  eapply sreach_step; [apply sreach_init|]. apply (ss_enter _ sinit). reflexivity.
Qed.

Lemma race_parked_reach : sreach 4096 race_parked.
Proof.
  eapply sreach_step; [|apply (ss_commit _ (mkSm 4096 false W_parked [] 1 0)); done].
  eapply sreach_step; [apply race_wait_reach|]. apply (ss_waiter _ race_wait). reflexivity.
Qed.

Lemma sema_never_throws_witness : sm_w race_parked <> W_throw "runtime: corrupted polldesc".
Proof. exact (sema_never_throws 4096 ltac:(done) race_parked race_parked_reach _). Defined.

Lemma sema_no_lost_wakeup_witness : sm_slot race_parked = 4096 /\ sm_err race_parked = false.
Proof.
  exact (sema_no_lost_wakeup 4096 ltac:(done) race_parked race_parked_reach eq_refl eq_refl).
Defined.

Lemma sema_waiters_exact_witness : sm_waiters race_parked = 1.
Proof.
  exact (sema_waiters_exact 4096 ltac:(done) race_parked race_parked_reach eq_refl eq_refl).
Defined.
