(* ===== verification/Notes.v ===== *)
(** * Notes: one-time notifications on semaphores

    runtime/lock_sema.go: a note's word, the semaphore of the M that sleeps on it, the
    sleeper and the waker, as a step relation in which every atomic operation and every
    semaphore call is a step of its own.  semasleep and semawakeup are those of
    RuntimeOS.v, taken by what they do to the semaphore: a wakeup adds one, a sleep takes
    one or, where it is timed, gives up ([semasleep_timed_outcome] says for which answers
    of the C library).  [cgo_yield] is whether *cgo_yield is set. *)
From Stdlib Require Import ZArith Lia List Bool String.
From stdpp Require Import base list strings numbers tactics option.
From S2P Require Import Prelude RuntimeOS.

(** The word is 0, [locked], or the M that waits. *)
Definition locked : Z := 1.

(** How the sleeper sleeps: notesleep, or notetsleep_internal with its [ns]. *)
Inductive kind : Type := Sleep | Timed (ns : Z).

(** The sleeper's position. *)
Inductive sleeper : Type :=
| S_idle                          (* not called yet *)
| S_cas (k : kind)                (* Casuintptr(&n.key, 0, gp.m) *)
| S_check (k : kind)              (* the CAS failed: if n.key != locked *)
| S_sleep                         (* semasleep(-1), then return true *)
| S_poll                          (* for semasleep(10e6) < 0 *)
| S_yield_load                    (* for Loaduintptr(&n.key) == 0 *)
| S_yield_sleep                   (* its body *)
| S_start (ns : Z)                (* deadline = nanotime() + ns *)
| S_timed (deadline ns : Z)       (* if semasleep(ns) >= 0 *)
| S_woke (deadline : Z)           (* it was not: ns = deadline - nanotime() *)
| S_load (deadline : Z)           (* v := Loaduintptr(&n.key) *)
| S_unregister (deadline : Z)     (* v was gp.m: Casuintptr(&n.key, v, 0) *)
| S_grab                          (* v was locked: semasleep(-1) *)
| S_done (ok : bool)
| S_throw (msg : string).

(** The waker's position in notewakeup. *)
Inductive waker : Type :=
| W_idle | W_load | W_cas (v : Z)
| W_post                          (* semawakeup of the waiting m *)
| W_done | W_throw (msg : string).

(** [semacount] is the semaphore of the sleeper's M. *)
Record notest : Type := mkNote { key : Z; semacount : Z; now : Z; sl : sleeper; wk : waker }.

Section notes.
(** The sleeper's M, and whether there is something to call while asleep. *)
Context (m : Z) (Hm : locked < m) (cgo_yield : bool).

Definition set_key v s := mkNote v (semacount s) (now s) (sl s) (wk s).
Definition set_sema n s := mkNote (key s) n (now s) (sl s) (wk s).
Definition set_sl p s := mkNote (key s) (semacount s) (now s) p (wk s).
Definition set_wk p s := mkNote (key s) (semacount s) (now s) (sl s) p.

(** semasleep: with [ns < 0] the semaphore has to be there; else it may also be given up. *)
Definition try_sema (got timeout : notest -> notest) (s : notest) : list notest :=
  (if 0 <? semacount s then [got (set_sema (semacount s - 1) s)] else []) ++ [timeout s].
Definition take_sema (got : notest -> notest) (s : notest) : list notest :=
  if 0 <? semacount s then [got (set_sema (semacount s - 1) s)] else [].

(** Where the sleeper goes once it is registered. *)
Definition registered (k : kind) : sleeper :=
  match k with
  | Sleep => if cgo_yield then S_yield_load else S_sleep
  | Timed ns => if ns <? 0 then if cgo_yield then S_poll else S_sleep else S_start ns
  end.
Definition out_of_sync (k : kind) : string :=
  match k with Sleep => "notesleep - waitm out of sync" | Timed _ => "notetsleep - waitm out of sync" end.
Definition ten_ms : Z := 10000000.
(** if *cgo_yield != nil && ns > 10e6 { ns = 10e6 } *)
Definition slice_ns (ns : Z) : Z := if cgo_yield && (ten_ms <? ns) then ten_ms else ns.

(** notesleep and notetsleep_internal. *)
Definition sleeper_next (s : notest) : list notest :=
  match sl s with
  | S_cas k => [if key s =? 0 then set_sl (registered k) (set_key m s) else set_sl (S_check k) s]
  | S_check k => [if negb (key s =? locked) then set_sl (S_throw (out_of_sync k)) s else set_sl (S_done true) s]
  | S_sleep => take_sema (set_sl (S_done true)) s
  | S_poll => try_sema (set_sl (S_done true)) (set_sl S_poll) s
  | S_yield_load => [if key s =? 0 then set_sl S_yield_sleep s else set_sl (S_done true) s]
  | S_yield_sleep => try_sema (set_sl S_yield_load) (set_sl S_yield_load) s
  | S_start ns => let deadline := i64 (now s + ns) in [set_sl (S_timed deadline (slice_ns ns)) s]
  | S_timed deadline ns => try_sema (set_sl (S_done true)) (set_sl (S_woke deadline)) s
  | S_woke deadline =>
    let ns := i64 (deadline - now s) in
    [if ns <=? 0 then set_sl (S_load deadline) s else set_sl (S_timed deadline (slice_ns ns)) s]
  | S_load deadline =>
    [if key s =? m then set_sl (S_unregister deadline) s
     else if key s =? locked then set_sl S_grab s
     else set_sl (S_throw "runtime: unexpected waitm - semaphore out of sync") s]
  | S_unregister deadline =>
    [if key s =? m then set_sl (S_done false) (set_key 0 s) else set_sl (S_load deadline) s]
  | S_grab => take_sema (set_sl (S_done true)) s
  | S_idle | S_done _ | S_throw _ => []
  end.

(** notewakeup. *)
Definition waker_next (s : notest) : list notest :=
  match wk s with
  | W_load => [set_wk (W_cas (key s)) s]
  | W_cas v =>
    [if key s =? v then
       let s := set_key locked s in
       if v =? 0 then set_wk W_done s
       else if v =? locked then set_wk (W_throw "notewakeup - double wakeup") s
       else set_wk W_post s
     else set_wk W_load s]
  | W_post => [set_wk W_done (set_sema (semacount s + 1) s)]
  | W_idle | W_done | W_throw _ => []
  end.

(** Between two noteclears there is one sleep, of a kind in [ks], and one wakeup, each
    whenever it likes; time passes, as an int64. *)
Inductive nstep (ks : kind -> Prop) : notest -> notest -> Prop :=
| n_sleep s k : sl s = S_idle -> ks k -> nstep ks s (set_sl (S_cas k) s)
| n_wake s : wk s = W_idle -> nstep ks s (set_wk W_load s)
| n_sleeper s s' : s' ∈ sleeper_next s -> nstep ks s s'
| n_waker s s' : s' ∈ waker_next s -> nstep ks s s'
| n_tick s t : now s <= t < 2 ^ 63 -> nstep ks s (mkNote (key s) (semacount s) t (sl s) (wk s)).

(** noteclear, with the semaphore as every sleep leaves it. *)
Definition cleared (t : Z) : notest := mkNote 0 0 t S_idle W_idle.

Inductive nreach (ks : kind -> Prop) : notest -> Prop :=
| nr_start t : 0 <= t < 2 ^ 63 -> nreach ks (cleared t)
| nr_step s s' : nreach ks s -> nstep ks s s' -> nreach ks s'.

(** notesleep only where there is nothing to call while asleep. *)
Definition sound (k : kind) : Prop := k = Sleep -> cgo_yield = false.

(** ** The invariant *)

(** What the sleeper has done to the word. *)
Inductive stage : Type := Before | Waiting | GaveUp | Returned | Broken.
Definition stage_of (p : sleeper) : stage :=
  match p with
  | S_idle | S_cas _ => Before
  | S_sleep | S_poll | S_start _ | S_timed _ _ | S_woke _ | S_load _ | S_unregister _ => Waiting
  | S_check _ | S_grab | S_done true => Returned
  | S_done false => GaveUp
  | S_yield_load | S_yield_sleep | S_throw _ => Broken
  end.

(** A wakeup found the sleeper waiting and has posted what it has not taken yet. *)
Definition word_ok (s : notest) : Prop :=
  match wk s with
  | W_idle | W_load | W_cas _ =>
    semacount s = 0 /\
    match stage_of (sl s) with Before | GaveUp => key s = 0 | Waiting => key s = m | _ => False end /\
    (forall v, wk s = W_cas v -> v = 0 \/ v = m)
  | W_post => key s = locked /\ semacount s = 0 /\ (stage_of (sl s) = Waiting \/ sl s = S_grab)
  | W_done =>
    key s = locked /\
    match sl s with
    | S_idle | S_cas _ | S_check _ | S_done _ => semacount s = 0
    | p => (stage_of p = Waiting \/ p = S_grab) /\ semacount s = 1
    end
  | W_throw _ => False
  end.

(** A sleeper that gives up has seen its deadline pass. *)
Definition time_ok (s : notest) : Prop :=
  0 <= now s < 2 ^ 63 /\
  match sl s with
  | S_timed d _ | S_woke d => d < 2 ^ 63
  | S_load d | S_unregister d => d < 2 ^ 63 /\ (0 <= d -> d <= now s)
  | S_cas k => sound k
  | _ => True
  end.

Lemma registered_waiting k : sound k -> stage_of (registered k) = Waiting.
Proof.
  destruct k as [|ns]; cbn; [intros H; by rewrite (H eq_refl)|]. intros _. destruct (ns <? 0); [by destruct cgo_yield|done].
Qed.

Lemma elem_try_sema got timeout s s' : s' ∈ try_sema got timeout s ->
  s' = timeout s \/ 0 < semacount s /\ s' = got (set_sema (semacount s - 1) s).
Proof.
  unfold try_sema. intros [H|H%list_elem_of_singleton]%elem_of_app; [|by left].
  destruct (Z.ltb_spec 0 (semacount s)); [|by apply not_elem_of_nil in H]. apply list_elem_of_singleton in H. auto.
Qed.
Lemma elem_take_sema got s s' : s' ∈ take_sema got s ->
  0 < semacount s /\ s' = got (set_sema (semacount s - 1) s).
Proof.
  unfold take_sema. destruct (Z.ltb_spec 0 (semacount s)); [|by intros ?%not_elem_of_nil].
  intros H2%list_elem_of_singleton. auto.
Qed.

(** Leaves the positions of the stage [H] speaks of. *)
Ltac of_stage H := try discriminate H; try (match type of H with stage_of (S_done ?ok) = _ => destruct ok; discriminate H end).

(** A sleep that took the semaphore was registered, and the wakeup is over. *)
Lemma word_ok_taken p s : sl s = p -> word_ok s -> 0 < semacount s ->
  stage_of p = Waiting \/ p = S_grab ->
  word_ok (set_sl (S_done true) (set_sema (semacount s - 1) s)).
Proof.
  intros Hp. unfold word_ok. cbn. destruct (wk s); try tauto; try lia.
  intros [Hk Hs] Hc Hw. split; [done|]. rewrite Hp in Hs. destruct p; cbn in Hw; try (destruct Hw; congruence); lia.
Qed.

(** Going on waiting changes nothing. *)
Lemma word_ok_waiting p s : word_ok s -> stage_of (sl s) = Waiting -> stage_of p = Waiting -> word_ok (set_sl p s).
Proof.
  unfold word_ok. cbn. intros H Hs Hp. rewrite Hs, Hp in *. destruct (wk s); [tauto|tauto|tauto| | |done].
  - destruct H as (H1 & H2 & _). split_and!; [done|done|by left].
  - destruct H as [Hk H]. assert (semacount s = 1) by (destruct (sl s); of_stage Hs; apply H). split; [done|].
    destruct p; of_stage Hp; (split; [by left|done]).
Qed.

Lemma sleeper_ok s s' : word_ok s -> time_ok s -> s' ∈ sleeper_next s -> word_ok s' /\ time_ok s'.
Proof.
  intros Hw [Hn Ht]. unfold sleeper_next. destruct (sl s) eqn:Es; intros H; try by apply not_elem_of_nil in H.
  - (* S_cas *) apply list_elem_of_singleton in H as ->. unfold word_ok in Hw. rewrite Es in Hw.
    destruct (Z.eqb_spec (key s) 0) as [E|E].
    + split; [|split; [done|]; cbn; destruct k as [|ns]; cbn; repeat case_match; done].
      unfold word_ok. cbn. rewrite (registered_waiting k Ht). unfold locked in *.
      destruct (wk s); try lia; tauto.
    + split; [|by split]. unfold word_ok. cbn. destruct (wk s); try tauto; try lia. destruct Hw as (_ & _ & [H|H]); discriminate.
  - (* S_check *) apply list_elem_of_singleton in H as ->. unfold word_ok in Hw. rewrite Es in Hw.
    destruct (Z.eqb_spec (key s) locked) as [E|E]; cbn [negb].
    + split; [|by split]. unfold word_ok. cbn. destruct (wk s); try tauto. destruct Hw as (_ & _ & [H|H]); discriminate.
    + cbn in Hw. destruct (wk s); naive_solver.
  - (* S_sleep *) apply elem_take_sema in H as [Hc ->]. split; [|by split]. eapply word_ok_taken; eauto.
  - (* S_poll *) apply elem_try_sema in H as [->|[Hc ->]]; (split; [|by split]).
    + apply word_ok_waiting; [done|by rewrite Es|done].
    + eapply word_ok_taken; eauto.
  - (* S_yield_load *) exfalso. unfold word_ok in Hw. rewrite Es in Hw. cbn in Hw. destruct (wk s); try tauto.
    + destruct Hw as (_ & _ & [H0|H0]); discriminate.
    + destruct Hw as (_ & [H0|H0] & _); discriminate.
  - (* S_yield_sleep *) exfalso. unfold word_ok in Hw. rewrite Es in Hw. cbn in Hw. destruct (wk s); try tauto.
    + destruct Hw as (_ & _ & [H0|H0]); discriminate.
    + destruct Hw as (_ & [H0|H0] & _); discriminate.
  - (* S_start *) apply list_elem_of_singleton in H as ->. split; [apply word_ok_waiting; [done|by rewrite Es|done]|].
    split; [done|]. cbn. pose proof (wraps_range 64 ltac:(lia) (now s + ns)) as Hr. unfold in_s in Hr. lia.
  - (* S_timed *) apply elem_try_sema in H as [->|[Hc ->]]; (split; [|by split]).
    + apply word_ok_waiting; [done|by rewrite Es|done].
    + eapply word_ok_taken; eauto.
  - (* S_woke *) apply list_elem_of_singleton in H as ->.
    destruct (Z.leb_spec (i64 (deadline - now s)) 0) as [E|E]; (split; [apply word_ok_waiting; [done|by rewrite Es|done]|]).
    + split; [done|]. cbn. split; [done|]. intros Hd. rewrite (wraps_small 64) in E by (unfold in_s; lia). lia.
    + by split.
  - (* S_load *) apply list_elem_of_singleton in H as ->. unfold word_ok in Hw. rewrite Es in Hw. cbn in Hw.
    assert (word_ok s) as Hw' by (unfold word_ok; by rewrite Es).
    destruct (Z.eqb_spec (key s) m) as [E|E]; [split; [apply word_ok_waiting; [done|by rewrite Es|done]|by split]|].
    destruct (Z.eqb_spec (key s) locked) as [E2|E2].
    + split; [|by split]. unfold word_ok. cbn. destruct (wk s); try tauto; lia.
    + destruct (wk s); tauto.
  - (* S_unregister *) apply list_elem_of_singleton in H as ->. assert (word_ok s) as Hw' by done.
    unfold word_ok in Hw. rewrite Es in Hw. cbn in Hw.
    destruct (Z.eqb_spec (key s) m) as [E|E]; [|split; [apply word_ok_waiting; [done|by rewrite Es|done]|by split]].
    split; [|by split]. unfold word_ok, locked in *. cbn. destruct (wk s); try tauto; lia.
  - (* S_grab *) apply elem_take_sema in H as [Hc ->]. split; [|by split]. eapply word_ok_taken; eauto.
Qed.

Lemma waker_ok s s' : word_ok s -> s' ∈ waker_next s -> word_ok s'.
Proof.
  intros Hw. unfold waker_next. unfold word_ok in Hw. destruct (wk s) eqn:Ew; intros H; try by apply not_elem_of_nil in H.
  - apply list_elem_of_singleton in H as ->. destruct Hw as (H1 & H2 & _). unfold word_ok. cbn. split_and!; try done.
    intros v [= <-]. destruct (stage_of (sl s)); tauto.
  - apply list_elem_of_singleton in H as ->. destruct Hw as (H1 & H2 & H3). specialize (H3 v eq_refl).
    destruct (Z.eqb_spec (key s) v) as [E|E]; [|unfold word_ok; cbn; by split_and!].
    destruct (Z.eqb_spec v 0) as [E0|E0].
    + unfold word_ok. cbn. split; [done|]. unfold locked in *. destruct (sl s); cbn in H2; try done; lia.
    + destruct (Z.eqb_spec v locked); [unfold locked in *; lia|]. unfold word_ok. cbn. split_and!; try done.
      left. destruct (stage_of (sl s)); try done; lia.
  - apply list_elem_of_singleton in H as ->. destruct Hw as (H1 & H2 & H3). unfold word_ok. cbn. split; [done|].
    rewrite H2. destruct H3 as [H3|H3]; destruct (sl s); try discriminate H3; of_stage H3; (split; [auto|lia]).
Qed.

Lemma waker_keeps s s' : s' ∈ waker_next s -> sl s' = sl s /\ now s' = now s.
Proof.
  unfold waker_next. destruct (wk s); intros H; try by apply not_elem_of_nil in H.
  all: apply list_elem_of_singleton in H as ->; by repeat case_match.
Qed.

Lemma nreach_ok s : nreach sound s -> word_ok s /\ time_ok s.
Proof.
  induction 1 as [t Ht|s s' _ [Hw Ht] Hs]; [by do 2 (split; [done|])|].
  destruct Hs as [s k Es Hk|s Ew|s s' H|s s' H|s t Ht'].
  - split; [|by destruct Ht]. unfold word_ok in *. cbn. rewrite Es in Hw. destruct (wk s); try done.
    destruct Hw as (_ & _ & [H|H]); discriminate.
  - split; [|done]. unfold word_ok in *. cbn. rewrite Ew in Hw. by destruct Hw as (H1 & H2 & _).
  - by apply (sleeper_ok s s').
  - split; [by eapply waker_ok|]. destruct (waker_keeps _ _ H) as [E1 E2]. unfold time_ok. by rewrite E1, E2.
  - split; [done|]. destruct Ht as [Ht1 Ht2]. split; [cbn in *; lia|]. cbn in *. destruct (sl s); try done; lia.
Qed.

(** ** The theorems *)

(** C14: one sleep and one wakeup between two noteclears, where notesleep (the sleep
    without a timeout) is used only without *cgo_yield.  Whatever their interleaving, they
    never throw; a sleep that returns true was woken and one that returns false was not
    woken in time; and when both are over the semaphore is as it was before and the note
    stays locked, so a wakeup is neither lost nor left over for the next sleep of the M. *)
Theorem notes_safe s :
  nreach sound s ->
  (forall msg, sl s <> S_throw msg /\ wk s <> W_throw msg) /\
  (sl s = S_done true -> wk s = W_done) /\
  (wk s = W_done -> forall ok, sl s = S_done ok -> semacount s = 0 /\ key s = locked) /\
  (sl s = S_done false -> wk s <> W_post) /\
  0 <= semacount s <= 1.
Proof.
  intros [Hw _]%nreach_ok. unfold word_ok in Hw.
  destruct (wk s) eqn:Ew; try done; destruct (sl s) as [| | | | | | | | | | | | |[]|] eqn:Es; cbn in Hw; naive_solver lia.
Qed.

(** C15: no wakeup is lost: the sleeper is held up only before the wakeup is over, in a sleep
    that the wakeup will end, and the waker never is; in particular once the wakeup is
    done whoever still waits finds the semaphore there. *)
Theorem notes_progress s :
  nreach sound s ->
  (sleeper_next s = [] -> sl s = S_idle \/ (exists ok, sl s = S_done ok) \/ (sl s = S_sleep \/ sl s = S_grab) /\ wk s <> W_done) /\
  (waker_next s = [] -> wk s = W_idle \/ wk s = W_done) /\
  (wk s = W_done -> stage_of (sl s) = Waiting -> semacount s = 1).
Proof.
  intros [Hw _]%nreach_ok. unfold word_ok in Hw. split_and!.
  - unfold sleeper_next, try_sema, take_sema. intros H.
    destruct (sl s) eqn:Es; try (by right; left; eauto); try (by left); try (by apply app_eq_nil in H as [_ H]); try done.
    + right. right. split; [by left|]. intros Ew. rewrite Ew in Hw. destruct Hw as (_ & _ & Hc). by rewrite Hc in H.
    + right. right. split; [by right|]. intros Ew. rewrite Ew in Hw. destruct Hw as (_ & _ & Hc). by rewrite Hc in H.
    + cbn in Hw. destruct (wk s); naive_solver.
  - unfold waker_next. destruct (wk s); try done; auto.
  - intros Ew Hs. rewrite Ew in Hw. destruct Hw as [_ Hw]. destruct (sl s); of_stage Hs; apply Hw.
Qed.

(** Notetsleep gives up only when its deadline has passed, where the deadline fits in
    an int64. *)
Theorem notetsleep_deadline s s' :
  nreach sound s -> nstep sound s s' -> sl s <> S_done false -> sl s' = S_done false ->
  exists deadline, sl s = S_unregister deadline /\ (0 <= deadline -> deadline <= now s).
Proof.
  intros [_ [Hn Ht]]%nreach_ok Hs Hne E. destruct Hs as [s k Es Hk|s Ew|s s' H|s s' H|s t Ht']; try done.
  - unfold sleeper_next in H. destruct (sl s) eqn:Es; try by apply not_elem_of_nil in H.
    all: try (apply list_elem_of_singleton in H as ->; repeat case_match; discriminate E).
    all: try (apply elem_try_sema in H as [->|[_ ->]]; discriminate E).
    all: try (apply elem_take_sema in H as [_ ->]; discriminate E).
    + apply list_elem_of_singleton in H as ->. cbn in E. unfold registered in E. repeat case_match; discriminate E.
    + exists deadline. split; [done|]. apply Ht.
  - destruct (waker_keeps _ _ H) as [E1 _]. congruence.
Qed.

(** ** Runs *)
Inductive move : Type := MSleep (k : kind) | MWake | MSleeper (i : nat) | MWaker | MTick (t : Z).

Definition move_next (x : move) (s : notest) : option notest :=
  match x, sl s, wk s with
  | MSleep k, S_idle, _ => Some (set_sl (S_cas k) s)
  | MWake, _, W_idle => Some (set_wk W_load s)
  | MSleeper i, _, _ => sleeper_next s !! i
  | MWaker, _, _ => waker_next s !! 0%nat
  | MTick t, _, _ => if (now s <=? t) && (t <? 2 ^ 63) then Some (mkNote (key s) (semacount s) t (sl s) (wk s)) else None
  | _, _, _ => None
  end.
Fixpoint moves (l : list move) (s : notest) : option notest :=
  match l with [] => Some s | x :: l => s ← move_next x s; moves l s end.

Lemma moves_reach (ks : kind -> Prop) l s s' :
  nreach ks s -> (forall k, MSleep k ∈ l -> ks k) -> moves l s = Some s' -> nreach ks s'.
Proof.
  revert s. induction l as [|x l IH]; intros s Hr Hk; cbn; [by intros [= <-]|].
  destruct (move_next x s) as [s1|] eqn:E; cbn; [|done]. apply IH; [|intros k Hin; apply Hk; by right].
  eapply nr_step; [exact Hr|]. unfold move_next in E.
  destruct x as [k| |i| |t]; [destruct (sl s) eqn:Es|destruct (wk s) eqn:Ew| | |]; try discriminate E.
  - injection E as <-. constructor; [done|]. apply Hk. by left.
  - injection E as <-. by constructor.
  - apply n_sleeper. by eapply list_elem_of_lookup_2.
  - apply n_waker. by eapply list_elem_of_lookup_2.
  - destruct ((now s <=? t) && (t <? 2 ^ 63)) eqn:Et; [|discriminate E]. injection E as <-.
    apply andb_true_iff in Et as [E1%Z.leb_le E2%Z.ltb_lt]. by constructor.
Qed.
End notes.

(** With *cgo_yield set notesleep does not sleep: its loop waits while the word is 0, which
    it has just stopped being. *)
Definition yield_moves : list move := [MSleep Sleep; MSleeper 0; MSleeper 0].
Lemma notesleep_yield_returns m :
  locked < m -> exists s, nreach m true (fun _ => True) s /\ sl s = S_done true /\ wk s = W_idle.
Proof.
  intros Hm. exists (mkNote m 0 0 (S_done true) W_idle). split; [|done].
  apply (moves_reach m true _ yield_moves (cleared 0)); [by constructor|done|]. unfold yield_moves. cbn.
  unfold locked in Hm. by rewrite (proj2 (Z.eqb_neq m 0)) by lia.
Qed.

(** A sleep of 5 ns that is given up at its deadline just as the wakeup comes: it finds the
    word locked, and takes the semaphore. *)
Definition race : list move :=
  [MSleep (Timed 5); MSleeper 0; MSleeper 0; MWake; MWaker; MSleeper 0; MTick 7; MSleeper 0; MWaker; MSleeper 0; MWaker].
Definition raced : notest := mkNote locked 1 7 S_grab W_done.
(** One that is too late for the wakeup. *)
Definition too_late : list move :=
  [MSleep (Timed 5); MSleeper 0; MSleeper 0; MSleeper 0; MTick 7; MSleeper 0; MSleeper 0].
Definition late : notest := mkNote 4096 0 7 (S_unregister 5) W_idle.

Lemma run_reach l s' : moves 4096 false l (cleared 0) = Some s' -> nreach 4096 false (sound false) s'.
Proof. apply moves_reach; [by constructor|by intros k _]. Qed.

Lemma notes_safe_witness : 0 <= semacount raced <= 1.
Proof.
  apply (notes_safe 4096 ltac:(done) false raced). apply (run_reach race). vm_compute. reflexivity.
Defined.

Lemma notes_progress_witness : sl raced = S_grab /\ sleeper_next 4096 false raced <> [] /\ wk raced = W_done.
Proof.
  pose proof (notes_progress 4096 ltac:(done) false raced (run_reach race raced eq_refl)) as (H & _ & _).
  split; [done|]. split; [|done]. intros E. destruct (H E) as [|[[]|[_ Hn]]]; [done|done|]. by apply Hn.
Defined.

Lemma notetsleep_deadline_witness :
  exists deadline, sl late = S_unregister deadline /\ (0 <= deadline -> deadline <= now late).
Proof.
  apply (notetsleep_deadline 4096 ltac:(done) false late (set_sl (S_done false) (set_key 0 late)));
    [by apply (run_reach too_late)| |done|done].
  apply n_sleeper. by left.
Defined.
