(* ===== verification/SpinLock.v ===== *)
(** * SpinLock: the runtime's mutex

    runtime/lock_spinbit.go: lock2, unlock2 and unlock2Wake on one mutex, for any number of
    Ms, as a step relation in which every atomic operation on the state word, every access
    to another M's list field and every semaphore call is a step of its own (taking the M
    at the bottom out of the list reads its field and writes the one above in one step; both
    Ms sleep).  An M is its address.  Left out are timing (mLockProfile, startTicks and the
    walk over the list that reads them), preemption and the M's count of locks; whether an
    unlock is sampled for the profile, and whether it wakes the bottom of the list, are
    choices.  The sleeping Ms form a stack through their [next] fields, of which the word
    holds the head without its low bits.  Fairness is not
    stated. *)
From Stdlib Require Import ZArith Lia List Bool String.
From stdpp Require Import base list gmap strings numbers tactics option.
From S2P Require Import Prelude.

(** ** The state word *)
Definition mutexLocked : Z := 0x001.
Definition mutexSleeping : Z := 0x002.
Definition mutexSpinning : Z := 0x100.
Definition mutexStackLocked : Z := 0x200.
Definition mutexMMask : Z := 0x3FF.
Definition mutexMOffset : Z := 8.
Definition mutexPassiveSpinCount : nat := 1.

(** atomic.Xchg8 and Or8 on key8: the low byte of the word. *)
Definition low8 (v : Z) : Z := Z.land v 0xFF.
Definition set_low8 (v b : Z) : Z := Z.lor (Z.ldiff v 0xFF) b.

(** mutexWaitListHead: the M whose high bits are in the word; m0 is not on the heap. *)
Definition mutexWaitListHead (m0 v : Z) : Z :=
  let highBits := Z.ldiff v mutexMMask in
  if highBits =? 0 then 0
  else if highBits =? Z.ldiff m0 mutexMMask then m0
  else highBits + mutexMOffset.

(** lock2's variables: weSpin, atTail and i. *)
Record spinning : Type := mkSpin { weSpin : bool; atTail : bool; turn : nat }.
Definition next_turn (x : spinning) : spinning := mkSpin (weSpin x) (atTail x) (S (turn x)).

Definition nil_pointer : string := "invalid memory address or nil pointer dereference".

(** An M's position; [v] is the word it read last. *)
Inductive pc : Type :=
| Idle                                      (* neither holds nor wants the mutex *)
(* lock2 *)
| LFast                                     (* v8 := Xchg8(k8, mutexLocked) *)
| LOr                                       (* Or8(k8, mutexSleeping) *)
| LLoad (x : spinning)                      (* v = Loaduintptr(&l.key) *)
| LTry (x : spinning) (v : Z)               (* the top of the loop *)
| LStore (x : spinning) (v : Z)             (* gp.m.mWaitList.next = mutexWaitListHead(v) *)
| LPush (x : spinning) (v : Z)              (* Casuintptr(&l.key, v, next) *)
| LSleep                                    (* semasleep(-1) *)
| LWoke                                     (* atTail = next == 0; next = 0 *)
| Crit                                      (* holds the mutex *)
(* unlock2 *)
| UFast                                     (* prev8 = Xchg8(key8(&l.key), 0) *)
| ULoad                                     (* sampling contention: v = Loaduintptr(&l.key) *)
| UTry (v : Z)                              (* its Casuintptr *)
(* unlock2Wake; [anti] is antiStarve *)
| WLoad (haveStackLock anti : bool)         (* v := Loaduintptr(&l.key) *)
| WTry (anti : bool) (v : Z)                (* Casuintptr(&l.key, v, v|mutexStackLocked) *)
| WReload (anti : bool)                     (* it failed: v = Loaduintptr(&l.key) *)
| WWalk (v prev wakem : Z)                  (* next := wakem.mWaitList.next *)
| WCut (v prev wakem : Z)                   (* prev.mWaitList.next = wakem.mWaitList.next *)
| WHead (anti : bool) (v wakem : Z) (committed : option Z) (* headM = mp.mWaitList.next *)
| WCas (anti : bool) (v wakem : Z) (committed : option Z) (headM : Z) (* Casuintptr(&l.key, v, next) *)
| WAgain (anti : bool) (committed : option Z) (* it failed: v = Loaduintptr(&l.key) *)
| WSema (m : Z)                             (* semawakeup(wakem) *)
| Fault (msg : string).

Record thread : Type := mkT { t_pc : pc; t_next : Z; t_sema : Z }.
Record mutex : Type := mkMu { key : Z; ms : gmap Z thread }.

Section code.
(** The static M, mutexPreferLowLatency of this mutex, and the attempts to spin. *)
Context (m0 : Z) (prefer : bool) (spin : nat).

Definition listHead := mutexWaitListHead m0.

(** The M [m] goes to [p]; the word becomes [k]. *)
Definition goto (m : Z) (th : thread) (p : pc) (k : Z) (s : mutex) : mutex :=
  mkMu k (<[m := mkT p (t_next th) (t_sema th)]> (ms s)).
Definition goto_next (m : Z) (th : thread) (p : pc) (next : Z) (s : mutex) : mutex :=
  mkMu (key s) (<[m := mkT p next (t_sema th)]> (ms s)).

(** The rest of a turn of lock2's loop after the attempt to set mutexSpinning. *)
Definition decide_sleep (x : spinning) (v : Z) : pc :=
  if (weSpin x || atTail x || prefer) && (turn x <? spin + mutexPassiveSpinCount)%nat then LLoad (next_turn x)
  else if negb (has_bits v mutexLocked) then Fault "runtime·lock: sleeping while lock is available"
  else LStore x v.

(** The word a spinning M takes the mutex with. *)
Definition acquire_word (v : Z) : Z :=
  let next := Z.lor (Z.lor (Z.ldiff v mutexSpinning) mutexSleeping) mutexLocked in
  if Z.ldiff next mutexMMask =? 0 then Z.ldiff next mutexSleeping else next.

(** The word an M goes to sleep with. *)
Definition push_word (m : Z) (x : spinning) (v : Z) : Z :=
  let next := Z.lor (Z.lor (Z.ldiff m mutexMMask) (Z.land v mutexMMask)) mutexSleeping in
  if weSpin x then Z.ldiff next mutexSpinning else next.

(** lock2 *)
Definition lock2_next (m : Z) (th : thread) (s : mutex) : list mutex :=
  match t_pc th with
  | LFast =>
    let v8 := low8 (key s) in let k := set_low8 (key s) mutexLocked in
    [goto m th (if negb (has_bits v8 mutexLocked) then if has_bits v8 mutexSleeping then LOr else Crit
                else LLoad (mkSpin false false 0)) k s]
  | LOr => [goto m th Crit (Z.lor (key s) mutexSleeping) s]
  | LLoad x => [goto m th (LTry x (key s)) (key s) s]
  | LTry x v =>
    if negb (has_bits v mutexLocked) then
      if weSpin x then
        [if key s =? v then goto m th Crit (acquire_word v) s else goto m th (LLoad (next_turn x)) (key s) s]
      else
        let prev8 := low8 (key s) in let k := set_low8 (key s) (Z.lor mutexLocked mutexSleeping) in
        [goto m th (if negb (has_bits prev8 mutexLocked) then Crit else LLoad (next_turn x)) k s]
    else if negb (weSpin x) && negb (has_bits v mutexSpinning) then
      let v' := Z.lor v mutexSpinning in
      [if key s =? v then goto m th (decide_sleep (mkSpin true (atTail x) (turn x)) v') v' s
       else goto m th (decide_sleep x v) (key s) s]
    else [goto m th (decide_sleep x v) (key s) s]
  | LStore x v => [goto_next m th (LPush x v) (listHead v) s]
  | LPush x v =>
    [if key s =? v then goto m th LSleep (push_word m x v) s else goto_next m th (LLoad (next_turn x)) 0 s]
  | LSleep => if 0 <? t_sema th then [mkMu (key s) (<[m := mkT LWoke (t_next th) (t_sema th - 1)]> (ms s))] else []
  | LWoke => [goto_next m th (LLoad (mkSpin false (t_next th =? 0) 1)) 0 s]
  | _ => []
  end.

(** unlock2 *)
Definition unlock2_next (m : Z) (th : thread) (s : mutex) : list mutex :=
  let wake have := [WLoad have true; WLoad have false] in
  match t_pc th with
  | Crit => [goto m th UFast (key s) s; goto m th ULoad (key s) s]
  | UFast =>
    let prev8 := low8 (key s) in let k := set_low8 (key s) 0 in
    if negb (has_bits prev8 mutexLocked) then [goto m th (Fault "unlock of unlocked lock") k s]
    else if has_bits prev8 mutexSleeping then map (fun p => goto m th p k s) (wake false)
    else [goto m th Idle k s]
  | ULoad =>
    let v := key s in
    [goto m th (if (Z.ldiff v mutexMMask =? 0) || has_bits v mutexStackLocked then UFast else UTry v) v s]
  | UTry v =>
    let next := Z.ldiff (Z.lor v mutexStackLocked) (Z.lor mutexLocked mutexSleeping) in
    if key s =? v then
      if negb (has_bits (Z.lor (low8 v) mutexSleeping) mutexLocked) then [goto m th (Fault "unlock of unlocked lock") next s]
      else map (fun p => goto m th p next s) (wake true)
    else [goto m th ULoad (key s) s]
  | _ => []
  end.

(** Where unlock2Wake goes with [v], before it has the stack lock: nothing to do, or to
    its CAS. *)
Definition try_stack (anti : bool) (v : Z) : pc :=
  if (Z.ldiff v mutexMMask =? 0) || has_bits v mutexStackLocked then Idle else WTry anti v.

(** And with it: which M to wake. *)
Definition choose (anti : bool) (v : Z) (committed : option Z) : pc :=
  let mp := listHead v in
  match committed with
  | Some c => WHead anti v c committed
  | None => if anti then WWalk v mp mp
            else WHead anti v (if negb (has_bits v mutexSpinning) || prefer then mp else 0) None
  end.

(** unlock2Wake *)
Definition wake_next (m : Z) (th : thread) (s : mutex) : list mutex :=
  match t_pc th with
  | WLoad have anti =>
    let v := key s in
    [goto m th (if have then choose anti v None
                else if negb (anti || negb (has_bits v mutexSpinning) || prefer) then Idle
                else try_stack anti v) v s]
  | WTry anti v =>
    [if key s =? v then goto m th (choose anti v None) (Z.lor v mutexStackLocked) s
     else goto m th (WReload anti) (key s) s]
  | WReload anti => [goto m th (try_stack anti (key s)) (key s) s]
  | WWalk v prev wakem =>
    match ms s !! wakem with
    | Some tw =>
      let next := t_next tw in
      if negb (next =? 0) then [goto m th (WWalk v wakem next) (key s) s]
      else if negb (wakem =? listHead v) then [goto m th (WCut v prev wakem) (key s) s]
      else [goto m th (WHead true v wakem None) (key s) s]
    | None => [goto m th (Fault nil_pointer) (key s) s]
    end
  | WCut v prev wakem =>
    match ms s !! wakem, ms s !! prev with
    | Some tw, Some tp =>
      [goto m th (WHead true v wakem (Some wakem)) (key s)
         (mkMu (key s) (<[prev := mkT (t_pc tp) (t_next tw) (t_sema tp)]> (ms s)))]
    | _, _ => [goto m th (Fault nil_pointer) (key s) s]
    end
  | WHead anti v wakem committed =>
    let mp := listHead v in
    match (if wakem =? mp then (fun t => Z.ldiff (t_next t) mutexMMask) <$> ms s !! mp
           else Some (Z.ldiff v mutexMMask)) with
    | None => [goto m th (Fault nil_pointer) (key s) s]
    | Some headM => [goto m th (WCas anti v wakem committed headM) (key s) s]
    end
  | WCas anti v wakem committed headM =>
    let flags := Z.land v (Z.ldiff mutexMMask mutexStackLocked) in
    [if key s =? v then goto m th (if wakem =? 0 then Idle else WSema wakem) (Z.lor headM flags) s
     else goto m th (WAgain anti committed) (key s) s]
  | WAgain anti committed => [goto m th (choose anti (key s) committed) (key s) s]
  | WSema t =>
    match ms s !! t with
    | Some tw => [goto m th Idle (key s) (mkMu (key s) (<[t := mkT (t_pc tw) (t_next tw) (t_sema tw + 1)]> (ms s)))]
    | None => [goto m th (Fault nil_pointer) (key s) s]
    end
  | _ => []
  end.

Definition m_next (m : Z) (th : thread) (s : mutex) : list mutex :=
  lock2_next m th s ++ unlock2_next m th s ++ wake_next m th s.

(** An M that is idle may call lock2, one that holds the mutex unlock2. *)
Inductive mstep (s : mutex) : mutex -> Prop :=
| ms_lock m th : ms s !! m = Some th -> t_pc th = Idle -> mstep s (goto m th LFast (key s) s)
| ms_m m th s' : ms s !! m = Some th -> s' ∈ m_next m th s -> mstep s s'.

(** Addresses of Ms: aligned so that the high bits tell them apart. *)
Definition is_m (m : Z) : Prop :=
  0 < Z.ldiff m mutexMMask /\
  (m = m0 \/ m = Z.ldiff m mutexMMask + mutexMOffset /\ Z.ldiff m mutexMMask <> Z.ldiff m0 mutexMMask).

(** Any number of Ms, none of which holds the mutex. *)
Definition fresh (s : mutex) : Prop :=
  key s = 0 /\ map_Forall (fun m th => is_m m /\ th = mkT Idle 0 0) (ms s).

Inductive mreach : mutex -> Prop :=
| mr_fresh s : fresh s -> mreach s
| mr_step s s' : mreach s -> mstep s s' -> mreach s'.
End code.

(** ** Words

    [hi h] is the part of an address the word keeps; with the four flags it makes a word. *)
Definition hi (h : Z) : Z := Z.ldiff h mutexMMask.
Definition flags (L S P K : bool) : Z := Z.b2z L + 2 * Z.b2z S + 256 * Z.b2z P + 512 * Z.b2z K.
Definition word (h : Z) (L S P K : bool) : Z := hi h + flags L S P K.

Lemma hi_mod h : hi h = 1024 * (h / 1024).
Proof.
  unfold hi, mutexMMask. rewrite ldiff_sub. change 0x3FF with (2 ^ 10 - 1). rewrite land_ones_mod by lia.
  change (2 ^ 10) with 1024. pose proof (Z.div_mod h 1024 ltac:(lia)). lia.
Qed.
Lemma flags_range L S P K : 0 <= flags L S P K < 1024.
Proof. destruct L, S, P, K; unfold flags; cbn; lia. Qed.

(** The high bits do not meet a mask below 1024. *)
Lemma high_testbit q i : 0 <= i < 10 -> Z.testbit (1024 * q) i = false.
Proof. intros Hi. change 1024 with (2 ^ 10). rewrite Z.mul_comm, <- Z.shiftl_mul_pow2 by lia. apply Z.shiftl_spec_low. lia. Qed.
Lemma small_testbit f i : 0 <= f < 1024 -> 10 <= i -> Z.testbit f i = false.
Proof.
  intros Hf Hi. destruct (Z.eq_dec f 0) as [->|]; [apply Z.bits_0|]. apply Z.bits_above_log2; [lia|].
  apply Z.log2_lt_pow2; [lia|]. apply (Z.lt_le_trans _ (2 ^ 10)); [lia|]. apply Z.pow_le_mono_r; lia.
Qed.
Lemma high_low q f : 0 <= f < 1024 -> 1024 * q + f = Z.lor (1024 * q) f.
Proof.
  intros Hf. symmetry. apply lor_clear, Z.bits_inj'. intros j Hj. rewrite Z.land_spec, Z.bits_0.
  destruct (Z.lt_ge_cases j 10); [by rewrite high_testbit by lia|]. rewrite (small_testbit f) by lia. apply andb_false_r.
Qed.

Section masks.
Context (h f mask : Z) (Hf : 0 <= f < 1024) (Hk : 0 <= mask < 1024).

Lemma high_land : Z.land (hi h) mask = 0.
Proof using Hk.
  apply Z.bits_inj'. intros i Hi. rewrite hi_mod, Z.land_spec, Z.bits_0.
  destruct (Z.lt_ge_cases i 10); [by rewrite high_testbit by lia|]. rewrite (small_testbit mask) by lia. apply andb_false_r.
Qed.
Lemma mask_land : Z.land (hi h + f) mask = Z.land f mask.
Proof. rewrite hi_mod, high_low, Z.land_lor_distr_l, <- hi_mod, high_land by lia. apply Z.lor_0_l. Qed.
Lemma small_land : 0 <= Z.land f mask < 1024.
Proof.
  change 1024 with (2 ^ 10). rewrite <- (Z.mod_small f (2 ^ 10)) by (change (2 ^ 10) with 1024; lia).
  rewrite <- Z.land_ones, <- Z.land_assoc, (Z.land_comm _ mask), Z.land_assoc, Z.land_ones by lia.
  apply Z.mod_pos_bound. lia.
Qed.
Lemma small_lor : 0 <= Z.lor f mask < 1024.
Proof.
  pose proof (Z.add_lor_land f mask). pose proof (proj1 small_land).
  split; [apply Z.lor_nonneg; lia|]. destruct (Z.eq_dec (Z.lor f mask) 0) as [->|]; [lia|].
  apply (Z.log2_lt_cancel _ 1024). rewrite Z.log2_lor by lia. change (Z.log2 1024) with 10.
  assert (forall x, 0 <= x < 1024 -> Z.log2 x < 10) as Hl; [|pose proof (Hl f Hf); pose proof (Hl mask Hk); lia].
  intros x Hx. destruct (Z.eq_dec x 0) as [->|]; [done|]. apply Z.log2_lt_pow2; [lia|]. change (2 ^ 10) with 1024. lia.
Qed.
Lemma small_ldiff : 0 <= Z.ldiff f mask < 1024.
Proof. rewrite ldiff_sub. pose proof small_land. split; [|lia]. rewrite <- ldiff_sub. apply Z.ldiff_nonneg. lia. Qed.
Lemma mask_lor : Z.lor (hi h + f) mask = hi h + Z.lor f mask.
Proof. pose proof small_lor. rewrite hi_mod, high_low, <- Z.lor_assoc, <- high_low by lia. done. Qed.
Lemma mask_ldiff : Z.ldiff (hi h + f) mask = hi h + Z.ldiff f mask.
Proof. rewrite !ldiff_sub, mask_land. lia. Qed.
End masks.

Lemma hi_word h f : 0 <= f < 1024 -> hi (hi h + f) = hi h.
Proof.
  intros Hf. rewrite (hi_mod (hi h + f)), (hi_mod h). rewrite (Z.mul_comm 1024 (h / 1024)), Z.div_add_l by lia.
  rewrite (Z.div_small f) by lia. lia.
Qed.

(** What the code asks of a word, and does to it, by its flags. *)
Section word.
Context (h : Z) (L S P K : bool).
Local Abbreviation w := (word h L S P K).

Lemma word_hi : Z.ldiff w mutexMMask = hi h.
Proof. apply (hi_word h). apply flags_range. Qed.
Lemma word_locked : has_bits w mutexLocked = L.
Proof. unfold has_bits, word. rewrite mask_land by (try apply flags_range; done). by destruct L, S, P, K. Qed.
Lemma word_spinning : has_bits w mutexSpinning = P.
Proof. unfold has_bits, word. rewrite mask_land by (try apply flags_range; done). by destruct L, S, P, K. Qed.
Lemma word_stack_locked : has_bits w mutexStackLocked = K.
Proof. unfold has_bits, word. rewrite mask_land by (try apply flags_range; done). by destruct L, S, P, K. Qed.
Lemma word_low8_locked : has_bits (low8 w) mutexLocked = L.
Proof. unfold has_bits, low8, word. rewrite (mask_land h _ 0xFF) by (try apply flags_range; done). by destruct L, S, P, K. Qed.
Lemma word_low8_sleeping : has_bits (low8 w) mutexSleeping = S.
Proof. unfold has_bits, low8, word. rewrite (mask_land h _ 0xFF) by (try apply flags_range; done). by destruct L, S, P, K. Qed.

(** The changes. *)
Ltac words := unfold word; rewrite ?mask_ldiff, ?mask_lor by (try apply flags_range; try (by destruct L, S, P, K)); f_equal; by destruct L, S, P, K.

Lemma word_xchg L' S' : set_low8 w (Z.b2z L' + 2 * Z.b2z S') = word h L' S' P K.
Proof.
  unfold set_low8, word. rewrite mask_ldiff by (try apply flags_range; done).
  rewrite mask_lor by (by destruct L, S, P, K, L', S'). f_equal. by destruct L, S, P, K, L', S'.
Qed.
Lemma word_or_sleeping : Z.lor w mutexSleeping = word h L true P K.
Proof. words. Qed.
Lemma word_or_spinning : Z.lor w mutexSpinning = word h L S true K.
Proof. words. Qed.
Lemma word_or_stack : Z.lor w mutexStackLocked = word h L S P true.
Proof. words. Qed.
Lemma word_sample : Z.ldiff (Z.lor w mutexStackLocked) (Z.lor mutexLocked mutexSleeping) = word h false false P true.
Proof.
  rewrite word_or_stack. unfold word. rewrite mask_ldiff by (try apply flags_range; done). f_equal. by destruct L, S, P.
Qed.
Lemma word_acquire : acquire_word w = word h true (negb (hi h =? 0)) false K.
Proof.
  unfold acquire_word. assert (Z.lor (Z.lor (Z.ldiff w mutexSpinning) mutexSleeping) mutexLocked = word h true true false K) as ->.
  { unfold word. rewrite mask_ldiff by (try apply flags_range; done). rewrite !mask_lor by (by destruct L, S, P, K).
    f_equal. by destruct L, S, P, K. }
  unfold word. fold (hi (hi h + flags true true false K)). rewrite hi_word by apply flags_range.
  destruct (hi h =? 0); [|done]. rewrite mask_ldiff by (try apply flags_range; done). f_equal. by destruct K.
Qed.
Lemma word_push m x : push_word m x w = word m L true (P && negb (weSpin x)) K.
Proof.
  unfold push_word, word. rewrite mask_land by (try apply flags_range; done). fold (hi m).
  assert (Z.land (flags L S P K) mutexMMask = flags L S P K) as -> by (by destruct L, S, P, K).
  rewrite (hi_mod m), <- high_low, <- (hi_mod m) by apply flags_range.
  rewrite mask_lor by (try apply flags_range; done).
  destruct (weSpin x); [rewrite mask_ldiff by (by destruct L, S, P, K)|]; f_equal; by destruct L, S, P, K.
Qed.

(** What unlock2Wake leaves: the flags of the word without mutexStackLocked. *)
Lemma word_pop h' : Z.lor (Z.ldiff h' mutexMMask) (Z.land w (Z.ldiff mutexMMask mutexStackLocked)) = word h' L S P false.
Proof.
  unfold word. rewrite mask_land by (try apply flags_range; done). fold (hi h').
  assert (Z.land (flags L S P K) (Z.ldiff mutexMMask mutexStackLocked) = flags L S P false) as -> by (by destruct L, S, P, K).
  by rewrite (hi_mod h'), <- high_low by apply flags_range.
Qed.
End word.

(** ** The invariant *)
Section proof.
Context (m0 : Z) (prefer : bool) (spin : nat).
Local Abbreviation is_m := (is_m m0).
Local Abbreviation listHead := (listHead m0).

(** What the word and the positions of the Ms stand for: the stack of sleepers, who holds
    the mutex, the permission to spin and the stack lock, and which M taken off the stack
    is owed a wakeup, by whom. *)
Record ghost : Type := mkGh {
  g_stack : list Z; g_lock : option Z; g_spin : option Z; g_own : option Z; g_sleeping : bool; g_due : gmap Z Z }.

Definition set_stack x g := mkGh x (g_lock g) (g_spin g) (g_own g) (g_sleeping g) (g_due g).
Definition set_lock x g := mkGh (g_stack g) x (g_spin g) (g_own g) (g_sleeping g) (g_due g).
Definition set_spin x g := mkGh (g_stack g) (g_lock g) x (g_own g) (g_sleeping g) (g_due g).
Definition set_own x g := mkGh (g_stack g) (g_lock g) (g_spin g) x (g_sleeping g) (g_due g).
Definition set_sleeping x g := mkGh (g_stack g) (g_lock g) (g_spin g) (g_own g) x (g_due g).
Definition set_due x g := mkGh (g_stack g) (g_lock g) (g_spin g) (g_own g) (g_sleeping g) x.

Definition top (l : list Z) : Z := default 0 (head l).
Definition some {A} (o : option A) : bool := match o with Some _ => true | None => false end.
Definition gword (g : ghost) : Z :=
  word (top (g_stack g)) (some (g_lock g)) (g_sleeping g) (some (g_spin g)) (some (g_own g)).

(** Positions. *)
Definition holds (p : pc) : bool := match p with LOr | Crit | UFast | ULoad | UTry _ => true | _ => false end.
Definition spins (p : pc) : bool :=
  match p with LLoad x | LTry x _ | LStore x _ | LPush x _ => weSpin x | _ => false end.
Definition owns (p : pc) : bool :=
  match p with WLoad true _ | WWalk _ _ _ | WCut _ _ _ | WHead _ _ _ _ | WCas _ _ _ _ _ | WAgain _ _ => true | _ => false end.
Definition promises (p : pc) : option Z :=
  match p with WHead _ _ _ c | WCas _ _ _ c _ | WAgain _ c => c | WSema t => Some t | _ => None end.
(** On the way to take the mutex, to sleep or to wake a sleeper. *)
Definition active (p : pc) : bool :=
  match p with
  | LLoad _ | LTry _ _ | LStore _ _ | LPush _ _ | LWoke
  | WLoad _ _ | WTry _ _ | WReload _ | WWalk _ _ _ | WCut _ _ _
  | WHead _ _ _ _ | WCas _ _ _ _ _ | WAgain _ _ | WSema _ => true
  | _ => false
  end.
Definition able (th : thread) : bool :=
  active (t_pc th) || match t_pc th with LSleep => t_sema th =? 1 | _ => false end.

(** Walking down the stack from [mp]: [prev] is above [wakem], unless that is [mp]. *)
Definition walking (l : list Z) (mp prev wakem : Z) : Prop :=
  exists s1 s2 s3, l = s1 ++ s2 ++ wakem :: s3 /\
    (s2 = [] /\ wakem = mp /\ prev = mp \/ head s2 = Some mp /\ exists s2', s2 = s2' ++ [prev]).

(** The M to wake. *)
Definition chosen (l : list Z) (v wakem : Z) (c : option Z) : Prop :=
  listHead v ∈ l /\
  match c with Some c => wakem = c | None => wakem = listHead v \/ wakem = 0 /\ has_bits v mutexSpinning = true end.

Definition pc_ok (l : list Z) (th : thread) : Prop :=
  match t_pc th with
  | LOr | Fault _ => False
  | LStore _ v => has_bits v mutexLocked = true
  | LPush _ v => has_bits v mutexLocked = true /\ t_next th = listHead v
  | UTry v | WTry _ v => Z.ldiff v mutexMMask <> 0 /\ has_bits v mutexStackLocked = false
  | WWalk v prev wakem => walking l (listHead v) prev wakem
  | WCut v prev wakem => exists l', l = l' ++ [prev; wakem] /\ listHead v ∈ l' ++ [prev]
  | WHead _ v wakem c => chosen l v wakem c
  | WCas _ v wakem c headM => chosen l v wakem c /\
    if wakem =? listHead v then exists l1 l2, l = l1 ++ wakem :: l2 /\ headM = Z.ldiff (top l2) mutexMMask
    else headM = Z.ldiff v mutexMMask
  | _ => True
  end.

Definition sleep_ok (g : ghost) (t : Z) (th : thread) : Prop :=
  match t_pc th with
  | LSleep =>
    t ∈ g_stack g /\ t_sema th = 0 /\ g_due g !! t = None \/
    t ∉ g_stack g /\ (t_sema th = 1 /\ g_due g !! t = None \/ t_sema th = 0 /\ is_Some (g_due g !! t))
  | _ => t ∉ g_stack g /\ t_sema th = 0 /\ g_due g !! t = None
  end.

Record tinv (g : ghost) (t : Z) (th : thread) : Prop := {
  ti_m : is_m t;
  ti_lock : holds (t_pc th) = true <-> g_lock g = Some t;
  ti_spin : spins (t_pc th) = true <-> g_spin g = Some t;
  ti_own : owns (t_pc th) = true <-> g_own g = Some t;
  ti_due : forall p, promises (t_pc th) = Some p <-> g_due g !! p = Some t;
  ti_sleep : sleep_ok g t th;
  ti_pc : pc_ok (g_stack g) th }.

(** The list fields of the stack. *)
Definition nx (thr : gmap Z thread) (a : Z) : Z := default 0 (t_next <$> thr !! a).
Fixpoint linked (f : Z -> Z) (l : list Z) : Prop :=
  match l with [] => True | a :: l => f a = top l /\ linked f l end.

Definition mentioned (g : ghost) (u : Z) : Prop :=
  g_lock g = Some u \/ g_spin g = Some u \/ g_own g = Some u \/ u ∈ g_stack g \/ is_Some (g_due g !! u) \/
  exists p, g_due g !! p = Some u.

(** What holds of the ghost state by itself, and of the list fields. *)
Record gok (g : ghost) (thr : gmap Z thread) : Prop := {
  gk_linked : linked (nx thr) (g_stack g);
  gk_once : NoDup (g_stack g);
  gk_present : forall u, mentioned g u -> is_Some (thr !! u);
  gk_sleeping : g_sleeping g = true -> g_lock g <> None;
  gk_own : g_own g <> None -> g_stack g <> [] }.

(** Somebody sees to the sleepers: the holder, by mutexSleeping, or an M on the way. *)
Definition looked_after (g : ghost) (thr : gmap Z thread) : Prop :=
  g_stack g <> [] -> g_sleeping g = true \/ exists u th, thr !! u = Some th /\ able th = true.

Record inv (g : ghost) (s : mutex) : Prop := {
  iv_key : key s = gword g;
  iv_ms : forall t th, ms s !! t = Some th -> tinv g t th;
  iv_ok : gok g (ms s);
  iv_after : looked_after g (ms s) }.

(** ** Frames *)

(** Nothing of what M [u] relies on changes. *)
Record frame (g g' : ghost) (u : Z) : Prop := {
  fr_lock : g_lock g = Some u <-> g_lock g' = Some u;
  fr_spin : g_spin g = Some u <-> g_spin g' = Some u;
  fr_own : g_own g = Some u <-> g_own g' = Some u;
  fr_owes : forall p, g_due g !! p = Some u <-> g_due g' !! p = Some u;
  fr_due : g_due g' !! u = g_due g !! u;
  fr_stack : u ∈ g_stack g' <-> u ∈ g_stack g;
  fr_below : g_own g = Some u -> exists l, g_stack g' = l ++ g_stack g }.

Lemma frame_refl g u : frame g g u.
Proof. split; try done. intros _. by exists []. Qed.

Lemma walking_app l0 l mp prev wakem : walking l mp prev wakem -> walking (l0 ++ l) mp prev wakem.
Proof. intros (s1 & s2 & s3 & -> & H). exists (l0 ++ s1), s2, s3. by rewrite <- app_assoc. Qed.

Lemma pc_ok_app l0 l th : pc_ok l th -> pc_ok (l0 ++ l) th.
Proof.
  unfold pc_ok. assert (forall v w c, chosen l v w c -> chosen (l0 ++ l) v w c) as Hc.
  { intros v w c [H1 H2]. split; [|done]. apply elem_of_app. by right. }
  destruct (t_pc th); try done; [apply walking_app| |apply Hc|].
  - intros (l' & -> & H). exists (l0 ++ l'). rewrite <- !app_assoc. split; [done|]. apply elem_of_app. by right.
  - intros [H1 H2]. split; [by apply Hc|]. case_match; [|done]. destruct H2 as (l1 & l2 & -> & ->).
    exists (l0 ++ l1), l2. by rewrite <- app_assoc.
Qed.
(** Only the owner of the stack lock relies on the stack. *)
Lemma pc_ok_any l l' th : owns (t_pc th) = false -> pc_ok l th -> pc_ok l' th.
Proof. unfold pc_ok. by destruct (t_pc th). Qed.

Lemma tinv_frame g g' u th : frame g g' u -> tinv g u th -> tinv g' u th.
Proof.
  intros [F1 F2 F3 F4 F5 F6 F7] [H1 H2 H3 H4 H5 H6 H7]. split; try done.
  - by rewrite H2.
  - by rewrite H3.
  - by rewrite H4.
  - intros p. by rewrite H5.
  - unfold sleep_ok in *. destruct (t_pc th); rewrite F5, F6; exact H6.
  - destruct (owns (t_pc th)) eqn:E; [|by eapply pc_ok_any]. destruct F7 as [l ->]; [by apply H4|]. by apply pc_ok_app.
Qed.

Lemma nx_insert_ne thr t th a : a <> t -> nx (<[t := th]> thr) a = nx thr a.
Proof. intros H. unfold nx. by rewrite lookup_insert_ne. Qed.
Lemma nx_insert thr t th : nx (<[t := th]> thr) t = t_next th.
Proof. unfold nx. by rewrite lookup_insert_eq. Qed.
Lemma linked_ext f f' l : (forall a, a ∈ l -> f' a = f a) -> linked f l -> linked f' l.
Proof.
  induction l as [|a l IH]; [done|]. cbn. intros H [H1 H2]. split; [rewrite H; [done|by left]|].
  apply IH; [|done]. intros b Hb. apply H. by right.
Qed.

(** A step of one M, and one that also touches another. *)
Lemma step_inv_others g g' s t th' k :
  inv g s -> k = gword g' -> tinv g' t th' ->
  (forall u thu, u <> t -> ms s !! u = Some thu -> tinv g u thu -> tinv g' u thu) ->
  gok g' (<[t := th']> (ms s)) -> looked_after g' (<[t := th']> (ms s)) ->
  inv g' (mkMu k (<[t := th']> (ms s))).
Proof.
  intros [_ Hi _ _] -> H Hf Hg Ha. split; [done| |done|done]. intros u thu. cbn.
  destruct (decide (u = t)) as [->|Hu]; [by rewrite lookup_insert_eq; intros [= <-]|].
  rewrite lookup_insert_ne by done. eauto.
Qed.

Lemma step_inv g g' s t th th' k :
  inv g s -> ms s !! t = Some th -> k = gword g' -> tinv g' t th' -> (forall u, u <> t -> frame g g' u) ->
  gok g' (<[t := th']> (ms s)) -> looked_after g' (<[t := th']> (ms s)) ->
  inv g' (mkMu k (<[t := th']> (ms s))).
Proof. intros Hi Ht Hk H Hf. apply (step_inv_others g); try done. intros u thu Hu _. by apply tinv_frame, Hf. Qed.

Lemma step_inv2 g g' s t th' c thc' k :
  inv g s -> k = gword g' -> c <> t -> tinv g' t th' -> tinv g' c thc' ->
  (forall u thu, u <> t -> u <> c -> ms s !! u = Some thu -> tinv g u thu -> tinv g' u thu) ->
  gok g' (<[t := th']> (<[c := thc']> (ms s))) -> looked_after g' (<[t := th']> (<[c := thc']> (ms s))) ->
  inv g' (mkMu k (<[t := th']> (<[c := thc']> (ms s)))).
Proof.
  intros [_ Hi _ _] -> Hc H H2 Hf Hg Ha. split; [done| |done|done]. intros u thu. cbn.
  destruct (decide (u = t)) as [->|Hu]; [by rewrite lookup_insert_eq; intros [= <-]|].
  rewrite lookup_insert_ne by done. destruct (decide (u = c)) as [->|Hu2]; [by rewrite lookup_insert_eq; intros [= <-]|].
  rewrite lookup_insert_ne by done. eauto.
Qed.

(** The stack stays as it is. *)
Lemma gok_same g g' thr t th th' :
  gok g thr -> thr !! t = Some th -> (t_next th' = t_next th \/ t ∉ g_stack g) -> g_stack g' = g_stack g ->
  (forall u, mentioned g' u -> mentioned g u \/ u = t) -> (g_sleeping g' = true -> g_lock g' <> None) ->
  (g_own g' <> None -> g_stack g <> []) -> gok g' (<[t := th']> thr).
Proof.
  intros [H1 H2 H3 H4 H5] Ht Hn E Hm Hs Ho. split; rewrite ?E; try done.
  - eapply linked_ext; [|exact H1]. intros a Ha. destruct (decide (a = t)) as [->|]; [|by apply nx_insert_ne].
    rewrite nx_insert. destruct Hn as [Hn|Hn]; [|done]. rewrite Hn. unfold nx. by rewrite Ht.
  - intros u [Hu| ->]%Hm; [|by rewrite lookup_insert_eq]. destruct (decide (u = t)) as [->|]; [by rewrite lookup_insert_eq|].
    rewrite lookup_insert_ne by done. auto.
Qed.

Lemma after_self g thr t th' : able th' = true -> looked_after g (<[t := th']> thr).
Proof. intros H _. right. exists t, th'. by rewrite lookup_insert_eq. Qed.
Lemma after_sleeping g thr : g_sleeping g = true -> looked_after g thr.
Proof. intros H _. by left. Qed.
Lemma after_other g thr t th' u th : thr !! u = Some th -> able th = true -> u <> t -> looked_after g (<[t := th']> thr).
Proof. intros Hu Hth Hne _. right. exists u, th. by rewrite lookup_insert_ne. Qed.
(** [t] was no help before. *)
Lemma after_keep g g' thr t th th' :
  looked_after g thr -> thr !! t = Some th -> able th = false -> (g_stack g' <> [] -> g_stack g <> []) ->
  (g_sleeping g = true -> g_sleeping g' = true) -> looked_after g' (<[t := th']> thr).
Proof.
  intros Ha Ht Hth Hs Hsl Hne. destruct (Ha (Hs Hne)) as [H|(u & thu & Hu & Hb)]; [left; auto|right].
  exists u, thu. split; [|done]. rewrite lookup_insert_ne; [done|]. intros ->. rewrite Ht in Hu. injection Hu as ->. congruence.
Qed.

(** ** Steps that only move one M *)
Definition asleep (p : pc) : bool := match p with LSleep => true | _ => false end.

Lemma tinv_awake g t th : tinv g t th -> asleep (t_pc th) = false -> t ∉ g_stack g /\ t_sema th = 0 /\ g_due g !! t = None.
Proof. intros H E. pose proof (ti_sleep _ _ _ H) as Hs. unfold sleep_ok in Hs. by destruct (t_pc th). Qed.

Lemma tinv_at g g' t th p n :
  tinv g t th -> asleep (t_pc th) = false -> asleep p = false ->
  (t ∉ g_stack g -> t ∉ g_stack g') -> g_due g' !! t = None ->
  (holds p = true <-> g_lock g' = Some t) -> (spins p = true <-> g_spin g' = Some t) ->
  (owns p = true <-> g_own g' = Some t) -> (forall q, promises p = Some q <-> g_due g' !! q = Some t) ->
  pc_ok (g_stack g') (mkT p n (t_sema th)) -> tinv g' t (mkT p n (t_sema th)).
Proof.
  intros H E E' Hs Hd H1 H2 H3 H4 H5. destruct (tinv_awake g t th H E) as (A1 & A2 & A3). split; try done.
  - apply H.
  - unfold sleep_ok. cbn. destruct p; try done; auto.
Qed.

Lemma able_awake th : asleep (t_pc th) = false -> able th = active (t_pc th).
Proof. unfold able. destruct (t_pc th); try done; intros _; by rewrite orb_false_r. Qed.

Lemma local_inv g s t th p n :
  inv g s -> ms s !! t = Some th -> asleep (t_pc th) = false -> asleep p = false ->
  holds p = holds (t_pc th) -> spins p = spins (t_pc th) -> owns p = owns (t_pc th) -> promises p = promises (t_pc th) ->
  pc_ok (g_stack g) (mkT p n (t_sema th)) ->
  (active p = true \/ active (t_pc th) = false \/ looked_after g (<[t := mkT p n (t_sema th)]> (ms s))) ->
  inv g (mkMu (key s) (<[t := mkT p n (t_sema th)]> (ms s))).
Proof.
  intros Hi Ht E E' H1 H2 H3 H4 H5 Ha. pose proof (iv_ms _ _ Hi t th Ht) as Hth.
  destruct (tinv_awake g t th Hth E) as (A1 & A2 & A3).
  eapply (step_inv g); [exact Hi|exact Ht|apply Hi| |intros; apply frame_refl| |].
  - apply (tinv_at g); try done.
    + rewrite H1. apply Hth.
    + rewrite H2. apply Hth.
    + rewrite H3. apply Hth.
    + rewrite H4. apply Hth.
  - pose proof (iv_ok _ _ Hi) as Hg. eapply gok_same; [exact Hg|exact Ht|by right|done|by left|apply Hg|apply Hg].
  - destruct Ha as [Ha|[Ha|Ha]]; [by apply after_self; rewrite able_awake| |done].
    eapply after_keep; [apply Hi|exact Ht|by rewrite able_awake|done|done].
Qed.

(** ** What the word says *)
Lemma hi_zero : hi 0 = 0.
Proof. done. Qed.

Lemma listHead_word h L S P K : h = 0 \/ is_m h -> listHead (word h L S P K) = h.
Proof.
  unfold SpinLock.listHead, mutexWaitListHead, is_m. fold (hi (word h L S P K)). change (hi (word h L S P K)) with (Z.ldiff (word h L S P K) mutexMMask).
  rewrite word_hi. fold (hi h) (hi m0). intros [->|[Hp Hh]]; [done|]. rewrite (proj2 (Z.eqb_neq (hi h) 0)) by lia.
  destruct Hh as [->|[Hh Hn]]; [by rewrite Z.eqb_refl|]. by rewrite (proj2 (Z.eqb_neq _ _) Hn).
Qed.

Section word_of.
Context (g : ghost) (s : mutex) (Hi : inv g s).

Lemma stack_m a : a ∈ g_stack g -> is_m a.
Proof using Hi.
  intros Ha. destruct (gk_present _ _ (iv_ok _ _ Hi) a) as [th Hth]; [right; right; right; by left|].
  exact (ti_m _ _ _ (iv_ms _ _ Hi a th Hth)).
Qed.
Lemma top_m : top (g_stack g) = 0 \/ is_m (top (g_stack g)).
Proof using Hi. destruct (g_stack g) as [|a l] eqn:E; [by left|right]. apply stack_m. rewrite E. by left. Qed.
Lemma top_in : g_stack g <> [] -> top (g_stack g) ∈ g_stack g.
Proof using. destruct (g_stack g); [done|]. by left. Qed.
Lemma hi_top : hi (top (g_stack g)) = 0 <-> g_stack g = [].
Proof using Hi.
  split; [|by intros ->]. intros H. destruct (g_stack g) as [|a l] eqn:E; [done|]. exfalso.
  assert (is_m a) as [Hp _] by (apply stack_m; rewrite E; by left). cbn in H. unfold hi in H. lia.
Qed.

Lemma key_head : listHead (key s) = top (g_stack g).
Proof using Hi. rewrite (iv_key _ _ Hi). apply listHead_word, top_m. Qed.
Lemma key_empty : Z.ldiff (key s) mutexMMask = 0 <-> g_stack g = [].
Proof using Hi. rewrite (iv_key _ _ Hi). unfold gword. rewrite word_hi. apply hi_top. Qed.
Lemma key_locked : has_bits (key s) mutexLocked = some (g_lock g).
Proof using Hi. rewrite (iv_key _ _ Hi). apply word_locked. Qed.
Lemma key_spinning : has_bits (key s) mutexSpinning = some (g_spin g).
Proof using Hi. rewrite (iv_key _ _ Hi). apply word_spinning. Qed.
Lemma key_stack_locked : has_bits (key s) mutexStackLocked = some (g_own g).
Proof using Hi. rewrite (iv_key _ _ Hi). apply word_stack_locked. Qed.

(** Somebody who spins, or has the stack lock, sees to the sleepers. *)
Lemma spinner_after t th' : some (g_spin g) = true -> g_spin g <> Some t -> looked_after g (<[t := th']> (ms s)).
Proof using Hi.
  intros H Hn. destruct (g_spin g) as [u|] eqn:E; [|done].
  destruct (gk_present _ _ (iv_ok _ _ Hi) u) as [th Hth]; [right; by left|].
  pose proof (iv_ms _ _ Hi u th Hth) as Hu. apply (after_other _ _ _ _ u th Hth); [|congruence].
  pose proof (proj2 (ti_spin _ _ _ Hu) E) as Hs. unfold able. by destruct (t_pc th).
Qed.
Lemma owner_after t th' : some (g_own g) = true -> g_own g <> Some t -> looked_after g (<[t := th']> (ms s)).
Proof using Hi.
  intros H Hn. destruct (g_own g) as [u|] eqn:E; [|done].
  destruct (gk_present _ _ (iv_ok _ _ Hi) u) as [th Hth]; [right; right; by left|].
  pose proof (iv_ms _ _ Hi u th Hth) as Hu. apply (after_other _ _ _ _ u th Hth); [|congruence].
  pose proof (proj2 (ti_own _ _ _ Hu) E) as Hs. unfold able. by destruct (t_pc th).
Qed.
End word_of.

(** ** lock2 *)
Lemma frame_flags g g' u : g_stack g' = g_stack g -> g_due g' = g_due g ->
  (g_lock g = Some u <-> g_lock g' = Some u) -> (g_spin g = Some u <-> g_spin g' = Some u) ->
  (g_own g = Some u <-> g_own g' = Some u) -> frame g g' u.
Proof. intros E1 E2 H1 H2 H3. split; rewrite ?E1, ?E2; try done. intros _. by exists []. Qed.

(** A step that only changes who holds, spins or owns. *)
Lemma flags_inv g g' s t th p k :
  inv g s -> ms s !! t = Some th -> asleep (t_pc th) = false -> asleep p = false ->
  g_stack g' = g_stack g -> g_due g' = g_due g -> k = gword g' ->
  (forall u, u <> t -> (g_lock g = Some u <-> g_lock g' = Some u) /\ (g_spin g = Some u <-> g_spin g' = Some u) /\
                       (g_own g = Some u <-> g_own g' = Some u)) ->
  (holds p = true <-> g_lock g' = Some t) -> (spins p = true <-> g_spin g' = Some t) -> (owns p = true <-> g_own g' = Some t) ->
  promises p = promises (t_pc th) -> pc_ok (g_stack g) (mkT p (t_next th) (t_sema th)) ->
  (g_sleeping g' = true -> g_lock g' <> None) -> (g_own g' <> None -> g_stack g <> []) ->
  looked_after g' (<[t := mkT p (t_next th) (t_sema th)]> (ms s)) ->
  inv g' (goto t th p k s).
Proof.
  intros Hi Ht E E' Es Ed -> Hf H1 H2 H3 H4 H5 Hsl Ho Ha. pose proof (iv_ms _ _ Hi t th Ht) as Hth.
  destruct (tinv_awake g t th Hth E) as (A1 & A2 & A3).
  eapply (step_inv g); [exact Hi|exact Ht|done| | | |done].
  - apply (tinv_at g); rewrite ?Es, ?Ed; try done. rewrite H4. apply Hth.
  - intros u Hu. destruct (Hf u Hu) as (F1 & F2 & F3). by apply frame_flags.
  - eapply gok_same; [apply Hi|exact Ht|by left|done| |done|done].
    intros u [Hu|[Hu|[Hu|Hu]]]; unfold mentioned.
    + destruct (decide (u = t)) as [->|Hne]; [by right|left; left; by apply Hf].
    + destruct (decide (u = t)) as [->|Hne]; [by right|left; right; left; by apply Hf].
    + destruct (decide (u = t)) as [->|Hne]; [by right|left; right; right; left; by apply Hf].
    + left. right. right. right. by rewrite <- Es, <- Ed.
Qed.

Lemma some_true {A} (o : option A) : some o = true <-> o <> None.
Proof. by destruct o. Qed.
Lemma some_false {A} (o : option A) : some o = false <-> o = None.
Proof. by destruct o. Qed.

Lemma LFast_inv g s t th :
  inv g s -> ms s !! t = Some th -> t_pc th = LFast ->
  exists g', inv g' (goto t th (if negb (has_bits (low8 (key s)) mutexLocked)
    then if has_bits (low8 (key s)) mutexSleeping then LOr else Crit else LLoad (mkSpin false false 0))
    (set_low8 (key s) mutexLocked) s).
Proof.
  intros Hi Ht Ep. pose proof (iv_ms _ _ Hi t th Ht) as [_ I1 I2 I3 I4 _ _]. rewrite Ep in I1, I2, I3, I4.
  pose proof (iv_ok _ _ Hi) as Hg. rewrite (iv_key _ _ Hi). unfold gword. rewrite word_low8_locked, word_low8_sleeping.
  change mutexLocked with (Z.b2z true + 2 * Z.b2z false). rewrite word_xchg.
  destruct (some (g_lock g)) eqn:El; cbn [negb].
  - exists (set_sleeping false g). eapply (flags_inv g); rewrite ?Ep; try done; cbn.
    + unfold gword. cbn. by rewrite El.
    + by apply Hg.
    + by apply after_self.
  - apply some_false in El. assert (g_sleeping g = false) as Esl.
    { destruct (g_sleeping g) eqn:E; [|done]. by destruct (gk_sleeping _ _ Hg E). }
    rewrite Esl. exists (set_lock (Some t) g). eapply (flags_inv g); rewrite ?Ep; try done; cbn.
    + unfold gword. cbn. by rewrite Esl.
    + intros u Hu. rewrite El. split_and!; try done. split; congruence.
    + by apply Hg.
    + eapply after_keep; [apply Hi|exact Ht|by unfold able; rewrite Ep|done|done].
Qed.

Lemma goto_local g s t th p :
  inv g s -> ms s !! t = Some th -> asleep (t_pc th) = false -> asleep p = false ->
  holds p = holds (t_pc th) -> spins p = spins (t_pc th) -> owns p = owns (t_pc th) -> promises p = promises (t_pc th) ->
  pc_ok (g_stack g) (mkT p (t_next th) (t_sema th)) ->
  (active p = true \/ active (t_pc th) = false \/ looked_after g (<[t := mkT p (t_next th) (t_sema th)]> (ms s))) ->
  exists g', inv g' (goto t th p (key s) s).
Proof. intros. exists g. by apply local_inv. Qed.

(** The end of a turn, with a word in which the mutex is taken. *)
Lemma decide_sleep_cases x v : has_bits v mutexLocked = true ->
  decide_sleep prefer spin x v = LLoad (next_turn x) \/ decide_sleep prefer spin x v = LStore x v.
Proof. intros Hv. unfold decide_sleep. rewrite Hv. destruct (_ && _); auto. Qed.

Lemma decide_local g s t th x v :
  inv g s -> ms s !! t = Some th -> t_pc th = LTry x v -> has_bits v mutexLocked = true ->
  exists g', inv g' (goto t th (decide_sleep prefer spin x v) (key s) s).
Proof.
  intros Hi Ht Ep Hv. destruct (decide_sleep_cases x v Hv) as [-> | ->];
    eapply goto_local; rewrite ?Ep; try done; by left.
Qed.

(** Taking the mutex on the way round the loop. *)
Lemma LTry_take g s t th x v :
  inv g s -> ms s !! t = Some th -> t_pc th = LTry x v -> has_bits v mutexLocked = false -> weSpin x = true -> key s = v ->
  exists g', inv g' (goto t th Crit (acquire_word v) s).
Proof.
  intros Hi Ht Ep Hv Hx E. pose proof (iv_ms _ _ Hi t th Ht) as [_ I1 I2 I3 I4 _ _]. rewrite Ep in I1, I2, I3, I4.
  pose proof (iv_ok _ _ Hi) as Hg. rewrite <- E in *. rewrite (key_locked _ _ Hi) in Hv. apply some_false in Hv.
  assert (g_spin g = Some t) as Es by (by apply I2).
  exists (set_spin None (set_lock (Some t) (set_sleeping (negb (hi (top (g_stack g)) =? 0)) g))).
  eapply (flags_inv g); rewrite ?Ep; try done; cbn.
  - rewrite (iv_key _ _ Hi). unfold gword. rewrite word_acquire. done.
  - intros u Hu. rewrite Hv, Es. split_and!; try done; split; congruence.
  - by apply Hg.
  - intros Hne. left. cbn. apply negb_true_iff, Z.eqb_neq. intros H0. by apply (hi_top g s Hi) in H0.
Qed.

Lemma LTry_xchg g s t th x v :
  inv g s -> ms s !! t = Some th -> t_pc th = LTry x v -> weSpin x = false ->
  exists g', inv g' (goto t th (if negb (has_bits (low8 (key s)) mutexLocked) then Crit else LLoad (next_turn x))
    (set_low8 (key s) (Z.lor mutexLocked mutexSleeping)) s).
Proof.
  intros Hi Ht Ep Hx. pose proof (iv_ms _ _ Hi t th Ht) as [_ I1 I2 I3 I4 _ _]. rewrite Ep in I1, I2, I3, I4.
  pose proof (iv_ok _ _ Hi) as Hg. rewrite (iv_key _ _ Hi). unfold gword. rewrite word_low8_locked.
  change (Z.lor mutexLocked mutexSleeping) with (Z.b2z true + 2 * Z.b2z true). rewrite word_xchg.
  destruct (some (g_lock g)) eqn:El; cbn [negb].
  - exists (set_sleeping true g). eapply (flags_inv g); rewrite ?Ep; try done; cbn.
    + unfold gword. cbn. by rewrite El.
    + intros _. by apply some_true.
    + by apply Hg.
    + by apply after_self.
  - apply some_false in El. exists (set_sleeping true (set_lock (Some t) g)). eapply (flags_inv g); rewrite ?Ep; try done; cbn.
    + intros u Hu. rewrite El. split_and!; try done. split; congruence.
    + cbn in I2. by rewrite Hx in I2.
    + by apply Hg.
    + by apply after_sleeping.
Qed.

Lemma LTry_spin g s t th x v :
  inv g s -> ms s !! t = Some th -> t_pc th = LTry x v -> has_bits v mutexLocked = true -> weSpin x = false ->
  has_bits v mutexSpinning = false -> key s = v ->
  exists g', inv g' (goto t th (decide_sleep prefer spin (mkSpin true (atTail x) (turn x)) (Z.lor v mutexSpinning))
    (Z.lor v mutexSpinning) s).
Proof.
  intros Hi Ht Ep Hv Hx Hp E. pose proof (iv_ms _ _ Hi t th Ht) as [_ I1 I2 I3 I4 _ _]. rewrite Ep in I1, I2, I3, I4.
  pose proof (iv_ok _ _ Hi) as Hg. rewrite <- E in *. rewrite (key_spinning _ _ Hi) in Hp. apply some_false in Hp.
  assert (has_bits (Z.lor (key s) mutexSpinning) mutexLocked = true) as Hv'.
  { rewrite (iv_key _ _ Hi) in *. unfold gword in *. rewrite word_or_spinning, word_locked. by rewrite word_locked in Hv. }
  exists (set_spin (Some t) g).
  assert (Z.lor (key s) mutexSpinning = gword (set_spin (Some t) g)) as Ek
    by (rewrite (iv_key _ _ Hi); unfold gword; apply word_or_spinning).
  destruct (decide_sleep_cases (mkSpin true (atTail x) (turn x)) _ Hv') as [-> | ->];
    (eapply (flags_inv g); rewrite ?Ep; try done; cbn;
      [intros u Hu; rewrite Hp; split_and!; try done; split; congruence|by apply Hg|by apply Hg|by apply after_self]).
Qed.

Lemma LTry_inv g s t th x v s' :
  inv g s -> ms s !! t = Some th -> t_pc th = LTry x v -> s' ∈ lock2_next m0 prefer spin t th s -> exists g', inv g' s'.
Proof.
  intros Hi Ht Ep. unfold lock2_next. rewrite Ep.
  assert (spins (LTry x v) = weSpin x) as Hsp by done.
  destruct (has_bits v mutexLocked) eqn:Hv; cbn [negb].
  - destruct (weSpin x) eqn:Hx; cbn [negb andb]; [intros ->%list_elem_of_singleton; by eapply decide_local|].
    destruct (has_bits v mutexSpinning) eqn:Hp; cbn [negb]; [intros ->%list_elem_of_singleton; by eapply decide_local|].
    destruct (Z.eqb_spec (key s) v) as [E|E]; intros ->%list_elem_of_singleton; [by eapply LTry_spin|by eapply decide_local].
  - destruct (weSpin x) eqn:Hx.
    + destruct (Z.eqb_spec (key s) v) as [E|E]; intros ->%list_elem_of_singleton; [by eapply LTry_take|].
      eapply goto_local; rewrite ?Ep; try done. by left.
    + intros ->%list_elem_of_singleton. by eapply LTry_xchg.
Qed.

Lemma LPush_inv g s t th x v :
  inv g s -> ms s !! t = Some th -> t_pc th = LPush x v -> key s = v ->
  exists g', inv g' (goto t th LSleep (push_word t x v) s).
Proof.
  intros Hi Ht Ep E. pose proof (iv_ms _ _ Hi t th Ht) as Hth. pose proof (iv_ok _ _ Hi) as Hg.
  destruct (tinv_awake g t th Hth) as (A1 & A2 & A3); [by rewrite Ep|].
  destruct Hth as [I0 I1 I2 I3 I4 I5 I6]. rewrite Ep in I1, I2, I3, I4. unfold pc_ok in I6. rewrite Ep in I6.
  destruct I6 as [Hv Hn]. rewrite <- E in *. rewrite (key_locked _ _ Hi) in Hv. rewrite (key_head _ _ Hi) in Hn.
  cbn in I2.
  set (sp := if weSpin x then None else g_spin g).
  assert (forall u, u <> t -> g_spin g = Some u <-> sp = Some u) as Hsp.
  { intros u Hu. unfold sp. destruct (weSpin x); [|done]. rewrite (proj1 I2 eq_refl). split; congruence. }
  exists (set_stack (t :: g_stack g) (set_spin sp (set_sleeping true g))).
  eapply (step_inv g); [exact Hi|exact Ht| | | | |by apply after_sleeping].
  - rewrite (iv_key _ _ Hi). unfold gword. rewrite word_push. cbn. f_equal. unfold sp.
    destruct (weSpin x); [by rewrite andb_false_r|by rewrite andb_true_r].
  - split; try done.
    + cbn. unfold sp. destruct (weSpin x); [done|]. split; [done|]. intros H. by apply I2 in H.
    + unfold sleep_ok. cbn. left. split_and!; [by left|done|done].
  - intros u Hu. split; try done; [by apply Hsp| |].
    + cbn. rewrite elem_of_cons. naive_solver.
    + intros _. by exists [t].
  - destruct Hg as [G1 G2 G3 G4 G5]. split; cbn.
    + split; [by rewrite nx_insert|]. eapply linked_ext; [|exact G1]. intros a Ha. apply nx_insert_ne. by intros ->.
    + by constructor.
    + intros u Hm. destruct (decide (u = t)) as [->|Hu]; [by rewrite lookup_insert_eq|]. rewrite lookup_insert_ne by done.
      apply G3. unfold mentioned in *. cbn in Hm. rewrite <- Hsp, elem_of_cons in Hm by done. tauto.
    + intros _. by apply some_true.
    + done.
Qed.

Lemma LSleep_inv g s t th :
  inv g s -> ms s !! t = Some th -> t_pc th = LSleep -> 0 < t_sema th ->
  exists g', inv g' (mkMu (key s) (<[t := mkT LWoke (t_next th) (t_sema th - 1)]> (ms s))).
Proof.
  intros Hi Ht Ep Hc. pose proof (iv_ms _ _ Hi t th Ht) as [I0 I1 I2 I3 I4 I5 I6]. rewrite Ep in I1, I2, I3, I4.
  unfold sleep_ok in I5. rewrite Ep in I5. assert (t ∉ g_stack g /\ t_sema th = 1 /\ g_due g !! t = None) as (A1 & A2 & A3).
  { destruct I5 as [(_ & H & _)|[H1 [[H2 H3]|[H2 _]]]]; [lia|done|lia]. }
  exists g. eapply (step_inv g); [exact Hi|exact Ht|apply Hi| |intros; apply frame_refl| |by apply after_self].
  - split; try done. unfold sleep_ok. cbn. split_and!; [done|lia|done].
  - pose proof (iv_ok _ _ Hi) as Hg. eapply gok_same; [exact Hg|exact Ht|by left|done|by left|apply Hg|apply Hg].
Qed.

Lemma lock2_inv g s t th s' :
  inv g s -> ms s !! t = Some th -> s' ∈ lock2_next m0 prefer spin t th s -> exists g', inv g' s'.
Proof.
  intros Hi Ht H. destruct (t_pc th) as [| | |x|x v|x v|x v| | | | | | | | | | | | | | | |] eqn:Ep;
    try (unfold lock2_next in H; rewrite Ep in H; by apply not_elem_of_nil in H).
  - unfold lock2_next in H. rewrite Ep in H. apply list_elem_of_singleton in H as ->. by eapply LFast_inv.
  - pose proof (ti_pc _ _ _ (iv_ms _ _ Hi t th Ht)) as Hf. unfold pc_ok in Hf. by rewrite Ep in Hf.
  - unfold lock2_next in H. rewrite Ep in H. apply list_elem_of_singleton in H as ->.
    eapply goto_local; rewrite ?Ep; try done. by left.
  - by eapply LTry_inv.
  - unfold lock2_next in H. rewrite Ep in H. apply list_elem_of_singleton in H as ->.
    pose proof (ti_pc _ _ _ (iv_ms _ _ Hi t th Ht)) as Hf. unfold pc_ok in Hf. rewrite Ep in Hf.
    exists g. apply local_inv; rewrite ?Ep; try done. by left.
  - unfold lock2_next in H. rewrite Ep in H. destruct (Z.eqb_spec (key s) v) as [E|E]; apply list_elem_of_singleton in H as ->.
    + by eapply LPush_inv.
    + exists g. apply local_inv; rewrite ?Ep; try done. by left.
  - unfold lock2_next in H. rewrite Ep in H. destruct (Z.ltb_spec 0 (t_sema th)); [|by apply not_elem_of_nil in H].
    apply list_elem_of_singleton in H as ->. by eapply LSleep_inv.
  - unfold lock2_next in H. rewrite Ep in H. apply list_elem_of_singleton in H as ->.
    exists g. apply local_inv; rewrite ?Ep; try done. by left.
Qed.

(** ** unlock2 *)
Lemma UFast_inv g s t th p :
  inv g s -> ms s !! t = Some th -> t_pc th = UFast ->
  (if has_bits (low8 (key s)) mutexSleeping then exists anti, p = WLoad false anti else p = Idle) ->
  exists g', inv g' (goto t th p (set_low8 (key s) 0) s).
Proof.
  intros Hi Ht Ep Hp. pose proof (iv_ms _ _ Hi t th Ht) as [_ I1 I2 I3 I4 _ _]. rewrite Ep in I1, I2, I3, I4.
  pose proof (iv_ok _ _ Hi) as Hg. assert (g_lock g = Some t) as El by (by apply I1).
  exists (set_lock None (set_sleeping false g)).
  assert (set_low8 (key s) 0 = gword (set_lock None (set_sleeping false g))) as Ek.
  { rewrite (iv_key _ _ Hi). unfold gword. change 0 with (Z.b2z false + 2 * Z.b2z false) at 1. apply word_xchg. }
  rewrite (iv_key _ _ Hi) in Hp. unfold gword in Hp. rewrite word_low8_sleeping in Hp.
  assert (forall u, u <> t -> (g_lock g = Some u <-> None = Some u) /\ (g_spin g = Some u <-> g_spin g = Some u) /\
    (g_own g = Some u <-> g_own g = Some u)) as Hf by (intros u Hu; rewrite El; split_and!; try done; split; congruence).
  destruct (g_sleeping g) eqn:Es.
  - destruct Hp as [anti ->]. eapply (flags_inv g); rewrite ?Ep; try done; [by apply Hg|by apply after_self].
  - subst p. eapply (flags_inv g); rewrite ?Ep; try done; [by apply Hg|].
    eapply after_keep; [apply Hi|exact Ht|by unfold able; rewrite Ep|done|by rewrite Es].
Qed.

Lemma UTry_inv g s t th v anti :
  inv g s -> ms s !! t = Some th -> t_pc th = UTry v -> key s = v ->
  exists g', inv g' (goto t th (WLoad true anti) (Z.ldiff (Z.lor v mutexStackLocked) (Z.lor mutexLocked mutexSleeping)) s).
Proof.
  intros Hi Ht Ep E. pose proof (iv_ms _ _ Hi t th Ht) as [_ I1 I2 I3 I4 _ I6]. unfold pc_ok in I6. rewrite Ep in I1, I2, I3, I4, I6.
  pose proof (iv_ok _ _ Hi) as Hg. assert (g_lock g = Some t) as El by (by apply I1). rewrite <- E in *.
  rewrite (key_empty _ _ Hi), (key_stack_locked _ _ Hi), some_false in I6. destruct I6 as [Hne Ho].
  exists (set_own (Some t) (set_lock None (set_sleeping false g))).
  eapply (flags_inv g); rewrite ?Ep; try done.
  - rewrite (iv_key _ _ Hi). unfold gword. apply word_sample.
  - intros u Hu. cbn. rewrite El, Ho. split_and!; try done; split; congruence.
  - by apply after_self.
Qed.

Lemma unlock2_inv g s t th s' :
  inv g s -> ms s !! t = Some th -> s' ∈ unlock2_next t th s -> exists g', inv g' s'.
Proof.
  intros Hi Ht H. pose proof (iv_ms _ _ Hi t th Ht) as Hth. pose proof (ti_lock _ _ _ Hth) as Hl.
  unfold unlock2_next in H. destruct (t_pc th) eqn:Ep; try (by apply not_elem_of_nil in H).
  - apply elem_of_cons in H as [->|H%list_elem_of_singleton]; [|subst s'];
      (eapply goto_local; rewrite ?Ep; try done; by right; left).
  - rewrite (iv_key _ _ Hi) in H at 1. unfold gword in H. rewrite word_low8_locked, (proj1 Hl eq_refl) in H. cbn [some negb] in H.
    pose proof (UFast_inv g s t th) as HU.
    destruct (has_bits (low8 (key s)) mutexSleeping).
    + apply list_elem_of_fmap in H as (p & -> & Hp). eapply HU; try done. set_unfold in Hp. naive_solver.
    + apply list_elem_of_singleton in H as ->. by eapply HU.
  - apply list_elem_of_singleton in H as ->. destruct (_ || _) eqn:E.
    + eapply goto_local; rewrite ?Ep; try done. by right; left.
    + apply orb_false_iff in E as [E1%Z.eqb_neq E2]. eapply goto_local; rewrite ?Ep; try done. by right; left.
  - destruct (Z.eqb_spec (key s) v) as [E|E].
    + assert (has_bits (Z.lor (low8 v) mutexSleeping) mutexLocked = true) as Hb.
      { rewrite <- E, (iv_key _ _ Hi). unfold gword. rewrite (proj1 Hl eq_refl).
        unfold low8, word. rewrite (mask_land _ _ 0xFF) by (try apply flags_range; done).
        by destruct (g_sleeping g), (some (g_spin g)), (some (g_own g)). }
      rewrite Hb in H. cbn [negb] in H. apply list_elem_of_fmap in H as (p & -> & Hp).
      assert (exists anti, p = WLoad true anti) as [anti ->] by (set_unfold in Hp; naive_solver). by eapply UTry_inv.
    + apply list_elem_of_singleton in H as ->. eapply goto_local; rewrite ?Ep; try done. by right; left.
Qed.

(** ** unlock2Wake *)
Lemma is_m_pos a : is_m a -> a <> 0.
Proof. intros [H _] ->. done. Qed.

(** Without the stack lock. *)
Lemma try_stack_inv g s t th anti :
  inv g s -> ms s !! t = Some th -> asleep (t_pc th) = false -> holds (t_pc th) = false -> spins (t_pc th) = false ->
  owns (t_pc th) = false -> promises (t_pc th) = None ->
  exists g', inv g' (goto t th (try_stack anti (key s)) (key s) s).
Proof.
  intros Hi Ht E H1 H2 H3 H4. pose proof (ti_own _ _ _ (iv_ms _ _ Hi t th Ht)) as Ho. unfold try_stack.
  destruct (Z.eqb_spec (Z.ldiff (key s) mutexMMask) 0) as [Ee|Ee]; cbn [orb].
  - eapply goto_local; rewrite ?H1, ?H2, ?H3, ?H4; try done. right. right. intros Hne.
    apply (key_empty _ _ Hi) in Ee. done.
  - destruct (has_bits (key s) mutexStackLocked) eqn:Ek.
    + eapply goto_local; rewrite ?H1, ?H2, ?H3, ?H4; try done. right. right.
      apply (owner_after g s Hi); [by rewrite <- (key_stack_locked _ _ Hi)|]. intros Hs. apply Ho in Hs. congruence.
    + eapply goto_local; rewrite ?H1, ?H2, ?H3, ?H4; try done. by left.
Qed.

(** With it. *)
Lemma choose_ok l anti v c n k : listHead v ∈ l -> pc_ok l (mkT (choose m0 prefer anti v c) n k).
Proof.
  intros Hv. unfold choose, pc_ok. fold (listHead v). destruct c as [c|]; cbn; [done|].
  destruct anti; cbn.
  - apply list_elem_of_split in Hv as (l1 & l2 & ->). exists l1, [], l2. split; [done|by left].
  - split; [done|]. destruct (has_bits v mutexSpinning) eqn:E; cbn; [|by left]. destruct prefer; cbn; [by left|right; done].
Qed.
Lemma choose_class anti v c : let p := choose m0 prefer anti v c in
  asleep p = false /\ holds p = false /\ spins p = false /\ owns p = true /\ promises p = c /\ active p = true.
Proof. unfold choose. by destruct c, anti. Qed.

Lemma choose_local g s t th anti c :
  inv g s -> ms s !! t = Some th -> asleep (t_pc th) = false -> holds (t_pc th) = false -> spins (t_pc th) = false ->
  owns (t_pc th) = true -> promises (t_pc th) = c ->
  exists g', inv g' (goto t th (choose m0 prefer anti (key s) c) (key s) s).
Proof.
  intros Hi Ht E H1 H2 H3 H4. destruct (choose_class anti (key s) c) as (C1 & C2 & C3 & C4 & C5 & C6).
  pose proof (ti_own _ _ _ (iv_ms _ _ Hi t th Ht)) as Ho.
  apply (goto_local g s t th); try done; try congruence; [|by left]. apply choose_ok. rewrite (key_head _ _ Hi). apply top_in.
  apply (gk_own _ _ (iv_ok _ _ Hi)). by rewrite (proj1 Ho H3).
Qed.

Lemma WTry_inv g s t th anti v :
  inv g s -> ms s !! t = Some th -> t_pc th = WTry anti v -> key s = v ->
  exists g', inv g' (goto t th (choose m0 prefer anti v None) (Z.lor v mutexStackLocked) s).
Proof.
  intros Hi Ht Ep E. pose proof (iv_ms _ _ Hi t th Ht) as [_ I1 I2 I3 I4 _ I6]. unfold pc_ok in I6. rewrite Ep in I1, I2, I3, I4, I6.
  pose proof (iv_ok _ _ Hi) as Hg. rewrite <- E in *.
  rewrite (key_empty _ _ Hi), (key_stack_locked _ _ Hi), some_false in I6. destruct I6 as [Hne Ho].
  destruct (choose_class anti (key s) None) as (C1 & C2 & C3 & C4 & C5 & C6).
  exists (set_own (Some t) g). eapply (flags_inv g); rewrite ?Ep, ?C2, ?C3, ?C4, ?C5; try done.
  - rewrite (iv_key _ _ Hi). unfold gword. apply word_or_stack.
  - intros u Hu. cbn. rewrite Ho. split_and!; try done; split; congruence.
  - apply choose_ok. rewrite (key_head _ _ Hi). by apply top_in.
  - by apply Hg.
  - apply after_self. by rewrite able_awake.
Qed.

(** An M the owner [t] of the stack lock takes off the stack. *)
Lemma tinv_popped g g' t w thw :
  tinv g w thw -> w ∈ g_stack g -> w <> t -> w ∉ g_stack g' -> g_due g' = <[w := t]> (g_due g) ->
  (g_lock g = Some w <-> g_lock g' = Some w) -> (g_spin g = Some w <-> g_spin g' = Some w) ->
  (g_own g = Some w <-> g_own g' = Some w) -> tinv g' w thw.
Proof.
  intros [H1 H2 H3 H4 H5 H6 H7] Hw Hne Hw' Ed F1 F2 F3. unfold sleep_ok in H6.
  destruct (t_pc thw) eqn:Ep; try (by destruct H6 as [? _]).
  destruct H6 as [(_ & Hs & Hd)|[? _]]; [|done].
  split; rewrite ?Ep; try done; [by rewrite H2|by rewrite H3|by rewrite H4| | |].
  - intros p. rewrite H5, Ed. destruct (decide (p = w)) as [->|]; [|by rewrite lookup_insert_ne].
    rewrite lookup_insert_eq, Hd. split; [done|congruence].
  - unfold sleep_ok. rewrite Ep. right. split; [done|]. right. split; [done|]. rewrite Ed, lookup_insert_eq. by eexists.
  - unfold pc_ok. by rewrite Ep.
Qed.

Lemma linked_app f l a b l' : linked f (l ++ a :: b :: l') -> f a = b.
Proof. induction l as [|c l IH]; cbn; [by intros [H _]|]. intros [_ H]. auto. Qed.
Lemma linked_tail f l a l' : linked f (l ++ a :: l') -> f a = top l'.
Proof. induction l as [|c l IH]; cbn; [by intros [H _]|]. intros [_ H]. auto. Qed.

(** Cutting off the last. *)
Lemma linked_cut f f' l a b : linked f (l ++ [a; b]) -> (forall x, x ∈ l -> f' x = f x) -> f' a = 0 -> linked f' (l ++ [a]).
Proof.
  intros H He Ha. induction l as [|c l IH]; [done|]. cbn in *. destruct H as [H1 H2]. split.
  - rewrite He, H1 by (by left). by destruct l.
  - apply IH; [done|]. intros x Hx. apply He. by right.
Qed.

Lemma walking_mp l mp prev w : walking l mp prev w -> mp ∈ l /\ prev ∈ l /\ w ∈ l.
Proof.
  intros (s1 & s2 & s3 & -> & [(-> & -> & ->)|[H1 [s4 ->]]]); set_unfold; [tauto|].
  split_and!; [|by right; left; right; left|by right; right; left].
  right. left. destruct s4 as [|x s4]; injection H1 as ->; [by right; left|by left; left].
Qed.

(** One step down. *)
Lemma walking_next l f mp prev w : linked f l -> walking l mp prev w -> f w <> 0 -> walking l mp w (f w).
Proof.
  intros Hl (s1 & s2 & s3 & -> & H) Hn. rewrite app_assoc in Hl. rewrite (linked_tail _ _ _ _ Hl) in *.
  destruct s3 as [|x s3]; [done|]. exists s1, (s2 ++ [w]), s3. cbn. split; [by rewrite <- (app_assoc s2)|]. right.
  split; [|by eexists]. destruct H as [(-> & -> & _)|[H _]]; [done|]. by destruct s2.
Qed.

(** At the end of the stack. *)
Lemma walking_end l f mp prev w : (forall a, a ∈ l -> a <> 0) -> linked f l -> walking l mp prev w -> f w = 0 -> w <> mp ->
  exists l', l = l' ++ [prev; w] /\ mp ∈ l' ++ [prev].
Proof.
  intros H0 Hl (s1 & s2 & s3 & -> & H) Hn Hw. rewrite app_assoc in Hl. rewrite (linked_tail _ _ _ _ Hl) in Hn.
  destruct s3 as [|x s3]; [|exfalso; apply (H0 x); [set_solver|done]].
  destruct H as [(_ & -> & _)|[H [s4 ->]]]; [done|]. exists (s1 ++ s4). split; [by rewrite <- !app_assoc|].
  destruct s4 as [|y s4]; injection H as ->; set_solver.
Qed.

(** What is owed a wakeup is off the stack. *)
Lemma due_off g s c t : inv g s -> g_due g !! c = Some t -> c ∉ g_stack g /\ exists thc, ms s !! c = Some thc /\ t_pc thc = LSleep /\ t_sema thc = 0.
Proof.
  intros Hi Hd. destruct (gk_present _ _ (iv_ok _ _ Hi) c) as [thc Hc]; [do 4 right; left; by eexists|].
  pose proof (ti_sleep _ _ _ (iv_ms _ _ Hi c thc Hc)) as Hs. unfold sleep_ok in Hs.
  destruct (t_pc thc) eqn:Ec; try (destruct Hs as (_ & _ & Hs); congruence).
  destruct Hs as [(_ & _ & Hs)|[H1 [[_ Hs]|[H2 _]]]]; try congruence. split; [done|]. by exists thc.
Qed.

(** Taking [w] off the stack leaves the others as they were, and everybody present. *)
Section popped.
Context (g g' : ghost) (s : mutex) (t w : Z) (Hi : inv g s).
Context (Hmem : forall u, u ∈ g_stack g <-> u ∈ g_stack g' \/ u = w) (Hw' : w ∉ g_stack g') (Hwt : w <> t).
Context (Ed : g_due g' = <[w := t]> (g_due g)) (El : g_lock g' = g_lock g) (Es : g_spin g' = g_spin g).
Context (Ho : g_own g = Some t) (Ho' : g_own g' = Some t \/ g_own g' = None).

Lemma popped_due : g_due g !! w = None.
Proof using Hi Hmem.
  destruct (g_due g !! w) as [t'|] eqn:E; [|done]. destruct (due_off g s w t' Hi E) as [H _]. destruct H. apply Hmem. by right.
Qed.
Lemma popped_others u thu : u <> t -> ms s !! u = Some thu -> tinv g u thu -> tinv g' u thu.
Proof using All.
  intros Hu Hlu Hinv. pose proof popped_due as Hd.
  assert (g_own g = Some u <-> g_own g' = Some u) as Hown by (rewrite Ho; destruct Ho' as [-> | ->]; split; congruence).
  destruct (decide (u = w)) as [->|Hne].
  - apply (tinv_popped g g' t w thu); rewrite ?El, ?Es; try done. apply Hmem. by right.
  - apply (tinv_frame g); [|done]. split; rewrite ?El, ?Es, ?Ed; try done.
    + intros p. destruct (decide (p = w)) as [->|]; [|by rewrite lookup_insert_ne].
      rewrite lookup_insert_eq, Hd. split; congruence.
    + by rewrite lookup_insert_ne.
    + rewrite Hmem. naive_solver.
    + rewrite Ho. congruence.
Qed.
Lemma popped_mentioned u : mentioned g' u -> mentioned g u \/ u = t.
Proof using Hmem Ed El Es Ho'.
  unfold mentioned. rewrite El, Es, Ed, Hmem. intros [Hm|[Hm|[Hm|[Hm|[Hm|[p Hm]]]]]]; [tauto|tauto| |tauto| |].
  - right. destruct Ho' as [E|E]; congruence.
  - destruct (decide (u = w)) as [->|]; [left; do 3 right; left; by right|]. rewrite lookup_insert_ne in Hm by done. tauto.
  - destruct (decide (p = w)) as [->|]; [rewrite lookup_insert_eq in Hm; right; congruence|].
    rewrite lookup_insert_ne in Hm by done. left. do 5 right. by exists p.
Qed.
(** [t] has promised [w]. *)
Lemma popped_promise q : (forall p, None = Some p <-> g_due g !! p = Some t) -> Some w = Some q <-> g_due g' !! q = Some t.
Proof using Ed.
  intros H. rewrite Ed. destruct (decide (q = w)) as [->|]; [by rewrite lookup_insert_eq|]. rewrite lookup_insert_ne by done.
  rewrite <- H. split; congruence.
Qed.
End popped.

Lemma WWalk_inv g s t th v prev w s' :
  inv g s -> ms s !! t = Some th -> t_pc th = WWalk v prev w -> s' ∈ wake_next m0 prefer t th s -> exists g', inv g' s'.
Proof.
  intros Hi Ht Ep. pose proof (iv_ok _ _ Hi) as Hg. pose proof (ti_pc _ _ _ (iv_ms _ _ Hi t th Ht)) as I6.
  unfold pc_ok in I6. rewrite Ep in I6.
  destruct (walking_mp _ _ _ _ I6) as (Wm & Wp & Ww). unfold wake_next. rewrite Ep. fold (listHead v).
  destruct (gk_present _ _ Hg w) as [tw Htw]; [right; right; right; by left|]. rewrite Htw.
  assert (nx (ms s) w = t_next tw) as Hnx by (unfold nx; by rewrite Htw).
  destruct (Z.eqb_spec (t_next tw) 0) as [E|E]; cbn [negb].
  2:{ intros ->%list_elem_of_singleton. eapply goto_local; rewrite ?Ep; try done; [|by left].
      unfold pc_ok. cbn. rewrite <- Hnx in *. eapply walking_next; [apply Hg|exact I6|done]. }
  destruct (Z.eqb_spec w (listHead v)) as [Em|Em]; cbn [negb]; intros ->%list_elem_of_singleton;
    (eapply goto_local; rewrite ?Ep; try done; [|by left]).
  - split; [done|by left].
  - apply (walking_end (g_stack g) (nx (ms s))); try done; [|apply Hg|congruence]. intros a Ha. apply is_m_pos. by eapply stack_m.
Qed.

Lemma WCut_inv g s t th v prev w s' :
  inv g s -> ms s !! t = Some th -> t_pc th = WCut v prev w -> s' ∈ wake_next m0 prefer t th s -> exists g', inv g' s'.
Proof.
  intros Hi Ht Ep. pose proof (iv_ms _ _ Hi t th Ht) as Hth. pose proof (iv_ok _ _ Hi) as Hg.
  destruct (tinv_awake g t th Hth) as (A1 & A2 & A3); [by rewrite Ep|]. assert (Hth' := Hth).
  destruct Hth as [I0 I1 I2 I3 I4 I5 I6]. rewrite Ep in I1, I2, I3, I4. unfold pc_ok in I6. rewrite Ep in I6.
  destruct I6 as (l & El & Hmp).
  assert (prev ∈ g_stack g /\ w ∈ g_stack g) as [Wp Ww] by (rewrite El; set_solver). unfold wake_next. rewrite Ep.
  destruct (gk_present _ _ Hg w) as [tw Htw]; [right; right; right; by left|].
  destruct (gk_present _ _ Hg prev) as [tp Htp]; [right; right; right; by left|]. rewrite Htw, Htp.
  assert (t_next tw = 0) as E.
  { pose proof (gk_linked _ _ Hg) as Hl. rewrite El in Hl. change [prev; w] with ([prev] ++ [w]) in Hl.
    rewrite app_assoc in Hl. apply linked_tail in Hl. unfold nx in Hl. by rewrite Htw in Hl. }
  intros ->%list_elem_of_singleton.
  assert (NoDup (l ++ [prev; w])) as Hnd by (rewrite <- El; apply Hg).
  assert (prev <> t /\ w <> t /\ w ∉ l ++ [prev] /\ prev ∉ l) as (Hpt & Hwt & Hwl & Hpl).
  { split_and!; [by intros ->|by intros ->| |].
    - change [prev; w] with ([prev] ++ [w]) in Hnd. rewrite app_assoc in Hnd. apply list.NoDup_app in Hnd as (_ & H & _).
      intros Hw. apply (H w Hw). by left.
    - apply list.NoDup_app in Hnd as (_ & H & _). intros Hp. apply (H prev Hp). by left. }
  assert (forall u, u ∈ g_stack g <-> u ∈ l ++ [prev] \/ u = w) as Hmem by (intros u; rewrite El; set_solver).
  set (g' := set_stack (l ++ [prev]) (set_due (<[w := t]> (g_due g)) g)). exists g'.
  pose proof (popped_others g g' s t w Hi Hmem Hwl Hwt eq_refl eq_refl eq_refl (proj1 I3 eq_refl) (or_introl (proj1 I3 eq_refl))) as Hothers.
  unfold goto. cbn [key ms]. eapply (step_inv2 g g' s); [exact Hi| |exact Hpt| | | | |].
  - rewrite (iv_key _ _ Hi). unfold gword. cbn. rewrite El. f_equal. by destruct l.
  - apply (tinv_at g); rewrite ?Ep; try done.
    + cbn. intros H. rewrite Hmem in H. tauto.
    + cbn. rewrite lookup_insert_ne by done. done.
    + intros q. by apply (popped_promise g g' t w).
  - pose proof (Hothers prev tp Hpt Htp (iv_ms _ _ Hi prev tp Htp)) as [J0 J1 J2 J3 J4 J5 J6].
    assert (t_pc tp = LSleep) as Epp.
    { unfold sleep_ok in J5. destruct (t_pc tp); try done; destruct J5 as [J5 _]; by destruct J5; set_solver. }
    split; try done. unfold pc_ok. cbn. by rewrite Epp.
  - intros u thu Hu _. by apply Hothers.
  - destruct Hg as [G1 G2 G3 G4 G5]. split; cbn.
    + eapply (linked_ext (nx (<[prev := mkT (t_pc tp) (t_next tw) (t_sema tp)]> (ms s)))).
      { intros a Ha. apply nx_insert_ne. intros ->. apply A1. apply Hmem. by left. }
      rewrite El in G1. eapply linked_cut; [exact G1| |by rewrite nx_insert].
      intros x Hx. apply nx_insert_ne. by intros ->.
    + change [prev; w] with ([prev] ++ [w]) in Hnd. rewrite app_assoc in Hnd. by apply list.NoDup_app in Hnd as (H & _).
    + intros u Hm. destruct (decide (u = t)) as [->|Hu]; [by rewrite lookup_insert_eq|]. rewrite lookup_insert_ne by done.
      destruct (decide (u = prev)) as [->|Hu2]; [by rewrite lookup_insert_eq|]. rewrite lookup_insert_ne by done.
      apply G3. by destruct (popped_mentioned g g' t w Hmem eq_refl eq_refl eq_refl (or_introl (proj1 I3 eq_refl)) u Hm).
    + done.
    + intros _. by destruct l.
  - by apply after_self.
Qed.
Lemma word_same h h' L S P K : hi h = hi h' -> word h L S P K = word h' L S P K.
Proof. unfold word. by intros ->. Qed.

(** The owner of the stack lock gives it back, and keeps its promise. *)
Lemma give_back g s t th p :
  inv g s -> ms s !! t = Some th -> owns (t_pc th) = true -> asleep (t_pc th) = false -> asleep p = false ->
  holds p = holds (t_pc th) -> spins p = spins (t_pc th) -> owns p = false -> promises p = promises (t_pc th) ->
  pc_ok (g_stack g) (mkT p (t_next th) (t_sema th)) ->
  active p = true \/ looked_after g (<[t := mkT p (t_next th) (t_sema th)]> (ms s)) ->
  exists g', inv g' (goto t th p (Z.lor (Z.ldiff (key s) mutexMMask) (Z.land (key s) (Z.ldiff mutexMMask mutexStackLocked))) s).
Proof.
  intros Hi Ht Ho E E' H1 H2 H3 H4 H5 Ha. pose proof (iv_ms _ _ Hi t th Ht) as [_ I1 I2 I3 I4 _ _].
  pose proof (iv_ok _ _ Hi) as Hg. pose proof (proj1 I3 Ho) as Eo. exists (set_own None g).
  apply (flags_inv g); rewrite ?H1, ?H2, ?H3; try done; cbn.
  - rewrite (iv_key _ _ Hi) at 2. unfold gword. rewrite word_pop. cbn. apply word_same.
    rewrite (iv_key _ _ Hi). unfold gword. apply word_hi.
  - intros u Hu. rewrite Eo. split_and!; try done. split; congruence.
  - apply Hg.
  - destruct Ha as [Ha|Ha]; [|exact Ha]. apply after_self. by rewrite able_awake.
Qed.

(** It pops the M on top. *)
Lemma pop_inv g s t th w l anti v c headM :
  inv g s -> ms s !! t = Some th -> t_pc th = WCas anti v w c headM -> promises (t_pc th) = None -> g_stack g = w :: l ->
  headM = Z.ldiff (top l) mutexMMask ->
  exists g', inv g' (goto t th (WSema w) (Z.lor headM (Z.land (key s) (Z.ldiff mutexMMask mutexStackLocked))) s).
Proof.
  intros Hi Ht Ep Hc El ->. pose proof (iv_ms _ _ Hi t th Ht) as Hth. pose proof (iv_ok _ _ Hi) as Hg.
  destruct (tinv_awake g t th Hth) as (A1 & A2 & A3); [by rewrite Ep|]. assert (Hth' := Hth).
  destruct Hth as [I0 I1 I2 I3 I4 I5 I6]. rewrite Hc in I4. rewrite Ep in I1, I2, I3.
  assert (w <> t) as Hwt by (intros ->; apply A1; rewrite El; by left).
  assert (NoDup (w :: l)) as Hnd by (rewrite <- El; apply Hg). apply list.NoDup_cons in Hnd as [Hwl Hnd].
  assert (forall u, u ∈ g_stack g <-> u ∈ l \/ u = w) as Hmem by (intros u; rewrite El, elem_of_cons; tauto).
  set (g' := set_stack l (set_own None (set_due (<[w := t]> (g_due g)) g))). exists g'.
  pose proof (proj1 I3 eq_refl) as Eo. destruct Hg as [G1 G2 G3 G4 G5]. rewrite El in G1. destruct G1 as [_ G1].
  apply (step_inv_others g).
  - done.
  - rewrite (iv_key _ _ Hi). unfold gword. rewrite word_pop. done.
  - apply (tinv_at g); rewrite ?Ep; try done.
    + cbn. intros H. rewrite Hmem in H. tauto.
    + cbn. rewrite lookup_insert_ne by done. done.
    + intros q. by apply (popped_promise g g' t w).
  - apply (popped_others g g' s t w); try done. by right.
  - split; cbn; [| |intros u Hm|done|done].
    + eapply linked_ext; [|exact G1]. intros a Ha. apply nx_insert_ne. intros ->. apply A1. apply Hmem. by left.
    + done.
    + destruct (decide (u = t)) as [->|Hu]; [by rewrite lookup_insert_eq|]. rewrite lookup_insert_ne by done.
      apply G3. by destruct (popped_mentioned g g' t w Hmem eq_refl eq_refl eq_refl (or_intror eq_refl) u Hm).
  - by apply after_self.
Qed.
Lemma WHead_inv g s t th anti v w c s' :
  inv g s -> ms s !! t = Some th -> t_pc th = WHead anti v w c -> s' ∈ wake_next m0 prefer t th s -> exists g', inv g' s'.
Proof.
  intros Hi Ht Ep. pose proof (iv_ok _ _ Hi) as Hg. pose proof (ti_pc _ _ _ (iv_ms _ _ Hi t th Ht)) as I6.
  unfold pc_ok in I6. rewrite Ep in I6. assert (Hv := proj1 I6).
  destruct (gk_present _ _ Hg (listHead v)) as [tv Htv]; [right; right; right; by left|].
  unfold wake_next. rewrite Ep. fold (listHead v). rewrite Htv.
  destruct (Z.eqb_spec w (listHead v)) as [E|E]; cbn; intros ->%list_elem_of_singleton;
    (eapply goto_local; rewrite ?Ep; try done; [|by left]); (split; [done|]).
  - rewrite (proj2 (Z.eqb_eq _ _) E). rewrite <- E in *. apply list_elem_of_split in Hv as (l1 & l2 & El). exists l1, l2.
    split; [done|]. pose proof (gk_linked _ _ Hg) as Hl. rewrite El in Hl. apply linked_tail in Hl. unfold nx in Hl.
    rewrite Htv in Hl. cbn in Hl. by rewrite Hl.
  - by rewrite (proj2 (Z.eqb_neq _ _) E).
Qed.

Lemma WCas_inv g s t th anti v w c headM s' :
  inv g s -> ms s !! t = Some th -> t_pc th = WCas anti v w c headM -> s' ∈ wake_next m0 prefer t th s -> exists g', inv g' s'.
Proof.
  intros Hi Ht Ep. pose proof (iv_ms _ _ Hi t th Ht) as Hth. pose proof (iv_ok _ _ Hi) as Hg.
  pose proof (ti_due _ _ _ Hth) as I4. pose proof (ti_own _ _ _ Hth) as I3. pose proof (ti_spin _ _ _ Hth) as I2.
  pose proof (ti_pc _ _ _ Hth) as I6. unfold pc_ok in I6. rewrite Ep in I2, I3, I4, I6. destruct I6 as [[Hv Hw] Hh].
  pose proof (is_m_pos _ (stack_m g s Hi _ Hv)) as Hpos. unfold wake_next. rewrite Ep.
  destruct (Z.eqb_spec (key s) v) as [<-|E]; intros ->%list_elem_of_singleton;
    [|eapply goto_local; rewrite ?Ep; try done; by left].
  rewrite (key_head _ _ Hi) in *. destruct c as [c|]; [|destruct Hw as [->|[-> Hsp]]].
  - subst w. assert (g_due g !! c = Some t) as Hd by (by apply I4). destruct (due_off g s c t Hi Hd) as (Hc & tc & Htc & _).
    rewrite (proj2 (Z.eqb_neq c (top (g_stack g)))) in Hh by congruence. subst headM.
    assert (c <> 0) as ->%Z.eqb_neq by (apply is_m_pos; exact (ti_m _ _ _ (iv_ms _ _ Hi c tc Htc))).
    apply (give_back g); rewrite ?Ep; try done. by left.
  - rewrite Z.eqb_refl in Hh. rewrite (proj2 (Z.eqb_neq _ _) Hpos). destruct Hh as (l1 & l2 & El & Hh).
    destruct l1 as [|x l1].
    + eapply pop_inv; try done. by rewrite Ep.
    + exfalso. pose proof (gk_once _ _ Hg) as Hnd. rewrite El in Hnd. cbn in Hnd. apply list.NoDup_cons in Hnd as [Hx _].
      assert (top (g_stack g) = x) as Ex by (by rewrite El).
      rewrite Ex in Hx. set_solver.
  - rewrite (proj2 (Z.eqb_neq 0 (top (g_stack g)))) in Hh by congruence. subst headM. cbn [Z.eqb].
    apply (give_back g); rewrite ?Ep; try done. right. apply (spinner_after g s Hi); [by rewrite <- (key_spinning _ _ Hi)|].
    intros H. by apply I2 in H.
Qed.

Lemma WSema_inv g s t th c s' :
  inv g s -> ms s !! t = Some th -> t_pc th = WSema c -> s' ∈ wake_next m0 prefer t th s -> exists g', inv g' s'.
Proof.
  intros Hi Ht Ep. pose proof (iv_ms _ _ Hi t th Ht) as Hth. pose proof (iv_ok _ _ Hi) as Hg.
  destruct (tinv_awake g t th Hth) as (A1 & A2 & A3); [by rewrite Ep|].
  assert (forall p, promises (WSema c) = Some p <-> g_due g !! p = Some t) as I4 by (rewrite <- Ep; apply Hth).
  assert (g_due g !! c = Some t) as Hd by (by apply I4). destruct (due_off g s c t Hi Hd) as (Hc & tc & Htc & Epc & Hsc).
  assert (c <> t) as Hct by (intros ->; congruence).
  unfold wake_next. rewrite Ep, Htc. intros ->%list_elem_of_singleton.
  set (g' := set_due (delete c (g_due g)) g). exists g'. unfold goto. cbn [key ms].
  assert (forall p u, u <> t -> g_due g !! p = Some u <-> delete c (g_due g) !! p = Some u) as Hdel.
  { intros p u Hu. destruct (decide (p = c)) as [->|]; [|by rewrite lookup_delete_ne].
    rewrite lookup_delete_eq, Hd. split; congruence. }
  eapply (step_inv2 g g' s); [exact Hi| |exact Hct| | | | |].
  - apply Hi.
  - pose proof (ti_lock _ _ _ Hth) as I1. pose proof (ti_spin _ _ _ Hth) as I2. pose proof (ti_own _ _ _ Hth) as I3.
    rewrite Ep in I1, I2, I3. apply (tinv_at g); rewrite ?Ep; try done.
    + cbn. by rewrite lookup_delete_ne.
    + intros q. cbn. split; [done|]. intros [Hne Hq]%lookup_delete_Some. apply I4 in Hq. injection Hq as ->. congruence.
  - destruct (iv_ms _ _ Hi c tc Htc) as [J0 J1 J2 J3 J4 J5 J6]. rewrite Epc in J1, J2, J3, J4. split; rewrite ?Epc; try done.
    + intros p. cbn. rewrite J4. by apply Hdel.
    + unfold sleep_ok. cbn. right. split; [done|]. left. rewrite lookup_delete_eq. split; [lia|done].
  - intros u thu Hu Hu2 _. apply tinv_frame. split; try done.
    + intros p. by apply Hdel.
    + cbn. by rewrite lookup_delete_ne.
    + intros _. by exists [].
  - destruct Hg as [G1 G2 G3 G4 G5]. split; cbn; try done.
    + eapply linked_ext; [|exact G1]. intros a Ha. rewrite nx_insert_ne by (by intros ->). apply nx_insert_ne. by intros ->.
    + intros u Hm. destruct (decide (u = t)) as [->|Hu]; [by rewrite lookup_insert_eq|]. rewrite lookup_insert_ne by done.
      destruct (decide (u = c)) as [->|Hu2]; [by rewrite lookup_insert_eq|]. rewrite lookup_insert_ne by done.
      apply G3. unfold mentioned in *. cbn in Hm. rewrite lookup_delete_ne in Hm by done.
      destruct Hm as [Hm|[Hm|[Hm|[Hm|[Hm|[p Hm]]]]]]; [tauto|tauto|tauto|tauto|tauto|]. do 5 right. exists p. by apply Hdel.
  - apply (after_other _ _ _ _ c (mkT (t_pc tc) (t_next tc) (t_sema tc + 1))); [by rewrite lookup_insert_eq| |done].
    unfold able. cbn. by rewrite Epc, Hsc.
Qed.

Lemma wake_inv g s t th s' :
  inv g s -> ms s !! t = Some th -> s' ∈ wake_next m0 prefer t th s -> exists g', inv g' s'.
Proof.
  intros Hi Ht H. pose proof (iv_ms _ _ Hi t th Ht) as Hth. pose proof (ti_spin _ _ _ Hth) as I2.
  destruct (t_pc th) as [| | | | | | | | | | | | |have anti|anti v|anti| | | | |anti c| |] eqn:Ep;
    try (by eapply WWalk_inv); try (by eapply WCut_inv); try (by eapply WHead_inv); try (by eapply WCas_inv); try (by eapply WSema_inv);
    unfold wake_next in H; rewrite Ep in H; try (by apply not_elem_of_nil in H).
  - apply list_elem_of_singleton in H as ->. destruct have; [by eapply choose_local; rewrite ?Ep|].
    destruct (negb _) eqn:E; [|by eapply try_stack_inv; rewrite ?Ep].
    apply negb_true_iff, orb_false_iff in E as [[_ E]%orb_false_iff _]. apply negb_false_iff in E.
    eapply goto_local; rewrite ?Ep; try done. right. right. apply (spinner_after g s Hi); [by rewrite <- (key_spinning _ _ Hi)|].
    intros Hs. by apply I2 in Hs.
  - destruct (Z.eqb_spec (key s) v) as [E|E]; apply list_elem_of_singleton in H as ->; [by eapply WTry_inv|].
    eapply goto_local; rewrite ?Ep; try done. by left.
  - apply list_elem_of_singleton in H as ->. by eapply try_stack_inv; rewrite ?Ep.
  - apply list_elem_of_singleton in H as ->. by eapply choose_local; rewrite ?Ep.
Qed.

(** ** Reachable states *)
Lemma fresh_inv s : fresh m0 s -> exists g, inv g s.
Proof.
  intros [Hk Hf]. exists (mkGh [] None None None false ∅). split; [done| | |by intros ?].
  - intros t th Ht. destruct (Hf t th Ht) as [Hm ->]. split; try done.
    split; [apply not_elem_of_nil|done].
  - split; try done; [constructor|]. intros u [?|[?|[?|[Hu%not_elem_of_nil|[[? Hu]|[p Hu]]]]]]; try done; by rewrite lookup_empty in Hu.
Qed.

Lemma step_any g s s' : inv g s -> mstep m0 prefer spin s s' -> exists g', inv g' s'.
Proof.
  intros Hi [m th Hm Ep|m th s1 Hm H].
  - eapply goto_local; rewrite ?Ep; try done. by right; left.
  - unfold m_next in H. rewrite !elem_of_app in H. destruct H as [H|[H|H]].
    + by eapply lock2_inv.
    + by eapply unlock2_inv.
    + by eapply wake_inv.
Qed.

Lemma mreach_inv s : mreach m0 prefer spin s -> exists g, inv g s.
Proof. induction 1 as [s H|s s' _ [g Hi] H]; [by apply fresh_inv|by eapply step_any]. Qed.
(** ** Who can move *)
Lemma stuck_cases m th s : m_next m0 prefer spin m th s = [] -> (forall msg, t_pc th <> Fault msg) ->
  t_pc th = Idle \/ t_pc th = LSleep /\ t_sema th <= 0.
Proof.
  unfold m_next, lock2_next, unlock2_next, wake_next. intros H1 H2.
  destruct (t_pc th) eqn:E; try (by left); try (by destruct (H2 msg));
    (right; split; [|revert H1; repeat case_match; done || lia]; revert H1; repeat case_match; done).
Qed.

(** An M asleep without a wakeup coming to it is in the stack. *)
Lemma asleep_cases g s m th : inv g s -> ms s !! m = Some th -> t_pc th = LSleep ->
  m ∈ g_stack g \/ t_sema th = 1 \/ exists u thu, ms s !! u = Some thu /\ promises (t_pc thu) = Some m.
Proof.
  intros Hi Hm E. pose proof (ti_sleep _ _ _ (iv_ms _ _ Hi m th Hm)) as Hs. unfold sleep_ok in Hs. rewrite E in Hs.
  destruct Hs as [[H _]|[_ [[H _]|[_ [u Hu]]]]]; [by left|by right; left|right; right].
  destruct (gk_present _ _ (iv_ok _ _ Hi) u) as [thu Htu]; [do 5 right; by exists m|].
  exists u, thu. split; [done|]. by apply (ti_due _ _ _ (iv_ms _ _ Hi u thu Htu)).
Qed.
Lemma promises_active p c : promises p = Some c -> active p = true.
Proof. by destruct p. Qed.

(** An M asleep is seen to. *)
Lemma asleep_after g s m th : inv g s -> ms s !! m = Some th -> t_pc th = LSleep ->
  (exists u thu, ms s !! u = Some thu /\ able thu = true) \/
  has_bits (key s) mutexSleeping = true /\ exists u thu, ms s !! u = Some thu /\ holds (t_pc thu) = true.
Proof.
  intros Hi Hm E. destruct (asleep_cases g s m th Hi Hm E) as [H|[H|(u & thu & Hu & Hp)]].
  - destruct (iv_after _ _ Hi) as [Hsl|?]; [by intros El; rewrite El in H; apply not_elem_of_nil in H| |by left].
    right. split.
    + rewrite (iv_key _ _ Hi). unfold gword, has_bits, word. rewrite mask_land by (try apply flags_range; done).
      rewrite Hsl. by destruct (some (g_lock g)), (some (g_spin g)), (some (g_own g)).
    + pose proof (gk_sleeping _ _ (iv_ok _ _ Hi) Hsl) as Hl. destruct (g_lock g) as [u|] eqn:Eu; [|done].
      destruct (gk_present _ _ (iv_ok _ _ Hi) u) as [thu Hu]; [by left|]. exists u, thu. split; [done|].
      by apply (ti_lock _ _ _ (iv_ms _ _ Hi u thu Hu)).
  - left. exists m, th. split; [done|]. unfold able. by rewrite E, H.
  - left. exists u, thu. split; [done|]. unfold able. by erewrite promises_active.
Qed.
(** ** Theorems *)

(** C9: Mutual exclusion.  However lock2 and unlock2 of any number of Ms interleave, at most
    one M holds the mutex, nothing throws or reads through a bad list pointer, and the
    fast path of lock2 never has to put mutexSleeping back. *)
Theorem lock2_excludes s : mreach m0 prefer spin s ->
  (forall m1 m2 th1 th2, ms s !! m1 = Some th1 -> ms s !! m2 = Some th2 ->
     holds (t_pc th1) = true -> holds (t_pc th2) = true -> m1 = m2) /\
  (forall m th, ms s !! m = Some th -> t_pc th <> LOr /\ forall msg, t_pc th <> Fault msg).
Proof.
  intros [g Hi]%mreach_inv. split.
  - intros m1 m2 th1 th2 Hm1 Hm2 H1%(ti_lock _ _ _ (iv_ms _ _ Hi m1 th1 Hm1)) H2%(ti_lock _ _ _ (iv_ms _ _ Hi m2 th2 Hm2)).
    congruence.
  - intros m th Hm. pose proof (ti_pc _ _ _ (iv_ms _ _ Hi m th Hm)) as H. unfold pc_ok in H.
    split; [|intros msg]; intros E; by rewrite E in H.
Qed.

(** C10: No wakeup is lost.  While an M sleeps, some M is on its way to take the mutex, to
    sleep or to wake a sleeper, or one holds the mutex with mutexSleeping set, so that its
    unlock2 goes to unlock2Wake; and where no M can move, none sleeps or holds the mutex. *)
Theorem unlock2_loses_no_wakeup s : mreach m0 prefer spin s ->
  (forall m th, ms s !! m = Some th -> t_pc th = LSleep ->
     (exists u thu, ms s !! u = Some thu /\ able thu = true) \/
     has_bits (key s) mutexSleeping = true /\ exists u thu, ms s !! u = Some thu /\ holds (t_pc thu) = true) /\
  ((forall m th, ms s !! m = Some th -> m_next m0 prefer spin m th s = []) ->
   forall m th, ms s !! m = Some th -> t_pc th = Idle).
Proof.
  intros [g Hi]%mreach_inv. split; [intros m th; by eapply asleep_after|]. intros Hstuck.
  assert (forall m th, ms s !! m = Some th -> t_pc th = Idle \/ t_pc th = LSleep /\ t_sema th <= 0) as Hall.
  { intros m th Hm. apply (stuck_cases m th s); [by apply Hstuck|]. intros msg E.
    pose proof (ti_pc _ _ _ (iv_ms _ _ Hi m th Hm)) as Hp. unfold pc_ok in Hp. by rewrite E in Hp. }
  intros m th Hm. destruct (Hall m th Hm) as [|[E _]]; [done|]. exfalso.
  destruct (asleep_after g s m th Hi Hm E) as [(u & thu & Hu & Ha)|(_ & u & thu & Hu & Ha)];
    destruct (Hall u thu Hu) as [E'|[E' Hs]]; unfold able in Ha; rewrite E' in Ha; try done.
  cbn in Ha. apply Z.eqb_eq in Ha. lia.
Qed.

(** C11: The word and the list fields represent the sleepers.  From the M the word names
    the [next] fields list, without repetition, Ms that sleep with no wakeup; an M that
    sleeps is in the list, has its wakeup, or is the one an unlock2Wake is about to wake. *)
Theorem word_lists_sleepers s : mreach m0 prefer spin s ->
  exists l, listHead (key s) = top l /\ linked (nx (ms s)) l /\ NoDup l /\
    (forall m, m ∈ l -> exists th, ms s !! m = Some th /\ t_pc th = LSleep /\ t_sema th = 0) /\
    (forall m th, ms s !! m = Some th -> t_pc th = LSleep ->
       m ∈ l \/ t_sema th = 1 \/ exists u thu, ms s !! u = Some thu /\ promises (t_pc thu) = Some m).
Proof.
  intros [g Hi]%mreach_inv. pose proof (iv_ok _ _ Hi) as Hg. exists (g_stack g).
  split_and!; [by eapply key_head|apply Hg|apply Hg| |by intros m th; apply asleep_cases].
  intros m Hm. destruct (gk_present _ _ Hg m) as [th Hth]; [do 3 right; by left|]. exists th. split; [done|].
  pose proof (ti_sleep _ _ _ (iv_ms _ _ Hi m th Hth)) as Hs. unfold sleep_ok in Hs.
  destruct (t_pc th); try (by destruct Hs). by destruct Hs as [(_ & ? & _)|[? _]].
Qed.
End proof.

(** ** A run: one M takes the mutex, two others go to sleep, and it unlocks. *)
Section run.
Context (m0 : Z) (prefer : bool) (spin : nat).

(** [None]: the M calls lock2; [Some k]: it takes the [k]-th of its steps. *)
Definition m_move (x : Z * option nat) (s : mutex) : option mutex :=
  let '(m, o) := x in
  th ← ms s !! m;
  match o with
  | None => match t_pc th with Idle => Some (goto m th LFast (key s) s) | _ => None end
  | Some k => m_next m0 prefer spin m th s !! k
  end.
Fixpoint m_moves (l : list (Z * option nat)) (s : mutex) : option mutex :=
  match l with [] => Some s | x :: l => s ← m_move x s; m_moves l s end.

Lemma m_moves_reach l s s' : mreach m0 prefer spin s -> m_moves l s = Some s' -> mreach m0 prefer spin s'.
Proof.
  revert s. induction l as [|[m o] l IH]; intros s Hr; cbn; [by intros [= <-]|].
  destruct (ms s !! m) as [th|] eqn:Hm; cbn; [|done]. destruct o as [k|].
  - destruct (m_next m0 prefer spin m th s !! k) as [s1|] eqn:Hk; cbn; [|done]. apply IH.
    eapply mr_step; [exact Hr|]. eapply ms_m; [exact Hm|]. by eapply list_elem_of_lookup_2.
  - destruct (t_pc th) eqn:Ep; try done. cbn. apply IH. eapply mr_step; [exact Hr|]. by eapply ms_lock.
Qed.
End run.

Definition demo_m0 : Z := 0x8340.
Definition demo : mutex := mkMu 0 (list_to_map (map (fun m => (m, mkT Idle 0 0)) [demo_m0; 0x10008; 0x20008])).
Definition steps (m : Z) (n : nat) : list (Z * option nat) := (m, None) :: repeat (m, Some 0%nat) n.
Definition held : mutex :=
  default demo (m_moves demo_m0 false 0 (steps demo_m0 1 ++ steps 0x10008 7 ++ steps 0x20008 7) demo).
Definition slept : mutex := default demo (m_moves demo_m0 false 0 (repeat (demo_m0, Some 0%nat) 2) held).

Lemma demo_fresh : fresh demo_m0 demo.
Proof.
  split; [done|]. unfold demo. cbn [ms map list_to_map foldr fst snd].
  repeat apply map_Forall_insert_2; try apply map_Forall_empty; split; try done; (split; [done|]);
    [by left|by right|by right].
Qed.
Lemma held_reach : mreach demo_m0 false 0 held.
Proof.
  eapply (m_moves_reach _ _ _ (steps demo_m0 1 ++ steps 0x10008 7 ++ steps 0x20008 7) demo); [apply mr_fresh, demo_fresh|].
  vm_compute. reflexivity.
Qed.
Lemma slept_reach : mreach demo_m0 false 0 slept.
Proof.
  eapply (m_moves_reach _ _ _ (repeat (demo_m0, Some 0%nat) 2) held); [apply held_reach|]. vm_compute. reflexivity.
Qed.

Lemma lock2_excludes_witness : map_Forall (fun m th => holds (t_pc th) = true -> m = demo_m0) (ms held).
Proof.
  intros m th Hm H. destruct (lock2_excludes demo_m0 false 0 held held_reach) as [He _].
  apply (He m demo_m0 th (mkT Crit 0 0) Hm); [vm_compute; reflexivity|exact H|reflexivity].
Defined.

Lemma unlock2_loses_no_wakeup_witness : exists u thu, ms slept !! u = Some thu /\ able thu = true.
Proof.
  destruct (unlock2_loses_no_wakeup demo_m0 false 0 slept slept_reach) as [H _].
  destruct (H 0x10008 (mkT LSleep 0 0)) as [Ha|[Hb _]]; [vm_compute; reflexivity|reflexivity|exact Ha|].
  vm_compute in Hb. discriminate Hb.
Defined.

Lemma word_lists_sleepers_witness : exists l, top l = 0x20008 /\ NoDup l /\ linked (nx (ms slept)) l.
Proof.
  destruct (word_lists_sleepers demo_m0 false 0 slept slept_reach) as (l & Ht & Hl & Hn & _).
  exists l. split; [|split; [exact Hn|exact Hl]]. rewrite <- Ht. vm_compute. reflexivity.
Defined.
