(* ===== verification/Syscall.v ===== *)
(** * Syscall: the file, path, id and time wrappers of package syscall

    syscall/syscall_qnx.go, syscall_qnx2.go and syscall_qnx3.go on top of the
    bridge of Libc.v, with the string conversion of syscall.go and the Errno methods
    of syscall_unix.go.  A Go [error] is [option Z], the errno when there is one; a
    Go string is its bytes; memory passed by pointer comes back as the wrapper's
    extra result.  An [int] is 32 bits wide. *)
From Stdlib Require Import ZArith Lia List Bool String Ascii.
From stdpp Require Import base list gmap strings numbers tactics option.
From S2P Require Import Prelude Libc.

(** ** zerrors_qnx_arm.go: the errno values the package's code tests or returns *)
Definition EPERM : Z := 1.
Definition ENOENT : Z := 2.
Definition EINTR : Z := 4.
Definition EAGAIN : Z := 11.
Definition EACCES : Z := 13.
Definition EEXIST : Z := 17.
Definition EINVAL : Z := 22.
Definition ENFILE : Z := 23.
Definition EMFILE : Z := 24.
Definition EPIPE : Z := 32.
Definition ENOTSUP : Z := 48.
Definition ENOSYS : Z := 89.
Definition ENOTEMPTY : Z := 93.
Definition EOPNOTSUPP : Z := 103.
Definition EWOULDBLOCK : Z := EAGAIN.
Definition EAFNOSUPPORT : Z := 247.
Definition ETIMEDOUT : Z := 260.
Definition ELOOP : Z := 90.
Definition F_DUPFD : Z := 0.
Definition F_GETFD : Z := 1.
Definition F_SETFD : Z := 2.
Definition F_GETFL : Z := 3.
Definition F_SETFL : Z := 4.
Definition FD_CLOEXEC : Z := 1.
Definition O_NONBLOCK : Z := 128.

(** The errors table: index and message; every other entry is empty. *)
Definition errors : list (Z * string) :=
  [(1, "operation not permitted"); (2, "no such file or directory");
   (4, "interrupted system call"); (9, "bad file descriptor");
   (11, "resource temporarily unavailable"); (12, "not enough space");
   (13, "permission denied"); (14, "bad address"); (17, "file exists");
   (22, "invalid argument"); (24, "too many open files"); (32, "broken pipe");
   (89, "function not implemented"); (260, "connection timed out")]%string.

(** The array is as long as its largest index needs. *)
Definition errors_len : Z := 261.
Definition errors_at (e : Z) : string :=
  match List.find (fun p => fst p =? e) errors with Some (_, s) => s | None => EmptyString end.

(** strconv.Itoa on a non-negative number. *)
Definition digit (d : Z) : ascii := ascii_of_nat (48 + Z.to_nat d).
Fixpoint itoa_pos (fuel : nat) (n : Z) : string :=
  match fuel with
  | O => EmptyString
  | S fuel => if n <? 10 then String (digit n) EmptyString
              else (itoa_pos fuel (n / 10) ++ String (digit (n mod 10)) EmptyString)%string
  end.
Definition Itoa (n : Z) : string :=
  if n <? 0 then ("-" ++ itoa_pos 20 (- n))%string else itoa_pos 20 n.

(** ** syscall_unix.go: type Errno *)
Definition Errno_Error (e : Z) : string :=
  if (0 <=? i32 e) && (i32 e <? errors_len) then
    let s := errors_at e in
    if negb (String.eqb s EmptyString) then s else ("errno " ++ Itoa (i32 e))%string
  else ("errno " ++ Itoa (i32 e))%string.

(** The errors Errno.Is knows. *)
Inductive oserror : Type := ErrPermission | ErrExist | ErrNotExist | ErrUnsupported | ErrOther.

Definition Errno_Is (e : Z) (target : oserror) : bool :=
  match target with
  | ErrPermission => (e =? EACCES) || (e =? EPERM)
  | ErrExist => (e =? EEXIST) || (e =? ENOTEMPTY)
  | ErrNotExist => e =? ENOENT
  | ErrUnsupported => (e =? ENOSYS) || (e =? ENOTSUP) || (e =? EOPNOTSUPP)
  | ErrOther => false
  end.

Definition Errno_Timeout (e : Z) : bool := (e =? EAGAIN) || (e =? EWOULDBLOCK) || (e =? ETIMEDOUT).
Definition Errno_Temporary (e : Z) : bool :=
  (e =? EINTR) || (e =? EMFILE) || (e =? ENFILE) || Errno_Timeout e.

(** ** syscall.go: strings for C *)
Definition ByteSliceFromString (s : list Z) : list Z + Z :=
  if existsb (Z.eqb 0) s then inr EINVAL else inl (s ++ [0]).

Definition BytePtrFromString (s : list Z) : list Z + Z := ByteSliceFromString s.

(** What C reads through the pointer. *)
Definition c_string (a : list Z) : carg := CStr (cstr a).

(** ** Time values *)
Record Timespec : Type := mkTs { ts_Sec : Z; ts_Nsec : Z }.
Record Timeval : Type := mkTv { tv_Sec : Z; tv_Usec : Z }.
Definition tv_cells (tv : Timeval) : list Z := [tv_Sec tv; tv_Usec tv].
Definition setTimespec (sec nsec : Z) : Timespec := mkTs (i32 sec) (i32 nsec).
Definition setTimeval (sec usec : Z) : Timeval := mkTv (i32 sec) (i32 usec).

(** [if e != 0 { return e }; return nil] *)
Definition err_of (e : Z) : option Z := if e =? 0 then None else Some e.

(** [unsafe.Pointer(&p[0])] when the slice is not empty, else nil. *)
Definition slice_arg (p : list Z) : carg := match p with [] => CNull | _ => CBuf p end.
Definition slice_out (p : list Z) (bufs : list (list Z)) : list Z :=
  match p with [] => [] | _ => nth 0 bufs [] end.

Section wrappers.
Context {W : Type} `{!Libc W}.

Abbreviation M := (SysM W).

(** asm_qnx_arm.s: both jump into runtime.syscall_sysvicall6 / rawsysvicall6;
    [args] are the arguments in use, the rest being zero. *)
Definition sysvicall6 (fn : string) (nargs : Z) (args : list carg) : M sysres :=
  syscall_sysvicall6 fn nargs args.
Definition rawSysvicall6 (fn : string) (nargs : Z) (args : list carg) : M sysres :=
  syscall_rawsysvicall6 fn nargs args.

Definition RawSyscall (trap a1 a2 a3 : Z) : M (Z * Z * option Z) := st_ret (0, 0, Some ENOSYS).

(** ** File descriptors *)
Definition mmap (addr length prot flag fd pos : Z) : M (Z * option Z) :=
  let* r := sysvicall6 "mmap" 6 [CInt addr; CInt length; CInt (u32 prot); CInt (u32 flag);
                                 CInt (u32 fd); CInt (u32 pos)] in
  if negb (sr_err r =? 0) then st_ret (0, Some (sr_err r)) else st_ret (sr_r1 r, None).

Definition munmap (addr length : Z) : M (option Z) :=
  let* r := sysvicall6 "munmap" 2 [CInt addr; CInt length] in st_ret (err_of (sr_err r)).

Definition Open (path : list Z) (mode perm : Z) : M (Z * option Z) :=
  match BytePtrFromString path with
  | inr err => st_ret (-1, Some err)
  | inl p =>
    let* r := sysvicall6 "open" 3 [c_string p; CInt (u32 mode); CInt perm] in
    if negb (sr_err r =? 0) then st_ret (-1, Some (sr_err r)) else st_ret (i32 (sr_r1 r), None)
  end.

Definition Close (fd : Z) : M (option Z) :=
  let* r := sysvicall6 "close" 1 [CInt (u32 fd)] in st_ret (err_of (sr_err r)).

(** n, err and the buffer. *)
Definition read (fd : Z) (p : list Z) : M (Z * option Z * list Z) :=
  let* r := sysvicall6 "read" 3 [CInt (u32 fd); slice_arg p; CInt (Z.of_nat (length p))] in
  st_ret (i32 (sr_r1 r), err_of (sr_err r), slice_out p (sr_bufs r)).

Definition write (fd : Z) (p : list Z) : M (Z * option Z) :=
  let* r := sysvicall6 "write" 3 [CInt (u32 fd); slice_arg p; CInt (Z.of_nat (length p))] in
  st_ret (i32 (sr_r1 r), err_of (sr_err r)).

Definition readlen (fd : Z) (p : list Z) (np : Z) : M (Z * option Z * list Z) :=
  let* r := sysvicall6 "read" 3 [CInt (u32 fd); CBuf p; CInt (u32 np)] in
  st_ret (i32 (sr_r1 r), err_of (sr_err r), nth 0 (sr_bufs r) []).

Definition pread (fd : Z) (p : list Z) (offset : Z) : M (Z * option Z * list Z) :=
  let* r := sysvicall6 "pread" 5 [CInt (u32 fd); slice_arg p; CInt (Z.of_nat (length p));
                                  CInt (lo32 offset); CInt (hi32 offset)] in
  st_ret (i32 (sr_r1 r), err_of (sr_err r), slice_out p (sr_bufs r)).

Definition pwrite (fd : Z) (p : list Z) (offset : Z) : M (Z * option Z) :=
  let* r := sysvicall6 "pwrite" 5 [CInt (u32 fd); slice_arg p; CInt (Z.of_nat (length p));
                                   CInt (lo32 offset); CInt (hi32 offset)] in
  st_ret (i32 (sr_r1 r), err_of (sr_err r)).

Definition Seek (fd offset whence : Z) : M (Z * option Z) :=
  let* r := sysvicall6 "lseek" 4 [CInt (u32 fd); CInt (lo32 offset); CInt (hi32 offset);
                                  CInt (u32 whence)] in
  if negb (sr_err r =? 0) then st_ret (0, Some (sr_err r)) else
  st_ret (Z.lor (sr_r1 r) (i64 (Z.shiftl (sr_r2 r) 32)), None).

Definition fcntl (fd cmd arg : Z) : M (Z * option Z) :=
  let* r := sysvicall6 "fcntl" 3 [CInt (u32 fd); CInt (u32 cmd); CInt (u32 arg)] in
  st_ret (i32 (sr_r1 r), err_of (sr_err r)).

(** The struct stat wrappers return the structure's memory. *)
Definition Fstat (fd : Z) (stat : list Z) : M (option Z * list Z) :=
  let* r := sysvicall6 "fstat" 2 [CInt (u32 fd); CBuf stat] in
  st_ret (err_of (sr_err r), nth 0 (sr_bufs r) []).

Definition Stat (path stat : list Z) : M (option Z * list Z) :=
  match BytePtrFromString path with
  | inr err => st_ret (Some err, stat)
  | inl p =>
    let* r := sysvicall6 "stat" 2 [c_string p; CBuf stat] in
    st_ret (err_of (sr_err r), nth 0 (sr_bufs r) [])
  end.

Definition Lstat (path stat : list Z) : M (option Z * list Z) :=
  match BytePtrFromString path with
  | inr err => st_ret (Some err, stat)
  | inl p =>
    let* r := sysvicall6 "lstat" 2 [c_string p; CBuf stat] in
    st_ret (err_of (sr_err r), nth 0 (sr_bufs r) [])
  end.

(** [^uintptr(0)] marks the absence of a second argument. *)
Definition no_arg : Z := 2 ^ 32 - 1.

Definition path1 (fn : string) (path : list Z) (arg : Z) : M (option Z) :=
  match BytePtrFromString path with
  | inr err => st_ret (Some err)
  | inl p =>
    let '(nargs, arg) := if arg =? no_arg then (1, 0) else (2, arg) in
    let* r := sysvicall6 fn nargs [c_string p; CInt arg] in
    st_ret (err_of (sr_err r))
  end.

Definition Mkdir (path : list Z) (mode : Z) : M (option Z) := path1 "mkdir" path mode.
Definition Rmdir (path : list Z) : M (option Z) := path1 "rmdir" path no_arg.
Definition Unlink (path : list Z) : M (option Z) := path1 "unlink" path no_arg.
Definition Chmod (path : list Z) (mode : Z) : M (option Z) := path1 "chmod" path mode.
Definition Chdir (path : list Z) : M (option Z) := path1 "chdir" path no_arg.

Definition Ftruncate (fd length : Z) : M (option Z) :=
  let* r := sysvicall6 "ftruncate" 3 [CInt (u32 fd); CInt (lo32 length); CInt (hi32 length)] in
  st_ret (err_of (sr_err r)).

Definition Fchmod (fd mode : Z) : M (option Z) :=
  let* r := sysvicall6 "fchmod" 2 [CInt (u32 fd); CInt mode] in st_ret (err_of (sr_err r)).

Definition Fchown (fd uid gid : Z) : M (option Z) :=
  let* r := sysvicall6 "fchown" 3 [CInt (u32 fd); CInt (u32 uid); CInt (u32 gid)] in
  st_ret (err_of (sr_err r)).

Definition Fchdir (fd : Z) : M (option Z) :=
  let* r := sysvicall6 "fchdir" 1 [CInt (u32 fd)] in st_ret (err_of (sr_err r)).

Definition Getdents (fd : Z) (buf : list Z) : M (Z * option Z * list Z) := read fd buf.
Definition ReadDirent (fd : Z) (buf : list Z) : M (Z * option Z * list Z) := Getdents fd buf.

Definition Fsync (fd : Z) : M (option Z) :=
  let* r := sysvicall6 "fsync" 1 [CInt (u32 fd)] in st_ret (err_of (sr_err r)).

Definition Dup (fd : Z) : M (Z * option Z) :=
  let* r := sysvicall6 "dup" 1 [CInt (u32 fd)] in
  if negb (sr_err r =? 0) then st_ret (-1, Some (sr_err r)) else st_ret (i32 (sr_r1 r), None).

Definition Dup2 (old new : Z) : M (option Z) :=
  let* r := sysvicall6 "dup2" 2 [CInt (u32 old); CInt (u32 new)] in st_ret (err_of (sr_err r)).

(** The error and the slice p. *)
Definition Pipe (p : list Z) : M (option Z * list Z) :=
  if negb (length p =? 2)%nat then st_ret (Some EINVAL, p) else
  let* r := sysvicall6 "pipe" 1 [CBuf [0; 0]] in
  if negb (sr_err r =? 0) then st_ret (Some (sr_err r), p) else
  let pp := nth 0 (sr_bufs r) [] in
  st_ret (None, [i32 (nth 0 pp 0); i32 (nth 1 pp 0)]).

Definition Getrlimit (which : Z) (lim : list Z) : M (option Z * list Z) :=
  let* r := rawSysvicall6 "getrlimit" 2 [CInt (u32 which); CBuf lim] in
  st_ret (err_of (sr_err r), nth 0 (sr_bufs r) []).

Definition setrlimit (which : Z) (lim : list Z) : M (option Z) :=
  let* r := rawSysvicall6 "setrlimit" 2 [CInt (u32 which); CBuf lim] in
  st_ret (err_of (sr_err r)).

(** ** Processes *)
Definition Getpid : M Z := let* r := rawSysvicall6 "getpid" 0 [] in st_ret (i32 (sr_r1 r)).
Definition Getppid : M Z := let* r := rawSysvicall6 "getppid" 0 [] in st_ret (i32 (sr_r1 r)).

Definition Kill (pid sig : Z) : M (option Z) :=
  let* r := sysvicall6 "kill" 2 [CInt (u32 pid); CInt (u32 sig)] in st_ret (err_of (sr_err r)).

(** wpid, err and the wait status when there is no error; [rusage] nil or memory. *)
Definition Wait4 (pid options : Z) (rusage : option (list Z)) : M (Z * option Z * Z) :=
  let* r := sysvicall6 "wait4" 4 [CInt (u32 pid); CBuf [0]; CInt (u32 options);
              match rusage with Some l => CBuf l | None => CNull end] in
  if negb (sr_err r =? 0) then st_ret (-1, Some (sr_err r), 0) else
  st_ret (i32 (sr_r1 r), None, u32 (nth 0 (nth 0 (sr_bufs r) []) 0)).
End wrappers.

(** ** syscall_qnx2.go and syscall_qnx3.go *)
Definition _AT_FDCWD : Z := -100.

(** The bytes before the first NUL, at most the whole buffer: the scan
    [for n < len(buf) && buf[n] != 0 { n++ }] and the slice it selects. *)
Definition until_nul (buf : list Z) : list Z := cstr buf.

Definition timeval_of (ts : Timespec) : Timeval := mkTv (ts_Sec ts) (goquot (ts_Nsec ts) 1000).

Section wrappers2.
Context {W : Type} `{!Libc W}.

Abbreviation M := (SysM W).

Definition Umask (mask : Z) : M Z :=
  let* r := rawSysvicall6 "umask" 1 [CInt (u32 mask)] in st_ret (i32 (sr_r1 r)).

Definition Getsid (pid : Z) : M (Z * option Z) :=
  let* r := rawSysvicall6 "getsid" 1 [CInt (u32 pid)] in
  if negb (sr_err r =? 0) then st_ret (-1, Some (sr_err r)) else st_ret (i32 (sr_r1 r), None).

Definition Getrusage (who : Z) (rusage : list Z) : M (option Z * list Z) :=
  let* r := rawSysvicall6 "getrusage" 2 [CInt (u32 who); CBuf rusage] in
  st_ret (err_of (sr_err r), nth 0 (sr_bufs r) []).

Definition Rename (from to : list Z) : M (option Z) :=
  match BytePtrFromString from with
  | inr err => st_ret (Some err)
  | inl f =>
    match BytePtrFromString to with
    | inr err => st_ret (Some err)
    | inl t => let* r := sysvicall6 "rename" 2 [c_string f; c_string t] in st_ret (err_of (sr_err r))
    end
  end.

Definition Link (from to : list Z) : M (option Z) :=
  match BytePtrFromString from with
  | inr err => st_ret (Some err)
  | inl f =>
    match BytePtrFromString to with
    | inr err => st_ret (Some err)
    | inl t => let* r := sysvicall6 "link" 2 [c_string f; c_string t] in st_ret (err_of (sr_err r))
    end
  end.

Definition Symlink (from to : list Z) : M (option Z) :=
  match BytePtrFromString from with
  | inr err => st_ret (Some err)
  | inl f =>
    match BytePtrFromString to with
    | inr err => st_ret (Some err)
    | inl t => let* r := sysvicall6 "symlink" 2 [c_string f; c_string t] in st_ret (err_of (sr_err r))
    end
  end.

(** An empty buffer is replaced by a pointer to the word [_zero]. *)
Definition Readlink (path buf : list Z) : M (Z * option Z * list Z) :=
  match BytePtrFromString path with
  | inr err => st_ret (0, Some err, buf)
  | inl p =>
    let b := match buf with [] => CBuf [0] | _ => CBuf buf end in
    let* r := sysvicall6 "readlink" 3 [c_string p; b; CInt (Z.of_nat (length buf))] in
    st_ret (i32 (sr_r1 r), err_of (sr_err r), slice_out buf (sr_bufs r))
  end.

Definition Truncate (path : list Z) (length : Z) : M (option Z) :=
  match BytePtrFromString path with
  | inr err => st_ret (Some err)
  | inl p =>
    let* r := sysvicall6 "truncate" 3 [c_string p; CInt (lo32 length); CInt (hi32 length)] in
    st_ret (err_of (sr_err r))
  end.

Definition Chown (path : list Z) (uid gid : Z) : M (option Z) :=
  match BytePtrFromString path with
  | inr err => st_ret (Some err)
  | inl p =>
    let* r := sysvicall6 "chown" 3 [c_string p; CInt (u32 uid); CInt (u32 gid)] in
    st_ret (err_of (sr_err r))
  end.

Definition Lchown (path : list Z) (uid gid : Z) : M (option Z) :=
  match BytePtrFromString path with
  | inr err => st_ret (Some err)
  | inl p =>
    let* r := sysvicall6 "lchown" 3 [c_string p; CInt (u32 uid); CInt (u32 gid)] in
    st_ret (err_of (sr_err r))
  end.

Definition Access (path : list Z) (mode : Z) : M (option Z) :=
  match BytePtrFromString path with
  | inr err => st_ret (Some err)
  | inl p =>
    let* r := sysvicall6 "access" 2 [c_string p; CInt mode] in st_ret (err_of (sr_err r))
  end.

Definition Getwd : M (list Z * option Z) :=
  let* r := sysvicall6 "getcwd" 2 [CBuf (replicate 4096 0); CInt 4096] in
  if negb (sr_err r =? 0) then st_ret ([], Some (sr_err r)) else
  st_ret (until_nul (nth 0 (sr_bufs r) []), None).

Definition UtimesNano (path : list Z) (ts : list Timespec) : M (option Z) :=
  match BytePtrFromString path with
  | inr err => st_ret (Some err)
  | inl p =>
    match ts with
    | [t0; t1] =>
      let* r := sysvicall6 "utimes" 2 [c_string p; CBuf (tv_cells (timeval_of t0) ++
                                                        tv_cells (timeval_of t1))] in
      st_ret (err_of (sr_err r))
    | _ => st_ret (Some EINVAL)
    end
  end.

Definition utimensat (dirfd : Z) (path : list Z) (times : option (Timespec * Timespec))
    (flag : Z) : M (option Z) :=
  if negb (dirfd =? _AT_FDCWD) || negb (flag =? 0) then st_ret (Some ENOSYS) else
  match BytePtrFromString path with
  | inr err => st_ret (Some err)
  | inl p =>
    let tvp := match times with
               | Some (t0, t1) => CBuf (tv_cells (timeval_of t0) ++ tv_cells (timeval_of t1))
               | None => CInt 0
               end in
    let* r := sysvicall6 "utimes" 2 [c_string p; tvp] in st_ret (err_of (sr_err r))
  end.

Definition Gethostname : M (list Z * option Z) :=
  let* r := sysvicall6 "gethostname" 2 [CBuf (replicate 256 0); CInt 256] in
  if negb (sr_err r =? 0) then st_ret ([], Some (sr_err r)) else
  st_ret (until_nul (nth 0 (sr_bufs r) []), None).

Definition Getuid : M Z := let* r := rawSysvicall6 "getuid" 0 [] in st_ret (i32 (sr_r1 r)).
Definition Geteuid : M Z := let* r := rawSysvicall6 "geteuid" 0 [] in st_ret (i32 (sr_r1 r)).
Definition Getgid : M Z := let* r := rawSysvicall6 "getgid" 0 [] in st_ret (i32 (sr_r1 r)).
Definition Getegid : M Z := let* r := rawSysvicall6 "getegid" 0 [] in st_ret (i32 (sr_r1 r)).

(** [gids[i] = int(a[i])] faults when the second call reports more groups than
    the first made room for: the outcome is a panic. *)
Definition Getgroups : GoM (osst W) (list Z * option Z) :=
  let! r := go_lift (rawSysvicall6 "getgroups" 2 [CInt 0; CInt 0]) in
  if negb (sr_err r =? 0) then go_ret ([], Some (sr_err r)) else
  if sr_r1 r =? 0 then go_ret ([], None) else
  let n := Z.to_nat (sr_r1 r) in
  let! r2 := go_lift (rawSysvicall6 "getgroups" 2 [CInt (sr_r1 r); CBuf (replicate n 0)]) in
  if negb (sr_err r2 =? 0) then go_ret ([], Some (sr_err r2)) else
  let a := nth 0 (sr_bufs r2) [] in
  if sr_r1 r <? sr_r1 r2 then go_throw "index out of range" else
  go_ret (map i32 (take (Z.to_nat (sr_r1 r2)) a), None).

(** syscall_qnx3.go *)
Definition ClockSettime (clockid : Z) (ts : Timespec) : M (option Z) :=
  let* r := sysvicall6 "clock_settime" 2 [CInt (u32 clockid); CBuf [ts_Sec ts; ts_Nsec ts]] in
  st_ret (err_of (sr_err r)).

Definition IfNametoindex (name : list Z) : M Z :=
  match BytePtrFromString name with
  | inr _ => st_ret 0
  | inl p => let* r := sysvicall6 "if_nametoindex" 1 [c_string p] in st_ret (i32 (sr_r1 r))
  end.

(** The pollfds are passed cell by cell: fd, events, revents. *)
Definition Poll (fds : list (Z * Z * Z)) (timeout : Z) : M (Z * option Z * list Z) :=
  let p := flat_map (fun '(fd, ev, rev) => [fd; ev; rev]) fds in
  let* r := sysvicall6 "poll" 3 [slice_arg p; CInt (Z.of_nat (length fds)); CInt (u32 timeout)] in
  st_ret (i32 (sr_r1 r), err_of (sr_err r), slice_out p (sr_bufs r)).
End wrappers2.

(** ** Strings for C: the conversion loses nothing *)
Lemma existsb_zero s : existsb (Z.eqb 0) s = false <-> 0 ∉ s.
Proof.
  induction s as [|b s IH]; [split; [intros _; apply not_elem_of_nil|done]|].
  cbn [existsb]. rewrite orb_false_iff, IH, not_elem_of_cons, Z.eqb_neq. done.
Qed.

Lemma BytePtrFromString_ok s : 0 ∉ s -> BytePtrFromString s = inl (s ++ [0]).
Proof. intros H. unfold BytePtrFromString, ByteSliceFromString. by rewrite (proj2 (existsb_zero s) H). Qed.

Lemma BytePtrFromString_nul s : 0 ∈ s -> BytePtrFromString s = inr EINVAL.
Proof.
  intros H. unfold BytePtrFromString, ByteSliceFromString.
  destruct (existsb (Z.eqb 0) s) eqn:E; [done|]. by apply existsb_zero in E.
Qed.

Lemma BytePtrFromString_inv s p : BytePtrFromString s = inl p -> (0 ∉ s) /\ c_string p = CStr s.
Proof.
  unfold BytePtrFromString, ByteSliceFromString. destruct (existsb _ _) eqn:E; [done|].
  intros [= <-]. apply existsb_zero in E. split; [done|]. unfold c_string.
  by rewrite (cstr_terminated s []).
Qed.

(** ** The wrappers that only report an error

    What each asks of C, stated independently of its body: the function and the
    arguments, or nothing at all when a path cannot be a C string. *)
Inductive error_op : Type :=
| OpClose (fd : Z) | OpFsync (fd : Z) | OpFchdir (fd : Z) | OpFchmod (fd mode : Z)
| OpFchown (fd uid gid : Z) | OpFtruncate (fd len : Z) | OpDup2 (old new : Z) | OpKill (pid sig : Z)
| OpMkdir (path : list Z) (mode : Z) | OpRmdir (path : list Z) | OpUnlink (path : list Z)
| OpChmod (path : list Z) (mode : Z) | OpChdir (path : list Z)
| OpTruncate (path : list Z) (len : Z) | OpChown (path : list Z) (uid gid : Z)
| OpLchown (path : list Z) (uid gid : Z) | OpAccess (path : list Z) (mode : Z)
| OpRename (from to : list Z) | OpLink (from to : list Z) | OpSymlink (from to : list Z).

Definition run_op {W} `{!Libc W} (o : error_op) : SysM W (option Z) :=
  match o with
  | OpClose fd => Close fd
  | OpFsync fd => Fsync fd
  | OpFchdir fd => Fchdir fd
  | OpFchmod fd mode => Fchmod fd mode
  | OpFchown fd uid gid => Fchown fd uid gid
  | OpFtruncate fd len => Ftruncate fd len
  | OpDup2 old new => Dup2 old new
  | OpKill pid sig => Kill pid sig
  | OpMkdir path mode => Mkdir path mode
  | OpRmdir path => Rmdir path
  | OpUnlink path => Unlink path
  | OpChmod path mode => Chmod path mode
  | OpChdir path => Chdir path
  | OpTruncate path len => Truncate path len
  | OpChown path uid gid => Chown path uid gid
  | OpLchown path uid gid => Lchown path uid gid
  | OpAccess path mode => Access path mode
  | OpRename from to => Rename from to
  | OpLink from to => Link from to
  | OpSymlink from to => Symlink from to
  end.

Definition path_call (fn : string) (paths : list (list Z)) (rest : list carg) : option (string * list carg) :=
  if bool_decide (Forall (fun p => ~ 0 ∈ p) paths) then Some (fn, map CStr paths ++ rest) else None.

Definition one_c_call (fn : string) (args : list carg) : option (string * list carg) := Some (fn, args).

(** The call as the C prototypes document it: integers as 32-bit words, the length of
    ftruncate and truncate an off_t of 32 bits. *)
Definition documented (o : error_op) : option (string * list carg) :=
  match o with
  | OpClose fd => one_c_call "close" [CInt (u32 fd)]
  | OpFsync fd => one_c_call "fsync" [CInt (u32 fd)]
  | OpFchdir fd => one_c_call "fchdir" [CInt (u32 fd)]
  | OpFchmod fd mode => one_c_call "fchmod" [CInt (u32 fd); CInt mode]
  | OpFchown fd uid gid => one_c_call "fchown" [CInt (u32 fd); CInt (u32 uid); CInt (u32 gid)]
  | OpFtruncate fd len => one_c_call "ftruncate" [CInt (u32 fd); CInt (lo32 len)]
  | OpDup2 old new => one_c_call "dup2" [CInt (u32 old); CInt (u32 new)]
  | OpKill pid sig => one_c_call "kill" [CInt (u32 pid); CInt (u32 sig)]
  | OpMkdir path mode => path_call "mkdir" [path] [CInt mode]
  | OpRmdir path => path_call "rmdir" [path] []
  | OpUnlink path => path_call "unlink" [path] []
  | OpChmod path mode => path_call "chmod" [path] [CInt mode]
  | OpChdir path => path_call "chdir" [path] []
  | OpTruncate path len => path_call "truncate" [path] [CInt (lo32 len)]
  | OpChown path uid gid => path_call "chown" [path] [CInt (u32 uid); CInt (u32 gid)]
  | OpLchown path uid gid => path_call "lchown" [path] [CInt (u32 uid); CInt (u32 gid)]
  | OpAccess path mode => path_call "access" [path] [CInt mode]
  | OpRename from to => path_call "rename" [from; to] []
  | OpLink from to => path_call "link" [from; to] []
  | OpSymlink from to => path_call "symlink" [from; to] []
  end.

(** Where the wrappers differ: the truncates hand over the high word of the length as well,
    and a mode of all ones, which path1 takes for the absence of an argument, is lost. *)
Definition passed (o : error_op) (args : list carg) : list carg :=
  match o with
  | OpFtruncate _ len | OpTruncate _ len => args ++ [CInt (hi32 len)]
  | OpMkdir _ mode | OpChmod _ mode => if mode =? no_arg then take 1 args else args
  | _ => args
  end.

Definition op_call (o : error_op) : option (string * list carg) :=
  (fun '(fn, args) => (fn, passed o args)) <$> documented o.

Section contract.
Context {W : Type} `{!Libc W}.

(** The state and result of one C call made through the bridge. *)
Definition bridged (fn : string) (args : list carg) (s : osst W) : option Z * osst W :=
  let '(w2, rp) := libc_call fn args (bridge_world s) in
  (err_of (if os_perrno s then u32 (libc_errno w2) else 0),
   mkOs w2 (os_perrno s) (os_trace s ++ [EvEnterSyscall; EvCall fn args; EvExitSyscall])).

Lemma one_call_run fn n args s :
  (let* r := sysvicall6 fn n args in st_ret (err_of (sr_err r))) s =
    bridged fn (take (Z.to_nat (Z.min n 6)) args) s.
Proof.
  unfold bridged. pose proof (sysvicall6_run fn n args s) as H. cbv zeta in H.
  unfold st_bind, st_ret, sysvicall6. destruct (libc_call _ _ _) as [w2 rp]. by rewrite H.
Qed.

Lemma path_cases (path : list Z) (k : list Z -> SysM W (option Z)) s (P : option Z * osst W -> Prop) :
  (0 ∉ path -> P (k (path ++ [0]) s)) -> (0 ∈ path -> P (Some EINVAL, s)) ->
  P (match BytePtrFromString path with inr err => st_ret (Some err) | inl p => k p end s).
Proof.
  intros H1 H2. destruct (decide (0 ∈ path)) as [Hin|Hn].
  - rewrite BytePtrFromString_nul by done. by apply H2.
  - rewrite BytePtrFromString_ok by done. by apply H1.
Qed.

Lemma c_string_app path : 0 ∉ path -> c_string (path ++ [0]) = CStr path.
Proof. intros H. unfold c_string. by rewrite (cstr_terminated path []). Qed.

Lemma path_call_one fn path rest :
  path_call fn [path] rest = if decide (0 ∈ path) then None else Some (fn, CStr path :: rest).
Proof.
  unfold path_call. case_bool_decide as H; destruct (decide (0 ∈ path)) as [Hd|Hd]; try done.
  - apply Forall_cons_iff in H as [H _]. done.
  - exfalso. apply H. by repeat constructor.
Qed.

Lemma path_call_two fn p1 p2 :
  path_call fn [p1; p2] [] =
    if decide (0 ∈ p1) then None else if decide (0 ∈ p2) then None else Some (fn, [CStr p1; CStr p2]).
Proof.
  unfold path_call. case_bool_decide as H;
    destruct (decide (0 ∈ p1)) as [Hd|Hd], (decide (0 ∈ p2)) as [He|He]; try done.
  - apply Forall_cons_iff in H as [H _]. done.
  - apply Forall_cons_iff in H as [H _]. done.
  - apply Forall_cons_iff in H as [_ H]. apply Forall_cons_iff in H as [H _]. done.
  - exfalso. apply H. by repeat constructor.
Qed.

(** The contract, for any wrapper of the family. *)
Definition meets (call : option (string * list carg)) (s : osst W) (out : option Z * osst W) : Prop :=
  match call with
  | None => out = (Some EINVAL, s)
  | Some (fn, args) => out = bridged fn args s
  end.

Lemma meets_path fn path n rest s :
  Z.to_nat (Z.min n 6) = S (length rest) ->
  meets (path_call fn [path] rest) s
    (match BytePtrFromString path with
     | inr err => st_ret (Some err)
     | inl p => let* r := sysvicall6 fn n (c_string p :: rest) in st_ret (err_of (sr_err r))
     end s).
Proof.
  intros Hn. rewrite path_call_one. apply path_cases; intros Hp; destruct (decide (0 ∈ path)); try done.
  cbn [meets]. rewrite one_call_run, c_string_app, Hn by done. cbn. by rewrite firstn_all.
Qed.

Lemma meets_path1 fn path arg s :
  meets (path_call fn [path] (if arg =? no_arg then [] else [CInt arg])) s (path1 fn path arg s).
Proof.
  unfold path1. destruct (arg =? no_arg) eqn:E.
  - rewrite path_call_one. apply path_cases; intros Hp; destruct (decide (0 ∈ path)); try done.
    cbn [meets]. by rewrite one_call_run, c_string_app.
  - by apply (meets_path fn path 2 [CInt arg]).
Qed.

Lemma meets_paths fn from to s :
  meets (path_call fn [from; to] []) s
    (match BytePtrFromString from with
     | inr err => st_ret (Some err)
     | inl f => match BytePtrFromString to with
                | inr err => st_ret (Some err)
                | inl t => let* r := sysvicall6 fn 2 [c_string f; c_string t] in st_ret (err_of (sr_err r))
                end
     end s).
Proof.
  rewrite path_call_two. apply path_cases; intros Hp; destruct (decide (0 ∈ from)); try done.
  apply path_cases; intros Hq; destruct (decide (0 ∈ to)); try done.
  cbn [meets]. by rewrite one_call_run, !c_string_app.
Qed.

Lemma path_call_map fn path rest rest' (f : list carg -> list carg) :
  f (CStr path :: rest) = CStr path :: rest' ->
  (fun '(fn, args) => (fn, f args)) <$> path_call fn [path] rest = path_call fn [path] rest'.
Proof. intros E. rewrite !path_call_one. destruct (decide (0 ∈ path)); cbn; [done|]. by rewrite E. Qed.

Lemma path_call_same (c : option (string * list carg)) : (fun '(fn, args) => (fn, args)) <$> c = c.
Proof. by destruct c as [[]|]. Qed.

Lemma run_op_meets o s : meets (op_call o) s (run_op o s).
Proof.
  unfold op_call. destruct o; cbn [documented run_op passed]; try (cbn [meets one_c_call fmap option_fmap option_map]; apply one_call_run);
    rewrite ?path_call_same; try apply meets_paths; try exact (meets_path1 _ _ no_arg s); try by apply meets_path.
  - rewrite (path_call_map _ _ _ (if mode =? no_arg then [] else [CInt mode])); [apply meets_path1|by destruct (_ =? _)].
  - rewrite (path_call_map _ _ _ (if mode =? no_arg then [] else [CInt mode])); [apply meets_path1|by destruct (_ =? _)].
  - rewrite (path_call_map _ _ _ [CInt (lo32 len); CInt (hi32 len)]); [by apply meets_path|done].
Qed.

(** C35: every error-only wrapper does one of two things.  Given a path with a NUL byte it
    reports EINVAL and the C library is not called; otherwise it makes exactly one C call,
    bracketed by the scheduler's enter and exit, and its error is the errno that call left
    (nil on an M whose errno pointer is not known yet).
    The arguments are those of the C prototype, integers modulo 2^32 and paths byte for
    byte, with two exceptions: ftruncate and truncate are also handed the high word of the
    length, and mkdir and chmod lose a mode of 2^32 - 1. *)
Theorem error_wrappers_contract o s :
  match documented o with
  | None => run_op o s = (Some EINVAL, s)
  | Some (fn, args) =>
    exists w2 rp,
      libc_call fn (passed o args) (bridge_world s) = (w2, rp) /\
      run_op o s =
        (err_of (if os_perrno s then u32 (libc_errno w2) else 0),
         mkOs w2 (os_perrno s)
           (os_trace s ++ [EvEnterSyscall; EvCall fn (passed o args); EvExitSyscall]))
  end.
Proof.
  pose proof (run_op_meets o s) as H. unfold meets, op_call in H. destruct (documented o) as [[fn args]|]; [|done].
  cbn in H. rewrite H. unfold bridged. destruct (libc_call _ _ _) as [w2 rp]. by exists w2, rp.
Qed.

(** POSIX: a call that reports failure (-1) leaves an errno. *)
Definition reports_errno : Prop :=
  forall fn args w w' rp,
    libc_errno w = 0 -> libc_call fn args w = (w', rp) -> u32 (rp_r1 rp) = 2 ^ 32 - 1 ->
    u32 (libc_errno w') <> 0.

(** No failure is lost: with the thread's errno cell known to the bridge, a
    wrapper that returns nil made a C call that did not return -1. *)
Theorem nil_error_means_success `{!LibcErrno W} o s :
  reports_errno -> os_perrno s = true -> fst (run_op o s) = None ->
  exists fn args w2 rp,
    op_call o = Some (fn, args) /\ libc_call fn args (bridge_world s) = (w2, rp) /\
    u32 (rp_r1 rp) <> 2 ^ 32 - 1.
Proof.
  intros Hr Hp Hn. pose proof (run_op_meets o s) as H. unfold meets in H.
  destruct (op_call o) as [[fn args]|]; [|by rewrite H in Hn].
  rewrite H in Hn. unfold bridged in Hn. destruct (libc_call fn args (bridge_world s)) as [w2 rp] eqn:E.
  exists fn, args, w2, rp. split; [done|]. split; [done|]. intros Hm. cbn in Hn. rewrite Hp in Hn.
  unfold bridge_world in E. rewrite Hp in E.
  pose proof (Hr fn args _ w2 rp (libc_errno_set 0 (os_w s)) E Hm) as Hne.
  unfold err_of in Hn. by rewrite (proj2 (Z.eqb_neq _ 0) Hne) in Hn.
Qed.

(** Seek hands C the descriptor and the two halves of the offset; the
    three parameters of lseek, whose off_t is 32 bits, are the first three words.
    So for an offset below 2^31 C always sees whence 0 (SEEK_SET), whatever
    whence the caller asked for, and the answer depends on whence only through a
    fourth word that lseek does not have. *)
Theorem Seek_loses_whence fd offset whence s :
  0 <= offset < 2 ^ 31 ->
  exists w2 rp,
    libc_call "lseek" [CInt (u32 fd); CInt offset; CInt 0; CInt (u32 whence)] (bridge_world s) =
      (w2, rp) /\
    os_trace (snd (Seek fd offset whence s)) =
      os_trace s ++ [EvEnterSyscall;
                     EvCall "lseek" [CInt (u32 fd); CInt offset; CInt 0; CInt (u32 whence)];
                     EvExitSyscall].
Proof.
  intros Ho. unfold Seek. unfold st_bind.
  assert (lo32 offset = offset) as -> by (apply wrapu_small; golia).
  assert (hi32 offset = 0) as ->.
  { unfold hi32. rewrite Z.shiftr_div_pow2, Z.div_small by lia. done. }
  pose proof (sysvicall6_run "lseek" 4 [CInt (u32 fd); CInt offset; CInt 0; CInt (u32 whence)] s) as H.
  cbv zeta in H. change (take (Z.to_nat (Z.min 4 6)) _) with
    [CInt (u32 fd); CInt offset; CInt 0; CInt (u32 whence)] in H.
  unfold sysvicall6. destruct (libc_call _ _ _) as [w2 rp]. rewrite H. exists w2, rp.
  split; [done|]. cbn. by destruct (negb _).
Qed.
End contract.

(** ** Error texts *)

(** Reading a decimal back: the specification of Itoa. *)
Fixpoint dec_acc (acc : Z) (s : string) : option Z :=
  match s with
  | EmptyString => Some acc
  | String c s =>
    let d := Z.of_nat (nat_of_ascii c) - 48 in
    if (0 <=? d) && (d <=? 9) then dec_acc (acc * 10 + d) s else None
  end.
Definition dec_value (s : string) : option Z :=
  match s with
  | EmptyString => None
  | String c s' => if Ascii.eqb c "-"%char then option_map Z.opp (dec_acc 0 s') else dec_acc 0 s
  end.

Lemma digit_value d : 0 <= d <= 9 -> Z.of_nat (nat_of_ascii (digit d)) - 48 = d.
Proof. intros H. unfold digit. rewrite nat_ascii_embedding by lia. lia. Qed.

Lemma dec_acc_app s1 : forall acc s2,
  dec_acc acc (s1 ++ s2) = match dec_acc acc s1 with Some v => dec_acc v s2 | None => None end.
Proof.
  induction s1 as [|c s1 IH]; intros acc s2; [done|].
  change (String c s1 ++ s2)%string with (String c (s1 ++ s2)). cbn [dec_acc].
  destruct (_ && _); [apply IH|done].
Qed.

Lemma dec_acc_digit acc d : 0 <= d <= 9 -> dec_acc acc (String (digit d) EmptyString) = Some (acc * 10 + d).
Proof.
  intros H. cbn [dec_acc]. rewrite digit_value by done.
  by rewrite (proj2 (Z.leb_le 0 d)), (proj2 (Z.leb_le d 9)) by lia.
Qed.

Lemma itoa_pos_value fuel : forall n, 0 <= n < 10 ^ Z.of_nat fuel -> (0 < fuel)%nat ->
  dec_acc 0 (itoa_pos fuel n) = Some n.
Proof.
  induction fuel as [|fuel IH]; intros n Hn Hf; [lia|]. cbn [itoa_pos].
  destruct (Z.ltb_spec n 10) as [H|H]; [rewrite dec_acc_digit by lia; f_equal; lia|].
  pose proof (Z.div_mod n 10 ltac:(lia)). pose proof (Z.mod_pos_bound n 10 ltac:(lia)).
  rewrite Nat2Z.inj_succ, Z.pow_succ_r in Hn by lia.
  rewrite dec_acc_app, IH.
  - rewrite dec_acc_digit by lia. f_equal. lia.
  - split; [lia|]. apply Z.div_lt_upper_bound; lia.
  - destruct fuel; [cbn in Hn; lia|lia].
Qed.

Lemma itoa_pos_head fuel n : 0 <= n -> (0 < fuel)%nat ->
  exists c s, itoa_pos fuel n = String c s /\ c <> "-"%char.
Proof.
  revert n. induction fuel as [|fuel IH]; intros n Hn Hf; [lia|]. cbn [itoa_pos].
  assert (forall d, 0 <= d <= 9 -> digit d <> "-"%char) as Hd.
  { intros d Hd E. pose proof (digit_value d Hd) as H. rewrite E in H. vm_compute in H. lia. }
  destruct (Z.ltb_spec n 10) as [H|H]; [do 2 eexists; split; [done|apply Hd; lia]|].
  destruct fuel as [|fuel].
  - do 2 eexists. split; [reflexivity|]. apply Hd. pose proof (Z.mod_pos_bound n 10 ltac:(lia)). lia.
  - destruct (IH (n / 10)) as (c & s & E & Hc); [apply Z.div_pos; lia|lia|].
    rewrite E. by do 2 eexists.
Qed.

Lemma Itoa_value n : Z.abs n < 10 ^ 20 -> dec_value (Itoa n) = Some n.
Proof.
  intros Hn. unfold Itoa. destruct (Z.ltb_spec n 0) as [H|H].
  - assert (dec_acc 0 (itoa_pos 20 (- n)) = Some (- n)) as E by (apply itoa_pos_value; lia).
    change ("-" ++ itoa_pos 20 (- n))%string with (String "-"%char (itoa_pos 20 (- n))).
    unfold dec_value. rewrite Ascii.eqb_refl, E. cbn. f_equal. lia.
  - destruct (itoa_pos_head 20 n H ltac:(lia)) as (c & s & E & Hc). unfold dec_value. rewrite E.
    rewrite (proj2 (Ascii.eqb_neq c _) Hc). rewrite <- E. apply itoa_pos_value; lia.
Qed.

(** An Errno's text is its entry of the table when there is one, and
    otherwise [errno] with the number in decimal, from which the number can be read
    back: so the text is never empty and distinct errnos outside the table have
    distinct texts. *)
Theorem Errno_Error_text e :
  in_u 32 e ->
  (forall msg, (e, msg) ∈ errors -> Errno_Error e = msg) /\
  (~ (exists msg, (e, msg) ∈ errors) ->
     exists t, Errno_Error e = ("errno " ++ t)%string /\ dec_value t = Some (i32 e)).
Proof.
  intros He. split.
  - intros msg Hin. unfold errors in Hin.
    repeat (apply elem_of_cons in Hin as [Hin|Hin]; [injection Hin as -> ->; reflexivity|]).
    by apply not_elem_of_nil in Hin.
  - intros Hno. exists (Itoa (i32 e)). split.
    + unfold Errno_Error. destruct (_ && _) eqn:E; [|done].
      assert (errors_at e = EmptyString) as ->; [|done].
      unfold errors_at. destruct (List.find _ errors) as [[k msg]|] eqn:Ef; [|done].
      apply find_some in Ef as [Hin Hk]. cbn in Hk. apply Z.eqb_eq in Hk. subst k.
      exfalso. apply Hno. exists msg. by apply list_elem_of_In.
    + apply Itoa_value. pose proof (wraps_range 32 ltac:(lia) e). golia.
Qed.

(** ** Concrete runs *)
Lemma error_wrappers_contract_witness :
  run_op (OpRename [97] [98; 0; 99]) (Script.start []) = (Some EINVAL, Script.start []).
Proof. exact (error_wrappers_contract (OpRename [97] [98; 0; 99]) (Script.start [])). Defined.

(** A C library whose every call fails with EIO (5). *)
Module Failing.
#[local] Instance libc : Libc Z := {|
  libc_call _ _ _ := (5, mkReply (-1) 0 []);
  libc_errno e := e;
  libc_set_errno e _ := e;
|}.
#[local] Instance libc_errno_ok : LibcErrno Z.
Proof. split. reflexivity. Qed.

Lemma reports : reports_errno (W := Z).
Proof. intros fn args w w' rp _ [= <- <-] _. vm_compute. discriminate. Qed.
End Failing.

(** A C library whose calls succeed. *)
Module Working.
#[local] Instance libc : Libc Z := {|
  libc_call _ _ e := (e, mkReply 0 0 []);
  libc_errno e := e;
  libc_set_errno e _ := e;
|}.
#[local] Instance libc_errno_ok : LibcErrno Z.
Proof. split. reflexivity. Qed.

Lemma nil_error_means_success_witness :
  exists fn args w2 rp,
    op_call (OpMkdir [47; 97] 511) = Some (fn, args) /\
    libc_call fn args (bridge_world (mkOs 0 true [])) = (w2, rp) /\
    u32 (rp_r1 rp) <> 2 ^ 32 - 1.
Proof.
  apply (nil_error_means_success (OpMkdir [47; 97] 511) (mkOs 0 true [])).
  - intros fn args w w' rp _ [= <- <-] H. vm_compute in H. discriminate.
  - reflexivity.
  - reflexivity.
Defined.
End Working.

Lemma Seek_loses_whence_witness :
  exists w2 rp,
    libc_call "lseek" [CInt 3; CInt 100; CInt 0; CInt 2] (bridge_world (Script.start [])) = (w2, rp) /\
    os_trace (snd (Seek 3 100 2 (Script.start []))) =
      [EvEnterSyscall; EvCall "lseek" [CInt 3; CInt 100; CInt 0; CInt 2]; EvExitSyscall].
Proof. exact (Seek_loses_whence 3 100 2 (Script.start []) ltac:(lia)). Defined.

Lemma Errno_Error_text_witness :
  exists t, Errno_Error 5 = ("errno " ++ t)%string /\ dec_value t = Some 5.
Proof.
  apply (Errno_Error_text 5 ltac:(golia)). intros (msg & H). unfold errors in H.
  repeat (apply elem_of_cons in H as [H|H]; [discriminate|]). by apply not_elem_of_nil in H.
Defined.
