(* ===== verification/SyscallSock.v ===== *)
(** * SyscallSock: sockets and socket addresses of package syscall

    The socket section of syscall/syscall_qnx.go and the address conversions of
    syscall/syscall_qnx_arm.go.  A raw sockaddr is its bytes in memory; QNX's begin
    with the length byte and the family. *)
From Stdlib Require Import ZArith Lia List Bool String.
From stdpp Require Import base list gmap strings numbers tactics option.
From S2P Require Import Prelude Libc Syscall.

(** ** zerrors_qnx_arm.go, ztypes_qnx_arm.go *)
Definition AF_UNIX : Z := 1.
Definition AF_INET : Z := 2.
Definition AF_INET6 : Z := 24.
Definition SizeofSockaddrInet4 : Z := 16.
Definition SizeofSockaddrInet6 : Z := 28.
Definition SizeofSockaddrAny : Z := 108.
Definition RawSockaddrUnix_path : nat := 104.
(** unsafe.Sizeof(RawSockaddrAny{}) *)
Definition sizeof_RawSockaddrAny : nat := 112.

(** The raw structures, field by field; each [raw] of a Sockaddr keeps what the
    previous conversion left in it. *)
Record RawSockaddrInet4 : Type := mkRaw4 {
  r4_Len : Z; r4_Family : Z; r4_Port : list Z; r4_Addr : list Z; r4_Zero : list Z }.
Record RawSockaddrInet6 : Type := mkRaw6 {
  r6_Len : Z; r6_Family : Z; r6_Port : list Z; r6_Flowinfo : list Z; r6_Addr : list Z; r6_Scope : list Z }.
Record RawSockaddrUnix : Type := mkRawU { ru_Len : Z; ru_Family : Z; ru_Path : list Z }.

Definition raw4_bytes (r : RawSockaddrInet4) : list Z :=
  [r4_Len r; r4_Family r] ++ r4_Port r ++ r4_Addr r ++ r4_Zero r.
Definition raw6_bytes (r : RawSockaddrInet6) : list Z :=
  [r6_Len r; r6_Family r] ++ r6_Port r ++ r6_Flowinfo r ++ r6_Addr r ++ r6_Scope r.
Definition rawU_bytes (r : RawSockaddrUnix) : list Z := [ru_Len r; ru_Family r] ++ ru_Path r.

(** The portable addresses. *)
Inductive Sockaddr : Type :=
| SockaddrInet4 (Port : Z) (Addr : list Z)
| SockaddrInet6 (Port : Z) (ZoneId : Z) (Addr : list Z)
| SockaddrUnix (Name : list Z).

#[export] Instance Sockaddr_eq_dec : EqDecision Sockaddr.
Proof. solve_decision. Defined.

(** ** Encoding: the raw structure and the length, or an errno *)
Definition port_bytes (port : Z) : list Z := [u8 (Z.shiftr port 8); u8 port].

Definition sockaddr_inet4 (port : Z) (addr : list Z) (raw : RawSockaddrInet4) :
    (RawSockaddrInet4 * Z) + Z :=
  if (port <? 0) || (65535 <? port) then inr EINVAL else
  inl (mkRaw4 SizeofSockaddrInet4 AF_INET (port_bytes port) addr (r4_Zero raw), SizeofSockaddrInet4).

Definition sockaddr_inet6 (port zone : Z) (addr : list Z) (raw : RawSockaddrInet6) :
    (RawSockaddrInet6 * Z) + Z :=
  if (port <? 0) || (65535 <? port) then inr EINVAL else
  inl (mkRaw6 SizeofSockaddrInet6 AF_INET6 (port_bytes port) (r6_Flowinfo raw) addr (le_bytes 4 zone),
       SizeofSockaddrInet6).

Definition sockaddr_unix (name : list Z) (raw : RawSockaddrUnix) : (RawSockaddrUnix * Z) + Z :=
  let n := length name in
  if (RawSockaddrUnix_path <=? n)%nat || (n =? 0)%nat then inr EINVAL else
  let len := u8 (3 + Z.of_nat n) in
  inl (mkRawU len AF_UNIX (name ++ drop n (ru_Path raw)), len).

(** ** Decoding *)
Definition any_port (b : list Z) : Z := nth 2 b 0 * 256 + nth 3 b 0.

Definition anyToSockaddr (b : list Z) : Sockaddr + Z :=
  let family := nth 1 b 0 in
  if family =? AF_UNIX then inl (SockaddrUnix (cstr (take RawSockaddrUnix_path (drop 2 b))))
  else if family =? AF_INET then inl (SockaddrInet4 (any_port b) (take 4 (drop 4 b)))
  else if family =? AF_INET6
  then inl (SockaddrInet6 (any_port b) (le_value (take 4 (drop 24 b))) (take 16 (drop 8 b)))
  else inr EAFNOSUPPORT.

(** ** Sockets *)
Section sockets.
Context {W : Type} `{!Libc W}.

Abbreviation M := (SysM W).

Definition socket (domain typ proto : Z) : M (Z * option Z) :=
  let* r := rawSysvicall6 "socket" 3 [CInt (u32 domain); CInt (u32 typ); CInt (u32 proto)] in
  if negb (sr_err r =? 0) then st_ret (-1, Some (sr_err r)) else st_ret (i32 (sr_r1 r), None).

Definition socketpair (domain typ proto : Z) (fd : list Z) : M (option Z * list Z) :=
  let* r := rawSysvicall6 "socketpair" 4 [CInt (u32 domain); CInt (u32 typ); CInt (u32 proto); CBuf fd] in
  st_ret (err_of (sr_err r), nth 0 (sr_bufs r) []).

Definition bind (fd : Z) (sa : list Z) (salen : Z) : M (option Z) :=
  let* r := sysvicall6 "bind" 3 [CInt (u32 fd); CBuf sa; CInt salen] in st_ret (err_of (sr_err r)).

Definition connect (fd : Z) (sa : list Z) (salen : Z) : M (option Z) :=
  let* r := sysvicall6 "connect" 3 [CInt (u32 fd); CBuf sa; CInt salen] in st_ret (err_of (sr_err r)).

Definition Listen (fd backlog : Z) : M (option Z) :=
  let* r := sysvicall6 "listen" 2 [CInt (u32 fd); CInt (u32 backlog)] in st_ret (err_of (sr_err r)).

(** [val] and [vallen] are read back. *)
Definition getsockopt (fd level opt : Z) (val vallen : list Z) : M (option Z * list (list Z)) :=
  let* r := sysvicall6 "getsockopt" 5 [CInt (u32 fd); CInt (u32 level); CInt (u32 opt);
                                       CBuf val; CBuf vallen] in
  st_ret (err_of (sr_err r), sr_bufs r).

Definition setsockopt (fd level opt : Z) (val : list Z) (vallen : Z) : M (option Z) :=
  let* r := sysvicall6 "setsockopt" 5 [CInt (u32 fd); CInt (u32 level); CInt (u32 opt);
                                       CBuf val; CInt vallen] in
  st_ret (err_of (sr_err r)).

Definition getpeername (fd : Z) (rsa addrlen : list Z) : M (option Z * list (list Z)) :=
  let* r := sysvicall6 "getpeername" 3 [CInt (u32 fd); CBuf rsa; CBuf addrlen] in
  st_ret (err_of (sr_err r), sr_bufs r).

Definition getsockname (fd : Z) (rsa addrlen : list Z) : M (option Z * list (list Z)) :=
  let* r := sysvicall6 "getsockname" 3 [CInt (u32 fd); CBuf rsa; CBuf addrlen] in
  st_ret (err_of (sr_err r), sr_bufs r).

Definition rsa0 : list Z := replicate sizeof_RawSockaddrAny 0.

Definition Getsockname (fd : Z) : M (Sockaddr + Z) :=
  let* r := getsockname fd rsa0 [SizeofSockaddrAny] in
  match fst r with
  | Some err => st_ret (inr err)
  | None => st_ret (anyToSockaddr (nth 0 (snd r) []))
  end.

(** [from] and [fromlen] nil or memory. *)
Definition opt_buf (o : option (list Z)) : carg := match o with Some l => CBuf l | None => CNull end.

Definition recvfrom (fd : Z) (p : list Z) (flags : Z) (from fromlen : option (list Z)) :
    M (Z * option Z * list (list Z)) :=
  let* r := sysvicall6 "recvfrom" 6 [CInt (u32 fd); slice_arg p; CInt (Z.of_nat (length p));
                                     CInt (u32 flags); opt_buf from; opt_buf fromlen] in
  st_ret (i32 (sr_r1 r), err_of (sr_err r), sr_bufs r).

Definition sendto (fd : Z) (p : list Z) (flags : Z) (to : list Z) (tolen : Z) : M (option Z) :=
  let* r := sysvicall6 "sendto" 6 [CInt (u32 fd); slice_arg p; CInt (Z.of_nat (length p));
                                   CInt (u32 flags); CBuf to; CInt tolen] in
  st_ret (err_of (sr_err r)).

(** nfd, sa and err. *)
Definition Accept (fd : Z) : M (Z * option Sockaddr * option Z) :=
  let* r := sysvicall6 "accept" 3 [CInt (u32 fd); CBuf rsa0; CBuf [SizeofSockaddrAny]] in
  if negb (sr_err r =? 0) then st_ret (-1, None, Some (sr_err r)) else
  let nfd := i32 (sr_r1 r) in
  match anyToSockaddr (nth 0 (sr_bufs r) []) with
  | inl sa => st_ret (nfd, Some sa, None)
  | inr err => let* _ := Close nfd in st_ret (-1, None, Some err)
  end.

Definition Shutdown (fd how : Z) : M (option Z) :=
  let* r := sysvicall6 "shutdown" 2 [CInt (u32 fd); CInt (u32 how)] in st_ret (err_of (sr_err r)).
End sockets.

(** ** Ports travel in network order *)
Lemma port_round port : 0 <= port <= 65535 ->
  u8 (Z.shiftr port 8) * 256 + u8 port = port /\ is_byte (u8 (Z.shiftr port 8)) /\ is_byte (u8 port).
Proof.
  intros H. unfold wrapu. rewrite Z.shiftr_div_pow2 by lia. change (2 ^ 8) with 256.
  pose proof (Z.div_mod port 256 ltac:(lia)). pose proof (Z.mod_pos_bound port 256 ltac:(lia)).
  pose proof (Z.div_lt_upper_bound port 256 256 ltac:(lia) ltac:(lia)).
  pose proof (Z.div_pos port 256 ltac:(lia) ltac:(lia)).
  rewrite (Z.mod_small (port / 256)) by lia. unfold is_byte. lia.
Qed.

(** What an address occupies once the kernel has copied [len] bytes of it into a
    caller's buffer that held [rest] behind them. *)
Definition received (bytes rest : list Z) (len : Z) : list Z := take (Z.to_nat len) bytes ++ rest.

Lemma take_app_exact {A} (l1 l2 : list A) n : length l1 = n -> take n (l1 ++ l2) = l1.
Proof. intros <-. apply take_app_length. Qed.

Lemma drop_app_exact {A} (l1 l2 : list A) n : length l1 = n -> drop n (l1 ++ l2) = l2.
Proof. intros <-. apply drop_app_length. Qed.

Lemma inet4_roundtrip port addr :
  let sa := SockaddrInet4 port addr in
  length addr = 4%nat -> forall raw, length (r4_Zero raw) = 8%nat ->
  match sockaddr_inet4 port addr raw with
  | inl (r, len) => 0 <= port <= 65535 /\ length (raw4_bytes r) = Z.to_nat len /\
      forall rest, anyToSockaddr (received (raw4_bytes r) rest len) = inl sa
  | inr e => e = EINVAL /\ ~ 0 <= port <= 65535
  end.
Proof.
  cbv zeta.
  intros Ha raw Hz. unfold sockaddr_inet4.
  destruct (Z.ltb_spec port 0), (Z.ltb_spec 65535 port); cbn [orb]; try (split; [done|lia]).
  destruct (port_round port) as (Hp & _ & _); [lia|]. split; [lia|].
  destruct addr as [|a0 [|a1 [|a2 [|a3 [|]]]]]; try discriminate.
  destruct (r4_Zero raw) as [|z0 [|z1 [|z2 [|z3 [|z4 [|z5 [|z6 [|z7 [|]]]]]]]]] eqn:Ez; try discriminate.
  split; [done|]. intros rest. unfold received. rewrite firstn_all2 by done.
  unfold anyToSockaddr, any_port, raw4_bytes. cbn -[wrapu Z.mul Z.add Z.shiftr].
  by rewrite Hp.
Qed.

Lemma inet6_roundtrip port zone addr :
  let sa := SockaddrInet6 port zone addr in
  length addr = 16%nat -> in_u 32 zone -> forall raw, length (r6_Flowinfo raw) = 4%nat ->
  match sockaddr_inet6 port zone addr raw with
  | inl (r, len) => 0 <= port <= 65535 /\ length (raw6_bytes r) = Z.to_nat len /\
      forall rest, anyToSockaddr (received (raw6_bytes r) rest len) = inl sa
  | inr e => e = EINVAL /\ ~ 0 <= port <= 65535
  end.
Proof.
  cbv zeta.
  intros Ha Hz raw Hf. unfold sockaddr_inet6.
  destruct (Z.ltb_spec port 0), (Z.ltb_spec 65535 port); cbn [orb]; try (split; [done|lia]).
  destruct (port_round port) as (Hp & _ & _); [lia|]. split; [lia|].
  destruct (r6_Flowinfo raw) as [|f0 [|f1 [|f2 [|f3 [|]]]]] eqn:Ef; try discriminate.
  assert (length (le_bytes 4 zone) = 4%nat) as Hl by apply length_le_bytes.
  assert (le_value (le_bytes 4 zone) = zone) as Hv.
  { rewrite le_value_bytes. apply Z.mod_small. exact Hz. }
  set (zb := le_bytes 4 zone) in *. clearbody zb.
  assert (forall rest, received (raw6_bytes (mkRaw6 SizeofSockaddrInet6 AF_INET6 (port_bytes port)
            [f0; f1; f2; f3] addr zb)) rest SizeofSockaddrInet6 =
          ([SizeofSockaddrInet6; AF_INET6; u8 (Z.shiftr port 8); u8 port; f0; f1; f2; f3] ++ addr) ++
            (zb ++ rest)) as Hr.
  { intros rest. unfold received, raw6_bytes. cbn [r6_Len r6_Family r6_Port r6_Flowinfo r6_Addr r6_Scope].
    change (Z.to_nat SizeofSockaddrInet6) with 28%nat.
    rewrite firstn_all2 by (unfold port_bytes; rewrite !length_app, Ha, Hl; cbn; lia).
    unfold port_bytes. cbn. by rewrite <- !app_assoc. }
  split; [unfold raw6_bytes, port_bytes; cbn -[wrapu]; rewrite !length_app, Ha, Hl; done|].
  intros rest. rewrite Hr. unfold anyToSockaddr, any_port. cbn -[take drop wrapu Z.mul Z.add Z.shiftr le_value].
  rewrite Hp. f_equal. f_equal.
  + change (?x :: ?y :: ?a :: ?b :: ?c :: ?d :: ?e :: ?f :: addr ++ ?l) with ([x; y; a; b; c; d; e; f] ++ addr ++ l).
    rewrite app_assoc, (drop_app_exact _ (zb ++ rest) 24) by (rewrite length_app; cbn; lia).
    by rewrite take_app_exact.
  + change (?x :: ?y :: ?a :: ?b :: ?c :: ?d :: ?e :: ?f :: addr ++ ?l) with ([x; y; a; b; c; d; e; f] ++ addr ++ l).
    rewrite (drop_app_exact _ _ 8) by done. by rewrite take_app_exact.
Qed.

(** What comes back for a path: its bytes, the one the raw structure holds behind them and
    what the buffer held, up to the first NUL. *)
Definition unix_back (name : list Z) (raw : RawSockaddrUnix) (rest : list Z) : list Z :=
  cstr (take RawSockaddrUnix_path (name ++ nth (length name) (ru_Path raw) 0 :: rest)).

Lemma unix_roundtrip name :
  forall raw, length (ru_Path raw) = RawSockaddrUnix_path ->
  match sockaddr_unix name raw with
  | inl (r, len) => (0 < length name < RawSockaddrUnix_path)%nat /\
      (forall rest, anyToSockaddr (received (rawU_bytes r) rest len) = inl (SockaddrUnix (unix_back name raw rest))) /\
      (0 ∉ name -> nth (length name) (ru_Path raw) 0 = 0 -> forall rest, unix_back name raw rest = name)
  | inr e => e = EINVAL /\ ~ (0 < length name < RawSockaddrUnix_path)%nat
  end.
Proof.
  intros raw Hlen. unfold sockaddr_unix.
  destruct (Nat.leb_spec RawSockaddrUnix_path (length name)) as [H|H]; [split; [done|lia]|].
  destruct (Nat.eqb_spec (length name) 0) as [H0|H0]; [split; [done|lia]|]. cbn [orb].
  split; [lia|]. split.
  2:{ intros Hnul Hnext rest. unfold unix_back. rewrite Hnext, take_app_ge by lia.
      destruct (RawSockaddrUnix_path - length name)%nat as [|k] eqn:Ek; [lia|]. by apply cstr_terminated. }
  intros rest. unfold unix_back. set (b := nth (length name) (ru_Path raw) 0).
  assert (u8 (3 + Z.of_nat (length name)) = 3 + Z.of_nat (length name)) as -> .
  { apply wrapu_small. unfold RawSockaddrUnix_path in H. golia. }
  assert (drop (length name) (ru_Path raw) = b :: drop (S (length name)) (ru_Path raw)) as Hd.
  { destruct (lookup_lt_is_Some_2 (ru_Path raw) (length name)) as [c Hc]; [lia|].
    rewrite (drop_S _ _ _ Hc). f_equal. unfold b. by rewrite nth_lookup, Hc. }
  set (tl := drop (S (length name)) (ru_Path raw)) in *. clearbody tl b.
  unfold received, rawU_bytes. cbn [ru_Len ru_Family ru_Path]. rewrite Hd.
  replace ([3 + Z.of_nat (length name); AF_UNIX] ++ name ++ b :: tl)
    with ((3 + Z.of_nat (length name) :: AF_UNIX :: name ++ [b]) ++ tl)
    by (cbn [app]; by rewrite <- app_assoc).
  rewrite take_app_exact by (cbn [length]; rewrite length_app; cbn [length]; lia).
  unfold anyToSockaddr. cbn [app nth]. rewrite Z.eqb_refl. cbn [drop].
  by rewrite drop_0, <- app_assoc.
Qed.

(** C38: an address survives the trip to the kernel and back: for a port in 0..65535 the
    bytes handed over, copied into a buffer with anything behind them, decode to the same
    address, and other ports are refused with EINVAL.  A unix path that is empty or does
    not fit with its NUL is refused with EINVAL; any other comes back up to its first NUL,
    and, since the raw structure is reused without writing a NUL behind the path, with
    what follows there: so it comes back unchanged when it has no NUL and the structure
    has one behind it, as a fresh structure has. *)
Theorem sockaddr_roundtrip sa :
  match sa with
  | SockaddrInet4 port addr =>
    length addr = 4%nat -> forall raw, length (r4_Zero raw) = 8%nat ->
    match sockaddr_inet4 port addr raw with
    | inl (r, len) => 0 <= port <= 65535 /\ length (raw4_bytes r) = Z.to_nat len /\
        forall rest, anyToSockaddr (received (raw4_bytes r) rest len) = inl sa
    | inr e => e = EINVAL /\ ~ 0 <= port <= 65535
    end
  | SockaddrInet6 port zone addr =>
    length addr = 16%nat -> in_u 32 zone -> forall raw, length (r6_Flowinfo raw) = 4%nat ->
    match sockaddr_inet6 port zone addr raw with
    | inl (r, len) => 0 <= port <= 65535 /\ length (raw6_bytes r) = Z.to_nat len /\
        forall rest, anyToSockaddr (received (raw6_bytes r) rest len) = inl sa
    | inr e => e = EINVAL /\ ~ 0 <= port <= 65535
    end
  | SockaddrUnix name =>
    forall raw, length (ru_Path raw) = RawSockaddrUnix_path ->
    match sockaddr_unix name raw with
    | inl (r, len) => (0 < length name < RawSockaddrUnix_path)%nat /\
        (forall rest, anyToSockaddr (received (rawU_bytes r) rest len) = inl (SockaddrUnix (unix_back name raw rest))) /\
        (0 ∉ name -> nth (length name) (ru_Path raw) 0 = 0 -> forall rest, unix_back name raw rest = name)
    | inr e => e = EINVAL /\ ~ (0 < length name < RawSockaddrUnix_path)%nat
    end
  end.
Proof.
  destruct sa as [port addr|port zone addr|name]; [apply inet4_roundtrip|apply inet6_roundtrip|apply unix_roundtrip].
Qed.

(** ** Accept *)
Section accepting.
Context {W : Type} `{!Libc W} `{!LibcErrno W}.

(** The C call Accept makes. *)
Definition accept_args (fd : Z) : list carg := [CInt (u32 fd); CBuf rsa0; CBuf [SizeofSockaddrAny]].

(** Accept leaks no descriptor.  It makes one accept call; if that left an
    errno the result is that errno and no descriptor; if the peer address decodes
    the result is the new descriptor with the address; and if the kernel returned
    an address of a family the package does not know, the new descriptor is
    closed before EAFNOSUPPORT is reported. *)
Theorem Accept_no_leak fd s :
  os_perrno s = true ->
  let '(w2, rp) := libc_call "accept" (accept_args fd) (bridge_world s) in
  let '((nfd, sa, err), s') := Accept fd s in
  let e := u32 (libc_errno w2) in
  let addr := anyToSockaddr (refill rsa0 (nth 0 (rp_bufs rp) rsa0)) in
  let accepted := [EvEnterSyscall; EvCall "accept" (accept_args fd); EvExitSyscall] in
  (e <> 0 -> (nfd, sa, err) = (-1, None, Some e) /\ os_trace s' = os_trace s ++ accepted) /\
  (e = 0 -> forall a, addr = inl a ->
     (nfd, sa, err) = (i32 (rp_r1 rp), Some a, None) /\ os_trace s' = os_trace s ++ accepted) /\
  (e = 0 -> forall c, addr = inr c ->
     (nfd, sa, err) = (-1, None, Some EAFNOSUPPORT) /\
     os_trace s' = os_trace s ++ accepted ++
       [EvEnterSyscall; EvCall "close" [CInt (u32 (rp_r1 rp))]; EvExitSyscall]).
Proof.
  intros Hp. unfold Accept.
  pose proof (sysvicall6_run "accept" 3 (accept_args fd) s) as H. cbv zeta in H.
  change (take (Z.to_nat (Z.min 3 6)) (accept_args fd)) with (accept_args fd) in H.
  destruct (libc_call "accept" (accept_args fd) (bridge_world s)) as [w2 rp].
  change [CInt (u32 fd); CBuf rsa0; CBuf [SizeofSockaddrAny]] with (accept_args fd).
  unfold st_bind, sysvicall6. rewrite H, Hp. clear H. cbn [sr_err sr_r1 sr_bufs].
  assert (nth 0 (refill_all (arg_bufs (accept_args fd)) (rp_bufs rp)) [] =
          refill rsa0 (nth 0 (rp_bufs rp) rsa0)) as ->.
  { apply nth_refill_all. }
  destruct (Z.eqb_spec (u32 (libc_errno w2)) 0) as [E|E]; cbn [negb]; [|by split_and!].
  destruct (anyToSockaddr _) as [a|c] eqn:Ea; [split_and!; try done; intros; simplify_eq; by rewrite wraps_wrapu|].
  set (s1 := mkOs w2 true _). set (f := CInt _).
  assert (f = CInt (u32 (rp_r1 rp))) as -> by (unfold f; by autorewrite with gowords).
  pose proof (one_call_run "close" 1 [CInt (u32 (rp_r1 rp))] s1) as Hc.
  unfold Close, st_bind, sysvicall6 in *. rewrite wraps_wrapu, wrapu_wraps by lia.
  rewrite Hc. unfold bridged. destruct (libc_call "close" _ _) as [w3 rp3].
  assert (c = EAFNOSUPPORT) as ->.
  { unfold anyToSockaddr in Ea. repeat case_match; congruence. }
  split_and!; try done; intros; simplify_eq. cbn. by rewrite <- app_assoc.
Qed.
End accepting.

(** ** Concrete runs *)
Lemma sockaddr_roundtrip_witness :
  anyToSockaddr (received [16; 2; 31; 144; 127; 0; 0; 1; 0; 0; 0; 0; 0; 0; 0; 0] [7; 7] 16) =
    inl (SockaddrInet4 8080 [127; 0; 0; 1]).
Proof.
  destruct (sockaddr_roundtrip (SockaddrInet4 8080 [127; 0; 0; 1]) eq_refl
              (mkRaw4 0 0 [] [] [0; 0; 0; 0; 0; 0; 0; 0]) eq_refl) as (_ & _ & H).
  exact (H [7; 7]).
Defined.

Lemma Accept_no_leak_witness :
  let s := Script.start [Script.ok 5 [16 :: 31 :: replicate 14 0]; Script.ok 0 []] in
  let '((nfd, sa, err), s') := Accept 3 s in
  (nfd, sa, err) = (-1, None, Some EAFNOSUPPORT) /\
  os_trace s' = [EvEnterSyscall; EvCall "accept" (accept_args 3); EvExitSyscall;
                 EvEnterSyscall; EvCall "close" [CInt 5]; EvExitSyscall].
Proof.
  destruct (Accept_no_leak 3 (Script.start [Script.ok 5 [16 :: 31 :: replicate 14 0]; Script.ok 0 []])
              eq_refl) as (_ & _ & H).
  exact (H eq_refl EAFNOSUPPORT eq_refl).
Defined.
