(* ===== verification/NetIface.v ===== *)
(** * NetIface: network interfaces

    net/interface_qnx.go and the calls of net/interface.go on it, with getifaddrs and
    its companions of syscall/syscall_qnx3.go.  getifaddrs hands back the head of a list
    in C memory, which the code walks with the layouts of struct ifaddrs, sockaddr and
    if_data on 32-bit ARM; [c_byte] is what C memory holds at an address. *)
From Stdlib Require Import ZArith Lia List Bool String.
From stdpp Require Import base list gmap strings numbers tactics option.
From S2P Require Import Prelude Libc Syscall SyscallSock.

(** ** syscall_qnx3.go *)
Definition AF_LINK : Z := 18.
Definition IFF_UP : Z := 1.
Definition IFF_BROADCAST : Z := 2.
Definition IFF_LOOPBACK : Z := 8.
Definition IFF_POINTOPOINT : Z := 16.
Definition IFF_RUNNING : Z := 64.
Definition IFF_MULTICAST : Z := 32768.

(** Where the fields of Ifaddrs and of the raw socket addresses lie. *)
Module Off.
Definition Next : Z := 0.
Definition Name : Z := 4.
Definition Flags : Z := 8.
Definition Addr : Z := 12.
Definition Netmask : Z := 16.
Definition Data : Z := 24.
Definition Family : Z := 1.
Definition sdl_Index : Z := 2.
Definition sdl_Nlen : Z := 5.
Definition sdl_Alen : Z := 6.
Definition sdl_Data : Z := 8.
Definition sin_Addr : Z := 4.
Definition sin6_Addr : Z := 8.
End Off.
Definition sdl_Data_len : Z := 12.

(** ** net/interface.go and ip.go *)
Record Interface : Type := mkIface { Index : Z; MTU : Z; Name : list Z; HardwareAddr : list Z; Flags : Z }.

#[export] Instance Interface_eq_dec : EqDecision Interface.
Proof. solve_decision. Defined.

Definition FlagUp : Z := 1.
Definition FlagBroadcast : Z := 2.
Definition FlagLoopback : Z := 4.
Definition FlagPointToPoint : Z := 8.
Definition FlagMulticast : Z := 16.
Definition FlagRunning : Z := 32.

Record IPNet : Type := mkIPNet { IP : list Z; Mask : list Z }.

Definition v4InV6Prefix : list Z := [0; 0; 0; 0; 0; 0; 0; 0; 0; 0; 0xff; 0xff].
Definition IPv4 (a : list Z) : list Z := v4InV6Prefix ++ a.

Inductive net_error : Type :=
| SyscallError (call : string) (err : Z)
| errInvalidInterface | errInvalidInterfaceIndex | errInvalidInterfaceName | errNoSuchInterface
| OpError (op net : string) (err : net_error).

Definition route_error (err : net_error) : net_error := OpError "route" "ip+net" err.

(** ** linkFlags *)
Definition linkFlags (rawFlags : Z) : Z :=
  let f := 0 in
  let f := if has_bits rawFlags IFF_UP then Z.lor f FlagUp else f in
  let f := if has_bits rawFlags IFF_RUNNING then Z.lor f FlagRunning else f in
  let f := if has_bits rawFlags IFF_BROADCAST then Z.lor f FlagBroadcast else f in
  let f := if has_bits rawFlags IFF_LOOPBACK then Z.lor f FlagLoopback else f in
  let f := if has_bits rawFlags IFF_POINTOPOINT then Z.lor f FlagPointToPoint else f in
  let f := if has_bits rawFlags IFF_MULTICAST then Z.lor f FlagMulticast else f in
  f.

(** ** Memory *)
Definition bytes_at (m : Z -> Z) (a : Z) (n : nat) : list Z := map (fun i => m (u32 (a + Z.of_nat i))) (seq 0 n).
Definition word_at (m : Z -> Z) (a : Z) (n : nat) : Z := le_value (bytes_at m a n).

(** The bytes before the first NUL, within [n]. *)
Fixpoint str_at (m : Z -> Z) (n : nat) (a : Z) : option (list Z) :=
  match n with
  | O => None
  | S n => let c := m (u32 a) in if c =? 0 then Some [] else cons c <$> str_at m n (a + 1)
  end.

Section ifaces.
Context {W : Type} `{!Libc W} (c_byte : W -> Z -> Z).

Abbreviation M := (GoM (osst W)).

Definition load (n : nat) (a : Z) : M Z := fun s => Ret (word_at (c_byte (os_w s)) a n) s.
Definition load_bytes (n : nat) (a : Z) : M (list Z) := fun s => Ret (bytes_at (c_byte (os_w s)) a n) s.

(** The head pointer is the cell passed by address. *)
Definition Getifaddrs : SysM W (Z * option Z) :=
  let* r := sysvicall6 "getifaddrs" 1 [CBuf [0]] in
  if negb (i32 (sr_r1 r) =? 0) then st_ret (0, Some (sr_err r))
  else st_ret (nth 0 (nth 0 (sr_bufs r) []) 0, None).

Definition Freeifaddrs (head : Z) : SysM W unit :=
  let* _ := sysvicall6 "freeifaddrs" 1 [CInt head] in st_ret tt.

(** [fuel] bounds the entries of the list, [nfuel] the bytes of a name. *)
Context (fuel nfuel : nat).

Definition goString (p : Z) : M (list Z) :=
  if p =? 0 then go_ret [] else
  fun s => match str_at (c_byte (os_w s)) nfuel p with Some l => Ret l s | None => NoFuel end.

(** The hardware address and the MTU of an AF_LINK entry. *)
Definition hardware_addr (sdl : Z) : M (list Z) :=
  let! alen := load 1 (sdl + Off.sdl_Alen) in
  let! nlen := load 1 (sdl + Off.sdl_Nlen) in
  if (0 <? alen) && (nlen + alen <=? sdl_Data_len)
  then load_bytes (Z.to_nat alen) (sdl + Off.sdl_Data + nlen)
  else go_ret [].

Definition mtu_of (data : Z) : M Z :=
  if data =? 0 then go_ret 1500 else
  let! mtu := load 8 (data + 8) in
  go_ret (if (0 <? mtu) && (mtu <? Z.shiftl 1 20) then mtu else 1500).

Fixpoint table_loop (fuel : nat) (ifindex : Z) (ifa : Z) (seen : gset Z) (ifis : list Interface) : M (list Interface) :=
  match fuel with
  | O => fun _ => NoFuel
  | S fuel =>
    if ifa =? 0 then go_ret ifis else
    let continue (seen : gset Z) ifis :=
      let! next := load 4 (ifa + Off.Next) in table_loop fuel ifindex next seen ifis in
    let! addr := load 4 (ifa + Off.Addr) in
    if addr =? 0 then continue seen ifis else
    let! family := load 1 (addr + Off.Family) in
    if negb (family =? AF_LINK) then continue seen ifis else
    let! namep := load 4 (ifa + Off.Name) in
    let! name := goString namep in
    let! sdl_index := load 2 (addr + Off.sdl_Index) in
    let! idx := if sdl_index =? 0 then go_lift (IfNametoindex name) else go_ret sdl_index in
    if negb (ifindex =? 0) && negb (ifindex =? idx) then continue seen ifis else
    if bool_decide (idx ∈ seen) then continue seen ifis else
    let seen := {[idx]} ∪ seen in
    let! flags := load 4 (ifa + Off.Flags) in
    let! data := load 4 (ifa + Off.Data) in
    let! mtu := mtu_of data in
    let! mac := hardware_addr addr in
    let ifis := ifis ++ [mkIface idx mtu name mac (linkFlags flags)] in
    if ifindex =? idx then go_ret ifis else continue seen ifis
  end.

(** head, err := syscall.Getifaddrs(); if err != nil { return nil, ... };
    defer syscall.Freeifaddrs(head) *)
Definition with_ifaddrs {A} (walk : Z -> M (list A)) : M (list A * option net_error) :=
  let! (head, err) := go_lift Getifaddrs in
  match err with
  | Some e => go_ret ([], Some (SyscallError "getifaddrs" e))
  | None =>
    let! r := walk head in
    go_lift (Freeifaddrs head) ;!
    go_ret (r, None)
  end.

Definition interfaceTable (ifindex : Z) : M (list Interface * option net_error) :=
  with_ifaddrs (fun head => table_loop fuel ifindex head ∅ []).

(** The address and the mask of an entry whose address has [family]. *)
Definition addr_of (family addr netmask : Z) : M (option IPNet) :=
  if family =? AF_INET then
    let! a := load_bytes 4 (addr + Off.sin_Addr) in
    if netmask =? 0 then go_ret (Some (mkIPNet (IPv4 a) [])) else
    let! m := load_bytes 4 (netmask + Off.sin_Addr) in go_ret (Some (mkIPNet (IPv4 a) m))
  else if family =? AF_INET6 then
    let! a := load_bytes 16 (addr + Off.sin6_Addr) in
    if netmask =? 0 then go_ret (Some (mkIPNet a [])) else
    let! m := load_bytes 16 (netmask + Off.sin6_Addr) in go_ret (Some (mkIPNet a m))
  else go_ret None.

Fixpoint addr_loop (fuel : nat) (ifi : option Interface) (ifa : Z) (addrs : list IPNet) : M (list IPNet) :=
  match fuel with
  | O => fun _ => NoFuel
  | S fuel =>
    if ifa =? 0 then go_ret addrs else
    let continue addrs := let! next := load 4 (ifa + Off.Next) in addr_loop fuel ifi next addrs in
    let! addr := load 4 (ifa + Off.Addr) in
    if addr =? 0 then continue addrs else
    let! matches := match ifi with
                    | None => go_ret true
                    | Some ifi =>
                      let! namep := load 4 (ifa + Off.Name) in
                      let! name := goString namep in
                      let! idx := go_lift (IfNametoindex name) in
                      go_ret (idx =? Index ifi)
                    end in
    if negb matches then continue addrs else
    let! family := load 1 (addr + Off.Family) in
    let! netmask := load 4 (ifa + Off.Netmask) in
    let! a := addr_of family addr netmask in
    match a with None => continue addrs | Some a => continue (addrs ++ [a]) end
  end.

Definition interfaceAddrTable (ifi : option Interface) : M (list IPNet * option net_error) :=
  with_ifaddrs (fun head => addr_loop fuel ifi head []).

(** ** net/interface.go

    The zone cache, which interfaceTable's result also feeds, is left out. *)
Definition interfaceByIndex (ift : list Interface) (index : Z) : option Interface + net_error :=
  match List.find (fun ifi => index =? Index ifi) ift with
  | Some ifi => inl (Some ifi)
  | None => inr errNoSuchInterface
  end.

Definition Interfaces : M (list Interface * option net_error) :=
  let! (ift, err) := interfaceTable 0 in
  match err with Some e => go_ret ([], Some (route_error e)) | None => go_ret (ift, None) end.

Definition InterfaceByIndex (index : Z) : M (option Interface + net_error) :=
  if index <=? 0 then go_ret (inr (route_error errInvalidInterfaceIndex)) else
  let! (ift, err) := interfaceTable index in
  match err with
  | Some e => go_ret (inr (route_error e))
  | None => match interfaceByIndex ift index with
            | inl ifi => go_ret (inl ifi)
            | inr e => go_ret (inr (route_error e))
            end
  end.

Definition InterfaceByName (name : list Z) : M (option Interface + net_error) :=
  if bool_decide (name = []) then go_ret (inr (route_error errInvalidInterfaceName)) else
  let! (ift, err) := interfaceTable 0 in
  match err with
  | Some e => go_ret (inr (route_error e))
  | None => match List.find (fun ifi => bool_decide (name = Name ifi)) ift with
            | Some ifi => go_ret (inl (Some ifi))
            | None => go_ret (inr (route_error errNoSuchInterface))
            end
  end.

Definition Interface_Addrs (ifi : option Interface) : M (list IPNet * option net_error) :=
  match ifi with
  | None => go_ret ([], Some (route_error errInvalidInterface))
  | Some _ => let! (ifat, err) := interfaceAddrTable ifi in go_ret (ifat, route_error <$> err)
  end.

Definition InterfaceAddrs : M (list IPNet * option net_error) :=
  let! (ifat, err) := interfaceAddrTable None in go_ret (ifat, route_error <$> err).
End ifaces.

(** ** What getifaddrs leaves in memory *)
Section memory.
Context (m : Z -> Z) (nfuel : nat) (index_of : list Z -> Z).

(** The addresses of the entries of the list at [p]. *)
Inductive chain : Z -> list Z -> Prop :=
| chain_nil : chain 0 []
| chain_cons p ps : p <> 0 -> chain (word_at m (p + Off.Next) 4) ps -> chain p (p :: ps).

(** An entry's fields. *)
Definition addr_at (p : Z) : Z := word_at m (p + Off.Addr) 4.
Definition family_at (p : Z) : Z := word_at m (addr_at p + Off.Family) 1.
Definition name_at (p : Z) : option (list Z) :=
  let n := word_at m (p + Off.Name) 4 in if n =? 0 then Some [] else str_at m nfuel n.
Definition is_link (p : Z) : bool := negb (addr_at p =? 0) && (family_at p =? AF_LINK).
Definition named (p : Z) : Prop := is_Some (name_at p).

Definition link_mtu (p : Z) : Z :=
  let data := word_at m (p + Off.Data) 4 in let mtu := word_at m (data + 8) 8 in
  if negb (data =? 0) && (0 <? mtu) && (mtu <? 2 ^ 20) then mtu else 1500.
Definition link_mac (p : Z) : list Z :=
  let nlen := word_at m (addr_at p + Off.sdl_Nlen) 1 in
  let alen := word_at m (addr_at p + Off.sdl_Alen) 1 in
  if (0 <? alen) && (nlen + alen <=? sdl_Data_len)
  then bytes_at m (addr_at p + Off.sdl_Data + nlen) (Z.to_nat alen) else [].
Definition link_index (p : Z) : Z :=
  let i := word_at m (addr_at p + Off.sdl_Index) 2 in
  if i =? 0 then index_of (default [] (name_at p)) else i.

(** The interface an AF_LINK entry describes. *)
Definition link_at (p : Z) : Interface :=
  mkIface (link_index p) (link_mtu p) (default [] (name_at p)) (link_mac p)
    (linkFlags (word_at m (p + Off.Flags) 4)).
Definition links (ps : list Z) : list Interface := map link_at (List.filter is_link ps).

(** The address of an IPv4 or IPv6 entry. *)
Definition net_at (p : Z) : option IPNet :=
  let a := addr_at p in let k := word_at m (p + Off.Netmask) 4 in
  let mask off n := if k =? 0 then [] else bytes_at m (k + off) n in
  if a =? 0 then None
  else if family_at p =? AF_INET then Some (mkIPNet (IPv4 (bytes_at m (a + Off.sin_Addr) 4)) (mask Off.sin_Addr 4%nat))
  else if family_at p =? AF_INET6 then Some (mkIPNet (bytes_at m (a + Off.sin6_Addr) 16) (mask Off.sin6_Addr 16%nat))
  else None.
Definition nets (ifi : option Interface) (ps : list Z) : list IPNet :=
  omap net_at (List.filter (fun p => match ifi with
    | None => true | Some ifi => index_of (default [] (name_at p)) =? Index ifi end) ps).
End memory.

(** ** Which interfaces are listed *)
Definition first (l : list Interface) (i : Z) : option Interface := List.find (fun x => i =? Index x) l.

(** [r] lists the interfaces of [l], each index once and as first met. *)
Record lists (l r : list Interface) : Prop := {
  lists_order : r `sublist_of` l;
  lists_once : NoDup (map Index r);
  lists_first : forall y, y ∈ r -> first l (Index y) = Some y;
  lists_all : forall x, x ∈ l -> Index x ∈ map Index r }.

(** What the loop adds to [ifis], given the indices it has seen. *)
Fixpoint pick (ifindex : Z) (seen : gset Z) (l : list Interface) : list Interface :=
  match l with
  | [] => []
  | x :: l =>
    if negb (ifindex =? 0) && negb (ifindex =? Index x) then pick ifindex seen l else
    if bool_decide (Index x ∈ seen) then pick ifindex seen l else
    x :: if ifindex =? Index x then [] else pick ifindex ({[Index x]} ∪ seen) l
  end.

Lemma pick_one i l : i <> 0 -> pick i ∅ l = option_list (first l i).
Proof.
  intros Hi. induction l as [|x l IH]; [done|]. cbn. rewrite (proj2 (Z.eqb_neq i 0)) by done.
  destruct (Z.eqb_spec i (Index x)); cbn; [|done]. by rewrite bool_decide_eq_false_2 by set_solver.
Qed.

(** A listing stops behind an interface without an index. *)
Fixpoint upto_zero (l : list Interface) : list Interface :=
  match l with [] => [] | x :: l => x :: if Index x =? 0 then [] else upto_zero l end.

(** What comes behind that entry. *)
Fixpoint past_zero (l : list Interface) : list Interface :=
  match l with [] => [] | x :: l => if Index x =? 0 then l else past_zero l end.

Lemma upto_past_zero l : upto_zero l ++ past_zero l = l.
Proof. induction l as [|x l IH]; cbn; [done|]. destruct (Index x =? 0); cbn; by rewrite ?IH. Qed.
Lemma past_zero_none l : Forall (fun x => Index x <> 0) l -> past_zero l = [].
Proof. induction 1 as [|x l Hx _ IH]; cbn; [done|]. by rewrite (proj2 (Z.eqb_neq _ 0) Hx). Qed.

Lemma pick_unseen seen l y : y ∈ pick 0 seen l -> Index y ∉ seen.
Proof.
  revert seen. induction l as [|x l IH]; intros seen; cbn [pick negb andb]; [by intros ?%not_elem_of_nil|].
  change (negb (0 =? 0) && negb (0 =? Index x)) with false. cbn iota. case_bool_decide as Hs; [apply IH|].
  intros [->|H]%elem_of_cons; [done|]. destruct (0 =? Index x); [by apply not_elem_of_nil in H|].
  apply IH in H. set_solver.
Qed.

(** The invariant of the listing, for any set of indices already seen. *)
Lemma pick_lists l : forall seen : gset Z, 0 ∉ seen ->
  let r := pick 0 seen l in
  r `sublist_of` upto_zero l /\ NoDup (map Index r) /\
  (forall y, y ∈ r -> first (upto_zero l) (Index y) = Some y) /\
  (forall x, x ∈ upto_zero l -> Index x ∈ seen \/ Index x ∈ map Index r).
Proof.
  induction l as [|x l IH]; intros seen H0; cbn [pick upto_zero].
  { split_and!; [done|constructor|by intros ? ?%not_elem_of_nil|by intros ? ?%not_elem_of_nil]. }
  change (negb (0 =? 0) && negb (0 =? Index x)) with false. cbn iota. rewrite (Z.eqb_sym (Index x) 0).
  assert (forall (y : Interface) l', Index y <> Index x -> first (x :: l') (Index y) = first l' (Index y)) as Hf.
  { intros y l' Hy. unfold first. cbn. by rewrite (proj2 (Z.eqb_neq _ _) Hy). }
  case_bool_decide as Hs.
  - rewrite (proj2 (Z.eqb_neq 0 (Index x))) by (intros E; by rewrite <- E in Hs).
    destruct (IH seen H0) as (H1 & H2 & H3 & H4). split_and!; [by constructor|done| |].
    + intros y Hy. rewrite Hf; [auto|]. intros E. apply (pick_unseen seen l y); [done|]. by rewrite E.
    + intros z [->|Hz]%elem_of_cons; [by left|auto].
  - assert (first (x :: (if 0 =? Index x then [] else upto_zero l)) (Index x) = Some x) as Hx
      by (unfold first; cbn; by rewrite Z.eqb_refl).
    destruct (Z.eqb_spec 0 (Index x)) as [E|E].
    + split_and!; [done|by apply NoDup_singleton| |].
      * by intros y ->%list_elem_of_singleton.
      * intros z ->%list_elem_of_singleton. right. by left.
    + destruct (IH ({[Index x]} ∪ seen)) as (H1 & H2 & H3 & H4); [set_solver|].
      assert (forall y, y ∈ pick 0 ({[Index x]} ∪ seen) l -> Index y <> Index x) as Hne
        by (intros y Hy%pick_unseen; set_solver).
      split_and!; [by constructor| | |].
      * cbn. constructor; [|done]. rewrite list_elem_of_fmap. intros (y & E2 & Hy). by apply (Hne y).
      * intros y [->|Hy]%elem_of_cons; [done|]. rewrite Hf by auto. auto.
      * intros z [->|Hz]%elem_of_cons; [right; by left|]. cbn. rewrite elem_of_cons.
        destruct (H4 z Hz) as [[Hi|Hi]%elem_of_union|Hi]; [right; left; by apply elem_of_singleton in Hi|by left|by auto].
Qed.

Lemma pick_all l : lists (upto_zero l) (pick 0 ∅ l).
Proof.
  destruct (pick_lists l ∅) as (H1 & H2 & H3 & H4); [set_solver|]. split; try done.
  intros x Hx. destruct (H4 x Hx) as [?|]; [set_solver|done].
Qed.

(** Listing one index finds what listing all shows under it. *)
Lemma first_Some l i x : first l i = Some x -> x ∈ l /\ Index x = i.
Proof. intros H%List.find_some. destruct H as [H1%list_elem_of_In H2%Z.eqb_eq]. done. Qed.
Lemma first_elem l x : x ∈ l -> is_Some (first l (Index x)).
Proof.
  intros Hx%list_elem_of_In. destruct (first l (Index x)) as [y|] eqn:E; [done|].
  pose proof (List.find_none _ _ E x Hx) as H. cbn in H. by rewrite Z.eqb_refl in H.
Qed.

Lemma first_listed l r i : lists l r -> first l i = first r i.
Proof.
  intros [_ _ Hf Ha]. destruct (first r i) as [z|] eqn:Er.
  - destruct (first_Some _ _ _ Er) as [Hz <-]. auto.
  - destruct (first l i) as [x|] eqn:El; [|done]. destruct (first_Some _ _ _ El) as [Hx <-].
    apply Ha, list_elem_of_fmap in Hx as (y & E & Hy). destruct (first_elem r y Hy) as [z Hz]. by rewrite <- E, Er in Hz.
Qed.

Lemma first_app l l' i :
  first (l ++ l') i = match first l i with Some x => Some x | None => first l' i end.
Proof. unfold first. induction l as [|x l IH]; cbn; [done|]. by destruct (i =? Index x). Qed.

(** ** The loops *)

(** What the enumeration relies on of libsocket: if_nametoindex leaves the list alone and
    answers for a name what [index_of] says. *)
Class IfLib {W} `{!Libc W} (c_byte : W -> Z -> Z) (index_of : list Z -> Z) : Prop := {
  if_errno_memory : forall e w, c_byte (libc_set_errno e w) = c_byte w;
  if_index_memory : forall args w w' rp, libc_call "if_nametoindex" args w = (w', rp) -> c_byte w' = c_byte w;
  if_index_answer : forall name w w' rp, libc_call "if_nametoindex" [CStr name] w = (w', rp) ->
    i32 (u32 (rp_r1 rp)) = index_of name }.

Section loops.
Context {W : Type} `{!Libc W} (c_byte : W -> Z -> Z) (index_of : list Z -> Z) `{!IfLib c_byte index_of}.
Context (m : Z -> Z) (nfuel : nat).
Implicit Type s : osst W.

Lemma load_wp n a Q s : c_byte (os_w s) = m -> Q (word_at m a n) s -> go_wp (load c_byte n a) Q s.
Proof. unfold load, go_wp. by intros ->. Qed.
Lemma load_bytes_wp n a Q s : c_byte (os_w s) = m -> Q (bytes_at m a n) s -> go_wp (load_bytes c_byte n a) Q s.
Proof. unfold load_bytes, go_wp. by intros ->. Qed.

Lemma str_at_no_nul n a l : str_at m n a = Some l -> 0 ∉ l.
Proof.
  revert a l. induction n as [|n IH]; intros a l; cbn; [done|]. destruct (Z.eqb_spec (m (u32 a)) 0).
  - intros [= <-]. by apply not_elem_of_nil.
  - intros (l' & H & ->)%fmap_Some. apply not_elem_of_cons. split; [done|by eapply IH].
Qed.

Lemma name_no_nul p : named m nfuel p -> 0 ∉ default [] (name_at m nfuel p).
Proof.
  intros [l E]. rewrite E. cbn. unfold name_at in E. destruct (_ =? 0); [injection E as <-; by apply not_elem_of_nil|].
  by eapply str_at_no_nul.
Qed.

Lemma goString_wp p Q s : c_byte (os_w s) = m -> named m nfuel p -> Q (default [] (name_at m nfuel p)) s ->
  go_wp (goString c_byte nfuel (word_at m (p + Off.Name) 4)) Q s.
Proof.
  intros Hm [l E]. rewrite E. cbn [default]. unfold name_at in E. unfold goString.
  destruct (_ =? 0); [by injection E as <-|]. unfold go_wp. by rewrite Hm, E.
Qed.

(** One lookup by name. *)
Definition lookup_call (name : list Z) : string * list carg := ("if_nametoindex"%string, [CStr name]).

Lemma IfNametoindex_wp name Q s : c_byte (os_w s) = m -> 0 ∉ name ->
  (forall s', c_byte (os_w s') = m -> made s [lookup_call name] s' -> Q (index_of name) s') ->
  go_wp (go_lift (IfNametoindex name)) Q s.
Proof.
  intros Hm Hn HQ. apply go_wp_lift. unfold IfNametoindex. rewrite BytePtrFromString_ok by done.
  apply wp_bind. unfold sysvicall6. apply wp_sysvicall6. rewrite (c_string_app name Hn). intros w2 rp E.
  apply wp_ret. cbn [sr_r1]. rewrite (if_index_answer name _ _ _ E). apply HQ; cbn [os_w].
  - rewrite (if_index_memory _ _ _ _ E). unfold bridge_world. destruct (os_perrno s); [|done].
    by rewrite if_errno_memory.
  - split; [done|]. cbn [os_trace]. by rewrite calls_of_app.
Qed.

Lemma mtu_wp p Q s : c_byte (os_w s) = m -> Q (link_mtu m p) s ->
  go_wp (mtu_of c_byte (word_at m (p + Off.Data) 4)) Q s.
Proof.
  intros Hm HQ. unfold mtu_of, link_mtu in *. destruct (_ =? 0); [done|]. apply go_wp_bind, load_wp; [done|].
  by apply go_wp_ret.
Qed.

Lemma hardware_addr_wp p Q s : c_byte (os_w s) = m -> Q (link_mac m p) s ->
  go_wp (hardware_addr c_byte (addr_at m p)) Q s.
Proof.
  intros Hm HQ. unfold hardware_addr, link_mac in *. apply go_wp_bind, load_wp; [done|].
  apply go_wp_bind, load_wp; [done|]. case_match; [by apply load_bytes_wp|done].
Qed.

(** Lookups only, the list still in place. *)
Definition looked s s' : Prop := c_byte (os_w s') = m /\ exists names, made s (map lookup_call names) s'.

Lemma looked_refl s : c_byte (os_w s) = m -> looked s s.
Proof. intros Hm. split; [done|]. exists []. apply made_refl. Qed.
Lemma looked_one s name s' s2 : made s [lookup_call name] s' -> looked s' s2 -> looked s s2.
Proof.
  intros H1 [Hm [names H2]]. split; [done|]. exists (name :: names). exact (made_trans _ _ _ _ _ H1 H2).
Qed.

Ltac loads := repeat (apply go_wp_bind, load_wp; [done|]).

(** The index of an AF_LINK entry. *)
Lemma link_index_wp p Q s : c_byte (os_w s) = m -> named m nfuel p ->
  (forall s', looked s s' -> Q (link_index m nfuel index_of p) s') ->
  go_wp (if word_at m (addr_at m p + Off.sdl_Index) 2 =? 0 then go_lift (IfNametoindex (default [] (name_at m nfuel p)))
         else go_ret (word_at m (addr_at m p + Off.sdl_Index) 2)) Q s.
Proof.
  intros Hm Hn HQ. unfold link_index in *. destruct (_ =? 0).
  - apply IfNametoindex_wp; [done|by apply name_no_nul|]. intros s' Hm' H. apply HQ.
    eapply looked_one; [exact H|by apply looked_refl].
  - apply go_wp_ret, HQ. by apply looked_refl.
Qed.

Lemma table_loop_wp ifindex p ps : chain m p ps -> Forall (named m nfuel) ps ->
  forall fuel seen ifis s, c_byte (os_w s) = m -> (length ps < fuel)%nat ->
  go_wp (table_loop c_byte nfuel fuel ifindex p seen ifis)
    (fun r s' => r = ifis ++ pick ifindex seen (links m nfuel index_of ps) /\ looked s s') s.
Proof.
  induction 1 as [|p ps Hp _ IH]; intros Hn fuel seen ifis s Hm Hf; (destruct fuel as [|fuel]; [cbn in Hf; lia|]).
  { cbn. rewrite app_nil_r. split; [done|by apply looked_refl]. }
  apply Forall_cons_iff in Hn as [Hnp Hn]. cbn [length] in Hf. cbn [table_loop]. rewrite (proj2 (Z.eqb_neq p 0)) by done.
  assert (forall seen' ifis' s1, looked s s1 ->
    go_wp (let! next := load c_byte 4 (p + Off.Next) in table_loop c_byte nfuel fuel ifindex next seen' ifis')
      (fun r s' => r = ifis' ++ pick ifindex seen' (links m nfuel index_of ps) /\ looked s s') s1) as Hgo.
  { intros seen' ifis' s1 [Hm1 [names Hs1]]. apply go_wp_bind, load_wp; [done|].
    eapply go_wp_mono; [apply IH; [done|done|lia]|]. intros r s2 [-> [Hm2 [names2 Hs2]]]. split; [done|]. split; [done|].
    exists (names ++ names2). rewrite map_app. eapply made_trans; eauto. }
  cbv zeta. apply go_wp_bind, load_wp; [done|]. change (word_at m (p + Off.Addr) 4) with (addr_at m p).
  assert (links m nfuel index_of (p :: ps) =
    (if is_link m p then [link_at m nfuel index_of p] else []) ++ links m nfuel index_of ps)
    as -> by (unfold links; cbn; by destruct (is_link m p)).
  unfold is_link.
  destruct (addr_at m p =? 0); cbn [negb andb app]; [apply Hgo; by apply looked_refl|].
  apply go_wp_bind, load_wp; [done|]. fold (family_at m p).
  destruct (family_at m p =? AF_LINK); cbn [negb app]; [|apply Hgo; by apply looked_refl].
  apply go_wp_bind, load_wp; [done|]. apply go_wp_bind, goString_wp; [done|done|].
  apply go_wp_bind, load_wp; [done|]. apply go_wp_bind, link_index_wp; [done|done|].
  intros s1 Hs1. assert (c_byte (os_w s1) = m) as Hm1 by apply Hs1. cbn [pick]. change (Index (link_at m nfuel index_of p)) with (link_index m nfuel index_of p).
  destruct (negb (ifindex =? 0) && negb (ifindex =? link_index m nfuel index_of p)); [by apply Hgo|].
  case_bool_decide; [by apply Hgo|]. loads.
  apply go_wp_bind, mtu_wp; [done|]. apply go_wp_bind, hardware_addr_wp; [done|].
  destruct (ifindex =? link_index m nfuel index_of p); [by apply go_wp_ret|].
  eapply go_wp_mono; [by apply Hgo|]. intros r s2 [-> Hs2]. split; [|done]. by rewrite <- app_assoc.
Qed.

Lemma addr_loop_wp ifi p ps : chain m p ps -> Forall (named m nfuel) ps ->
  forall fuel addrs s, c_byte (os_w s) = m -> (length ps < fuel)%nat ->
  go_wp (addr_loop c_byte nfuel fuel ifi p addrs)
    (fun r s' => r = addrs ++ nets m nfuel index_of ifi ps /\ looked s s') s.
Proof.
  induction 1 as [|p ps Hp _ IH]; intros Hn fuel addrs s Hm Hf; (destruct fuel as [|fuel]; [cbn in Hf; lia|]).
  { cbn. rewrite app_nil_r. split; [done|by apply looked_refl]. }
  apply Forall_cons_iff in Hn as [Hnp Hn]. cbn [length] in Hf. cbn [addr_loop]. rewrite (proj2 (Z.eqb_neq p 0)) by done.
  assert (forall addrs' s1, looked s s1 ->
    go_wp (let! next := load c_byte 4 (p + Off.Next) in addr_loop c_byte nfuel fuel ifi next addrs')
      (fun r s' => r = addrs' ++ nets m nfuel index_of ifi ps /\ looked s s') s1) as Hgo.
  { intros addrs' s1 [Hm1 [names Hs1]]. apply go_wp_bind, load_wp; [done|].
    eapply go_wp_mono; [apply IH; [done|done|lia]|]. intros r s2 [-> [Hm2 [names2 Hs2]]]. split; [done|]. split; [done|].
    exists (names ++ names2). rewrite map_app. eapply made_trans; eauto. }
  cbv zeta. apply go_wp_bind, load_wp; [done|]. change (word_at m (p + Off.Addr) 4) with (addr_at m p).
  set (this := match ifi with None => true | Some ifi => index_of (default [] (name_at m nfuel p)) =? Index ifi end).
  assert (nets m nfuel index_of ifi (p :: ps) = (if this then option_list (net_at m p) else []) ++ nets m nfuel index_of ifi ps) as ->.
  { unfold nets. cbn [List.filter]. fold this. destruct this; [|done]. cbn. by destruct (net_at m p). }
  destruct (addr_at m p =? 0) eqn:Ea.
  { eapply go_wp_mono; [apply Hgo; by apply looked_refl|]. intros r s' [-> Hs']. split; [|done].
    unfold net_at. rewrite Ea. by destruct this. }
  apply go_wp_bind. apply (go_wp_mono _ (fun b s1 => b = this /\ looked s s1)).
  { unfold this. destruct ifi as [ifi|]; [|apply go_wp_ret; split; [done|by apply looked_refl]].
    apply go_wp_bind, load_wp; [done|]. apply go_wp_bind, goString_wp; [done|done|].
    apply go_wp_bind, IfNametoindex_wp; [done|by apply name_no_nul|]. intros s1 Hm1 H1. apply go_wp_ret. split; [done|].
    eapply looked_one; [exact H1|by apply looked_refl]. }
  intros b s1 [-> Hs1]. clearbody this. assert (c_byte (os_w s1) = m) as Hm1 by apply Hs1.
  destruct this; cbn [negb app]; [|by apply Hgo]. loads. fold (family_at m p).
  apply go_wp_bind. apply (go_wp_mono _ (fun a s2 => a = net_at m p /\ s2 = s1)).
  { unfold addr_of, net_at. rewrite Ea. cbv zeta. destruct (family_at m p =? AF_INET).
    - apply go_wp_bind, load_bytes_wp; [done|]. destruct (word_at m (p + Off.Netmask) 4 =? 0); [done|]. apply go_wp_bind, load_bytes_wp; done.
    - destruct (family_at m p =? AF_INET6); [|done].
      apply go_wp_bind, load_bytes_wp; [done|]. destruct (word_at m (p + Off.Netmask) 4 =? 0); [done|]. apply go_wp_bind, load_bytes_wp; done. }
  intros a s2 [-> ->]. destruct (net_at m p); cbn [option_list app]; [|by apply Hgo].
  eapply go_wp_mono; [by apply Hgo|]. intros r s2 [-> Hs2]. split; [|done]. by rewrite <- app_assoc.
Qed.

(** ** The tables *)
Context (fuel : nat).

(** What getifaddrs is answered in [s]: a list at [head] whose entries are [ps]. *)
Record listing s (head : Z) (ps : list Z) : Prop := {
  ls_call : exists w1 rp, libc_call "getifaddrs" [CBuf [0]] (bridge_world s) = (w1, rp) /\
    i32 (u32 (rp_r1 rp)) = 0 /\ nth 0 (refill [0] (nth 0 (rp_bufs rp) [0])) 0 = head /\ c_byte w1 = m;
  ls_chain : chain m head ps;
  ls_named : Forall (named m nfuel) ps;
  ls_fuel : (length ps < fuel)%nat }.

Definition getifaddrs_call : string * list carg := ("getifaddrs"%string, [CBuf [0]]).
Definition freeifaddrs_call (head : Z) : string * list carg := ("freeifaddrs"%string, [CInt head]).

(** The calls of an enumeration: the list is fetched first and released last, once each. *)
Definition enumerated s (head : Z) s' : Prop :=
  exists names, made s ([getifaddrs_call] ++ map lookup_call names ++ [freeifaddrs_call head]) s'.

Lemma Getifaddrs_wp Q s head ps : listing s head ps ->
  (forall s', c_byte (os_w s') = m -> made s [getifaddrs_call] s' -> Q (head, None) s') ->
  go_wp (go_lift (Getifaddrs (W := W))) Q s.
Proof.
  intros [(w1 & rp & E & H0 & Hh & Hm) _ _ _] HQ. apply go_wp_lift. unfold Getifaddrs. apply wp_bind.
  unfold sysvicall6. apply wp_sysvicall6. intros w2 rp2 E2. cbn [Z.to_nat Z.min Pos.to_nat take] in E2.
  change (take _ _) with [CBuf [0]] in E2. rewrite E in E2. injection E2 as <- <-. cbn [sr_r1 sr_bufs]. rewrite H0.
  change (arg_bufs _) with [[0]]. rewrite nth_refill_all, Hh. apply wp_ret, HQ; [done|].
  split; [done|]. cbn [os_trace]. by rewrite calls_of_app.
Qed.

(** Fetching the list, walking it, releasing it. *)
Lemma with_ifaddrs_wp {A} (walk : Z -> GoM (osst W) (list A)) r s head ps : listing s head ps ->
  (forall s1, c_byte (os_w s1) = m -> go_wp (walk head) (fun x s' => x = r /\ looked s1 s') s1) ->
  go_wp (with_ifaddrs walk) (fun x s' => x = (r, None) /\ enumerated s head s') s.
Proof.
  intros Hl Hw. apply go_wp_bind. eapply Getifaddrs_wp; [exact Hl|]. intros s1 Hm1 H1.
  apply go_wp_bind. eapply go_wp_mono; [by apply Hw|]. intros x s2 [-> [Hm2 [names H2]]].
  apply go_wp_bind, go_wp_lift, wp_bind. unfold sysvicall6. apply wp_call. intros u s3 H3.
  apply wp_ret, go_wp_ret. split; [done|]. exists names. rewrite app_assoc.
  eapply made_trans; [by eapply made_trans|exact H3].
Qed.

Lemma interfaceTable_wp ifindex s head ps : listing s head ps ->
  go_wp (interfaceTable c_byte fuel nfuel ifindex)
    (fun x s' => x = (pick ifindex ∅ (links m nfuel index_of ps), None) /\ enumerated s head s') s.
Proof.
  intros Hl. eapply with_ifaddrs_wp; [exact Hl|]. intros s1 Hm1. destruct Hl as [_ Hc Hn Hf].
  exact (table_loop_wp ifindex head ps Hc Hn fuel ∅ [] s1 Hm1 Hf).
Qed.

(** C20: interfaceTable on a list getifaddrs hands out.  Asked for everything, it lists the
    AF_LINK entries in order, each index once with the data of its first entry, and stops
    behind the first entry whose index is 0: what follows one is not listed.  Asked for an
    index, it lists the first AF_LINK entry of the whole list with that index, or nothing.
    It reports no error, and the list is fetched once and released once, after the last
    look at it. *)
Theorem interfaceTable_lists ifindex s head ps :
  listing s head ps ->
  go_wp (interfaceTable c_byte fuel nfuel ifindex) (fun '(r, err) s' =>
    let l := links m nfuel index_of ps in
    err = None /\ enumerated s head s' /\
    if ifindex =? 0 then lists (upto_zero l) r else r = option_list (first l ifindex)) s.
Proof.
  intros Hl. eapply go_wp_mono; [by eapply interfaceTable_wp|]. intros x s' [-> H]. cbn.
  split; [done|]. split; [done|]. destruct (Z.eqb_spec ifindex 0) as [->|Hi]; [apply pick_all|by apply pick_one].
Qed.

(** InterfaceAddrTable returns the IPv4 and IPv6 addresses of the list with their masks,
    in order: all of them, or those whose entry is named like the interface asked about;
    the list is fetched once and released once. *)
Theorem interfaceAddrTable_lists ifi s head ps :
  listing s head ps ->
  go_wp (interfaceAddrTable c_byte fuel nfuel ifi) (fun '(r, err) s' =>
    err = None /\ enumerated s head s' /\ r = nets m nfuel index_of ifi ps) s.
Proof.
  intros Hl. eapply go_wp_mono.
  - eapply with_ifaddrs_wp; [exact Hl|]. intros s1 Hm1. destruct Hl as [_ Hc Hn Hf].
    exact (addr_loop_wp ifi head ps Hc Hn fuel [] s1 Hm1 Hf).
  - by intros x s' [-> H].
Qed.

(** C21: InterfaceByIndex agrees with Interfaces when getifaddrs hands out the same
    interfaces to both, whatever they are.  For an index above 0 it finds what Interfaces
    lists under it; where Interfaces lists nothing under it, the first one with the index
    behind an interface of index 0, where Interfaces stops; and errNoSuchInterface when
    there is none there either, so always when no interface has index 0.  For any
    other index the answer is errInvalidInterfaceIndex. *)
Theorem InterfaceByIndex_agrees i s1 s2 h1 h2 ps1 ps2 :
  listing s1 h1 ps1 -> listing s2 h2 ps2 -> links m nfuel index_of ps1 = links m nfuel index_of ps2 ->
  go_wp (Interfaces c_byte fuel nfuel) (fun '(all, err) _ => err = None /\
    go_wp (InterfaceByIndex c_byte fuel nfuel i) (fun found _ => found =
      if i <=? 0 then inr (route_error errInvalidInterfaceIndex) else
      match first (all ++ past_zero (links m nfuel index_of ps1)) i with
      | Some x => inl (Some x)
      | None => inr (route_error errNoSuchInterface)
      end) s2) s1.
Proof.
  intros H1 H2 E. unfold Interfaces, InterfaceByIndex.
  apply go_wp_bind. eapply go_wp_mono; [by eapply interfaceTable_wp|]. intros x s1' [-> _]. apply go_wp_ret.
  split; [done|]. destruct (Z.leb_spec i 0) as [|Hi]; [by apply go_wp_ret|].
  apply go_wp_bind. eapply go_wp_mono; [by eapply interfaceTable_wp|]. intros x s2' [-> _].
  rewrite <- E, (pick_one i) by lia.
  rewrite first_app, <- (first_listed _ _ i (pick_all _)), <- first_app, upto_past_zero.
  unfold interfaceByIndex. destruct (first _ i) as [x|] eqn:Ef; cbn; [|by apply go_wp_ret].
  apply first_Some in Ef as [_ <-]. rewrite Z.eqb_refl. by apply go_wp_ret.
Qed.
End loops.

(** ** A list in memory *)

(** [chain] by evaluation. *)
Fixpoint walk (m : Z -> Z) (n : nat) (p : Z) : option (list Z) :=
  match n with
  | O => None
  | S n => if p =? 0 then Some [] else cons p <$> walk m n (word_at m (p + Off.Next) 4)
  end.
Lemma walk_chain m n : forall p ps, walk m n p = Some ps -> chain m p ps.
Proof.
  induction n as [|n IH]; intros p ps; cbn; [done|]. destruct (Z.eqb_spec p 0) as [->|Hp].
  - intros [= <-]. constructor.
  - intros (ps' & H & ->)%fmap_Some. constructor; auto.
Qed.

Module Demo.
(** lo0 twice, en0 without an index of its own, and en0's address. *)
Definition entry (next name flags addr netmask : Z) : list Z :=
  flat_map (le_bytes 4) [next; name; flags; addr; netmask; 0; 0].
Definition sdl (index nlen alen : Z) (data : list Z) : list Z :=
  [20; AF_LINK] ++ le_bytes 2 index ++ [6; nlen; alen; 0] ++ data.
Definition sin (addr : list Z) : list Z := [16; AF_INET; 0; 0] ++ addr ++ repeat 0 8.
Definition lo0 : list Z := [108; 111; 48].
Definition en0 : list Z := [101; 110; 48].
Definition mac : list Z := [2; 0; 0; 170; 187; 204].

Definition bytes : list Z :=
  entry 4124 4280 32841 4208 0 ++ entry 4152 4280 32841 4208 0 ++ entry 4180 4284 32835 4228 0 ++
  entry 0 4284 32835 4248 4264 ++
  sdl 1 3 0 (lo0 ++ repeat 0 9) ++ sdl 0 3 6 (en0 ++ mac ++ repeat 0 3) ++
  sin [10; 0; 0; 7] ++ sin [255; 255; 255; 0] ++ lo0 ++ [0] ++ en0 ++ [0].
Definition m (a : Z) : Z := nth (Z.to_nat (a - 4096)) bytes 0.
Definition index_of (name : list Z) : Z := if bool_decide (name = en0) then 3 else 1.

Definition call (fn : string) (args : list carg) (w : unit) : unit * reply :=
  (w, if String.eqb fn "getifaddrs" then mkReply 0 0 [[4096]]
      else match args with [CStr name] => mkReply (index_of name) 0 [] | _ => mkReply 0 0 [] end).
#[global] Instance libc : Libc unit := {| libc_call := call; libc_errno _ := 0; libc_set_errno _ w := w |}.
Definition c_byte (_ : unit) : Z -> Z := m.
#[global] Instance iflib : IfLib c_byte index_of.
Proof.
  split; [done|done|]. intros name w w' rp [= _ <-]. cbn. unfold index_of. by case_bool_decide.
Qed.

Definition s0 : osst unit := mkOs tt true [].
Definition ps : list Z := [4096; 4124; 4152; 4180].

Lemma is_listing : listing c_byte m 8 9 s0 4096 ps.
Proof.
  split; [|by apply (walk_chain m 9)| |cbn; lia].
  - eexists tt, _. split; [reflexivity|]. by split_and!.
  - unfold ps. repeat constructor; unfold named; vm_compute; eauto.
Qed.

Definition all : list Interface := [mkIface 1 1500 lo0 [] 53; mkIface 3 1500 en0 mac 51].
End Demo.

Lemma interfaceTable_lists_witness :
  links Demo.m 8 Demo.index_of Demo.ps = [mkIface 1 1500 Demo.lo0 [] 53] ++ Demo.all /\
  go_wp (interfaceTable Demo.c_byte 9 8 3) (fun '(r, _) _ => r = [mkIface 3 1500 Demo.en0 Demo.mac 51]) Demo.s0.
Proof.
  split; [vm_compute; reflexivity|]. eapply go_wp_mono.
  - exact (interfaceTable_lists Demo.c_byte Demo.index_of Demo.m 8 9 3 Demo.s0 4096 Demo.ps Demo.is_listing).
  - intros [r err] s' (_ & _ & ->). vm_compute. reflexivity.
Defined.

Lemma interfaceAddrTable_lists_witness :
  go_wp (interfaceAddrTable Demo.c_byte 9 8 None)
    (fun '(r, _) _ => r = [mkIPNet (IPv4 [10; 0; 0; 7]) [255; 255; 255; 0]]) Demo.s0.
Proof.
  eapply go_wp_mono.
  - exact (interfaceAddrTable_lists Demo.c_byte Demo.index_of Demo.m 8 9 None Demo.s0 4096 Demo.ps Demo.is_listing).
  - intros [r err] s' (_ & _ & ->). vm_compute. reflexivity.
Defined.

(** The interfaces of the list have an index: nothing hides behind one that has none. *)
Example nothing_past_zero : past_zero (links Demo.m 8 Demo.index_of Demo.ps) = [].
Proof. apply past_zero_none. vm_compute. repeat constructor; discriminate. Qed.

Lemma InterfaceByIndex_agrees_witness :
  go_wp (Interfaces Demo.c_byte 9 8) (fun '(all, err) _ => err = None /\
    go_wp (InterfaceByIndex Demo.c_byte 9 8 3) (fun found _ => found =
      match first (all ++ past_zero (links Demo.m 8 Demo.index_of Demo.ps)) 3 with
      | Some x => inl (Some x)
      | None => inr (route_error errNoSuchInterface)
      end) Demo.s0) Demo.s0.
Proof.
  exact (InterfaceByIndex_agrees Demo.c_byte Demo.index_of Demo.m 8 9 3 Demo.s0 Demo.s0 4096 4096 Demo.ps Demo.ps
    Demo.is_listing Demo.is_listing eq_refl).
Defined.
