(* ===== verification/SyscallProc.v ===== *)
(** * SyscallProc: processes

    Package syscall's process side on QNX: the wait status (syscall_qnx_arm.go),
    posix_spawn standing in for fork and exec (exec_qnx.go), and the portable
    framework above it (exec_unix.go, forkpipe.go). *)
From Stdlib Require Import ZArith Lia List Bool String.
From stdpp Require Import base list gmap strings numbers tactics option.
From S2P Require Import Prelude Libc Syscall.

(** ** syscall_qnx_arm.go: WaitStatus *)
Module WaitStatus.
Definition mask : Z := 127.
Definition core : Z := 128.
Definition shift : Z := 8.
Definition exited : Z := 0.
Definition stopped : Z := 127.
Definition SIGSTOP : Z := 23.

Definition Exited (w : Z) : bool := Z.land w mask =? exited.
Definition ExitStatus (w : Z) : Z :=
  if negb (Z.land w mask =? exited) then -1 else i32 (Z.shiftr w shift).
Definition Signaled (w : Z) : bool :=
  negb (Z.land w mask =? stopped) && negb (Z.land w mask =? 0).
Definition Signal (w : Z) : Z :=
  let sig := Z.land w mask in
  if (sig =? stopped) || (sig =? 0) then -1 else sig.
Definition CoreDump (w : Z) : bool := Signaled w && negb (Z.land w core =? 0).
Definition Stopped (w : Z) : bool :=
  (Z.land w mask =? stopped) && negb (i32 (Z.shiftr w shift) =? SIGSTOP).
Definition Continued (w : Z) : bool :=
  (Z.land w mask =? stopped) && (i32 (Z.shiftr w shift) =? SIGSTOP).
Definition StopSignal (w : Z) : Z :=
  if negb (Stopped w) then -1 else Z.land (i32 (Z.shiftr w shift)) 255.
Definition TrapCause (w : Z) : Z := -1.

(** What the code reports of a status, all accessors together. *)
Record report : Type := mkReport {
  is_exited : bool; exit_status : Z; is_signaled : bool; signal : Z; core_dump : bool;
  is_stopped : bool; stop_signal : Z; is_continued : bool }.

#[global] Instance report_eq_dec : EqDecision report.
Proof. solve_decision. Defined.

Definition read (w : Z) : report :=
  mkReport (Exited w) (ExitStatus w) (Signaled w) (Signal w) (CoreDump w)
    (Stopped w) (StopSignal w) (Continued w).

(** The statuses of QNX's own <sys/wait.h> (sdp/target/qnx6/usr/include/sys/wait.h):
    what happened to the child and how the macros there encode it. *)
Inductive event : Type :=
| EvExited (code : Z) | EvSignaled (sig : Z) (dumped : bool) | EvStopped (sig : Z) | EvContinued.

Definition WCONTFLG : Z := 65535.
Definition WCOREFLG : Z := 128.
Definition WSTOPFLG : Z := 127.
Definition WSIGMASK : Z := 127.
Definition WIFEXITED (s : Z) : bool := Z.land s 255 =? 0.
Definition WEXITSTATUS (s : Z) : Z := Z.land (Z.shiftr s 8) 255.
Definition WIFSIGNALED (s : Z) : bool := negb (Z.land s 255 =? 0) && (Z.land s 65280 =? 0).
Definition WTERMSIG (s : Z) : Z := Z.land s 127.
Definition WIFSTOPPED (s : Z) : bool := (Z.land s 255 =? 127) && negb (Z.land s 65280 =? 0).
Definition WSTOPSIG (s : Z) : Z := Z.land (Z.shiftr s 8) 255.
Definition WIFCONTINUED (s : Z) : bool := Z.land s 65535 =? WCONTFLG.
Definition WCOREDUMP (s : Z) : Z := Z.land s WCOREFLG.

(** What the macros say of a status: WIFCONTINUED is asked before the rest. *)
Definition classify (s : Z) : option event :=
  if WIFCONTINUED s then Some EvContinued
  else if WIFEXITED s then Some (EvExited (WEXITSTATUS s))
  else if WIFSTOPPED s then Some (EvStopped (WSTOPSIG s))
  else if WIFSIGNALED s then Some (EvSignaled (WTERMSIG s) (negb (WCOREDUMP s =? 0)))
  else None.

#[global] Instance event_eq_dec : EqDecision event.
Proof. solve_decision. Defined.

(** The report the accessors' names promise for each event. *)
Definition promised (e : event) : report :=
  match e with
  | EvExited c => mkReport true c false (-1) false false (-1) false
  | EvSignaled g d => mkReport false (-1) true g d false (-1) false
  | EvStopped g => mkReport false (-1) false (-1) false true g false
  | EvContinued => mkReport false (-1) false (-1) false false (-1) true
  end.

(** Signal numbers are 1 to _SIGMAX = 64. *)
Definition valid (e : event) : bool :=
  match e with
  | EvSignaled g _ | EvStopped g => (1 <=? g) && (g <=? 64)
  | EvExited _ | EvContinued => true
  end.

(** Which event the accessors take an event for. *)
Definition taken_for (e : event) : event :=
  match e with
  | EvStopped g => if g =? SIGSTOP then EvContinued else e
  | EvContinued => EvStopped 255
  | EvExited _ | EvSignaled _ _ => e
  end.

(** All 16-bit statuses, decided by evaluation. *)
Definition agrees (s : Z) : bool :=
  match classify s with
  | Some e => implb (valid e) (bool_decide (read s = promised (taken_for e)))
  | None => true
  end.

End WaitStatus.

(** For every 16-bit status to which QNX's wait macros give a meaning, all the
    accessors together report exactly that meaning, except that a child stopped by
    SIGSTOP is reported as continued and a continued child as stopped by signal 255. *)
Theorem WaitStatus_reads s e :
  0 <= s < 2 ^ 16 -> WaitStatus.classify s = Some e -> WaitStatus.valid e = true ->
  WaitStatus.read s = WaitStatus.promised (WaitStatus.taken_for e).
Proof.
  intros Hs He Hv.
  assert (WaitStatus.agrees s = true) as H.
  { apply (all_below_spec 16 0); [vm_compute; reflexivity|lia]. }
  unfold WaitStatus.agrees in H. rewrite He, Hv in H. by apply bool_decide_eq_true in H.
Qed.

(** ** exec_unix.go: vectors of C strings *)

(** The pointers into the block, [None] for the closing nil, and the block. *)
Fixpoint slice_offsets (n : Z) (ss : list (list Z)) : list (option Z) :=
  match ss with
  | [] => [None]
  | s :: ss => Some n :: slice_offsets (n + Z.of_nat (length s) + 1) ss
  end.

Fixpoint slice_block (ss : list (list Z)) : list Z :=
  match ss with
  | [] => []
  | s :: ss => s ++ 0 :: slice_block ss
  end.

Definition SlicePtrFromStrings (ss : list (list Z)) : (list (option Z) * list Z) + Z :=
  if existsb (existsb (Z.eqb 0)) ss then inr EINVAL else inl (slice_offsets 0 ss, slice_block ss).

(** What C finds behind the vector. *)
Definition c_vector (v : list (option Z) * list Z) : carg :=
  CVec (omap (fun o => match o with
                       | Some n => Some (cstr (drop (Z.to_nat n) (snd v)))
                       | None => None end) (fst v)).

Lemma c_vector_offsets ss : forall pre, Forall (fun s => 0 ∉ s) ss ->
  omap (fun o => match o with
                 | Some n => Some (cstr (drop (Z.to_nat n) (pre ++ slice_block ss)))
                 | None => None end) (slice_offsets (Z.of_nat (length pre)) ss) = ss.
Proof.
  induction ss as [|s ss IH]; intros pre H; [done|]. apply Forall_cons_iff in H as [Hs H].
  cbn [slice_offsets omap list_omap slice_block].
  rewrite Nat2Z.id, drop_app_length, cstr_terminated by done. f_equal.
  specialize (IH (pre ++ s ++ [0]) H).
  replace (Z.of_nat (length (pre ++ s ++ [0]))) with (Z.of_nat (length pre) + Z.of_nat (length s) + 1)
    in IH by (rewrite !length_app; cbn; lia).
  by replace ((pre ++ s ++ [0]) ++ slice_block ss) with (pre ++ s ++ 0 :: slice_block ss) in IH
    by (rewrite <- !app_assoc; done).
Qed.

Lemma existsb_nul (s : list Z) : existsb (Z.eqb 0) s = true <-> 0 ∈ s.
Proof.
  rewrite existsb_exists. setoid_rewrite Z.eqb_eq. split.
  - intros (x & Hx & <-). by apply list_elem_of_In.
  - intros H. exists 0. split; [by apply list_elem_of_In|done].
Qed.

(** SlicePtrFromStrings refuses exactly the slices holding a string with a NUL
    byte, and otherwise builds one block in which C reads back, string by string,
    the slice it was given. *)
Theorem SlicePtrFromStrings_reads_back ss :
  match SlicePtrFromStrings ss with
  | inl v => Forall (fun s => 0 ∉ s) ss /\ c_vector v = CVec ss /\
      length (fst v) = S (length ss) /\ list.last (fst v) = Some None
  | inr e => e = EINVAL /\ ~ Forall (fun s => 0 ∉ s) ss
  end.
Proof.
  unfold SlicePtrFromStrings. destruct (existsb _ ss) eqn:E.
  - split; [done|]. apply existsb_exists in E as (s & Hin & Hs). rewrite existsb_nul in Hs.
    intros H. rewrite list.Forall_forall in H. exact (H s (proj2 (list_elem_of_In ss s) Hin) Hs).
  - assert (Forall (fun s => 0 ∉ s) ss) as H.
    { apply list.Forall_forall. intros s Hin Hs. apply existsb_nul in Hs.
      rewrite <- not_true_iff_false in E. apply E. apply existsb_exists.
      exists s. split; [by apply list_elem_of_In|done]. }
    split; [done|]. cbn [fst snd]. split.
    + unfold c_vector. cbn [fst snd]. f_equal. exact (c_vector_offsets ss [] H).
    + clear. generalize 0. induction ss as [|s ss IH]; intros n; [done|]. cbn [slice_offsets].
      destruct (IH (n + Z.of_nat (length s) + 1)) as [Hl Hn]. split; [cbn; by f_equal|].
      rewrite last_cons, Hn. done.
Qed.

(** ** exec_unix.go and syscall_qnx_arm.go: what a process is started with *)
Record SysProcAttr : Type := mkSys {
  sys_Chroot : list Z; sys_Credential : bool; sys_Setsid : bool; sys_Setpgid : bool;
  sys_Setctty : bool; sys_Noctty : bool; sys_Ctty : Z; sys_Foreground : bool; sys_Pgid : Z }.

Record ProcAttr : Type := mkAttr {
  attr_Dir : list Z; attr_Env : list (list Z); attr_Files : list Z; attr_Sys : option SysProcAttr }.

Definition zeroSysProcAttr : SysProcAttr := mkSys [] false false false false false 0 false 0.
Definition zeroProcAttr : ProcAttr := mkAttr [] [] [] None.

Definition _POSIX_SPAWN_SETPGROUP : Z := 1.

(** ** exec_qnx.go: forkAndExecInChild *)
Section spawn.
Context {W : Type} `{!Libc W}.

Abbreviation M := (SysM W).

(** pid and errno, with the opaque file-actions and attribute words. *)
Record spawned : Type := mkSpawned { sp_pid : Z; sp_err : Z; sp_fa : Z; sp_sa : Z }.

Definition word_at (r : sysres) (i : nat) : Z := nth 0 (nth i (sr_bufs r) []) 0.

(** The dup2 loop: errno and file actions. *)
Fixpoint adddup2_files (fa i : Z) (files : list Z) : M (Z * Z) :=
  match files with
  | [] => st_ret (0, fa)
  | f :: files =>
    let* r := sysvicall6 "posix_spawn_file_actions_adddup2" 3 [CBuf [fa]; CInt f; CInt (u32 i)] in
    if negb (sr_err r =? 0) then st_ret (sr_err r, word_at r 0)
    else adddup2_files (word_at r 0) (i + 1) files
  end.

(** [if sys.Setpgid { ... }]: the attribute word. *)
Definition set_pgroup (sys : SysProcAttr) (sa : Z) : M Z :=
  if sys_Setpgid sys then
    let* r1 := sysvicall6 "posix_spawnattr_setflags" 2 [CBuf [sa]; CInt _POSIX_SPAWN_SETPGROUP] in
    let* r2 := sysvicall6 "posix_spawnattr_setpgroup" 2 [CBuf [word_at r1 0]; CInt (u32 (sys_Pgid sys))] in
    st_ret (word_at r2 0)
  else st_ret sa.

(** [var wd [4096]byte] *)
Definition wd0 : list Z := replicate 4096 0.

(** Change directory around [k], with the deferred change back. *)
Definition in_dir (dir : option (list Z)) (fa sa : Z) (k : M spawned) : M spawned :=
  match dir with
  | None => k
  | Some dir =>
    let* r := sysvicall6 "getcwd" 2 [CBuf wd0; CInt 4096] in
    let wd := nth 0 (sr_bufs r) [] in
    let* res :=
      let* c := sysvicall6 "chdir" 1 [c_string dir] in
      if negb (sr_err c =? 0) then st_ret (mkSpawned 0 (sr_err c) fa sa) else k in
    if negb (sr_r1 r =? 0)
    then let* _ := sysvicall6 "chdir" 1 [c_string wd] in st_ret res
    else st_ret res
  end.

Definition posix_spawn (argv0 : list Z) (argv envv : list (option Z) * list Z) (fa sa : Z) : M spawned :=
  let* r := sysvicall6 "posix_spawn" 6 [CBuf [0]; c_string argv0; CBuf [fa]; CBuf [sa];
                                        c_vector argv; c_vector envv] in
  if negb (sr_r1 r =? 0) then st_ret (mkSpawned 0 (sr_r1 r) (word_at r 1) (word_at r 2))
  else st_ret (mkSpawned (i32 (word_at r 0)) 0 (word_at r 1) (word_at r 2)).

(** What posix_spawn cannot do here. *)
Definition spawn_unsupported (sys : SysProcAttr) : bool :=
  negb (bool_decide (sys_Chroot sys = [])) || sys_Credential sys || sys_Setsid sys ||
  sys_Setctty sys || sys_Foreground sys.

(** pid and errno; [chroot] and [pipe] are not used. *)
Definition forkAndExecInChild (argv0 : list Z) (argv envv : list (option Z) * list Z)
    (chroot dir : option (list Z)) (attr : ProcAttr) (sys : SysProcAttr) (pipe : Z) : M (Z * Z) :=
  if spawn_unsupported sys then st_ret (0, ENOSYS) else
  let* r := sysvicall6 "posix_spawn_file_actions_init" 1 [CBuf [0]] in
  if negb (sr_err r =? 0) then st_ret (0, sr_err r) else
  let fa := word_at r 0 in
  let* res :=
    let* r := sysvicall6 "posix_spawnattr_init" 1 [CBuf [0]] in
    if negb (sr_err r =? 0) then st_ret (mkSpawned 0 (sr_err r) fa (word_at r 0)) else
    let sa := word_at r 0 in
    let* res :=
      let* d := adddup2_files fa 0 (attr_Files attr) in
      let '(e, fa) := d in
      if negb (e =? 0) then st_ret (mkSpawned 0 e fa sa) else
      let* sa := set_pgroup sys sa in
      in_dir dir fa sa (posix_spawn argv0 argv envv fa sa) in
    let* _ := sysvicall6 "posix_spawnattr_destroy" 1 [CBuf [sp_sa res]] in
    st_ret res in
  let* _ := sysvicall6 "posix_spawn_file_actions_destroy" 1 [CBuf [sp_fa res]] in
  st_ret (sp_pid res, sp_err res).
End spawn.

(** ** What forkAndExecInChild asks of the C library *)

(** posix_spawn performs the queued dup2s in order in the child: the table of the
    child's descriptors, or [None] when one of them fails. *)
Definition dup2_action (c : string * list carg) : option (Z * Z) :=
  match c with
  | (fn, [_; CInt f; CInt i]) =>
    if bool_decide (fn = "posix_spawn_file_actions_adddup2"%string) then Some (f, i) else None
  | _ => None
  end.
Definition dup2_actions : list (string * list carg) -> list (Z * Z) := omap dup2_action.

Fixpoint child_table {F} (acts : list (Z * Z)) (t : gmap Z F) : option (gmap Z F) :=
  match acts with
  | [] => Some t
  | (f, i) :: acts => match t !! f with
                      | Some x => child_table acts (<[i := x]> t)
                      | None => None
                      end
  end.

Fixpoint file_actions (i : Z) (files : list Z) : list (Z * Z) :=
  match files with
  | [] => []
  | f :: files => (f, u32 i) :: file_actions (i + 1) files
  end.

(** No entry names a descriptor that an earlier entry has already replaced. *)
Definition no_clobber (files : list Z) : Prop :=
  forall (i j : nat) g, (i < j)%nat -> files !! j = Some (Z.of_nat i) -> files !! i = Some g ->
    g = Z.of_nat i.

Section wiring.
Context {F : Type}.
Implicit Types t : gmap Z F.

(** Every entry of [files] (placed from [n] on) is in place. *)
Definition placed t t' (n : nat) (files : list Z) : Prop :=
  forall i f, files !! i = Some f -> t' !! (Z.of_nat (n + i)) = t !! f.

Lemma child_table_app acts1 acts2 t :
  child_table (acts1 ++ acts2) t = t' ← child_table acts1 t; child_table acts2 t'.
Proof.
  revert t. induction acts1 as [|[f i] acts1 IH]; intros t; [done|]. cbn [app child_table].
  destruct (t !! f); [apply IH|done].
Qed.

Lemma file_actions_app files1 files2 : forall i,
  file_actions i (files1 ++ files2) =
    file_actions i files1 ++ file_actions (i + Z.of_nat (length files1)) files2.
Proof.
  induction files1 as [|f files1 IH]; intros i; cbn [app file_actions length];
    [by rewrite Z.add_0_r|].
  rewrite IH. do 3 f_equal. lia.
Qed.

(** The table after all actions, entry by entry from the end: nothing is lost and
    only the targets change. *)
Lemma child_table_files files t :
  Z.of_nat (length files) < 2 ^ 32 -> Forall (fun f => is_Some (t !! f)) files ->
  exists t', child_table (file_actions 0 files) t = Some t' /\
    (forall k, is_Some (t !! k) -> is_Some (t' !! k)) /\
    (forall k, ~ 0 <= k < Z.of_nat (length files) -> t' !! k = t !! k) /\
    (forall i j g, (i < j)%nat -> files !! j = Some (Z.of_nat i) -> files !! i = Some g ->
       t' !! Z.of_nat j = t' !! Z.of_nat i) /\
    (forall j f, files !! j = Some f -> ~ 0 <= f < Z.of_nat j -> t' !! Z.of_nat j = t !! f).
Proof.
  induction files as [|f files IH] using rev_ind; intros Hlen Hopen.
  { exists t. split_and!; try done. }
  rewrite length_app in Hlen. cbn [length] in Hlen.
  apply list.Forall_app in Hopen as [Hopen Hf]. apply Forall_cons_iff in Hf as [Hf _].
  destruct IH as (t' & E & Hk & Hout & Hch & Hdir); [lia|done|].
  destruct (Hk _ Hf) as [x Hx].
  rewrite file_actions_app, child_table_app, E. cbn [mbind option_bind file_actions child_table].
  rewrite Z.add_0_l, Hx. rewrite (wrapu_small 32) by (unfold in_u; lia).
  set (n := length files) in *. eexists. split; [done|]. rewrite length_app. cbn [length]. fold n. split_and!.
  - intros k [y Hy]. destruct (decide (k = Z.of_nat n)) as [->|Hne];
      [rewrite lookup_insert_eq; eauto|]. rewrite lookup_insert_ne by done. eauto.
  - intros k Hout'. rewrite lookup_insert_ne by lia. apply Hout. lia.
  - intros i j g Hij Hj Hi. assert (j < S n)%nat by (apply lookup_lt_Some in Hj; rewrite length_app in Hj; cbn in Hj; lia).
    rewrite (lookup_insert_ne _ _ (Z.of_nat i)) by lia.
    rewrite lookup_app_l in Hi by (fold n; lia).
    destruct (decide (j = n)) as [->|Hne].
    + rewrite lookup_insert_eq. rewrite (list_lookup_middle files [] f n eq_refl) in Hj. injection Hj as ->. done.
    + rewrite lookup_insert_ne by lia. rewrite lookup_app_l in Hj by (fold n; lia). eauto.
  - intros j g Hj Hr. destruct (decide (j = n)) as [->|Hne].
    + rewrite lookup_insert_eq. rewrite (list_lookup_middle files [] f n eq_refl) in Hj. injection Hj as ->.
      rewrite <- Hx. by apply Hout.
    + assert (j < n)%nat by (apply lookup_lt_Some in Hj; rewrite length_app in Hj; cbn in Hj; lia).
      rewrite lookup_insert_ne by lia. rewrite lookup_app_l in Hj by (fold n; lia). eauto.
Qed.

Lemma placed_iff files t :
  Z.of_nat (length files) < 2 ^ 32 -> Forall (fun f => is_Some (t !! f)) files ->
  (forall a b, is_Some (t !! a) -> t !! a = t !! b -> a = b) ->
  exists t', child_table (file_actions 0 files) t = Some t' /\
    (placed t t' 0 files <-> no_clobber files).
Proof.
  intros Hlen Hopen Hinj.
  destruct (child_table_files files t Hlen Hopen) as (t' & E & _ & _ & Hch & Hdir).
  exists t'. split; [done|]. split.
  - intros Hp i j g Hij Hj Hi. pose proof (Hp j _ Hj) as H1. pose proof (Hp i _ Hi) as H2.
    cbn [Nat.add] in *. rewrite (Hch i j g Hij Hj Hi), H2 in H1.
    apply Hinj; [|done]. rewrite Forall_lookup in Hopen. eauto.
  - intros Hn j. cbn [Nat.add]. induction (lt_wf j) as [j _ IH]. intros f Hj.
    destruct (decide (0 <= f < Z.of_nat j)) as [Hr|Hr]; [|by apply Hdir].
    assert (f = Z.of_nat (Z.to_nat f)) as Ef by lia. set (i := Z.to_nat f) in *. clearbody i. subst f.
    destruct (lookup_lt_is_Some_2 files i) as [g Hg].
    { apply lookup_lt_Some in Hj. lia. }
    rewrite (Hch i j g ltac:(lia) Hj Hg), (IH i ltac:(lia) g Hg).
    by rewrite (Hn i j g ltac:(lia) Hj Hg).
Qed.
End wiring.

(** ** The calls forkAndExecInChild makes *)
Section spawn_calls.
Context {W : Type} `{!Libc W}.
Implicit Types s : osst W.

Definition named (fns : list string) (calls : list (string * list carg)) : Prop :=
  Forall (fun c => fst c ∈ fns) calls.

Lemma named_app fns c1 c2 : named fns c1 -> named fns c2 -> named fns (c1 ++ c2).
Proof. apply Forall_app_2. Qed.

Lemma adddup2_files_calls files : forall fa i s,
  wp (adddup2_files fa i files) (fun '(e, _) s' => exists calls, made s calls s' /\
    named ["posix_spawn_file_actions_adddup2"%string] calls /\
    dup2_actions calls `prefix_of` file_actions i files /\
    (e = 0 -> dup2_actions calls = file_actions i files)) s.
Proof.
  induction files as [|f files IH]; intros fa i s; cbn [adddup2_files].
  { apply wp_ret. exists []. split_and!; try done; [apply made_refl|constructor]. }
  apply wp_bind, wp_call. intros r s1 M1. destruct (Z.eqb_spec (sr_err r) 0) as [E|E]; cbn [negb].
  - eapply wp_mono; [apply IH|]. intros [e fa'] s2 (calls & M2 & Hn & Hp & He).
    eexists. split; [eapply made_trans; eassumption|]. cbn [file_actions].
    split_and!.
    + apply named_app; [|done]. repeat constructor.
    + cbn. by apply prefix_cons.
    + intros H0. cbn. by rewrite <- (He H0).
  - apply wp_ret. eexists. split; [eassumption|]. cbn. split_and!; [repeat constructor| |done].
    apply prefix_cons, prefix_nil.
Qed.

Lemma set_pgroup_calls sys sa s :
  wp (set_pgroup sys sa) (fun _ s' => exists calls, made s calls s' /\
    named ["posix_spawnattr_setflags"; "posix_spawnattr_setpgroup"]%string calls) s.
Proof.
  unfold set_pgroup. destruct (sys_Setpgid sys).
  - apply wp_bind, wp_call. intros r1 s1 M1. apply wp_bind, wp_call. intros r2 s2 M2.
    apply wp_ret. eexists. split; [eapply made_trans; eassumption|repeat constructor].
  - apply wp_ret. exists []. split; [apply made_refl|constructor].
Qed.

Definition dir_calls : list string := ["getcwd"; "chdir"; "posix_spawn"]%string.

(** At most one posix_spawn; a pid only from one. *)
Definition spawn_once (res : spawned) (calls : list (string * list carg)) : Prop :=
  named dir_calls calls /\
  (sp_err res = 0 -> (exists args, ("posix_spawn"%string, args) ∈ calls)) /\
  (sp_err res <> 0 -> sp_pid res = 0).

Lemma posix_spawn_calls argv0 argv envv fa sa s :
  wp (posix_spawn argv0 argv envv fa sa)
    (fun res s' => exists calls, made s calls s' /\ spawn_once res calls) s.
Proof.
  unfold posix_spawn. apply wp_bind, wp_call. intros r s1 M1.
  destruct (Z.eqb_spec (sr_r1 r) 0) as [E|E]; cbn [negb]; apply wp_ret;
    (eexists; split; [eassumption|]); split_and!; cbn; try done;
    try (repeat constructor; set_solver); intros _; eexists; by apply list_elem_of_singleton.
Qed.

Lemma spawn_once_app res c1 c2 c3 :
  named dir_calls c1 -> spawn_once res c2 -> named dir_calls c3 -> spawn_once res (c1 ++ c2 ++ c3).
Proof.
  intros H1 (H2 & Hs & Hp) H3. split_and!; [|intros He|done].
  - by repeat apply named_app.
  - destruct (Hs He) as [args Ha]. exists args. set_solver.
Qed.

Lemma in_dir_calls dir fa sa k s :
  (forall s, wp k (fun res s' => exists calls, made s calls s' /\ spawn_once res calls) s) ->
  wp (in_dir dir fa sa k) (fun res s' => exists calls, made s calls s' /\ spawn_once res calls) s.
Proof.
  intros Hk. unfold in_dir. destruct dir as [dir|]; [|apply Hk].
  apply wp_bind, wp_call. intros r s1 M1. apply wp_bind.
  apply (wp_mono _ (fun res s' => exists calls, made s1 calls s' /\
           exists args c2, calls = ("chdir"%string, args) :: c2 /\
           (spawn_once res c2 \/ c2 = [] /\ sp_err res <> 0 /\ sp_pid res = 0))).
  - apply wp_bind, wp_call. intros c s2 M2. destruct (Z.eqb_spec (sr_err c) 0) as [E|E]; cbn [negb].
    + eapply wp_mono; [apply Hk|]. intros res s3 (c3 & M3 & H3).
      eexists. split; [eapply made_trans; eassumption|]. do 2 eexists. split; [done|]. by left.
    + apply wp_ret. eexists. split; [eassumption|]. do 2 eexists. split; [done|]. by right.
  - intros res s2 (calls & M2 & args & c2 & -> & Hc).
    assert (forall c3, named dir_calls c3 ->
      spawn_once res (("getcwd"%string, take (Z.to_nat (Z.min 2 6)) [CBuf wd0; CInt 4096]) ::
                      ("chdir"%string, args) :: c2 ++ c3)) as Hall.
    { intros c3 H3. destruct Hc as [Hc|(-> & He & Hp)].
      - apply (spawn_once_app res [_; _] c2 c3); [repeat constructor; set_solver|done|done].
      - split_and!; [|done..]. repeat constructor; [set_solver..|done]. }
    destruct (sr_r1 r =? 0); cbn [negb].
    + apply wp_ret. eexists. split; [eapply made_trans; eassumption|].
      rewrite <- (app_nil_r c2). apply Hall. constructor.
    + apply wp_bind, wp_call. intros c s3 M3. apply wp_ret. eexists. split.
      * eapply made_trans; [eapply made_trans; eassumption|eassumption].
      * cbn [app]. apply Hall. repeat constructor.
Qed.

(** The calls around a spawn that got past both initialisers. *)
Definition bracketed (middle : list string) (mid calls : list (string * list carg)) : Prop :=
  exists a b y z, calls =
    [("posix_spawn_file_actions_init"%string, a); ("posix_spawnattr_init"%string, b)] ++ mid ++
    [("posix_spawnattr_destroy"%string, y); ("posix_spawn_file_actions_destroy"%string, z)] /\
  named middle mid.

Definition middle_calls : list string :=
  ["posix_spawn_file_actions_adddup2"; "posix_spawnattr_setflags"; "posix_spawnattr_setpgroup";
   "getcwd"; "chdir"; "posix_spawn"]%string.

Lemma named_weaken fns fns' calls : fns ⊆ fns' -> named fns calls -> named fns' calls.
Proof. intros H. apply Forall_impl. set_solver. Qed.

(** What lies between: the dup2s, in order, then the rest. *)
Definition spawn_middle (files : list Z) (e : Z) (mid : list (string * list carg)) : Prop :=
  named middle_calls mid /\
  (e = 0 -> exists dups rest args, mid = dups ++ rest /\ dup2_actions dups = file_actions 0 files /\
     named ["posix_spawn_file_actions_adddup2"%string] dups /\ ("posix_spawn"%string, args) ∈ rest /\
     dup2_actions rest = []).

Lemma dup2_action_name fn args : fn <> "posix_spawn_file_actions_adddup2"%string ->
  dup2_action (fn, args) = None.
Proof.
  intros H. destruct args as [|? [|[] [|[] []]]]; try done. cbn. by rewrite bool_decide_false.
Qed.

Lemma no_dup2_actions fns calls :
  ("posix_spawn_file_actions_adddup2"%string ∉ fns) -> named fns calls -> dup2_actions calls = [].
Proof.
  intros Hf. induction 1 as [|[fn args] calls H _ IH]; [done|]. cbn in H.
  unfold dup2_actions in *. cbn [omap list_omap]. rewrite dup2_action_name by (by intros ->). done.
Qed.

(** The inner part: dup2s, process group, directory and posix_spawn. *)
Lemma spawn_middle_calls argv0 argv envv dir attr sys fa sa s :
  wp (let* d := adddup2_files fa 0 (attr_Files attr) in
      let '(e, fa) := d in
      if negb (e =? 0) then st_ret (mkSpawned 0 e fa sa) else
      let* sa := set_pgroup sys sa in
      in_dir dir fa sa (posix_spawn argv0 argv envv fa sa))
    (fun res s' => exists mid, made s mid s' /\ spawn_middle (attr_Files attr) (sp_err res) mid /\
       (sp_err res <> 0 -> sp_pid res = 0)) s.
Proof.
  apply wp_bind. eapply wp_mono; [apply adddup2_files_calls|].
  intros [e fa'] s1 (dups & M1 & Hn & _ & He).
  assert (named middle_calls dups) as Hn' by (eapply named_weaken, Hn; set_solver).
  destruct (Z.eqb_spec e 0) as [E|E]; cbn [negb].
  - apply wp_bind. eapply wp_mono; [apply set_pgroup_calls|]. intros sa' s2 (grp & M2 & Hg).
    eapply wp_mono; [apply in_dir_calls, posix_spawn_calls|].
    intros res s3 (rest & M3 & Hr & Hargs & Hpid). exists (dups ++ grp ++ rest).
    split; [eapply made_trans, made_trans; eassumption|]. split; [|done].
    split.
    + repeat apply named_app; [done|eapply named_weaken, Hg|eapply named_weaken, Hr];
        unfold middle_calls, dir_calls; set_solver.
    + intros H0. destruct (Hargs H0) as [args Ha]. exists dups, (grp ++ rest), args.
      split_and!; [done|by apply He|done|set_solver|].
      unfold dup2_actions. rewrite omap_app. fold (dup2_actions grp) (dup2_actions rest).
      rewrite (fun H => no_dup2_actions _ grp H Hg) by set_solver.
      by rewrite (fun H => no_dup2_actions _ rest H Hr) by (unfold dir_calls; set_solver).
  - apply wp_ret. exists dups. by split_and!.
Qed.

Definition forkAndExecInChild_spec (sys : SysProcAttr) (attr : ProcAttr) (pid e : Z)
    (calls : list (string * list carg)) : Prop :=
  (spawn_unsupported sys = true /\ calls = [] /\ e = ENOSYS /\ pid = 0) \/
  (map fst calls = ["posix_spawn_file_actions_init"]%string /\ e <> 0 /\ pid = 0) \/
  (map fst calls = ["posix_spawn_file_actions_init"; "posix_spawnattr_init";
                    "posix_spawn_file_actions_destroy"]%string /\ e <> 0 /\ pid = 0) \/
  (exists mid, bracketed middle_calls mid calls /\ spawn_middle (attr_Files attr) e mid /\
     (e <> 0 -> pid = 0)).

Lemma forkAndExecInChild_calls argv0 argv envv chroot dir attr sys pipe s :
  wp (forkAndExecInChild argv0 argv envv chroot dir attr sys pipe)
    (fun '(pid, e) s' => exists calls, made s calls s' /\ forkAndExecInChild_spec sys attr pid e calls) s.
Proof.
  unfold forkAndExecInChild. destruct (spawn_unsupported sys) eqn:Eu.
  { apply wp_ret. exists []. split; [apply made_refl|]. by left. }
  apply wp_bind, wp_call. intros r s1 M1. destruct (Z.eqb_spec (sr_err r) 0) as [E|E]; cbn [negb].
  2:{ apply wp_ret. eexists. split; [eassumption|]. right; left. done. }
  apply wp_bind, wp_bind, wp_call. intros r2 s2 M2.
  destruct (Z.eqb_spec (sr_err r2) 0) as [E2|E2]; cbn [negb].
  2:{ apply wp_ret, wp_bind, wp_call. intros r3 s3 M3. apply wp_ret. eexists.
      split; [eapply made_trans, made_trans; eassumption|]. right; right; left. done. }
  apply wp_bind. eapply wp_mono; [apply spawn_middle_calls|].
  intros res s3 (mid & M3 & Hm & Hp). apply wp_bind, wp_call. intros r4 s4 M4.
  apply wp_ret, wp_bind, wp_call. intros r5 s5 M5. apply wp_ret. eexists.
  split; [eapply made_trans, made_trans, made_trans, made_trans; eassumption|].
  right; right; right. exists mid. split; [|done]. do 4 eexists. split; [reflexivity|apply Hm].
Qed.

(** C39: forkAndExecInChild releases what it creates and never reports a pid with
    an error: what posix_spawn cannot do is refused with ENOSYS before any C
    call; a failing initialiser leaves nothing behind; past both initialisers,
    whatever the dup2s, the directory change or posix_spawn answer, the run ends
    with the attributes and then the file actions destroyed, each once. *)
Theorem forkAndExecInChild_cleans_up argv0 argv envv chroot dir attr sys pipe s :
  wp (forkAndExecInChild argv0 argv envv chroot dir attr sys pipe)
    (fun '(pid, e) s' => (e <> 0 -> pid = 0) /\ exists calls, made s calls s' /\
       ((spawn_unsupported sys = true /\ calls = [] /\ e = ENOSYS) \/
        (map fst calls = ["posix_spawn_file_actions_init"]%string /\ e <> 0) \/
        (map fst calls = ["posix_spawn_file_actions_init"; "posix_spawnattr_init";
                          "posix_spawn_file_actions_destroy"]%string /\ e <> 0) \/
        exists mid, bracketed middle_calls mid calls)) s.
Proof.
  eapply wp_mono; [apply forkAndExecInChild_calls|]. intros [pid e] s' (calls & M & H).
  split; [unfold forkAndExecInChild_spec in H; naive_solver|]. exists calls. split; [done|].
  destruct H as [H|[H|[H|(mid & H & _)]]]; naive_solver.
Qed.

(** C40: when a pid is reported, posix_spawn was called after one dup2 per entry
    of [attr.Files], in order, and the table these leave in the child (the
    entries being open in the parent, as distinct files) has every entry at its
    place exactly when no entry names a descriptor that an earlier entry has
    already replaced. *)
Theorem forkAndExecInChild_files {F} (t : gmap Z F) argv0 argv envv chroot dir attr sys pipe s :
  Z.of_nat (length (attr_Files attr)) < 2 ^ 31 ->
  Forall (fun f => is_Some (t !! f)) (attr_Files attr) ->
  (forall a b, is_Some (t !! a) -> t !! a = t !! b -> a = b) ->
  wp (forkAndExecInChild argv0 argv envv chroot dir attr sys pipe)
    (fun '(pid, e) s' => e = 0 -> exists pre args post t',
       made s (pre ++ ("posix_spawn"%string, args) :: post) s' /\
       dup2_actions post = [] /\
       child_table (dup2_actions pre) t = Some t' /\
       (placed t t' 0 (attr_Files attr) <-> no_clobber (attr_Files attr))) s.
Proof.
  intros Hlen Hopen Hinj.
  eapply wp_mono; [apply forkAndExecInChild_calls|]. intros [pid e] s' (calls & M & H) ->.
  destruct H as [(_ & _ & H & _)|[(_ & H & _)|[(_ & H & _)|(mid & Hb & (_ & Hm) & _)]]]; try done.
  destruct (Hm eq_refl) as (dups & rest & args & -> & Hd & _ & Hin & Hr).
  destruct Hb as (a & b & y & z & -> & _).
  apply list_elem_of_split in Hin as (r1 & r2 & ->).
  unfold dup2_actions in Hr. rewrite omap_app in Hr. apply app_nil in Hr as [Hr1 Hr2].
  destruct (placed_iff (attr_Files attr) t) as (t' & E & Hp); [lia|done..|].
  exists ([("posix_spawn_file_actions_init"%string, a); ("posix_spawnattr_init"%string, b)] ++ dups ++ r1),
    args, (r2 ++ [("posix_spawnattr_destroy"%string, y); ("posix_spawn_file_actions_destroy"%string, z)]), t'.
  cbn [omap list_omap] in Hr2. rewrite dup2_action_name in Hr2 by done. split_and!; [|..|done].
  - rewrite <- !app_assoc in *. exact M.
  - unfold dup2_actions. rewrite omap_app, Hr2. cbn [omap list_omap app]. by rewrite !dup2_action_name.
  - unfold dup2_actions in *. rewrite !omap_app, Hr1, app_nil_r, Hd. cbn [omap list_omap].
    by rewrite !dup2_action_name.
Qed.
End spawn_calls.

(** ** The working directory

    What forkAndExecInChild relies on: only chdir and fchdir move the process;
    getcwd, given 4096 bytes, answers with the directory when its path fits; and a
    directory the process may enter can be returned to by its path. *)
Class LibcCwd (W : Type) `{!Libc W} : Type := {
  cwd : W -> list Z;
  enterable : list Z -> Prop;
  cwd_set_errno : forall e w, cwd (libc_set_errno e w) = cwd w;
  cwd_other : forall fn args w, fn <> "chdir"%string -> fn <> "fchdir"%string ->
    cwd (fst (libc_call fn args w)) = cwd w;
  cwd_getcwd : forall b n w, 4096 <= n -> length b = Z.to_nat n -> Z.of_nat (length (cwd w)) < 4096 ->
    let rp := snd (libc_call "getcwd" [CBuf b; CInt n] w) in
    u32 (rp_r1 rp) <> 0 /\ cstr (refill b (nth 0 (rp_bufs rp) b)) = cwd w;
  cwd_chdir : forall d w, enterable d -> cwd (fst (libc_call "chdir" [CStr d] w)) = d;
}.

Section cwd.
Context {W : Type} `{!Libc W} `{!LibcCwd W}.
Implicit Types s : osst W.

Lemma cwd_bridge s : cwd (bridge_world s) = cwd (os_w s).
Proof. unfold bridge_world. destruct (os_perrno s); [apply cwd_set_errno|done]. Qed.

(** The directory's path fits getcwd's buffer, and leads back. *)
Definition returnable (d : list Z) : Prop := Z.of_nat (length d) < 4096 /\ enterable d.

(** [keeps m]: [m] leaves such a working directory as it was. *)
Definition keeps {A} (m : SysM W A) : Prop :=
  forall s, returnable (cwd (os_w s)) -> wp m (fun _ s' => cwd (os_w s') = cwd (os_w s)) s.

Lemma keeps_ret {A} (a : A) : keeps (st_ret a).
Proof. by intros s _. Qed.

Lemma keeps_bind {A B} (m : SysM W A) (k : A -> SysM W B) :
  keeps m -> (forall a, keeps (k a)) -> keeps (st_bind m k).
Proof.
  intros Hm Hk s Hs. apply wp_bind. eapply wp_mono; [by apply Hm|]. intros a s1 E1. cbn in E1.
  eapply wp_mono; [apply Hk; by rewrite E1|]. intros b s2 E2. cbn in E2 |- *. congruence.
Qed.

Lemma keeps_call fn n args : fn <> "chdir"%string -> fn <> "fchdir"%string -> keeps (sysvicall6 fn n args).
Proof.
  intros H1 H2 s _. apply wp_sysvicall6. intros w2 rp E. cbn [os_w].
  rewrite <- (cwd_bridge s), <- (cwd_other fn (take (Z.to_nat (Z.min n 6)) args) (bridge_world s) H1 H2).
  by rewrite E.
Qed.

Lemma keeps_adddup2 files : forall fa i, keeps (adddup2_files fa i files).
Proof.
  induction files as [|f files IH]; intros fa i; cbn [adddup2_files]; [apply keeps_ret|].
  apply keeps_bind; [by apply keeps_call|]. intros r. destruct (negb _); [apply keeps_ret|apply IH].
Qed.

Lemma keeps_set_pgroup sys sa : keeps (set_pgroup sys sa).
Proof.
  unfold set_pgroup. destruct (sys_Setpgid sys); [|apply keeps_ret].
  apply keeps_bind; [by apply keeps_call|]. intros r. apply keeps_bind; [by apply keeps_call|].
  intros r'. apply keeps_ret.
Qed.

Lemma keeps_posix_spawn argv0 argv envv fa sa : keeps (posix_spawn argv0 argv envv fa sa).
Proof.
  unfold posix_spawn. apply keeps_bind; [by apply keeps_call|]. intros r.
  destruct (negb _); apply keeps_ret.
Qed.

Lemma keeps_in_dir dir fa sa k : keeps k -> keeps (in_dir dir fa sa k).
Proof.
  intros Hk s [Hlen Hent]. unfold in_dir. destruct dir as [dir|]; [|by apply Hk].
  apply wp_bind, wp_sysvicall6. change (take (Z.to_nat (Z.min 2 6)) [CBuf wd0; CInt 4096]) with [CBuf wd0; CInt 4096].
  intros w2 rp E. rewrite <- (cwd_bridge s) in *.
  destruct (cwd_getcwd wd0 4096 (bridge_world s)) as [Hr Hwd]; [lia|done|done|].
  rewrite E in Hr, Hwd. cbn [snd sr_r1 sr_bufs] in *.
  change (arg_bufs [CBuf wd0; CInt 4096]) with [wd0]. rewrite nth_refill_all.
  rewrite (proj2 (Z.eqb_neq _ 0) Hr). cbn [negb]. apply wp_bind.
  unfold wp at 1. destruct (st_bind _ _ _) as [res s2]. apply wp_bind, wp_sysvicall6.
  intros w3 rp3 E3. apply wp_ret. cbn [os_w].
  change (take (Z.to_nat (Z.min 1 6)) ?l) with l in E3. unfold c_string in E3. rewrite Hwd in E3.
  pose proof (cwd_chdir _ (bridge_world s2) Hent) as H. by rewrite E3 in H.
Qed.

(** Starting a process never moves the parent: whatever becomes of the
    spawn, the working directory afterwards is the one before, provided its path
    fits getcwd's buffer and it can be entered again. *)
Theorem forkAndExecInChild_keeps_cwd argv0 argv envv chroot dir attr sys pipe s :
  Z.of_nat (length (cwd (os_w s))) < 4096 -> enterable (cwd (os_w s)) ->
  wp (forkAndExecInChild argv0 argv envv chroot dir attr sys pipe)
    (fun _ s' => cwd (os_w s') = cwd (os_w s)) s.
Proof.
  intros Hlen Hent. cut (keeps (forkAndExecInChild argv0 argv envv chroot dir attr sys pipe)).
  { intros H. apply H. by split. }
  unfold forkAndExecInChild.
  repeat first
    [ apply keeps_ret | apply keeps_adddup2 | apply keeps_set_pgroup | apply keeps_posix_spawn
    | apply keeps_in_dir | by apply keeps_call
    | apply keeps_bind; [|intros ?]
    | match goal with |- keeps (let '(_, _) := ?p in _) => destruct p end
    | match goal with |- keeps (if ?b then _ else _) => destruct b end ].
Qed.
End cwd.

(** ** exec_unix.go and forkpipe.go: the framework *)
Inductive exec_error : Type :=
| ErrErrno (e : Z)
| ErrText (msg : string).

#[export] Instance exec_error_eq_dec : EqDecision exec_error.
Proof. solve_decision. Defined.

(** The machine and ForkLock, which this goroutine either holds or not. *)
Record fxst (W : Type) : Type := mkFx { fx_os : osst W; fx_lock : bool }.
Arguments mkFx {W} fx_os fx_lock.
Arguments fx_os {W} f.
Arguments fx_lock {W} f.

Section framework.
Context {W : Type} `{!Libc W}.

Definition CloseOnExec (fd : Z) : SysM W unit := let* _ := fcntl fd F_SETFD FD_CLOEXEC in st_ret tt.

Definition SetNonblock (fd : Z) (nonblocking : bool) : SysM W (option Z) :=
  let* r := fcntl fd F_GETFL 0 in
  let '(flag, err) := r in
  match err with
  | Some e => st_ret (Some e)
  | None =>
    if Bool.eqb (negb (Z.land flag O_NONBLOCK =? 0)) nonblocking then st_ret None else
    let flag := if nonblocking then Z.lor flag O_NONBLOCK else Z.ldiff flag O_NONBLOCK in
    let* r := fcntl fd F_SETFL flag in st_ret (snd r)
  end.

(** The error and p. *)
Definition forkExecPipe (p : list Z) : SysM W (option Z * list Z) :=
  let* r := Pipe p in
  let '(err, p) := r in
  match err with
  | Some e => st_ret (Some e, p)
  | None =>
    let* r := fcntl (nth 0 p 0) F_SETFD FD_CLOEXEC in
    match snd r with
    | Some e => st_ret (Some e, p)
    | None => let* r := fcntl (nth 1 p 0) F_SETFD FD_CLOEXEC in st_ret (snd r, p)
    end
  end.

Abbreviation G := (GoM (fxst W)).

Definition fx_sys {A} (m : SysM W A) : G A :=
  fun s => let (a, o) := m (fx_os s) in Ret a (mkFx o (fx_lock s)).

(** A second Lock by the holder never returns; an Unlock by a non-holder throws. *)
Definition acquireForkLock : G unit :=
  fun s => if fx_lock s then Throw "deadlock" s else Ret tt (mkFx (fx_os s) true).
Definition releaseForkLock : G unit :=
  fun s => if fx_lock s then Ret tt (mkFx (fx_os s) false)
           else Throw "sync: Unlock of unlocked RWMutex" s.

(** [for { n, err = readlen(...); if err != EINTR { break } }] *)
Fixpoint read_status (fuel : nat) (fd : Z) (buf : list Z) : G (Z * option Z * list Z) :=
  match fuel with
  | O => fun _ => NoFuel
  | S fuel =>
    let! r := fx_sys (readlen fd buf 4) in
    let '(n, err, buf) := r in
    if bool_decide (err = Some EINTR) then read_status fuel fd buf else go_ret (n, err, buf)
  end.

(** [Wait4] until it is not interrupted. *)
Fixpoint wait_child (fuel : nat) (pid : Z) : G unit :=
  match fuel with
  | O => fun _ => NoFuel
  | S fuel =>
    let! r := fx_sys (Wait4 pid 0 None) in
    let '(_, err, _) := r in
    if bool_decide (err = Some EINTR) then wait_child fuel pid else go_ret tt
  end.

(** From the spawn on: [p] is the status pipe. *)
Definition forkExec_child (fuel : nat) (argv0p : list Z) (argvp envvp : list (option Z) * list Z)
    (chroot dir : option (list Z)) (attr : ProcAttr) (sys : SysProcAttr) (p : list Z) :
    G (Z * option exec_error) :=
  let p0 := nth 0 p 0 in
  let p1 := nth 1 p 0 in
  let! r := fx_sys (forkAndExecInChild argv0p argvp envvp chroot dir attr sys p1) in
  let '(pid, err1) := r in
  if negb (err1 =? 0) then
    fx_sys (Close p0) ;! fx_sys (Close p1) ;! releaseForkLock ;! go_ret (0, Some (ErrErrno err1))
  else
    releaseForkLock ;!
    fx_sys (Close p1) ;!
    let! r := read_status fuel p0 [0; 0; 0; 0] in
    let '(n, err, buf) := r in
    fx_sys (Close p0) ;!
    if bool_decide (err <> None) || negb (n =? 0) then
      let err := if n =? 4 then Some (le_value buf) else err in
      let err := match err with Some e => e | None => EPIPE end in
      wait_child fuel pid ;!
      go_ret (0, Some (ErrErrno err))
    else go_ret (pid, None).

(** [if s != "" { ptr, err = BytePtrFromString(s) }] *)
Definition opt_byte_ptr (s : list Z) : option (list Z) + Z :=
  match s with
  | [] => inl None
  | _ => match BytePtrFromString s with inl p => inl (Some p) | inr e => inr e end
  end.

Definition forkExec (fuel : nat) (argv0 : list Z) (argv : list (list Z)) (attr : option ProcAttr) :
    G (Z * option exec_error) :=
  let attr := default zeroProcAttr attr in
  let sys := default zeroSysProcAttr (attr_Sys attr) in
  match BytePtrFromString argv0, SlicePtrFromStrings argv, SlicePtrFromStrings (attr_Env attr) with
  | inr e, _, _ | inl _, inr e, _ | inl _, inl _, inr e => go_ret (0, Some (ErrErrno e))
  | inl argv0p, inl argvp, inl envvp =>
    match opt_byte_ptr (sys_Chroot sys) with
    | inr e => go_ret (0, Some (ErrErrno e))
    | inl chroot =>
      match opt_byte_ptr (attr_Dir attr) with
      | inr e => go_ret (0, Some (ErrErrno e))
      | inl dir =>
        if sys_Setctty sys && sys_Foreground sys then
          go_ret (0, Some (ErrText "both Setctty and Foreground set in SysProcAttr"))
        else if sys_Setctty sys && (Z.of_nat (length (attr_Files attr)) <=? sys_Ctty sys) then
          go_ret (0, Some (ErrText "Setctty set but Ctty not valid in child"))
        else
          acquireForkLock ;!
          let! r := fx_sys (forkExecPipe [0; 0]) in
          let '(err, p) := r in
          match err with
          | Some e => releaseForkLock ;! go_ret (0, Some (ErrErrno e))
          | None => forkExec_child fuel argv0p argvp envvp chroot dir attr sys p
          end
      end
    end
  end.

Definition ForkExec := forkExec.
Definition StartProcess (fuel : nat) (argv0 : list Z) (argv : list (list Z)) (attr : option ProcAttr) :
    G (Z * Z * option exec_error) :=
  let! r := forkExec fuel argv0 argv attr in go_ret (fst r, 0, snd r).

(** exec_unix.go: Exec, on a platform without execveLibc; [rlim] is the limit
    saved by os, which setrlimit puts back. *)
Definition Exec (rlim : option (list Z)) (argv0 : list Z) (argv envv : list (list Z)) : SysM W (option Z) :=
  match BytePtrFromString argv0, SlicePtrFromStrings argv, SlicePtrFromStrings envv with
  | inr e, _, _ | inl _, inr e, _ | inl _, inl _, inr e => st_ret (Some e)
  | inl argv0p, inl argvp, inl envvp =>
    let* _ := match rlim with
              | Some l => let* _ := setrlimit 5 l in st_ret tt
              | None => st_ret tt
              end in
    let* r := RawSyscall 0 0 0 0 in st_ret (snd r)
  end.
End framework.

(** ** The framework's contract *)

(** A call is interrupted only finitely often: a count that every interrupted
    read or wait4 uses up and no call adds to. *)
Class LibcPatience (W : Type) `{!Libc W} : Type := {
  patience : W -> nat;
  patience_set_errno : forall e w, patience (libc_set_errno e w) = patience w;
  patience_call : forall fn args w, (patience (fst (libc_call fn args w)) <= patience w)%nat;
  patience_eintr : forall fn args w, fn = "read"%string \/ fn = "wait4"%string ->
    u32 (libc_errno (fst (libc_call fn args w))) = EINTR ->
    (patience (fst (libc_call fn args w)) < patience w)%nat;
}.

Section framework_contract.
Context {W : Type} `{!Libc W} `{!LibcPatience W}.
Implicit Types o : osst W.

Definition patient (o : osst W) : nat := patience (os_w o).

Lemma patience_bridge o : patience (bridge_world o) = patient o.
Proof. unfold bridge_world, patient. destruct (os_perrno o); [apply patience_set_errno|done]. Qed.

(** One call with its effect on the count. *)
Lemma wp_call_patient fn n args Q o :
  (forall r o', made o [(fn, take (Z.to_nat (Z.min n 6)) args)] o' ->
     (patient o' <= patient o)%nat ->
     (fn = "read"%string \/ fn = "wait4"%string -> sr_err r = EINTR -> (patient o' < patient o)%nat) ->
     Q r o') ->
  wp (sysvicall6 fn n args) Q o.
Proof.
  intros H. apply wp_sysvicall6. intros w2 rp E.
  pose proof (patience_call fn (take (Z.to_nat (Z.min n 6)) args) (bridge_world o)) as Hle.
  pose proof (patience_eintr fn (take (Z.to_nat (Z.min n 6)) args) (bridge_world o)) as Hlt.
  rewrite E, patience_bridge in Hle, Hlt. cbn [fst] in Hle, Hlt. apply H; [|exact Hle|].
  - split; [done|]. cbn [os_trace]. by rewrite calls_of_app.
  - intros Hfn He. cbn [sr_err] in He. apply Hlt; [done|]. destruct (os_perrno o); [done|discriminate].
Qed.

(** [settles m]: [m] uses no more than it was given of the count. *)
Definition settles {A} (m : SysM W A) : Prop :=
  forall o, wp m (fun _ o' => (patient o' <= patient o)%nat) o.

Lemma settles_ret {A} (a : A) : settles (st_ret a).
Proof. intros o. by apply wp_ret. Qed.

Lemma settles_bind {A B} (m : SysM W A) (k : A -> SysM W B) :
  settles m -> (forall a, settles (k a)) -> settles (st_bind m k).
Proof.
  intros Hm Hk o. apply wp_bind. eapply wp_mono; [apply Hm|]. intros a o1 H1. cbn in H1.
  eapply wp_mono; [apply Hk|]. intros b o2 H2. cbn in H2 |- *. lia.
Qed.

Lemma settles_call fn n args : settles (sysvicall6 fn n args).
Proof. intros o. by apply wp_call_patient. Qed.

Lemma settles_adddup2 files : forall fa i, settles (adddup2_files fa i files).
Proof.
  induction files as [|f files IH]; intros fa i; cbn [adddup2_files]; [apply settles_ret|].
  apply settles_bind; [apply settles_call|]. intros r. destruct (negb _); [apply settles_ret|apply IH].
Qed.

Ltac settle :=
  repeat first
    [ apply settles_ret | apply settles_adddup2 | apply settles_call | assumption
    | apply settles_bind; [|intros ?]
    | match goal with
      | |- settles (let '(_, _) := ?p in _) => destruct p
      | |- settles (if ?b then _ else _) => destruct b
      | |- settles (match ?b with _ => _ end) => destruct b
      end ].

Lemma settles_fork argv0 argv envv chroot dir attr sys pipe :
  settles (forkAndExecInChild argv0 argv envv chroot dir attr sys pipe).
Proof. unfold forkAndExecInChild, set_pgroup, in_dir, posix_spawn. settle. Qed.

Lemma settles_Pipe p : settles (Pipe p).
Proof. unfold Pipe. settle. Qed.

Lemma settles_fcntl fd cmd arg : settles (fcntl fd cmd arg).
Proof. unfold fcntl. settle. Qed.

(** What a step of the framework did to the machine: the calls it made, the lock
    as it was. *)
Definition did (s : fxst W) (calls : list (string * list carg)) (s' : fxst W) : Prop :=
  made (fx_os s) calls (fx_os s') /\ (patient (fx_os s') <= patient (fx_os s))%nat.

Lemma did_refl s : did s [] s.
Proof. split; [apply made_refl|done]. Qed.

Lemma did_trans s1 c1 s2 c2 s3 : did s1 c1 s2 -> did s2 c2 s3 -> did s1 (c1 ++ c2) s3.
Proof. intros [M1 P1] [M2 P2]. split; [eapply made_trans; eassumption|lia]. Qed.

Lemma go_wp_sys {A} (m : SysM W A) Q s :
  wp m (fun a o => Q a (mkFx o (fx_lock s))) (fx_os s) -> go_wp (fx_sys m) Q s.
Proof. unfold wp, go_wp, fx_sys. by destruct (m (fx_os s)). Qed.

Lemma go_wp_Close fd Q s :
  (forall e s', did s [("close"%string, [CInt (u32 fd)])] s' -> fx_lock s' = fx_lock s -> Q e s') ->
  go_wp (fx_sys (Close fd)) Q s.
Proof.
  intros H. apply go_wp_sys. apply wp_bind, wp_call_patient. intros r o' M P _.
  apply wp_ret, H; [|done]. by split.
Qed.

(** Enough fuel for the two loops, whose calls are all the same. *)
Lemma read_status_ends fuel fd : forall buf s, (patient (fx_os s) < fuel)%nat ->
  go_wp (read_status fuel fd buf) (fun '(n, err, _) s' => fx_lock s' = fx_lock s /\
    err <> Some EINTR /\
    exists calls, did s calls s' /\ calls <> [] /\ Forall (fun c => fst c = "read"%string) calls) s.
Proof.
  induction fuel as [|fuel IH]; intros buf s Hf; [lia|]. cbn [read_status].
  apply go_wp_bind, go_wp_sys. apply wp_bind, wp_call_patient. intros r o' M P E. apply wp_ret.
  unfold err_of. destruct (Z.eqb_spec (sr_err r) 0) as [H0|H0].
  - rewrite bool_decide_false by done. apply go_wp_ret. split; [done|]. split; [done|].
    eexists. split; [by split|]. split; [done|]. by repeat constructor.
  - case_bool_decide as H1.
    + injection H1 as H1. specialize (E ltac:(by left) H1).
      eapply go_wp_mono; [apply IH; cbn [fx_os]; lia|].
      intros [[n err] b] s' (Hl & He & calls & M' & Hc & Ha). split; [done|]. split; [done|].
      eexists. split; [eapply did_trans; [|exact M']; by split|]. split; [done|]. by constructor.
    + apply go_wp_ret. split; [done|]. split; [done|].
      eexists. split; [by split|]. split; [done|]. by repeat constructor.
Qed.

Lemma wait_child_ends fuel pid : forall s, (patient (fx_os s) < fuel)%nat ->
  go_wp (wait_child fuel pid) (fun _ s' => fx_lock s' = fx_lock s /\
    exists calls, did s calls s' /\ calls <> [] /\ Forall (fun c => fst c = "wait4"%string) calls) s.
Proof.
  induction fuel as [|fuel IH]; intros s Hf; [lia|]. cbn [wait_child].
  apply go_wp_bind, go_wp_sys. apply wp_bind, wp_call_patient. intros r o' M P E.
  destruct (Z.eqb_spec (sr_err r) 0) as [H0|H0]; cbn [negb]; apply wp_ret.
  - rewrite bool_decide_false by done. apply go_wp_ret. split; [done|].
    eexists. split; [by split|]. split; [done|]. by repeat constructor.
  - case_bool_decide as H1.
    + injection H1 as H1. specialize (E ltac:(by right) H1).
      eapply go_wp_mono; [apply IH; cbn [fx_os]; lia|].
      intros [] s' (Hl & calls & M' & Hc & Ha). split; [done|].
      eexists. split; [eapply did_trans; [|exact M']; by split|]. split; [done|]. by constructor.
    + apply go_wp_ret. split; [done|].
      eexists. split; [by split|]. split; [done|]. by repeat constructor.
Qed.

Definition close_call (fd : Z) : string * list carg := ("close"%string, [CInt (u32 fd)]).
Definition cloexec_call (fd : Z) : string * list carg :=
  ("fcntl"%string, [CInt (u32 fd); CInt F_SETFD; CInt FD_CLOEXEC]).

(** The calls that make the status pipe. *)
Definition pipe_calls (a b : Z) : list (string * list carg) :=
  [("pipe"%string, [CBuf [0; 0]]); cloexec_call a; cloexec_call b].

(** The calls after the spawn: both ends of the pipe are closed, and a child that
    reported a failure is waited for. *)
Inductive ending (a b : Z) : option exec_error -> list (string * list carg) -> Prop :=
| spawn_failed e : ending a b (Some e) [close_call a; close_call b]
| exec_succeeded reads :
    reads <> [] -> Forall (fun c => fst c = "read"%string) reads ->
    ending a b None ([close_call b] ++ reads ++ [close_call a])
| child_failed e reads waits :
    reads <> [] -> Forall (fun c => fst c = "read"%string) reads ->
    waits <> [] -> Forall (fun c => fst c = "wait4"%string) waits ->
    ending a b (Some e) ([close_call b] ++ reads ++ [close_call a] ++ waits).

Lemma fcntl_calls fd cmd arg o :
  wp (fcntl fd cmd arg) (fun _ o' => made o [("fcntl"%string, [CInt (u32 fd); CInt (u32 cmd); CInt (u32 arg)])] o') o.
Proof. apply wp_bind, wp_call. intros r o' M. by apply wp_ret. Qed.

Lemma forkExecPipe_calls o :
  wp (forkExecPipe [0; 0]) (fun '(err, p) o' => exists calls, made o calls o' /\
    ((err <> None /\ map fst calls `prefix_of` ["pipe"; "fcntl"; "fcntl"]%string) \/
     (err = None /\ exists a b, p = [a; b] /\ calls = pipe_calls a b))) o.
Proof.
  unfold forkExecPipe. apply wp_bind. unfold Pipe. cbn [length Nat.eqb negb].
  apply wp_bind, wp_call. intros r o1 M1. destruct (Z.eqb_spec (sr_err r) 0) as [E|E]; cbn [negb]; apply wp_ret.
  2:{ apply wp_ret. eexists. split; [exact M1|]. left. split; [done|]. by eexists. }
  cbn [nth]. set (a := i32 _). set (b := i32 _). clearbody a b.
  apply wp_bind. eapply wp_mono; [apply fcntl_calls|]. intros [na [ea|]] o2 M2; cbn [snd] in *.
  { apply wp_ret. eexists. split; [eapply made_trans; eassumption|]. left. split; [done|]. by eexists. }
  apply wp_bind. eapply wp_mono; [apply fcntl_calls|]. intros [nb eb] o3 M3. apply wp_ret. cbn [snd].
  eexists. split; [eapply made_trans; [eapply made_trans|]; eassumption|].
  destruct eb as [eb|]; [left|right]; (split; [done|]); [by eexists|]. by do 2 eexists.
Qed.

Lemma settles_forkExecPipe p : settles (forkExecPipe p).
Proof.
  unfold forkExecPipe. apply settles_bind; [apply settles_Pipe|]. intros [[e|] p']; [apply settles_ret|].
  apply settles_bind; [apply settles_fcntl|]. intros [n [e|]]; [apply settles_ret|].
  apply settles_bind; [apply settles_fcntl|]. intros r. apply settles_ret.
Qed.

Lemma forkExec_child_ends fuel argv0p argvp envvp chroot dir attr sys a b s :
  fx_lock s = true -> (patient (fx_os s) < fuel)%nat ->
  go_wp (forkExec_child fuel argv0p argvp envvp chroot dir attr sys [a; b])
    (fun '(pid, err) s' => fx_lock s' = false /\ (err <> None -> pid = 0) /\
       exists spawn rest pid' e, did s (spawn ++ rest) s' /\
         forkAndExecInChild_spec sys attr pid' e spawn /\ ending a b err rest /\
         (err = None -> e = 0 /\ pid = pid')) s.
Proof.
  intros Hl Hf. unfold forkExec_child. cbn [nth]. apply go_wp_bind, go_wp_sys.
  eapply wp_mono; [apply wp_and; [apply forkAndExecInChild_calls|apply settles_fork]|].
  intros [pid e] o1 [(spawn & M1 & Hs) P1]. cbn beta in P1. rewrite Hl.
  assert (did s spawn (mkFx o1 true)) as D1 by (by split).
  destruct (Z.eqb_spec e 0) as [He|He]; cbn [negb].
  - apply go_wp_bind. unfold releaseForkLock, go_wp at 1. cbn [fx_lock fx_os].
    assert (did s spawn (mkFx o1 false)) as D1' by exact D1.
    apply go_wp_bind, go_wp_Close. intros _ s2 D2 L2. apply go_wp_bind.
    eapply go_wp_mono; [apply read_status_ends; destruct D1', D2; cbn [fx_os] in *; lia|].
    intros [[n err] buf] s3 (L3 & _ & reads & D3 & Hr & Ha). apply go_wp_bind, go_wp_Close.
    intros _ s4 D4 L4. cbn [fx_lock] in L2. destruct (_ || _).
    + apply go_wp_bind.
      eapply go_wp_mono; [apply wait_child_ends; destruct D1', D2, D3, D4; cbn [fx_os] in *; lia|].
      intros _ s5 (L5 & waits & D5 & Hw & Hwa). apply go_wp_ret. split; [congruence|]. split; [done|].
      exists spawn, ([close_call b] ++ reads ++ [close_call a] ++ waits), pid, e. split_and!; try done.
      * eapply did_trans; [exact D1'|]. repeat (eapply did_trans; [eassumption|]). done.
      * by apply child_failed.
    + apply go_wp_ret. split; [congruence|]. split; [done|].
      exists spawn, ([close_call b] ++ reads ++ [close_call a]), pid, e. split_and!; try done.
      * eapply did_trans; [exact D1'|]. repeat (eapply did_trans; [eassumption|]). done.
      * by apply exec_succeeded.
  - apply go_wp_bind, go_wp_Close. intros _ s2 D2 L2. apply go_wp_bind, go_wp_Close. intros _ s3 D3 L3.
    apply go_wp_bind. unfold releaseForkLock, go_wp at 1. rewrite L3, L2. cbn [fx_lock].
    apply go_wp_ret. split; [done|]. split; [done|].
    exists spawn, [close_call a; close_call b], pid, e. split_and!; try done; [|apply spawn_failed].
    eapply did_trans; [exact D1|]. eapply (did_trans _ [_] _ [_]); [exact D2|]. exact D3.
Qed.

(** C26: ForkExec always returns, with ForkLock released and never unlocked twice,
    and reports a pid or an error but not both.  Either nothing was started and at
    most the pipe was being set up, or the pipe was made, the spawn ran as
    forkAndExecInChild promises, both ends were closed, a child that failed was
    waited for, and the pid reported is the one of a successful spawn.  Enough
    fuel is one more than the interruptions to come. *)
Theorem forkExec_outcome fuel argv0 argv attr s :
  fx_lock s = false -> (patient (fx_os s) < fuel)%nat ->
  go_wp (ForkExec fuel argv0 argv attr)
    (fun '(pid, err) s' => fx_lock s' = false /\ (err <> None -> pid = 0) /\
       exists calls, made (fx_os s) calls (fx_os s') /\
         ((err <> None /\ map fst calls `prefix_of` ["pipe"; "fcntl"; "fcntl"]%string) \/
          (exists a b spawn rest pid' e, calls = pipe_calls a b ++ spawn ++ rest /\
             forkAndExecInChild_spec (default zeroSysProcAttr (attr_Sys (default zeroProcAttr attr)))
               (default zeroProcAttr attr) pid' e spawn /\
             ending a b err rest /\ (err = None -> e = 0 /\ pid = pid')))) s.
Proof.
  intros Hl Hf. unfold ForkExec, forkExec. cbv zeta.
  set (at' := default zeroProcAttr attr). set (sys := default zeroSysProcAttr (attr_Sys at')).
  assert (forall e, go_wp (go_ret (0, Some e)) (fun '(pid, err) s' => fx_lock s' = false /\ (err <> None -> pid = 0) /\
       exists calls, made (fx_os s) calls (fx_os s') /\
         ((err <> None /\ map fst calls `prefix_of` ["pipe"; "fcntl"; "fcntl"]%string) \/
          (exists a b spawn rest pid' e, calls = pipe_calls a b ++ spawn ++ rest /\
             forkAndExecInChild_spec sys at' pid' e spawn /\
             ending a b err rest /\ (err = None -> e = 0 /\ pid = pid')))) s) as Hearly.
  { intros e. apply go_wp_ret. split; [done|]. split; [done|]. exists []. split; [apply made_refl|].
    left. split; [done|]. apply prefix_nil. }
  destruct (BytePtrFromString argv0) as [argv0p|e]; [|apply Hearly].
  destruct (SlicePtrFromStrings argv) as [argvp|e]; [|apply Hearly].
  destruct (SlicePtrFromStrings (attr_Env at')) as [envvp|e]; [|apply Hearly].
  destruct (opt_byte_ptr (sys_Chroot sys)) as [chroot|e]; [|apply Hearly].
  destruct (opt_byte_ptr (attr_Dir at')) as [dir|e]; [|apply Hearly].
  destruct (_ && _); [apply Hearly|]. destruct (_ && _); [apply Hearly|]. clear Hearly.
  apply go_wp_bind. unfold acquireForkLock, go_wp at 1. rewrite Hl.
  apply go_wp_bind, go_wp_sys.
  eapply wp_mono; [apply wp_and; [apply forkExecPipe_calls|apply settles_forkExecPipe]|].
  intros [err p] o1 [(calls & M1 & H1) P1]. cbn [fx_os fx_lock] in *. destruct H1 as [[He Hc]|(-> & a & b & -> & ->)].
  - destruct err as [e|]; [|done]. cbn. split; [done|]. split; [done|].
    exists calls. split; [exact M1|]. by left.
  - eapply go_wp_mono; [apply forkExec_child_ends; [done|cbn in *; lia]|].
    intros [pid err] s' (L & Hp & spawn & rest & pid' & e & [M2 _] & Hs & He & Hok).
    split; [done|]. split; [done|]. eexists. split; [eapply made_trans; [exact M1|exact M2]|].
    right. by exists a, b, spawn, rest, pid', e.
Qed.
End framework_contract.

(** ** Concrete C libraries *)

(** One that keeps a working directory. *)
Module DirLibc.
Record world : Type := mkWorld { dw_dir : list Z; dw_errno : Z }.

Definition call (fn : string) (args : list carg) (w : world) : world * reply :=
  match args with
  | [CStr d] => if String.eqb fn "chdir" then (mkWorld d (dw_errno w), mkReply 0 0 []) else (w, mkReply 0 0 [])
  | [CBuf _; CInt _] =>
    if String.eqb fn "getcwd" then (w, mkReply 1 0 [cstr (dw_dir w) ++ [0]]) else (w, mkReply 0 0 [])
  | _ => (w, mkReply 0 0 [])
  end.

#[global] Instance libc : Libc world := {|
  libc_call := call; libc_errno := dw_errno; libc_set_errno e w := mkWorld (dw_dir w) e |}.

Lemma call_other fn args w : fn <> "chdir"%string -> dw_dir (fst (call fn args w)) = dw_dir w.
Proof.
  intros H. apply String.eqb_neq in H. unfold call. repeat case_match; try done; cbn; congruence.
Qed.

#[global] Instance libc_cwd : LibcCwd world.
Proof.
  refine {| cwd w := cstr (dw_dir w); enterable d := 0 ∉ d |}.
  - done.
  - intros fn args w H _. f_equal. by apply call_other.
  - intros b n w Hn Hb Hw. split; [done|].
    change (rp_bufs _) with [cstr (dw_dir w) ++ [0]]. cbn [nth]. unfold refill.
    rewrite <- app_assoc, take_app_ge by lia.
    destruct (length b - length (cstr (dw_dir w)))%nat as [|k] eqn:Ek; [lia|].
    cbn [app take]. apply cstr_terminated, cstr_no_nul.
  - intros d w Hd. by apply cstr_id.
Defined.
End DirLibc.

(** One whose reads are interrupted a given number of times. *)
Module SlowLibc.
Record world : Type := mkWorld { lw_left : nat; lw_errno : Z }.

Definition call (fn : string) (args : list carg) (w : world) : world * reply :=
  match lw_left w with
  | S n => if String.eqb fn "read" then (mkWorld n EINTR, mkReply (-1) 0 []) else (mkWorld (S n) 0, mkReply 0 0 [])
  | O => (mkWorld 0 0, mkReply 0 0 [])
  end.

#[global] Instance libc : Libc world := {|
  libc_call := call; libc_errno := lw_errno; libc_set_errno e w := mkWorld (lw_left w) e |}.

#[global] Instance libc_patience : LibcPatience world.
Proof.
  refine {| patience := lw_left |}.
  - done.
  - intros fn args [[|n] e]; cbn; [lia|]. unfold call. cbn. destruct (String.eqb fn "read"); cbn; lia.
  - intros fn args [[|n] e] _; unfold libc_call, libc, call; cbn [lw_left];
      [done|]. destruct (String.eqb fn "read"); cbn; [lia|done].
Defined.
End SlowLibc.

Definition demo_attr (files : list Z) : ProcAttr := mkAttr [47; 116] [] files None.

Lemma WaitStatus_reads_witness :
  WaitStatus.classify 6015 = Some (WaitStatus.EvStopped 23) /\
  WaitStatus.read 6015 = WaitStatus.promised WaitStatus.EvContinued.
Proof.
  split; [reflexivity|].
  apply (WaitStatus_reads 6015 (WaitStatus.EvStopped 23)); [lia|reflexivity|reflexivity].
Defined.

(** Files = [1; 0], the usual way to swap two descriptors: not what the child gets. *)
Lemma forkAndExecInChild_files_witness :
  let t : gmap Z Z := {[ 0 := 10; 1 := 11 ]} in
  ~ no_clobber [1; 0] /\
  wp (forkAndExecInChild [120; 0] ([None], []) ([None], []) None None (demo_attr [1; 0]) zeroSysProcAttr 9)
    (fun '(pid, e) s' => e = 0 -> exists pre args post t',
       made (Script.start []) (pre ++ ("posix_spawn"%string, args) :: post) s' /\
       dup2_actions post = [] /\
       child_table (dup2_actions pre) t = Some t' /\
       (placed t t' 0 [1; 0] <-> no_clobber [1; 0])) (Script.start []).
Proof.
  split.
  - intros H. specialize (H 0%nat 1%nat 1 ltac:(lia) eq_refl eq_refl). discriminate.
  - apply (forkAndExecInChild_files ({[ 0 := 10; 1 := 11 ]} : gmap Z Z) [120; 0] ([None], []) ([None], []) None None
             (demo_attr [1; 0]) zeroSysProcAttr 9 (Script.start [])).
    + reflexivity.
    + repeat constructor; by eexists.
    + intros a b [x Hx] E. rewrite Hx in E. symmetry in E.
      rewrite lookup_insert_Some, lookup_singleton_Some in Hx, E. naive_solver congruence.
Defined.

Definition demo_dir : osst DirLibc.world := mkOs (DirLibc.mkWorld [47; 97] 0) true [].

Lemma forkAndExecInChild_keeps_cwd_witness :
  cwd (os_w demo_dir) = [47; 97] /\
  wp (forkAndExecInChild [120; 0] ([None], []) ([None], []) None (Some [47; 116; 0]) (demo_attr []) zeroSysProcAttr 9)
    (fun _ s' => cwd (os_w s') = cwd (os_w demo_dir)) demo_dir.
Proof.
  split; [reflexivity|].
  exact (forkAndExecInChild_keeps_cwd [120; 0] ([None], []) ([None], []) None (Some [47; 116; 0]) (demo_attr [])
           zeroSysProcAttr 9 demo_dir eq_refl (bool_decide_unpack (0 ∉ [47; 97]) I)).
Defined.

Lemma forkExec_outcome_witness :
  let s := mkFx (mkOs (SlowLibc.mkWorld 2 0) true []) false in
  go_wp (ForkExec 3 [120] [] None)
    (fun '(pid, err) s' => fx_lock s' = false /\ (err <> None -> pid = 0) /\
       exists calls, made (fx_os s) calls (fx_os s') /\
         ((err <> None /\ map fst calls `prefix_of` ["pipe"; "fcntl"; "fcntl"]%string) \/
          (exists a b spawn rest pid' e, calls = pipe_calls a b ++ spawn ++ rest /\
             forkAndExecInChild_spec zeroSysProcAttr zeroProcAttr pid' e spawn /\
             ending a b err rest /\ (err = None -> e = 0 /\ pid = pid')))) s.
Proof.
  apply (forkExec_outcome 3 [120] [] None (mkFx (mkOs (SlowLibc.mkWorld 2 0) true []) false)).
  - reflexivity.
  - cbn. lia.
Defined.
