(* ===== verification/Cmsg.v ===== *)
(** * Cmsg: control messages of sockets

    syscall/sockcmsg_unix.go with cmsgAlignOf of sockcmsg_unix_other.go (qnx), and
    net/unixsock_readmsg_cloexec.go, which marks the descriptors that came with a message
    close-on-exec.  Memory is lists of bytes; what Go checks of an index or a slice is
    [go_throw], what it does not (the header and the descriptors are read and written
    through unsafe pointers) is [peek] and [poke].  An int is 32 bits. *)
From Stdlib Require Import ZArith Lia List Bool String.
From stdpp Require Import base list gmap strings numbers tactics option.
From S2P Require Import Prelude Libc Syscall SyscallProc.

Definition SizeofCmsghdr : Z := 0xc.
Definition sizeofPtr : Z := 0x4.
Definition SOL_SOCKET : Z := 0xffff.
Definition SCM_RIGHTS : Z := 0x1.

Record Cmsghdr : Type := mkCmsghdr { Len : Z; Level : Z; Kind : Z }.
Record SocketControlMessage : Type := mkSCM { Header : Cmsghdr; Data : list Z }.

Abbreviation zlen l := (Z.of_nat (length l)).

(** Memory at a pointer into [b]. *)
Definition peek (n : nat) (off : Z) (b : list Z) : Z := le_value (take n (drop (Z.to_nat off) b)).
Definition poke (n : nat) (off z : Z) (b : list Z) : list Z :=
  let o := Z.to_nat off in take o b ++ le_bytes n z ++ drop (o + n) b.

Definition slice {S} (lo hi : Z) (b : list Z) : GoM S (list Z) :=
  if (0 <=? lo) && (lo <=? hi) && (hi <=? zlen b) then go_ret (take (Z.to_nat (hi - lo)) (drop (Z.to_nat lo) b))
  else go_throw "slice bounds out of range".

(** ** syscall/sockcmsg_unix_other.go *)
Definition cmsgAlignOf (salen : Z) : Z :=
  let salign := sizeofPtr in
  Z.land (i32 (i32 (salen + salign) - 1)) (Z.lnot (salign - 1)).

(** ** syscall/sockcmsg_unix.go *)
Definition CmsgLen (datalen : Z) : Z := i32 (cmsgAlignOf SizeofCmsghdr + datalen).
Definition CmsgSpace (datalen : Z) : Z := i32 (cmsgAlignOf SizeofCmsghdr + cmsgAlignOf datalen).

(** (h *Cmsghdr) at the start of [b]; data is the offset of the payload. *)
Definition header (b : list Z) : Cmsghdr := mkCmsghdr (peek 4 0 b) (i32 (peek 4 4 b)) (i32 (peek 4 8 b)).
Definition data (offset : Z) : Z := cmsgAlignOf SizeofCmsghdr + offset.

Definition socketControlMessageHeaderAndData {S} (b : list Z) : GoM S (option (Cmsghdr * list Z) * option Z) :=
  if (length b =? 0)%nat then go_throw "index out of range" else
  let h := header b in
  if (Len h <? SizeofCmsghdr) || (zlen b <? Len h) then go_ret (None, Some EINVAL) else
  let! d := slice (cmsgAlignOf SizeofCmsghdr) (Len h) b in
  go_ret (Some (h, d), None).

Fixpoint messages_loop {S} (fuel : nat) (b : list Z) (i : Z) (msgs : list SocketControlMessage) :
    GoM S (list SocketControlMessage * option Z) :=
  match fuel with
  | O => fun _ => NoFuel
  | Datatypes.S fuel =>
    if i32 (i + CmsgLen 0) <=? zlen b then
      let! rest := slice i (zlen b) b in
      let! (hd, err) := socketControlMessageHeaderAndData rest in
      match hd, err with
      | Some (h, dbuf), None =>
        messages_loop fuel b (i32 (i + cmsgAlignOf (i32 (Len h)))) (msgs ++ [mkSCM h dbuf])
      | _, err => go_ret ([], err)
      end
    else go_ret (msgs, None)
  end.

Definition ParseSocketControlMessage {S} (b : list Z) : GoM S (list SocketControlMessage * option Z) :=
  messages_loop (Datatypes.S (length b)) b 0 [].

Fixpoint put_rights (fds : list Z) (i : Z) (b : list Z) : list Z :=
  match fds with
  | [] => b
  | fd :: fds => put_rights fds (i + 1) (poke 4 (data (4 * i)) (u32 fd) b)
  end.

Definition UnixRights (fds : list Z) : list Z :=
  let datalen := i32 (zlen fds * 4) in
  let b := replicate (Z.to_nat (CmsgSpace datalen)) 0 in
  let b := poke 4 4 (u32 SOL_SOCKET) b in
  let b := poke 4 8 (u32 SCM_RIGHTS) b in
  let b := poke 4 0 (u32 (CmsgLen datalen)) b in
  put_rights fds 0 b.

Fixpoint rights_loop {S} (fuel : nat) (d : list Z) (i j : Z) (fds : list Z) : GoM S (list Z) :=
  match fuel with
  | O => fun _ => NoFuel
  | Datatypes.S fuel =>
    if i <? zlen d then
      let v := i32 (peek 4 i d) in
      if j <? zlen fds then rights_loop fuel d (i + 4) (j + 1) (<[Z.to_nat j := v]> fds)
      else go_throw "index out of range"
    else go_ret fds
  end.

Definition ParseUnixRights {S} (m : SocketControlMessage) : GoM S (list Z * option Z) :=
  if negb (Level (Header m) =? SOL_SOCKET) then go_ret ([], Some EINVAL) else
  if negb (Kind (Header m) =? SCM_RIGHTS) then go_ret ([], Some EINVAL) else
  let fds := replicate (Z.to_nat (Z.shiftr (zlen (Data m)) 2)) 0 in
  let! fds := rights_loop (Datatypes.S (length (Data m))) (Data m) 0 0 fds in
  go_ret (fds, None).

(** ** net/unixsock_readmsg_cloexec.go *)
Section net.
Context {W : Type} `{!Libc W}.

Fixpoint close_all (fds : list Z) : GoM (osst W) unit :=
  match fds with [] => go_ret tt | fd :: fds => go_lift (CloseOnExec fd) ;! close_all fds end.

Fixpoint mark_messages (scms : list SocketControlMessage) : GoM (osst W) unit :=
  match scms with
  | [] => go_ret tt
  | scm :: scms =>
    (if (Level (Header scm) =? SOL_SOCKET) && (Kind (Header scm) =? SCM_RIGHTS) then
       let! (fds, err) := ParseUnixRights scm in
       match err with Some _ => go_ret tt | None => close_all fds end
     else go_ret tt) ;!
    mark_messages scms
  end.

Definition setReadMsgCloseOnExec (oob : list Z) : GoM (osst W) unit :=
  let! (scms, err) := ParseSocketControlMessage oob in
  match err with Some _ => go_ret tt | None => mark_messages scms end.
End net.

(** ** The layout of a control buffer

    Messages one behind the other, each starting on a multiple of 4; less than a header at
    the end is not looked at. *)
Definition align4 (n : Z) : Z := 4 * ((n + 3) / 4).
Definition payload (h : Cmsghdr) (b : list Z) : list Z := take (Z.to_nat (Len h - 12)) (drop 12 b).

Inductive chunks : list Z -> list SocketControlMessage -> Prop :=
| chunks_end b : zlen b < 12 -> chunks b []
| chunks_msg b ms : 12 <= Len (header b) <= zlen b -> chunks (drop (Z.to_nat (align4 (Len (header b)))) b) ms ->
    chunks b (mkSCM (header b) (payload (header b) b) :: ms).

(** The descriptors of a message. *)
Definition rights (d : list Z) : list Z := map (fun j => i32 (peek 4 (4 * j) d)) (seqZ 0 (zlen d / 4)).
Definition is_rights (m : SocketControlMessage) : bool :=
  (Level (Header m) =? SOL_SOCKET) && (Kind (Header m) =? SCM_RIGHTS).

(** *** Arithmetic *)
Lemma cmsgAlignOf_eq n : 0 <= n < 2 ^ 31 - 8 -> cmsgAlignOf n = align4 n.
Proof.
  intros Hn. unfold cmsgAlignOf, sizeofPtr, align4. rewrite !wraps_small by (rewrite ?wraps_small; unfold in_s; lia).
  change (4 - 1) with 3. rewrite <- Z.ldiff_land, ldiff_sub. change 3 with (2 ^ 2 - 1). rewrite land_ones_mod by lia.
  change (2 ^ 2) with 4. Z.div_mod_to_equations. lia.
Qed.
Lemma align4_bounds n : n <= align4 n <= n + 3.
Proof. unfold align4. Z.div_mod_to_equations. lia. Qed.

(** *** Parsing *)
Lemma slice_all {S} lo b (s : S) : 0 <= lo <= zlen b -> slice lo (zlen b) b s = Ret (drop (Z.to_nat lo) b) s.
Proof.
  intros H. unfold slice. rewrite (proj2 (Z.leb_le 0 lo)), (proj2 (Z.leb_le lo _)), Z.leb_refl by lia. cbn. unfold go_ret.
  rewrite firstn_all2; [done|]. rewrite length_skipn. lia.
Qed.

(** One turn, at the bytes [rest] still there. *)
Lemma one_message {S} rest (s : S) : 12 <= zlen rest ->
  socketControlMessageHeaderAndData rest s =
    if decide (12 <= Len (header rest) <= zlen rest) then Ret (Some (header rest, payload (header rest) rest), None) s
    else Ret (None, Some EINVAL) s.
Proof.
  intros H. unfold socketControlMessageHeaderAndData. destruct (Nat.eqb_spec (length rest) 0); [lia|].
  change SizeofCmsghdr with 12. change (cmsgAlignOf 12) with 12. set (h := header rest).
  destruct (decide _) as [Hd|Hd].
  - rewrite (proj2 (Z.ltb_ge (Len h) 12)), (proj2 (Z.ltb_ge (zlen rest) (Len h))) by lia. cbn [orb]. unfold go_bind, slice.
    rewrite (proj2 (Z.leb_le 12 _)), (proj2 (Z.leb_le (Len h) _)) by lia. done.
  - destruct (Z.ltb_spec (Len h) 12), (Z.ltb_spec (zlen rest) (Len h)); cbn [orb]; try done. lia.
Qed.

Lemma messages_loop_spec {S} fuel b : zlen b < 2 ^ 31 - 64 -> forall i msgs (s : S), 0 <= i -> (Z.to_nat (zlen b - i) < fuel)%nat ->
  i <= zlen b + 4 ->
  (exists ms, chunks (drop (Z.to_nat i) b) ms /\ messages_loop fuel b i msgs s = Ret (msgs ++ ms, None) s) \/
  (forall ms, ~ chunks (drop (Z.to_nat i) b) ms) /\ messages_loop fuel b i msgs s = Ret ([], Some EINVAL) s.
Proof.
  intros Hb. induction fuel as [|fuel IH]; intros i msgs s Hi Hf Hi2; [lia|]. cbn [messages_loop]. change (CmsgLen 0) with 12.
  rewrite wraps_small by (unfold in_s; lia). set (rest := drop (Z.to_nat i) b).
  assert (zlen rest = Z.max 0 (zlen b - i)) as Hl by (unfold rest; rewrite length_skipn; lia).
  destruct (Z.leb_spec (i + 12) (zlen b)) as [Hle|Hgt].
  2:{ left. exists []. split; [constructor; lia|]. by rewrite app_nil_r. }
  unfold go_bind. rewrite slice_all by lia. fold rest. rewrite one_message by lia. destruct (decide _) as [Hd|Hd].
  - set (h := header rest) in *. pose proof (align4_bounds (Len h)).
    rewrite cmsgAlignOf_eq by (rewrite wraps_small; unfold in_s; lia). rewrite !wraps_small by (rewrite ?wraps_small; unfold in_s; lia).
    assert (drop (Z.to_nat (i + align4 (Len h))) b = drop (Z.to_nat (align4 (Len h))) rest) as Hdrop.
    { unfold rest. rewrite skipn_skipn. f_equal. lia. }
    destruct (IH (i + align4 (Len h)) (msgs ++ [mkSCM h (payload h rest)]) s) as [(ms & Hc & E)|[Hn E]]; [lia|lia|lia|left|right].
    + exists (mkSCM h (payload h rest) :: ms). rewrite Hdrop in Hc. split; [by apply chunks_msg|]. rewrite E. by rewrite <- app_assoc.
    + split; [|done]. intros ms Hc. rewrite Hdrop in Hn. inversion Hc; subst; [lia|]. by eapply Hn.
  - right. split; [|done]. intros ms Hc. inversion Hc; subst; lia.
Qed.

Lemma parse_cases {S} b (s : S) : zlen b < 2 ^ 31 - 64 ->
  (exists ms, chunks b ms /\ ParseSocketControlMessage b s = Ret (ms, None) s) \/
  (forall ms, ~ chunks b ms) /\ ParseSocketControlMessage b s = Ret ([], Some EINVAL) s.
Proof. intros Hb. apply (messages_loop_spec (Datatypes.S (length b)) b Hb 0 [] s); lia. Qed.

Lemma chunks_det b ms ms' : chunks b ms -> chunks b ms' -> ms = ms'.
Proof.
  intros H. revert ms'. induction H as [b Hb|b ms Hb Hc IH]; intros ms' H'; inversion H'; subst; try done; try lia.
  f_equal. by apply IH.
Qed.

(** *** Building *)
Lemma poke_at n z pre mid post : length mid = n -> poke n (zlen pre) z (pre ++ mid ++ post) = pre ++ le_bytes n z ++ post.
Proof.
  intros Hm. unfold poke. rewrite Nat2Z.id, take_app_length. f_equal. f_equal.
  rewrite (app_assoc pre), <- Hm, <- length_app. apply drop_app_length.
Qed.

Definition fd_bytes (fd : Z) : list Z := le_bytes 4 (u32 fd).
Lemma length_fd_bytes fds : length (concat (map fd_bytes fds)) = (4 * length fds)%nat.
Proof. induction fds as [|fd fds IH]; [done|]. cbn [map concat length]. rewrite length_app, IH. unfold fd_bytes. rewrite length_le_bytes. lia. Qed.

Lemma put_rights_eq fds i pre : zlen pre = 12 + 4 * i ->
  put_rights fds i (pre ++ replicate (4 * length fds) 0) = pre ++ concat (map fd_bytes fds).
Proof.
  revert i pre. induction fds as [|fd fds IH]; intros i pre Hp; [by cbn; rewrite app_nil_r|]. cbn [put_rights].
  change (data (4 * i)) with (12 + 4 * i). rewrite <- Hp. replace (4 * length (fd :: fds))%nat with (4 + 4 * length fds)%nat by (cbn; lia).
  rewrite replicate_add, poke_at by apply length_replicate. rewrite app_assoc. rewrite IH.
  - cbn [map concat]. by rewrite <- !app_assoc.
  - rewrite length_app, length_le_bytes. lia.
Qed.

(** What UnixRights makes: a header and the descriptors. *)
Definition header_bytes (len level kind : Z) : list Z := le_bytes 4 (u32 len) ++ le_bytes 4 (u32 level) ++ le_bytes 4 (u32 kind).

Lemma UnixRights_bytes fds : 4 * zlen fds < 2 ^ 31 - 64 ->
  UnixRights fds = header_bytes (12 + 4 * zlen fds) SOL_SOCKET SCM_RIGHTS ++ concat (map fd_bytes fds).
Proof.
  intros Hf. unfold UnixRights. rewrite (wraps_small 32 ltac:(lia) (zlen fds * 4)) by (unfold in_s; lia).
  assert (CmsgLen (zlen fds * 4) = 12 + 4 * zlen fds) as -> by (unfold CmsgLen; change (cmsgAlignOf SizeofCmsghdr) with 12; rewrite wraps_small; unfold in_s; lia).
  assert (Z.to_nat (CmsgSpace (zlen fds * 4)) = 4 + (4 + (4 + 4 * length fds)))%nat as ->.
  { unfold CmsgSpace. change (cmsgAlignOf SizeofCmsghdr) with 12. rewrite cmsgAlignOf_eq by lia.
    assert (align4 (zlen fds * 4) = 4 * zlen fds) as -> by (unfold align4; Z.div_mod_to_equations; lia).
    rewrite wraps_small by (unfold in_s; lia). lia. }
  rewrite !replicate_add.
  assert (length (replicate 4 0) = 4%nat) as Hr by done.
  rewrite (poke_at 4 (u32 SOL_SOCKET) (replicate 4 0) (replicate 4 0)) by done.
  rewrite (app_assoc (replicate 4 0) (le_bytes 4 _)).
  rewrite (poke_at 4 (u32 SCM_RIGHTS) (replicate 4 0 ++ le_bytes 4 (u32 SOL_SOCKET)) (replicate 4 0)) by done.
  rewrite <- (app_assoc (replicate 4 0)).
  pose proof (poke_at 4 (u32 (12 + 4 * zlen fds)) [] (replicate 4 0)) as Hp. cbn [length app] in Hp.
  change (Z.of_nat 0) with 0 in Hp. rewrite Hp by done.
  pose proof (put_rights_eq fds 0 (header_bytes (12 + 4 * zlen fds) SOL_SOCKET SCM_RIGHTS)) as He.
  unfold header_bytes in *. rewrite <- !app_assoc in He. rewrite <- !app_assoc. apply He. done.
Qed.

Lemma peek_at n pre z post : peek n (zlen pre) (pre ++ le_bytes n z ++ post) = z mod 256 ^ Z.of_nat n.
Proof.
  unfold peek. rewrite Nat2Z.id, drop_app_length, <- (length_le_bytes n z) at 1. rewrite take_app_length. apply le_value_bytes.
Qed.

Lemma i32_u32 z : in_s 32 z -> i32 (u32 z mod 256 ^ Z.of_nat 4) = z.
Proof.
  intros H. change (256 ^ Z.of_nat 4) with (2 ^ 32). rewrite Z.mod_small by (apply wrapu_range; lia).
  rewrite wraps_wrapu by lia. by apply wraps_small.
Qed.

Lemma header_of len level kind b : 0 <= len < 2 ^ 32 -> in_s 32 level -> in_s 32 kind ->
  header (header_bytes len level kind ++ b) = mkCmsghdr len level kind.
Proof.
  intros Hl H1 H2. unfold header, header_bytes. rewrite <- !app_assoc. f_equal.
  - pose proof (peek_at 4 [] (u32 len) (le_bytes 4 (u32 level) ++ le_bytes 4 (u32 kind) ++ b)) as E. cbn [length app] in E.
    change (Z.of_nat 0) with 0 in E. rewrite E. rewrite wrapu_small by (unfold in_u; lia). apply Z.mod_small. lia.
  - pose proof (peek_at 4 (le_bytes 4 (u32 len)) (u32 level) (le_bytes 4 (u32 kind) ++ b)) as E.
    rewrite length_le_bytes in E. change (Z.of_nat 4) with 4 in E at 1. rewrite E. by apply i32_u32.
  - pose proof (peek_at 4 (le_bytes 4 (u32 len) ++ le_bytes 4 (u32 level)) (u32 kind) b) as E.
    rewrite length_app, !length_le_bytes, <- app_assoc in E. change (Z.of_nat (4 + 4)) with 8 in E. rewrite E. by apply i32_u32.
Qed.

(** *** The descriptors *)
Lemma rights_of fds : Forall (in_s 32) fds -> rights (concat (map fd_bytes fds)) = fds.
Proof.
  intros Hf. unfold rights. rewrite length_fd_bytes. replace (Z.of_nat (4 * length fds) / 4) with (zlen fds) by (Z.div_mod_to_equations; lia).
  assert (forall pre, map (fun j => i32 (peek 4 (4 * j) (concat (map fd_bytes pre) ++ concat (map fd_bytes fds))))
    (seqZ (zlen pre) (zlen fds)) = fds) as H; [|exact (H [])].
  induction Hf as [|fd fds Hfd Hf IH]; intros pre; [done|]. rewrite seqZ_cons by (cbn; lia). cbn [map concat]. f_equal.
  - pose proof (peek_at 4 (concat (map fd_bytes pre)) (u32 fd) (concat (map fd_bytes fds))) as E.
    rewrite length_fd_bytes in E. replace (Z.of_nat (4 * length pre)) with (4 * zlen pre) in E by lia.
    fold (fd_bytes fd) in E. rewrite E. by apply i32_u32.
  - specialize (IH (pre ++ [fd])). rewrite map_app, concat_app, length_app in IH. cbn [map concat length] in IH.
    rewrite app_nil_r in IH. rewrite <- app_assoc in IH.
    replace (Z.of_nat (length pre + 1)) with (Z.succ (zlen pre)) in IH by lia. cbn [length].
    replace (Z.pred (Z.of_nat (Datatypes.S (length fds)))) with (zlen fds) by lia. exact IH.
Qed.

Lemma rights_loop_spec {S} d k (s : S) : zlen d = 4 * k -> forall fuel j fds, 0 <= j <= k -> zlen fds = k ->
  (Z.to_nat (k - j) < fuel)%nat ->
  rights_loop fuel d (4 * j) j fds s =
    Ret (take (Z.to_nat j) fds ++ map (fun j => i32 (peek 4 (4 * j) d)) (seqZ j (k - j))) s.
Proof.
  intros Hd. induction fuel as [|fuel IH]; intros j fds Hj Hl Hf; [lia|]. cbn [rights_loop].
  destruct (Z.ltb_spec (4 * j) (zlen d)) as [Hlt|Hge].
  - rewrite (proj2 (Z.ltb_lt j (zlen fds))) by lia. replace (4 * j + 4) with (4 * (j + 1)) by lia.
    rewrite IH by (rewrite ?length_insert; lia). rewrite (seqZ_cons j) by lia. cbn [map].
    replace (Z.succ j) with (j + 1) by lia. replace (Z.pred (k - j)) with (k - (j + 1)) by lia.
    replace (Z.to_nat (j + 1)) with (Datatypes.S (Z.to_nat j)) by lia. f_equal.
    rewrite (take_S_r _ _ (i32 (peek 4 (4 * j) d))) by (apply list_lookup_insert_eq; lia).
    rewrite take_insert_ge by lia. by rewrite <- app_assoc.
  - assert (j = k) as -> by lia. unfold go_ret. rewrite Z.sub_diag. cbn. rewrite app_nil_r, firstn_all2 by lia. done.
Qed.

Lemma rights_loop_panics {S} d (s : S) : zlen d mod 4 <> 0 -> forall fuel j fds, 0 <= j -> j <= zlen fds ->
  zlen fds = zlen d / 4 -> (Z.to_nat (zlen d - 4 * j) < fuel)%nat ->
  rights_loop fuel d (4 * j) j fds s = Throw "index out of range" s.
Proof.
  intros Hd. induction fuel as [|fuel IH]; intros j fds Hj Hj2 Hl Hf; [lia|]. cbn [rights_loop].
  rewrite (proj2 (Z.ltb_lt (4 * j) (zlen d))) by zify_mod.
  destruct (Z.ltb_spec j (zlen fds)) as [Hlt|]; [|done].
  replace (4 * j + 4) with (4 * (j + 1)) by lia. apply IH; rewrite ?length_insert; zify_mod.
Qed.

(** What ParseUnixRights does with every message. *)
Lemma ParseUnixRights_run {S} m (s : S) :
  ParseUnixRights m s =
    if is_rights m then
      if zlen (Data m) mod 4 =? 0 then Ret (rights (Data m), None) s else Throw "index out of range" s
    else Ret ([], Some EINVAL) s.
Proof.
  unfold ParseUnixRights, is_rights. destruct (Level (Header m) =? SOL_SOCKET); cbn [negb andb]; [|done].
  destruct (Kind (Header m) =? SCM_RIGHTS); cbn [negb]; [|done].
  rewrite Z.shiftr_div_pow2 by lia. change (2 ^ 2) with 4. set (d := Data m). unfold go_bind.
  assert (zlen (replicate (Z.to_nat (zlen d / 4)) 0) = zlen d / 4) as Hl by (rewrite length_replicate; zify_mod).
  destruct (Z.eqb_spec (zlen d mod 4) 0) as [E|E].
  - rewrite (rights_loop_spec d (zlen d / 4) s ltac:(zify_mod) (Datatypes.S (length d)) 0) by zify_mod.
    cbn [take app]. by rewrite Z.sub_0_r.
  - by rewrite (rights_loop_panics d s E (Datatypes.S (length d)) 0) by zify_mod.
Qed.

(** *** Marking *)
Section marking.
Context {W : Type} `{!Libc W}.

Lemma close_all_calls fds (o : osst W) : go_wp (close_all fds) (fun _ o' => made o (map cloexec_call fds) o') o.
Proof.
  revert o. induction fds as [|fd fds IH]; intros o; [apply go_wp_ret, made_refl|]. cbn [close_all].
  apply go_wp_bind, go_wp_lift, wp_bind. eapply wp_mono; [apply fcntl_calls|]. intros r o1 M1. apply wp_ret.
  eapply go_wp_mono; [apply IH|]. intros [] o2 M2. exact (made_trans _ _ _ _ _ M1 M2).
Qed.

(** The descriptors that came with the messages. *)
Definition received (ms : list SocketControlMessage) : list Z := concat (map (fun m => if is_rights m then rights (Data m) else []) ms).
Definition whole (m : SocketControlMessage) : bool := negb (is_rights m) || (zlen (Data m) mod 4 =? 0).

(** The messages before the first that is not whole. *)
Fixpoint intact (ms : list SocketControlMessage) : list SocketControlMessage :=
  match ms with [] => [] | m :: ms => if whole m then m :: intact ms else [] end.

Definition panicked {A} (r : res (osst W) A) (ret throw : osst W -> Prop) : Prop :=
  match r with Ret _ o' => ret o' | Throw msg o' => msg = "index out of range"%string /\ throw o' | NoFuel => False end.

Lemma mark_messages_calls ms (o : osst W) :
  panicked (mark_messages ms o)
    (fun o' => forallb whole ms = true /\ made o (map cloexec_call (received ms)) o')
    (fun o' => forallb whole ms = false /\ made o (map cloexec_call (received (intact ms))) o').
Proof.
  revert o. induction ms as [|m ms IH]; intros o; [split; [done|apply made_refl]|].
  cbn [mark_messages forallb intact]. fold (is_rights m). unfold go_bind at 1.
  assert (forall o1, whole m = true -> made o (map cloexec_call (if is_rights m then rights (Data m) else [])) o1 ->
    panicked (mark_messages ms o1)
      (fun o' => whole m && forallb whole ms = true /\ made o (map cloexec_call (received (m :: ms))) o')
      (fun o' => whole m && forallb whole ms = false /\ made o (map cloexec_call (received (m :: intact ms))) o')) as Hnext.
  { intros o1 Hm M1. specialize (IH o1). rewrite Hm. unfold received in *. cbn [map concat andb]. rewrite !map_app.
    destruct (mark_messages ms o1) as [[] o2|msg o2|]; [|destruct IH as [-> IH]; split; [done|]|done];
      (destruct IH as [Hw M2]; split; [done|exact (made_trans _ _ _ _ _ M1 M2)]). }
  unfold whole in *. destruct (is_rights m) eqn:E; cbn [negb orb] in *.
  - unfold go_bind. rewrite ParseUnixRights_run, E. destruct (zlen (Data m) mod 4 =? 0).
    + pose proof (close_all_calls (rights (Data m)) o) as Hc. unfold go_wp in Hc.
      destruct (close_all _ o) as [[] o1| |]; [|done..]. by apply Hnext.
    + split; [done|]. split; [done|apply made_refl].
  - unfold go_ret. apply Hnext; [done|apply made_refl].
Qed.

(** ** Theorems *)

(** C18: UnixRights and the two parsers are inverse: the buffer UnixRights makes of any
    descriptors parses as one SCM_RIGHTS message, of which ParseUnixRights returns them. *)
Theorem UnixRights_roundtrip {S} fds (s : S) : Forall (in_s 32) fds -> 4 * zlen fds < 2 ^ 31 - 128 ->
  exists m, ParseSocketControlMessage (UnixRights fds) s = Ret ([m], None) s /\
    Len (Header m) = zlen (UnixRights fds) /\ ParseUnixRights m s = Ret (fds, None) s.
Proof using.
  intros Hf Hl. rewrite UnixRights_bytes by lia.
  set (h := mkCmsghdr (12 + 4 * zlen fds) SOL_SOCKET SCM_RIGHTS).
  set (b := header_bytes _ _ _ ++ concat (map fd_bytes fds)).
  assert (header b = h) as Hh by (apply header_of; [lia|unfold in_s, SOL_SOCKET, SCM_RIGHTS; lia..]).
  assert (zlen b = 12 + 4 * zlen fds) as Hb.
  { unfold b, header_bytes. rewrite !length_app, !length_le_bytes, length_fd_bytes. lia. }
  assert (chunks b [mkSCM h (concat (map fd_bytes fds))]) as Hc.
  { assert (payload h b = concat (map fd_bytes fds)) as <-.
    { unfold payload, b. change 12%nat with (length (header_bytes (12 + 4 * zlen fds) SOL_SOCKET SCM_RIGHTS)) at 1.
      rewrite drop_app_length, firstn_all2; [done|]. rewrite length_fd_bytes. cbn [Len h]. lia. }
    rewrite <- Hh. apply chunks_msg; rewrite Hh; cbn [Len h]; [lia|]. constructor. rewrite length_skipn.
    unfold align4. zify_mod. }
  destruct (parse_cases b s ltac:(lia)) as [(ms & Hms & E)|[Hn _]]; [|by destruct (Hn _ Hc)].
  rewrite (chunks_det _ _ _ Hms Hc) in E. exists (mkSCM h (concat (map fd_bytes fds))). split; [done|]. split; [done|].
  rewrite ParseUnixRights_run. cbn [is_rights Header h Level Kind Data]. unfold is_rights. cbn.
  rewrite length_fd_bytes, rights_of by done. rewrite (proj2 (Z.eqb_eq _ _)) by zify_mod. done.
Qed.

(** C19: what setReadMsgCloseOnExec does with a control buffer.  When the buffer is a
    sequence of messages, every descriptor that came with them is marked close-on-exec, in
    order, with no other call, as long as each SCM_RIGHTS payload is a whole number of
    descriptors; the first payload that is not makes it panic, with the descriptors of the
    messages before it marked.  When the buffer is not a sequence of messages none is
    marked. *)
Theorem setReadMsgCloseOnExec_marks oob (o : osst W) : zlen oob < 2 ^ 31 - 64 ->
  match setReadMsgCloseOnExec oob o with
  | Ret _ o' =>
    (exists ms, chunks oob ms /\ forallb whole ms = true /\ made o (map cloexec_call (received ms)) o') \/
    (forall ms, ~ chunks oob ms) /\ made o [] o'
  | Throw msg o' =>
    exists ms, chunks oob ms /\ forallb whole ms = false /\ msg = "index out of range"%string /\
      made o (map cloexec_call (received (intact ms))) o'
  | NoFuel => False
  end.
Proof.
  intros Hl. unfold setReadMsgCloseOnExec, go_bind.
  destruct (parse_cases oob o Hl) as [(ms & Hms & ->)|[Hn ->]].
  - pose proof (mark_messages_calls ms o) as H. unfold panicked in H.
    destruct (mark_messages ms o) as [[] o'|msg o'|]; [left; by exists ms|exists ms; by destruct H as (-> & Hw & M)|done].
  - right. split; [done|apply made_refl].
Qed.
End marking.

(** A message with half a descriptor makes ParseUnixRights panic. *)
Lemma ParseUnixRights_half : ParseUnixRights (mkSCM (mkCmsghdr 17 SOL_SOCKET SCM_RIGHTS) [7; 0; 0; 0; 8]) tt =
  Throw "index out of range" tt.
Proof. by rewrite ParseUnixRights_run. Qed.

Lemma UnixRights_roundtrip_witness : exists m, ParseSocketControlMessage (UnixRights [7; 8]) tt = Ret ([m], None) tt /\
  ParseUnixRights m tt = Ret ([7; 8], None) tt.
Proof.
  destruct (UnixRights_roundtrip [7; 8] tt) as (m & H1 & _ & H2); [repeat constructor; unfold in_s; lia|done|].
  exists m. split; [exact H1|exact H2].
Defined.

Lemma setReadMsgCloseOnExec_marks_witness :
  match setReadMsgCloseOnExec (UnixRights [7; 8]) (Script.start []) with
  | Ret _ o' => made (Script.start []) (map cloexec_call [7; 8]) o'
  | _ => False
  end.
Proof.
  assert (chunks (UnixRights [7; 8]) [mkSCM (mkCmsghdr 20 SOL_SOCKET SCM_RIGHTS) [7; 0; 0; 0; 8; 0; 0; 0]]) as Hc.
  { apply (chunks_msg (UnixRights [7; 8]) []); [vm_compute; done|]. by constructor. }
  pose proof (setReadMsgCloseOnExec_marks (UnixRights [7; 8]) (Script.start []) ltac:(done)) as H.
  destruct (setReadMsgCloseOnExec _ _) as [[] o'|msg o'|]; [| |done].
  - destruct H as [(ms & Hms & _ & M)|[Hn _]]; [|by destruct (Hn _ Hc)]. by rewrite (chunks_det _ _ _ Hms Hc) in M.
  - destruct H as (ms & Hms & Hw & _). by rewrite (chunks_det _ _ _ Hms Hc) in Hw.
Defined.
