(* ===== verification/AtQnx.v ===== *)
(** * AtQnx: the *at family and os.RemoveAll

    internal/syscall/unix/at_qnx.go emulates openat and its relatives for the one
    directory descriptor AT_FDCWD; os/removeall_at.go, os/removeall_unix.go and the
    removal helpers of os/root_unix.go, os/path.go and os/path_unix.go are what
    package os builds on it.  Opening, listing and closing an os.File is an
    interface here ([OsFile]). *)
From Stdlib Require Import ZArith Lia List Bool String.
From stdpp Require Import base list gmap strings numbers tactics option.
From S2P Require Import Prelude Libc Syscall.

Definition AT_FDCWD : Z := -100.
Definition AT_EACCESS : Z := 4.
Definition AT_REMOVEDIR : Z := 1.
Definition AT_SYMLINK_NOFOLLOW : Z := 2.

(** More of zerrors_qnx_arm.go. *)
Definition ENOTDIR : Z := 20.
Definition EISDIR : Z := 21.
Definition EMLINK : Z := 31.
Definition ERANGE : Z := 34.
Definition O_RDONLY : Z := 0.
Definition O_CLOEXEC : Z := 8192.
Definition O_DIRECTORY : Z := 0.
Definition O_NOFOLLOW : Z := 0.

(** ** at_qnx.go *)
Definition atfd (dirfd : Z) : option Z := if negb (dirfd =? AT_FDCWD) then Some ENOSYS else None.

Section at_qnx.
Context {W : Type} `{!Libc W}.

Abbreviation M := (SysM W).

(** asm_qnx.s jumps to syscall's bridge. *)
Definition syscall6 (fn : string) (nargs : Z) (args : list carg) : M sysres := sysvicall6 fn nargs args.

(** [if err := atfd(dirfd); err != nil { return ..., err }] *)
Definition with_atfd {A} (dirfd : Z) (fail : Z -> A) (k : M A) : M A :=
  match atfd dirfd with Some e => st_ret (fail e) | None => k end.

(** [p, err := syscall.BytePtrFromString(path); if err != nil { return ..., err }] *)
Definition with_path {A} (path : list Z) (fail : Z -> A) (k : list Z -> M A) : M A :=
  match BytePtrFromString path with inr e => st_ret (fail e) | inl p => k p end.

Definition Openat (dirfd : Z) (path : list Z) (flags perm : Z) : M (Z * option Z) :=
  with_atfd dirfd (fun e => (0, Some e)) (with_path path (fun e => (0, Some e)) (fun p =>
    let* r := syscall6 "open" 3 [c_string p; CInt (u32 flags); CInt perm] in
    if negb (sr_err r =? 0) then st_ret (0, Some (sr_err r)) else st_ret (i32 (sr_r1 r), None))).

(** The error and the memory of [stat]. *)
Definition Fstatat (dirfd : Z) (path stat : list Z) (flags : Z) : M (option Z * list Z) :=
  with_atfd dirfd (fun e => (Some e, stat)) (with_path path (fun e => (Some e, stat)) (fun p =>
    let fn := if negb (Z.land flags AT_SYMLINK_NOFOLLOW =? 0) then "lstat"%string else "stat"%string in
    let* r := syscall6 fn 2 [c_string p; CBuf stat] in
    st_ret (err_of (sr_err r), nth 0 (sr_bufs r) []))).

Definition Unlinkat (dirfd : Z) (path : list Z) (flags : Z) : M (option Z) :=
  with_atfd dirfd Some (with_path path Some (fun p =>
    let fn := if negb (Z.land flags AT_REMOVEDIR =? 0) then "rmdir"%string else "unlink"%string in
    let* r := syscall6 fn 1 [c_string p] in st_ret (err_of (sr_err r)))).

(** n, err and the buffer; an empty buffer is replaced by a dummy byte of length 0. *)
Definition Readlinkat (dirfd : Z) (path buf : list Z) : M (Z * option Z * list Z) :=
  with_atfd dirfd (fun e => (0, Some e, buf)) (with_path path (fun e => (0, Some e, buf)) (fun p0 =>
    let p1 := match buf with [] => [0] | _ => buf end in
    let* r := syscall6 "readlink" 3 [c_string p0; CBuf p1; CInt (Z.of_nat (length buf))] in
    let out := match buf with [] => [] | _ => nth 0 (sr_bufs r) [] end in
    if negb (sr_err r =? 0) then st_ret (0, Some (sr_err r), out)
    else st_ret (i32 (sr_r1 r), None, out))).

Definition Mkdirat (dirfd : Z) (path : list Z) (mode : Z) : M (option Z) :=
  with_atfd dirfd Some (with_path path Some (fun p =>
    let* r := syscall6 "mkdir" 2 [c_string p; CInt mode] in st_ret (err_of (sr_err r)))).

Definition Fchmodat (dirfd : Z) (path : list Z) (mode flags : Z) : M (option Z) :=
  with_atfd dirfd Some (with_path path Some (fun p =>
    let* r := syscall6 "chmod" 2 [c_string p; CInt mode] in st_ret (err_of (sr_err r)))).

Definition Fchownat (dirfd : Z) (path : list Z) (uid gid flags : Z) : M (option Z) :=
  with_atfd dirfd Some (with_path path Some (fun p =>
    let fn := if negb (Z.land flags AT_SYMLINK_NOFOLLOW =? 0) then "lchown"%string else "chown"%string in
    let* r := syscall6 fn 3 [c_string p; CInt (u32 uid); CInt (u32 gid)] in st_ret (err_of (sr_err r)))).

Definition Renameat (olddirfd : Z) (oldpath : list Z) (newdirfd : Z) (newpath : list Z) : M (option Z) :=
  with_atfd olddirfd Some (with_atfd newdirfd Some
    (with_path oldpath Some (fun oldp => with_path newpath Some (fun newp =>
      let* r := syscall6 "rename" 2 [c_string oldp; c_string newp] in st_ret (err_of (sr_err r)))))).

Definition Linkat (olddirfd : Z) (oldpath : list Z) (newdirfd : Z) (newpath : list Z) (flag : Z) : M (option Z) :=
  with_atfd olddirfd Some (with_atfd newdirfd Some
    (with_path oldpath Some (fun oldp => with_path newpath Some (fun newp =>
      let* r := syscall6 "link" 2 [c_string oldp; c_string newp] in st_ret (err_of (sr_err r)))))).

Definition Symlinkat (oldpath : list Z) (newdirfd : Z) (newpath : list Z) : M (option Z) :=
  with_atfd newdirfd Some
    (with_path oldpath Some (fun oldp => with_path newpath Some (fun newp =>
      let* r := syscall6 "symlink" 2 [c_string oldp; c_string newp] in st_ret (err_of (sr_err r))))).

Definition faccessat (dirfd : Z) (path : list Z) (mode flags : Z) : M (option Z) :=
  with_atfd dirfd Some (with_path path Some (fun p =>
    let* r := syscall6 "access" 2 [c_string p; CInt mode] in st_ret (err_of (sr_err r)))).
End at_qnx.

(** ** The family's contract *)
Inductive at_op : Type :=
| AtUnlink (dirfd : Z) (path : list Z) (flags : Z)
| AtMkdir (dirfd : Z) (path : list Z) (mode : Z)
| AtChmod (dirfd : Z) (path : list Z) (mode flags : Z)
| AtChown (dirfd : Z) (path : list Z) (uid gid flags : Z)
| AtRename (olddirfd : Z) (oldpath : list Z) (newdirfd : Z) (newpath : list Z)
| AtLink (olddirfd : Z) (oldpath : list Z) (newdirfd : Z) (newpath : list Z) (flag : Z)
| AtSymlink (oldpath : list Z) (newdirfd : Z) (newpath : list Z)
| AtAccess (dirfd : Z) (path : list Z) (mode flags : Z).

Definition run_at {W} `{!Libc W} (o : at_op) : SysM W (option Z) :=
  match o with
  | AtUnlink d p f => Unlinkat d p f
  | AtMkdir d p m => Mkdirat d p m
  | AtChmod d p m f => Fchmodat d p m f
  | AtChown d p u g f => Fchownat d p u g f
  | AtRename d1 p1 d2 p2 => Renameat d1 p1 d2 p2
  | AtLink d1 p1 d2 p2 f => Linkat d1 p1 d2 p2 f
  | AtSymlink p1 d p2 => Symlinkat p1 d p2
  | AtAccess d p m f => faccessat d p m f
  end.

(** The directory descriptors of an operation, and the path-based call it becomes. *)
Definition at_dirs (o : at_op) : list Z :=
  match o with
  | AtUnlink d _ _ | AtMkdir d _ _ | AtChmod d _ _ _ | AtChown d _ _ _ _ | AtAccess d _ _ _
  | AtSymlink _ d _ => [d]
  | AtRename d1 _ d2 _ | AtLink d1 _ d2 _ _ => [d1; d2]
  end.

Definition at_call (o : at_op) : option (string * list carg) :=
  match o with
  | AtUnlink _ p f => path_call (if Z.testbit f 0 then "rmdir" else "unlink") [p] []
  | AtMkdir _ p m => path_call "mkdir" [p] [CInt m]
  | AtChmod _ p m _ => path_call "chmod" [p] [CInt m]
  | AtChown _ p u g f => path_call (if Z.testbit f 1 then "lchown" else "chown") [p] [CInt (u32 u); CInt (u32 g)]
  | AtRename _ p1 _ p2 => path_call "rename" [p1; p2] []
  | AtLink _ p1 _ p2 _ => path_call "link" [p1; p2] []
  | AtSymlink p1 _ p2 => path_call "symlink" [p1; p2] []
  | AtAccess _ p m _ => path_call "access" [p] [CInt m]
  end.

Section at_contract.
Context {W : Type} `{!Libc W}.

Lemma land_bit f i : 0 <= i -> negb (Z.land f (2 ^ i) =? 0) = Z.testbit f i.
Proof. exact (has_bits_pow2 f i). Qed.

Lemma run_at_cwd o s : Forall (fun d => d = AT_FDCWD) (at_dirs o) -> meets (at_call o) s (run_at o s).
Proof.
  intros H. destruct o; cbn [at_dirs run_at at_call] in *;
    repeat match goal with H : Forall _ (_ :: _) |- _ => apply Forall_cons_iff in H as [-> H] end;
    unfold Unlinkat, Mkdirat, Fchmodat, Fchownat, Renameat, Linkat, Symlinkat, faccessat, with_atfd;
    cbn [atfd Z.eqb AT_FDCWD Pos.eqb negb];
    try apply meets_paths; try (by apply meets_path).
  - rewrite <- (land_bit flags 0) by lia. change (2 ^ 0) with AT_REMOVEDIR. by apply meets_path.
  - rewrite <- (land_bit flags 1) by lia. change (2 ^ 1) with AT_SYMLINK_NOFOLLOW. by apply meets_path.
Qed.

(** Each *at wrapper does one of three things: with any directory descriptor
    other than AT_FDCWD it reports ENOSYS, and with a NUL in a path EINVAL, both
    without a C call; otherwise it is the one path-based C call it stands for, and
    its error is the errno that call left. *)
Theorem at_contract o s :
  (~ Forall (fun d => d = AT_FDCWD) (at_dirs o) -> run_at o s = (Some ENOSYS, s)) /\
  (Forall (fun d => d = AT_FDCWD) (at_dirs o) ->
     match at_call o with
     | None => run_at o s = (Some EINVAL, s)
     | Some (fn, args) => run_at o s = bridged fn args s
     end).
Proof.
  split; [|apply run_at_cwd]. intros H.
  assert (forall d, d <> AT_FDCWD -> atfd d = Some ENOSYS) as Hd.
  { intros d Hd. unfold atfd. by rewrite (proj2 (Z.eqb_neq _ _) Hd). }
  destruct o; cbn [at_dirs run_at] in *;
    unfold Unlinkat, Mkdirat, Fchmodat, Fchownat, Renameat, Linkat, Symlinkat, faccessat, with_atfd;
    try (rewrite Hd; [done|intros ->; apply H; by repeat constructor]);
    (destruct (decide (olddirfd = AT_FDCWD)) as [->|Hne]; [|by rewrite Hd]);
    cbn [atfd Z.eqb AT_FDCWD Pos.eqb negb];
    (rewrite Hd; [done|intros ->; apply H; by repeat constructor]).
Qed.
End at_contract.

(** ** package os: errors and paths *)
Inductive os_error : Type :=
| OsErrno (e : Z)
| OsEOF
| OsSymlink (link : list Z)
| OsPathError (op : string) (path : list Z) (err : os_error).

#[export] Instance os_error_eq_dec : EqDecision os_error.
Proof. solve_decision. Defined.

(** error.go: IsNotExist, through underlyingErrorIs. *)
Definition underlyingError (err : os_error) : os_error :=
  match err with OsPathError _ _ e => e | e => e end.
Definition IsNotExist (err : os_error) : bool :=
  match underlyingError err with OsErrno e => Errno_Is e ErrNotExist | _ => false end.

Definition PathSeparator : Z := 47.
Definition IsPathSeparator (c : Z) : bool := PathSeparator =? c.

(** path.go; [rev path] puts the last byte first. *)
Definition endsWithDot (path : list Z) : bool :=
  match rev path with
  | [46] => true
  | 46 :: c :: _ => IsPathSeparator c
  | _ => false
  end.

(** path_unix.go: splitPath, its three loops. *)
Fixpoint trim_leading (path : list Z) : list Z :=
  match path with
  | a :: ((b :: _) as rest) => if IsPathSeparator a && IsPathSeparator b then trim_leading rest else path
  | _ => path
  end.
(** On the reversed path: trailing slashes, the first byte excepted. *)
Fixpoint trim_trailing (rpath : list Z) : list Z :=
  match rpath with
  | a :: ((_ :: _) as rest) => if IsPathSeparator a then trim_trailing rest else rpath
  | _ => rpath
  end.
(** The last slash before the final byte: what is before it and what is after it. *)
Fixpoint split_last (rbase : list Z) (rpath : list Z) : option (list Z * list Z) :=
  match rpath with
  | [] => None
  | c :: rest => if IsPathSeparator c then Some (rest, rbase) else split_last (c :: rbase) rest
  end.

(** The loops never look at the last byte of the trimmed path. *)
Definition splitPath (path : list Z) : list Z * list Z :=
  let rpath := trim_trailing (rev (trim_leading path)) in
  let basename := rev rpath in
  match rpath with
  | [] => ([46], basename)
  | last :: rest =>
    match split_last [last] rest with
    | Some ([], base) => ([PathSeparator], base)
    | Some (rdir, base) => (rev rdir, base)
    | None => ([46], basename)
    end
  end.

Example splitPath_abs : splitPath [47; 97; 47; 98; 47] = ([47; 97], [98]).
Proof. reflexivity. Qed.
Example splitPath_root : splitPath [47; 47; 97] = ([47], [97]).
Proof. reflexivity. Qed.
Example splitPath_rel : splitPath [97; 98] = ([46], [97; 98]).
Proof. reflexivity. Qed.

(** What RemoveAll needs of os.File, a file being its descriptor. *)
Class OsFile (W : Type) `{!Libc W} : Type := {
  os_OpenFile : list Z -> Z -> Z -> GoM (osst W) (Z + os_error);
  os_Readdirnames : Z -> Z -> GoM (osst W) (list (list Z) * option os_error);
  os_Close : Z -> GoM (osst W) unit;
}.

Section os_remove.
Context {W : Type} `{!Libc W}.

Abbreviation G := (GoM (osst W)).

(** file_posix.go *)
Fixpoint ignoringEINTR (fuel : nat) (fn : G (option os_error)) : G (option os_error) :=
  match fuel with
  | O => fun _ => NoFuel
  | S fuel =>
    let! err := fn in
    if bool_decide (err = Some (OsErrno EINTR)) then ignoringEINTR fuel fn else go_ret err
  end.

Definition errno_of (m : SysM W (option Z)) : G (option os_error) :=
  let! e := go_lift m in go_ret (OsErrno <$> e).

(** eloop_other.go *)
Definition isNoFollowErr (err : option os_error) : bool :=
  bool_decide (err = Some (OsErrno ELOOP)) || bool_decide (err = Some (OsErrno EMLINK)).

(** root_unix.go *)
Definition removefileat (fuel : nat) (fd : Z) (name : list Z) : G (option os_error) :=
  ignoringEINTR fuel (errno_of (Unlinkat fd name 0)).
Definition removedirat (fuel : nat) (fd : Z) (name : list Z) : G (option os_error) :=
  ignoringEINTR fuel (errno_of (Unlinkat fd name AT_REMOVEDIR)).

Definition removeat (fuel : nat) (fd : Z) (name : list Z) : G (option os_error) :=
  let! e := removefileat fuel fd name in
  if bool_decide (e = None) then go_ret None else
  let! e1 := removedirat fuel fd name in
  if bool_decide (e1 = None) then go_ret None else
  if negb (bool_decide (e1 = Some (OsErrno ENOTDIR))) then go_ret e1 else go_ret e.

(** [ignoringEINTR2], for a call that also yields a value. *)
Fixpoint ignoringEINTR2 {A} (fuel : nat) (fn : G (A * option os_error)) : G (A * option os_error) :=
  match fuel with
  | O => fun _ => NoFuel
  | S fuel =>
    let! r := fn in
    if bool_decide (snd r = Some (OsErrno EINTR)) then ignoringEINTR2 fuel fn else go_ret r
  end.

Fixpoint readlinkat (fuel : nat) (len : Z) (fd : Z) (name : list Z) : G (list Z + os_error) :=
  match fuel with
  | O => fun _ => NoFuel
  | S fuel' =>
    let! r := ignoringEINTR2 fuel
      (let! r := go_lift (Readlinkat fd name (replicate (Z.to_nat len) 0)) in
       let '(n, e, b) := r in go_ret ((n, b), OsErrno <$> e)) in
    let '(n, b, e) := r in
    if bool_decide (e = Some (OsErrno ERANGE)) then readlinkat fuel' (i32 (len * 2)) fd name else
    match e with
    | Some e => go_ret (inr e)
    | None =>
      let n := Z.max n 0 in
      if n <? len then go_ret (inl (take (Z.to_nat n) b)) else readlinkat fuel' (i32 (len * 2)) fd name
    end
  end.

Definition checkSymlink (fuel : nat) (parent : Z) (name : list Z) (origError : os_error) : G os_error :=
  let! r := readlinkat fuel 128 parent name in
  match r with
  | inr _ => go_ret origError
  | inl link => go_ret (OsSymlink link)
  end.

Definition rootOpenDir (fuel : nat) (parent : Z) (name : list Z) : G (Z * option os_error) :=
  ignoringEINTR2 fuel
    (let! r := go_lift (Openat parent name (Z.lor O_NOFOLLOW (Z.lor O_CLOEXEC O_DIRECTORY)) 0) in
     let '(fd, e) := r in
     let err := OsErrno <$> e in
     match err with
     | Some err0 =>
       if isNoFollowErr err || bool_decide (err = Some (OsErrno ENOTDIR)) then
         let! err := checkSymlink fuel parent name err0 in go_ret (fd, Some err)
       else if bool_decide (err = Some (OsErrno ENOTSUP)) || bool_decide (err = Some (OsErrno EOPNOTSUPP)) then
         go_ret (fd, Some (OsErrno ENOTDIR))
       else go_ret (fd, err)
     | None => go_ret (fd, None)
     end).

(** file_unix.go: Remove *)
Definition Remove (fuel : nat) (name : list Z) : G (option os_error) :=
  let! e := ignoringEINTR fuel (errno_of (Unlink name)) in
  match e with
  | None => go_ret None
  | Some e =>
    let! e1 := ignoringEINTR fuel (errno_of (Rmdir name)) in
    match e1 with
    | None => go_ret None
    | Some e1 =>
      let e := if negb (bool_decide (e1 = OsErrno ENOTDIR)) then e1 else e in
      go_ret (Some (OsPathError "remove" name e))
    end
  end.

Context `{!OsFile W}.

(** removeall_at.go: openDirAt; newDirFile cannot fail on unix. *)
Definition openDirAt (fuel : nat) (dirfd : Z) (name : list Z) : G (Z + os_error) :=
  let! r := rootOpenDir fuel dirfd name in
  let '(fd, err) := r in
  match err with Some e => go_ret (inr e) | None => go_ret (inl fd) end.

(** [pathErr.Path = base + "/" + pathErr.Path] *)
Definition under (base : list Z) (err : os_error) : os_error :=
  match err with
  | OsPathError op path e => OsPathError op (base ++ [PathSeparator] ++ path) e
  | e => e
  end.

Definition reqSize : Z := 1024.

(** [for _, name := range names { ... }]: numErr and recurseErr. *)
Fixpoint remove_names (rec : Z -> list Z -> G (option os_error)) (base : list Z) (fd : Z)
    (names : list (list Z)) (numErr : Z) (recurseErr : option os_error) : G (Z * option os_error) :=
  match names with
  | [] => go_ret (numErr, recurseErr)
  | name :: names =>
    let! err := rec fd name in
    match err with
    | None => remove_names rec base fd names numErr recurseErr
    | Some err =>
      let recurseErr := match recurseErr with None => Some (under base err) | Some e => Some e end in
      remove_names rec base fd names (numErr + 1) recurseErr
    end
  end.

(** The inner loop: an error to return, or respSize and recurseErr. *)
Fixpoint remove_batch (fuel : nat) (rec : Z -> list Z -> G (option os_error)) (base : list Z) (fd : Z)
    (recurseErr : option os_error) : G ((Z * option os_error) + option os_error) :=
  match fuel with
  | O => fun _ => NoFuel
  | S fuel =>
    let! r := os_Readdirnames fd reqSize in
    let '(names, readErr) := r in
    match readErr with
    | Some e =>
      if negb (bool_decide (e = OsEOF)) then
        os_Close fd ;!
        if IsNotExist e then go_ret (inr None) else go_ret (inr (Some (OsPathError "readdirnames" base e)))
      else
        let! r := remove_names rec base fd names 0 recurseErr in
        let '(numErr, recurseErr) := r in
        if negb (numErr =? reqSize) then go_ret (inl (Z.of_nat (length names), recurseErr))
        else remove_batch fuel rec base fd recurseErr
    | None =>
      let! r := remove_names rec base fd names 0 recurseErr in
      let '(numErr, recurseErr) := r in
      if negb (numErr =? reqSize) then go_ret (inl (Z.of_nat (length names), recurseErr))
      else remove_batch fuel rec base fd recurseErr
    end
  end.

(** The outer loop: an error to return, or recurseErr. *)
Fixpoint remove_entries (fuel : nat) (rec : Z -> list Z -> G (option os_error)) (parentFd : Z) (base : list Z)
    (uErr : os_error) (recurseErr : option os_error) : G (option os_error + option os_error) :=
  match fuel with
  | O => fun _ => NoFuel
  | S fuel' =>
    let! r := openDirAt fuel parentFd base in
    match r with
    | inr err =>
      if IsNotExist err then go_ret (inr None) else
      if bool_decide (err = OsErrno ENOTDIR) then go_ret (inr (Some (OsPathError "unlinkat" base uErr))) else
      let err := match err with OsSymlink _ => uErr | e => e end in
      go_ret (inl (Some (OsPathError "openfdat" base err)))
    | inl fd =>
      let! r := remove_batch fuel rec base fd recurseErr in
      match r with
      | inr err => go_ret (inr err)
      | inl (respSize, recurseErr) =>
        os_Close fd ;!
        if respSize <? reqSize then go_ret (inl recurseErr)
        else remove_entries fuel' rec parentFd base uErr recurseErr
      end
    end
  end.

Fixpoint removeAllFrom (fuel : nat) (parentFd : Z) (base : list Z) : G (option os_error) :=
  match fuel with
  | O => fun _ => NoFuel
  | S fuel' =>
    let! err := removefileat fuel parentFd base in
    match err with
    | None => go_ret None
    | Some err =>
      if IsNotExist err then go_ret None else
      if negb (bool_decide (err = OsErrno EISDIR)) && negb (bool_decide (err = OsErrno EPERM)) &&
         negb (bool_decide (err = OsErrno EACCES))
      then go_ret (Some (OsPathError "unlinkat" base err)) else
      let! r := remove_entries fuel (removeAllFrom fuel') parentFd base err None in
      match r with
      | inr err => go_ret err
      | inl recurseErr =>
        let! unlinkError := removedirat fuel parentFd base in
        match unlinkError with
        | None => go_ret None
        | Some unlinkError =>
          if IsNotExist unlinkError then go_ret None else
          match recurseErr with
          | Some e => go_ret (Some e)
          | None => go_ret (Some (OsPathError "unlinkat" base unlinkError))
          end
        end
      end
    end
  end.

Definition removeAll (fuel : nat) (path : list Z) : G (option os_error) :=
  match path with
  | [] => go_ret None
  | _ =>
    if endsWithDot path then go_ret (Some (OsPathError "RemoveAll" path (OsErrno EINVAL))) else
    let! err := Remove fuel path in
    match err with
    | None => go_ret None
    | Some err =>
      if IsNotExist err then go_ret None else
      let '(parentDir, base) := splitPath path in
      let! r := os_OpenFile parentDir O_RDONLY 0 in
      match r with
      | inr err => if IsNotExist err then go_ret None else go_ret (Some err)
      | inl parent =>
        let! err := removeAllFrom fuel parent base in
        os_Close parent ;!
        go_ret (under parentDir <$> err)
      end
    end
  end.

Definition RemoveAll := removeAll.

(** The at emulation refuses the first step below a parent with a real descriptor. *)
Lemma removeAllFrom_refused fuel fd base s : (0 < fuel)%nat -> fd <> AT_FDCWD ->
  removeAllFrom fuel fd base s = Ret (Some (OsPathError "unlinkat" base (OsErrno ENOSYS))) s.
Proof.
  intros Hfuel Hfd. destruct fuel as [|fuel]; [lia|]. cbn [removeAllFrom]. unfold removefileat. cbn [ignoringEINTR].
  unfold errno_of, Unlinkat, with_atfd, atfd. by rewrite (proj2 (Z.eqb_neq _ _) Hfd).
Qed.

(** C29: RemoveAll removes nothing that Remove does not.  Where the descriptors of
    os.OpenFile are descriptors (not AT_FDCWD), it is, in every state and whatever the
    calls answer, the program below: nothing for the empty path, EINVAL for one that ends
    in a dot, else Remove; when that fails, other than because the path does not exist, it
    opens the parent directory, whose error it reports (but not that it does not exist),
    and closes it again to report ENOSYS from unlinkat, without another C call. *)
Theorem RemoveAll_never_recurses fuel path s :
  (0 < fuel)%nat ->
  (forall dir s1 fd s2, os_OpenFile dir O_RDONLY 0 s1 = Ret (inl fd) s2 -> fd <> AT_FDCWD) ->
  RemoveAll fuel path s =
    (if bool_decide (path = []) then go_ret None else
     if endsWithDot path then go_ret (Some (OsPathError "RemoveAll" path (OsErrno EINVAL))) else
     let! removed := Remove fuel path in
     match removed with
     | None => go_ret None
     | Some err =>
       if IsNotExist err then go_ret None else
       let! opened := os_OpenFile (fst (splitPath path)) O_RDONLY 0 in
       match opened with
       | inr err => go_ret (if IsNotExist err then None else Some err)
       | inl fd =>
         os_Close fd ;!
         go_ret (Some (OsPathError "unlinkat"
           (fst (splitPath path) ++ [PathSeparator] ++ snd (splitPath path)) (OsErrno ENOSYS)))
       end
     end) s.
Proof.
  intros Hfuel Hopen. unfold RemoveAll, removeAll. destruct path as [|c path]; [done|].
  rewrite bool_decide_false by done. destruct (endsWithDot _); [done|]. unfold go_bind.
  destruct (Remove _ _ _) as [[err|] s1| |]; [|done..]. destruct (IsNotExist err); [done|].
  destruct (splitPath (c :: path)) as [dir base]. cbn [fst snd].
  destruct (os_OpenFile dir O_RDONLY 0 s1) as [[fd|e] s2| |] eqn:E; [|by destruct (IsNotExist e)|done..].
  rewrite removeAllFrom_refused; [done|done|by eapply Hopen].
Qed.
End os_remove.

(** ** Concrete runs *)
Module Removing.
#[local] Instance file : OsFile Script.world := {|
  os_OpenFile name flag perm :=
    let! r := go_lift (Open name flag perm) in
    match snd r with
    | Some e => go_ret (inr (OsErrno e))
    | None => go_ret (if fst r <? 0 then inr OsEOF else inl (fst r))
    end;
  os_Readdirnames _ _ := go_ret ([], None);
  os_Close fd := let! _ := go_lift (Close fd) in go_ret tt;
|}.

(** A descriptor is what [file] opens. *)
Lemma open_not_cwd dir s1 fd s2 : os_OpenFile dir O_RDONLY 0 s1 = Ret (inl fd) s2 -> fd <> AT_FDCWD.
Proof.
  cbn. unfold go_bind, go_lift. destruct (Open _ _ _ _) as [[n [e|]] s']; cbn; [done|].
  destruct (Z.ltb_spec n 0); intros [= <- _]. unfold AT_FDCWD. lia.
Qed.

Definition demo : osst Script.world :=
  Script.start [Script.fail EPERM; Script.fail ENOTEMPTY; Script.ok 7 []; Script.ok 0 []].

Lemma RemoveAll_never_recurses_witness :
  exists s3, RemoveAll 1 [47; 116; 47; 100] demo =
    Ret (Some (OsPathError "unlinkat" [47; 116; 47; 100] (OsErrno ENOSYS))) s3 /\
    calls_of (os_trace s3) =
      [("unlink", [CStr [47; 116; 47; 100]]); ("rmdir", [CStr [47; 116; 47; 100]]);
       ("open", [CStr [47; 116]; CInt 0; CInt 0]); ("close", [CInt 7])]%string.
Proof.
  eexists. split.
  - rewrite (RemoveAll_never_recurses 1 [47; 116; 47; 100] demo); [reflexivity|lia|].
    intros dir s1 fd s2 H. apply open_not_cwd in H. exact H.
  - reflexivity.
Defined.
End Removing.

Lemma at_contract_witness :
  run_at (AtMkdir 5 [97] 511) (Script.start []) = (Some ENOSYS, Script.start []).
Proof.
  apply (proj1 (at_contract (AtMkdir 5 [97] 511) (Script.start []))).
  intros H. apply Forall_cons_iff in H as [H _]. discriminate.
Defined.
