(* ===== verification/Dirent.v ===== *)
(** * Dirent: directory entries

    The records a QNX directory read yields and their parsers: syscall/dirent.go
    with the field readers of syscall/syscall_qnx.go, and package os's reader
    (os/dir_unix.go, os/dirent_qnx.go, internal/poll/fd_unixjs.go) with the file
    modes of os/stat_qnx.go, os/stat_unix.go and os/file_posix.go. *)
From Stdlib Require Import ZArith Lia List Bool String.
From stdpp Require Import base list gmap strings numbers tactics option.
From S2P Require Import Prelude Libc Syscall AtQnx.

(** ** ztypes_qnx_arm.go: type Dirent *)
Definition off_Ino : Z := 0.
Definition off_Reclen : Z := 16.
Definition off_Namelen : Z := 18.
Definition off_Name : Z := 20.

(** ** dirent.go: integers in the buffer *)

(** [None] is the panic on an unsupported size. *)
Definition readIntLE (b : list Z) (size : Z) : option Z :=
  if size =? 1 then Some (le_value (take 1 b))
  else if size =? 2 then Some (le_value (take 2 b))
  else if size =? 4 then Some (le_value (take 4 b))
  else if size =? 8 then Some (le_value (take 8 b))
  else None.

(** The outer [None] is the panic, the inner one [ok = false]. *)
Definition readInt (b : list Z) (off size : Z) : option (option Z) :=
  if Z.of_nat (length b) <? off + size then Some None
  else Some <$> readIntLE (drop (Z.to_nat off) b) size.

(** syscall_qnx.go, and the same three in os/dirent_qnx.go; their sizes are supported. *)
Definition direntIno (buf : list Z) : option Z := mjoin (readInt buf off_Ino 8).
Definition direntReclen (buf : list Z) : option Z := mjoin (readInt buf off_Reclen 2).
Definition direntNamlen (buf : list Z) : option Z := mjoin (readInt buf off_Namelen 2).

Definition dot : list Z := [46].
Definition dotdot : list Z := [46; 46].

(** What becomes of one record: the loop's exits and [continue]s. *)
Inductive record_step : Type :=
| RecBad                                   (* !ok or too long: nothing is consumed *)
| RecStop (rest : list Z)                  (* break *)
| RecSkip (rest : list Z)                  (* continue *)
| RecName (name : list Z) (rest : list Z).

(** The body both parsers share, up to the name. *)
Definition next_record (buf : list Z) : record_step :=
  match direntReclen buf with
  | None => RecBad
  | Some reclen =>
    if Z.of_nat (length buf) <? reclen then RecBad else
    let rec := take (Z.to_nat reclen) buf in
    let rest := drop (Z.to_nat reclen) buf in
    match direntIno rec with
    | None => RecStop rest
    | Some ino =>
      if ino =? 0 then RecSkip rest else
      match direntNamlen rec with
      | None => RecStop rest
      | Some namlen =>
        if Z.of_nat (length rec) <? off_Name + namlen then RecStop rest else
        let name := cstr (take (Z.to_nat namlen) (drop (Z.to_nat off_Name) rec)) in
        if bool_decide (name = dot) || bool_decide (name = dotdot) then RecSkip rest
        else RecName name rest
      end
    end
  end.

(** ** dirent.go: ParseDirent *)

(** The loop: what is left of the buffer ([None] when all of it counts as consumed),
    the count and the names.  Every turn takes at least eight bytes. *)
Fixpoint parse_loop (fuel : nat) (buf : list Z) (max count : Z) (names : list (list Z)) :
    option (option (list Z) * Z * list (list Z)) :=
  match fuel with
  | O => None
  | S fuel =>
    if negb (max =? 0) && negb (bool_decide (buf = [])) then
      match next_record buf with
      | RecBad => Some (None, count, names)
      | RecStop rest => Some (Some rest, count, names)
      | RecSkip rest => parse_loop fuel rest max count names
      | RecName name rest => parse_loop fuel rest (max - 1) (count + 1) (names ++ [name])
      end
    else Some (Some buf, count, names)
  end.

Definition ParseDirent (buf : list Z) (max : Z) (names : list (list Z)) : option (Z * Z * list (list Z)) :=
  let origlen := Z.of_nat (length buf) in
  match parse_loop (S (length buf)) buf max 0 names with
  | None => None
  | Some (None, count, names) => Some (origlen, count, names)
  | Some (Some buf, count, names) => Some (origlen - Z.of_nat (length buf), count, names)
  end.

(** ** Lemmas on records *)
Lemma direntIno_length rec ino : direntIno rec = Some ino -> (8 <= length rec)%nat.
Proof.
  unfold direntIno, readInt, off_Ino. destruct (Z.ltb_spec (Z.of_nat (length rec)) (0 + 8)); [done|lia].
Qed.

Definition good_name (name : list Z) : Prop := (0 ∉ name) /\ name <> dot /\ name <> dotdot.

(** The exits that go on have consumed bytes. *)
Lemma next_record_shrinks buf :
  match next_record buf with
  | RecBad => True
  | RecStop rest => exists pre, buf = pre ++ rest
  | RecSkip rest => exists pre, buf = pre ++ rest /\ (8 <= length pre)%nat
  | RecName name rest => (exists pre, buf = pre ++ rest /\ (8 <= length pre)%nat) /\ good_name name
  end.
Proof.
  unfold next_record. destruct (direntReclen buf) as [reclen|]; [|done].
  destruct (Z.ltb_spec (Z.of_nat (length buf)) reclen) as [|Hle]; [done|].
  set (rec := take _ buf). set (rest := drop _ buf).
  assert (buf = rec ++ rest) as Hb by (symmetry; apply take_drop).
  destruct (direntIno rec) as [ino|] eqn:Ei; [|by exists rec].
  apply direntIno_length in Ei. destruct (ino =? 0); [by exists rec|].
  destruct (direntNamlen rec); [|by exists rec].
  destruct (_ <? _); [by exists rec|]. cbv zeta.
  destruct (bool_decide_reflect (cstr (take (Z.to_nat z) (drop (Z.to_nat off_Name) rec)) = dot)) as [|H1];
    [by exists rec|].
  destruct (bool_decide_reflect (cstr (take (Z.to_nat z) (drop (Z.to_nat off_Name) rec)) = dotdot)) as [|H2];
    cbn [orb]; [by exists rec|].
  split; [by exists rec|]. split; [apply cstr_no_nul|done].
Qed.

(** The loop ends, within the fuel given, and keeps its books. *)
Lemma parse_loop_total fuel : forall buf max count names, (length buf < fuel)%nat ->
  exists left count' new, parse_loop fuel buf max count names = Some (left, count', names ++ new) /\
    count' = count + Z.of_nat (length new) /\ (0 <= max -> Z.of_nat (length new) <= max) /\
    (length (default [] left) <= length buf)%nat /\ Forall good_name new.
Proof.
  induction fuel as [|fuel IH]; intros buf max count names Hf; [lia|]. cbn [parse_loop].
  destruct (Z.eqb_spec max 0) as [->|Hm]; cbn [negb andb].
  { exists (Some buf), count, []. rewrite app_nil_r. cbn. by split_and!; try lia. }
  case_bool_decide as Hb; cbn [negb].
  { exists (Some buf), count, []. rewrite app_nil_r. cbn. by split_and!; try lia. }
  pose proof (next_record_shrinks buf) as H. destruct (next_record buf) as [|rest|rest|name rest].
  - exists None, count, []. rewrite app_nil_r. cbn. by split_and!; try lia.
  - destruct H as [pre ->]. exists (Some rest), count, []. rewrite app_nil_r, length_app. cbn. by split_and!; try lia.
  - destruct H as (pre & -> & Hp). rewrite length_app in *.
    destruct (IH rest max count names) as (left & c & new & E & Hc & Hmax & Hl & Hg); [lia|].
    exists left, c, new. split_and!; try done. lia.
  - destruct H as ((pre & -> & Hp) & Hn). rewrite length_app in *.
    destruct (IH rest (max - 1) (count + 1) (names ++ [name])) as (left & c & new & E & Hc & Hmax & Hl & Hg); [lia|].
    exists left, c, (name :: new). rewrite <- app_assoc in E. cbn [length]. split_and!; try done; try lia.
    by constructor.
Qed.

(** ParseDirent returns on every buffer, however malformed: it consumes no more
    than it was given, appends to [names] exactly the number of names it reports, no
    more than a non-negative [max], and each is NUL-free and neither [.] nor [..]. *)
Theorem ParseDirent_total buf max names :
  exists consumed count new,
    ParseDirent buf max names = Some (consumed, count, names ++ new) /\
    0 <= consumed <= Z.of_nat (length buf) /\ count = Z.of_nat (length new) /\
    (0 <= max -> count <= max) /\ Forall good_name new.
Proof.
  unfold ParseDirent.
  destruct (parse_loop_total (S (length buf)) buf max 0 names) as (left & c & new & E & -> & Hm & Hl & Hg); [lia|].
  rewrite E. destruct left as [left|]; cbn in Hl; do 3 eexists; split_and!; try reflexivity; try lia; auto.
Qed.

(** ** The directory stream the filesystem sends *)
Record entry : Type := mkEntry { e_ino : Z; e_offset : Z; e_name : list Z; e_pad : list Z }.

Definition e_reclen (e : entry) : Z := 20 + Z.of_nat (length (e_name e)) + Z.of_nat (length (e_pad e)).

(** A struct dirent with the padding behind its name. *)
Definition encode (e : entry) : list Z :=
  le_bytes 8 (e_ino e) ++ le_bytes 8 (e_offset e) ++ le_bytes 2 (e_reclen e) ++
  le_bytes 2 (Z.of_nat (length (e_name e))) ++ e_name e ++ e_pad e.

Definition stream (es : list entry) : list Z := mjoin (map encode es).

Definition wf_entry (e : entry) : Prop := in_u 64 (e_ino e) /\ e_reclen e < 2 ^ 16 /\ (0 ∉ e_name e).

(** The entries a reader is to see. *)
Definition live (e : entry) : bool :=
  negb (e_ino e =? 0) && negb (bool_decide (e_name e = dot)) && negb (bool_decide (e_name e = dotdot)).
Definition live_names (es : list entry) : list (list Z) := map e_name (List.filter live es).

Lemma length_encode e : Z.of_nat (length (encode e)) = e_reclen e.
Proof. unfold encode, e_reclen. rewrite !length_app, !length_le_bytes. lia. Qed.

Lemma readInt_at b off size pre mid rest :
  b = pre ++ mid ++ rest -> Z.of_nat (length pre) = off -> Z.of_nat (length mid) = size ->
  size = 2 \/ size = 8 -> readInt b off size = Some (Some (le_value mid)).
Proof.
  intros -> Hp Hm Hs. unfold readInt. rewrite !length_app.
  destruct (Z.ltb_spec (Z.of_nat (length pre + (length mid + length rest))) (off + size)); [lia|].
  rewrite drop_app_length' by lia. unfold readIntLE.
  destruct Hs as [-> | ->]; cbn [Z.eqb Pos.eqb fmap option_fmap option_map];
    rewrite take_app_length' by lia; done.
Qed.

Lemma next_record_encode e rest : wf_entry e ->
  next_record (encode e ++ rest) = if live e then RecName (e_name e) rest else RecSkip rest.
Proof.
  intros (Hi & Hr & Hn). pose proof (length_encode e) as Hlen.
  assert (0 <= e_reclen e) by (unfold e_reclen; lia).
  assert (forall b, b = [] \/ b = rest -> direntReclen (encode e ++ b) = Some (e_reclen e)) as Hrec.
  { intros b _. unfold direntReclen.
    rewrite (readInt_at _ _ _ (le_bytes 8 (e_ino e) ++ le_bytes 8 (e_offset e)) (le_bytes 2 (e_reclen e))
               ((le_bytes 2 (Z.of_nat (length (e_name e))) ++ e_name e ++ e_pad e) ++ b)).
    - cbv [mjoin option_join]. f_equal. rewrite le_value_bytes. apply Z.mod_small. change (256 ^ Z.of_nat 2) with (2 ^ 16). lia.
    - unfold encode. by rewrite <- !app_assoc.
    - by rewrite length_app, !length_le_bytes.
    - by rewrite length_le_bytes.
    - by left. }
  unfold next_record. rewrite Hrec by auto. rewrite length_app.
  destruct (Z.ltb_spec (Z.of_nat (length (encode e) + length rest)) (e_reclen e)); [lia|].
  rewrite take_app_length', drop_app_length' by lia.
  assert (direntIno (encode e) = Some (e_ino e)) as ->.
  { unfold direntIno. rewrite (readInt_at _ _ _ [] (le_bytes 8 (e_ino e)) (drop 8 (encode e))).
    - cbv [mjoin option_join]. f_equal. rewrite le_value_bytes. by apply Z.mod_small.
    - done.
    - done.
    - by rewrite length_le_bytes.
    - by right. }
  unfold live. destruct (Z.eqb_spec (e_ino e) 0) as [E0|E0]; cbn [negb andb]; [done|].
  assert (direntNamlen (encode e) = Some (Z.of_nat (length (e_name e)))) as ->.
  { unfold direntNamlen.
    rewrite (readInt_at _ _ _ (le_bytes 8 (e_ino e) ++ le_bytes 8 (e_offset e) ++ le_bytes 2 (e_reclen e))
               (le_bytes 2 (Z.of_nat (length (e_name e)))) (e_name e ++ e_pad e)).
    - cbv [mjoin option_join]. f_equal. rewrite le_value_bytes. apply Z.mod_small. change (256 ^ Z.of_nat 2) with (2 ^ 16).
      unfold e_reclen in Hr. lia.
    - unfold encode. by rewrite <- !app_assoc.
    - by rewrite !length_app, !length_le_bytes.
    - by rewrite length_le_bytes.
    - by left. }
  rewrite Hlen. destruct (Z.ltb_spec (e_reclen e) (off_Name + Z.of_nat (length (e_name e))));
    [unfold e_reclen, off_Name in *; lia|].
  assert (cstr (take (Z.to_nat (Z.of_nat (length (e_name e)))) (drop (Z.to_nat off_Name) (encode e))) = e_name e) as ->.
  { unfold encode. rewrite !app_assoc. rewrite <- (app_assoc _ (e_name e)). rewrite drop_app_length'
      by (rewrite !length_app, !length_le_bytes; done).
    rewrite take_app_length' by lia. by apply cstr_id. }
  by destruct (bool_decide (e_name e = dot)), (bool_decide (e_name e = dotdot)).
Qed.

(** The loop over a well-formed stream stops between two entries. *)
Lemma parse_loop_stream es : forall fuel max count names,
  Forall wf_entry es -> (length (stream es) < fuel)%nat ->
  exists k, parse_loop fuel (stream es) max count names =
      Some (Some (stream (drop k es)), count + Z.of_nat (length (live_names (take k es))),
            names ++ live_names (take k es)) /\
    (0 <= max -> Z.of_nat (length (live_names (take k es))) <= max) /\
    (max < 0 \/ Z.of_nat (length (live_names (take k es))) < max -> take k es = es).
Proof.
  induction es as [|e es IH]; intros fuel max count names Hwf Hf; (destruct fuel as [|fuel]; [lia|]); cbn [parse_loop].
  { exists 0%nat. cbn. rewrite andb_false_r, app_nil_r, Z.add_0_r. split_and!; auto; lia. }
  apply Forall_cons_iff in Hwf as [He Hwf]. pose proof (length_encode e) as Hle.
  assert (20 <= e_reclen e) by (unfold e_reclen; lia).
  change (stream (e :: es)) with (encode e ++ stream es) in *. rewrite length_app in Hf.
  destruct (Z.eqb_spec max 0) as [->|Hm]; cbn [negb andb].
  { exists 0%nat. cbn. rewrite app_nil_r, Z.add_0_r. split_and!; auto; lia. }
  rewrite bool_decide_false; [|intros E; apply (f_equal length) in E; rewrite length_app in E; cbn in E; lia].
  cbn [negb]. rewrite next_record_encode by done.
  destruct (live e) eqn:El.
  - destruct (IH fuel (max - 1) (count + 1) (names ++ [e_name e])) as (k & E & Hmax & Hall); [done|lia|].
    exists (S k). rewrite E. unfold live_names in *. cbn [take drop List.filter]. rewrite El. cbn [map length].
    split_and!; [|lia|].
    + f_equal. f_equal; [f_equal; lia|]. by rewrite <- app_assoc.
    + intros H1. f_equal. apply Hall. lia.
  - destruct (IH fuel max count names) as (k & E & Hmax & Hall); [done|lia|].
    exists (S k). rewrite E. unfold live_names in *. cbn [take drop List.filter]. rewrite El.
    split_and!; [done|done|]. intros H1. f_equal. by apply Hall.
Qed.

(** On the stream a filesystem sends, ParseDirent yields the entries' names in
    order, leaving out deleted entries, [.] and [..]; it stops between two entries,
    so that parsing what it did not consume continues where it left off, and it
    stops early only when [max] names were found. *)
Theorem ParseDirent_stream es max names :
  Forall wf_entry es ->
  exists k, ParseDirent (stream es) max names =
      Some (Z.of_nat (length (stream (take k es))), Z.of_nat (length (live_names (take k es))),
            names ++ live_names (take k es)) /\
    drop (length (stream (take k es))) (stream es) = stream (drop k es) /\
    (0 <= max -> Z.of_nat (length (live_names (take k es))) <= max) /\
    (max < 0 \/ Z.of_nat (length (live_names (take k es))) < max -> take k es = es).
Proof.
  intros Hwf. destruct (parse_loop_stream es (S (length (stream es))) max 0 names Hwf) as (k & E & Hmax & Hall); [lia|].
  exists k. unfold ParseDirent. rewrite E.
  assert (stream es = stream (take k es) ++ stream (drop k es)) as Hs.
  { unfold stream. rewrite <- (take_drop k es) at 1. by rewrite map_app, join_app. }
  split_and!; try done.
  - rewrite Hs at 1. rewrite length_app. do 3 f_equal. lia.
  - rewrite Hs. apply drop_app_length.
Qed.

(** ** os/stat_qnx.go and os/file_posix.go: file modes *)
Definition S_IFMT : Z := 61440.
Definition S_IFIFO : Z := 4096.
Definition S_IFCHR : Z := 8192.
Definition S_IFDIR : Z := 16384.
Definition S_IFBLK : Z := 24576.
Definition S_IFREG : Z := 32768.
Definition S_IFLNK : Z := 40960.
Definition S_IFSOCK : Z := 49152.
Definition S_ISUID : Z := 2048.
Definition S_ISGID : Z := 1024.
Definition S_ISVTX : Z := 512.

(** io/fs/fs.go: [1 << (32 - 1 - iota)] *)
Definition ModeDir : Z := 2 ^ 31.
Definition ModeSymlink : Z := 2 ^ 27.
Definition ModeDevice : Z := 2 ^ 26.
Definition ModeNamedPipe : Z := 2 ^ 25.
Definition ModeSocket : Z := 2 ^ 24.
Definition ModeSetuid : Z := 2 ^ 23.
Definition ModeSetgid : Z := 2 ^ 22.
Definition ModeCharDevice : Z := 2 ^ 21.
Definition ModeSticky : Z := 2 ^ 20.
Definition ModeIrregular : Z := 2 ^ 19.
Definition ModeType : Z :=
  Z.lor ModeDir (Z.lor ModeSymlink (Z.lor ModeNamedPipe (Z.lor ModeSocket
    (Z.lor ModeDevice (Z.lor ModeCharDevice ModeIrregular))))).
Definition ModePerm : Z := 511.

Definition fill_mode (m : Z) : Z :=
  let mode := Z.land m 511 in
  let t := Z.land m S_IFMT in
  let mode :=
    if t =? S_IFBLK then Z.lor mode ModeDevice
    else if t =? S_IFCHR then Z.lor mode (Z.lor ModeDevice ModeCharDevice)
    else if t =? S_IFDIR then Z.lor mode ModeDir
    else if t =? S_IFIFO then Z.lor mode ModeNamedPipe
    else if t =? S_IFLNK then Z.lor mode ModeSymlink
    else if t =? S_IFSOCK then Z.lor mode ModeSocket
    else mode in
  let mode := if negb (Z.land m S_ISGID =? 0) then Z.lor mode ModeSetgid else mode in
  let mode := if negb (Z.land m S_ISUID =? 0) then Z.lor mode ModeSetuid else mode in
  if negb (Z.land m S_ISVTX =? 0) then Z.lor mode ModeSticky else mode.

Definition syscallMode (i : Z) : Z :=
  let o := Z.land i ModePerm in
  let o := if negb (Z.land i ModeSetuid =? 0) then Z.lor o S_ISUID else o in
  let o := if negb (Z.land i ModeSetgid =? 0) then Z.lor o S_ISGID else o in
  if negb (Z.land i ModeSticky =? 0) then Z.lor o S_ISVTX else o.

(** filepathlite.Base, with no volume names on unix. *)
Fixpoint drop_slashes (rpath : list Z) : list Z :=
  match rpath with
  | c :: rest => if IsPathSeparator c then drop_slashes rest else rpath
  | [] => []
  end.
Fixpoint until_slash (rpath : list Z) : list Z :=
  match rpath with
  | c :: rest => if IsPathSeparator c then [] else c :: until_slash rest
  | [] => []
  end.
Definition Base (path : list Z) : list Z :=
  match path with
  | [] => dot
  | _ => match rev (until_slash (drop_slashes (rev path))) with
         | [] => [PathSeparator]
         | base => base
         end
  end.

(** syscall.Stat_t is read as its fields in order, one cell each: Ino, Size, Dev,
    Rdev, Uid, Gid, Mtim, Atim, Ctim, Mode, Nlink, Blocksize, Nblocks, Blksize, Blocks. *)
Definition st_Size (st : list Z) : Z := nth 1 st 0.
Definition st_Mtim (st : list Z) : Z := nth 6 st 0.
Definition st_Mode (st : list Z) : Z := nth 9 st 0.

Record fileStat : Type := mkStat { fs_name : list Z; fs_size : Z; fs_mode : Z; fs_modTime : Z; fs_sys : list Z }.

Definition fillFileStatFromSys (sys : list Z) (name : list Z) : fileStat :=
  mkStat (Base name) (st_Size sys) (fill_mode (st_Mode sys)) (st_Mtim sys) sys.

(** Every mode, decided by evaluation over 16-bit words. *)
Definition is_type (m t : Z) : bool := Z.land m S_IFMT =? t.

Definition mode_ok (m : Z) : bool :=
  let f := fill_mode m in
  (syscallMode f =? Z.land m 4095) &&
  Bool.eqb (negb (Z.land f ModeDir =? 0)) (is_type m S_IFDIR) &&
  Bool.eqb (negb (Z.land f ModeSymlink =? 0)) (is_type m S_IFLNK) &&
  Bool.eqb (negb (Z.land f ModeNamedPipe =? 0)) (is_type m S_IFIFO) &&
  Bool.eqb (negb (Z.land f ModeSocket =? 0)) (is_type m S_IFSOCK) &&
  Bool.eqb (negb (Z.land f ModeDevice =? 0)) (is_type m S_IFBLK || is_type m S_IFCHR) &&
  Bool.eqb (negb (Z.land f ModeCharDevice =? 0)) (is_type m S_IFCHR).

(** The portable mode of a file loses nothing of its st_mode: the permission,
    set-id and sticky bits come back through syscallMode, and each type bit is set
    exactly for its file type. *)
Theorem fileMode_faithful m :
  0 <= m < 2 ^ 16 ->
  syscallMode (fill_mode m) = Z.land m 4095 /\
  (Z.land (fill_mode m) ModeDir <> 0 <-> Z.land m S_IFMT = S_IFDIR) /\
  (Z.land (fill_mode m) ModeSymlink <> 0 <-> Z.land m S_IFMT = S_IFLNK) /\
  (Z.land (fill_mode m) ModeNamedPipe <> 0 <-> Z.land m S_IFMT = S_IFIFO) /\
  (Z.land (fill_mode m) ModeSocket <> 0 <-> Z.land m S_IFMT = S_IFSOCK) /\
  (Z.land (fill_mode m) ModeDevice <> 0 <-> Z.land m S_IFMT = S_IFBLK \/ Z.land m S_IFMT = S_IFCHR) /\
  (Z.land (fill_mode m) ModeCharDevice <> 0 <-> Z.land m S_IFMT = S_IFCHR).
Proof.
  intros Hm. assert (mode_ok m = true) as H.
  { apply (all_below_spec 16 0); [vm_compute; reflexivity|lia]. }
  unfold mode_ok, is_type in H. rewrite !andb_true_iff, !Bool.eqb_true_iff, Z.eqb_eq in H.
  destruct H as ((((((H0 & H1) & H2) & H3) & H4) & H5) & H6). split; [done|].
  assert (forall x t, negb (x =? 0) = (Z.land m S_IFMT =? t) -> (x <> 0 <-> Z.land m S_IFMT = t)) as Hiff.
  { intros x t E. destruct (Z.eqb_spec x 0), (Z.eqb_spec (Z.land m S_IFMT) t); naive_solver. }
  split_and!; try by apply Hiff.
  destruct (Z.eqb_spec (Z.land (fill_mode m) ModeDevice) 0), (Z.eqb_spec (Z.land m S_IFMT) S_IFBLK),
    (Z.eqb_spec (Z.land m S_IFMT) S_IFCHR); naive_solver.
Qed.

(** ** os/dir_unix.go: (f *File) readdir *)
Definition blockSize : nat := Z.to_nat 8192.

Inductive readdirMode : Type := readdirName | readdirDirEntry | readdirFileInfo.

#[export] Instance readdirMode_eq_dec : EqDecision readdirMode.
Proof. solve_decision. Defined.

(** The machine, the buffer the pool hands out next, and the file's dirInfo: its
    buffer (nil between directories), [nbuf] and [bufp]. *)
Record dirst (W : Type) : Type := mkDir {
  dr_os : osst W; dr_pool : list Z; d_buf : option (list Z); d_nbuf : Z; d_bufp : Z }.
Arguments mkDir {W} dr_os dr_pool d_buf d_nbuf d_bufp.
Arguments dr_os {W} d.
Arguments dr_pool {W} d.
Arguments d_buf {W} d.
Arguments d_nbuf {W} d.
Arguments d_bufp {W} d.

Record dirEntry : Type := mkDE { de_name : list Z; de_typ : Z; de_info : option fileStat }.

Section readdir.
Context {W : Type} `{!Libc W}.
(** The directory: its descriptor and name; incref's answer and the poller's. *)
Context (f_fd : Z) (f_name : list Z) (fd_incref : option os_error)
        (pd_pollable : bool) (pd_waitRead : SysM W (option os_error)).

Abbreviation D := (GoM (dirst W)).

Definition on_os {A} (m : GoM (osst W) A) : D A := fun d =>
  match m (dr_os d) with
  | Ret a o => Ret a (mkDir o (dr_pool d) (d_buf d) (d_nbuf d) (d_bufp d))
  | Throw msg o => Throw msg (mkDir o (dr_pool d) (d_buf d) (d_nbuf d) (d_bufp d))
  | NoFuel => NoFuel
  end.

(** fd_unix.go: ignoringEINTRIO, here with syscall.ReadDirent. *)
Fixpoint ignoringEINTRIO (fuel : nat) (fd : Z) (p : list Z) : GoM (osst W) (Z * option Z * list Z) :=
  match fuel with
  | O => fun _ => NoFuel
  | S fuel =>
    let! r := go_lift (ReadDirent fd p) in
    let '(n, err, p) := r in
    if bool_decide (err = Some EINTR) then ignoringEINTRIO fuel fd p else go_ret (n, err, p)
  end.

(** fd_unixjs.go: FD.ReadDirent *)
Fixpoint FD_ReadDirent_loop (fuel : nat) (buf : list Z) : GoM (osst W) (Z * option os_error * list Z) :=
  match fuel with
  | O => fun _ => NoFuel
  | S fuel' =>
    let! r := ignoringEINTRIO fuel f_fd buf in
    let '(n, err, buf) := r in
    match err with
    | None => go_ret (n, None, buf)
    | Some e =>
      if (e =? EAGAIN) && pd_pollable then
        let! w := go_lift pd_waitRead in
        match w with
        | None => FD_ReadDirent_loop fuel' buf
        | Some e' => go_ret (0, Some e', buf)
        end
      else go_ret (0, Some (OsErrno e), buf)
    end
  end.

Definition FD_ReadDirent (fuel : nat) (buf : list Z) : GoM (osst W) (Z * option os_error * list Z) :=
  match fd_incref with
  | Some err => go_ret (0, Some err, buf)
  | None => FD_ReadDirent_loop fuel buf
  end.

(** stat_unix.go and statat_other.go: Lstat of the entry through its full name. *)
Definition stat0 : list Z := replicate 15 0.

Fixpoint lstat_loop (fuel : nat) (name : list Z) (st : list Z) : GoM (osst W) (option Z * list Z) :=
  match fuel with
  | O => fun _ => NoFuel
  | S fuel =>
    let! r := go_lift (Lstat name st) in
    if bool_decide (fst r = Some EINTR) then lstat_loop fuel name (snd r) else go_ret r
  end.

Definition lstatNolog (fuel : nat) (name : list Z) : GoM (osst W) (fileStat + os_error) :=
  let! r := lstat_loop fuel name stat0 in
  match fst r with
  | Some e => go_ret (inr (OsPathError "lstat" name (OsErrno e)))
  | None => go_ret (inl (fillFileStatFromSys (snd r) name))
  end.

Definition lstatat (fuel : nat) (name : list Z) : GoM (osst W) (fileStat + os_error) :=
  lstatNolog fuel (f_name ++ [PathSeparator] ++ name).

(** dirent_qnx.go: the type is never known. *)
Definition direntType : Z := 2 ^ 32 - 1.

(** file_unix.go: newUnixDirent *)
Definition newUnixDirent (fuel : nat) (inRoot : bool) (name : list Z) (typ : Z) : GoM (osst W) (dirEntry + os_error) :=
  if negb (typ =? 2 ^ 32 - 1) && negb inRoot then go_ret (inl (mkDE name typ None)) else
  let! r := lstatat fuel name in
  match r with
  | inr err => go_ret (inr err)
  | inl info => go_ret (inl (mkDE name (Z.land (fs_mode info) ModeType) (Some info)))
  end.

Record listing : Type := mkListing { names : list (list Z); dirents : list dirEntry; infos : list fileStat }.

(** An entry appended to the list the mode asks for: the listing, or an error. *)
Definition add_entry (fuel : nat) (mode : readdirMode) (name : list Z) (l : listing) :
    GoM (osst W) (listing + (listing * os_error)) :=
  match mode with
  | readdirName => go_ret (inl (mkListing (names l ++ [name]) (dirents l) (infos l)))
  | readdirDirEntry =>
    let! r := newUnixDirent fuel false name direntType in
    match r with
    | inr err => if IsNotExist err then go_ret (inl l) else go_ret (inr (mkListing [] (dirents l) [], err))
    | inl de => go_ret (inl (mkListing (names l) (dirents l ++ [de]) (infos l)))
    end
  | readdirFileInfo =>
    let! r := lstatat fuel name in
    match r with
    | inr err => if IsNotExist err then go_ret (inl l) else go_ret (inr (mkListing [] [] (infos l), err))
    | inl info => go_ret (inl (mkListing (names l) (dirents l) (infos l ++ [info])))
    end
  end.

Definition listed (l : listing) : Z := Z.of_nat (length (names l) + length (dirents l) + length (infos l)).

(** After the loop. *)
Definition readdir_end (n : Z) (l : listing) : listing * option os_error :=
  if (0 <? n) && (listed l =? 0) then (mkListing [] [] [], Some OsEOF) else (l, None).

(** The refill at the top of the loop: an error, end of file, or the window. *)
Definition refill_window (fuel : nat) : D (os_error + bool) := fun d =>
  if d_nbuf d <=? d_bufp d then
    let buf := default [] (d_buf d) in
    match FD_ReadDirent fuel buf (dr_os d) with
    | Ret (n, Some errno, buf) o =>
      Ret (inl (OsPathError "readdirent" f_name errno)) (mkDir o (dr_pool d) (Some buf) n 0)
    | Ret (n, None, buf) o =>
      if n <=? 0 then Ret (inr true) (mkDir o buf None n 0)
      else Ret (inr false) (mkDir o (dr_pool d) (Some buf) n 0)
    | Throw msg o => Throw msg d
    | NoFuel => NoFuel
    end
  else Ret (inr false) d.

(** The window: d.buf from bufp to nbuf. *)
Definition window (d : dirst W) : list Z :=
  take (Z.to_nat (d_nbuf d - d_bufp d)) (drop (Z.to_nat (d_bufp d)) (default [] (d_buf d))).

Definition set_bufp (bufp : Z) : D unit := fun d =>
  Ret tt (mkDir (dr_os d) (dr_pool d) (d_buf d) (d_nbuf d) bufp).

Fixpoint readdir_loop (fuel : nat) (n : Z) (mode : readdirMode) (l : listing) : D (listing * option os_error) :=
  match fuel with
  | O => fun _ => NoFuel
  | S fuel' =>
    if n =? 0 then go_ret (readdir_end n l) else
    let! r := refill_window fuel in
    match r with
    | inl err => go_ret (l, Some err)
    | inr true => go_ret (readdir_end n l)
    | inr false =>
      let! d := go_get in
      let buf := window d in
      let bufp rest := d_bufp d + Z.of_nat (length buf) - Z.of_nat (length rest) in
      match next_record buf with
      | RecBad => go_ret (readdir_end n l)
      | RecStop rest => set_bufp (bufp rest) ;! go_ret (readdir_end n l)
      | RecSkip rest => set_bufp (bufp rest) ;! readdir_loop fuel' n mode l
      | RecName name rest =>
        set_bufp (bufp rest) ;!
        let n := if 0 <? n then n - 1 else n in
        let! r := on_os (add_entry fuel mode name l) in
        match r with
        | inl l => readdir_loop fuel' n mode l
        | inr (l, err) => go_ret (l, Some err)
        end
      end
    end
  end.

Definition readdir (fuel : nat) (n : Z) (mode : readdirMode) : D (listing * option os_error) :=
  let! d := go_get in
  go_put (match d_buf d with
          | None => mkDir (dr_os d) (replicate blockSize 0) (Some (dr_pool d)) (d_nbuf d) (d_bufp d)
          | Some _ => d
          end) ;!
  readdir_loop fuel (if n =? 0 then -1 else n) mode (mkListing [] [] []).

(** dir.go *)
Definition Readdirnames (fuel : nat) (n : Z) : D (list (list Z) * option os_error) :=
  let! r := readdir fuel n readdirName in go_ret (names (fst r), snd r).
End readdir.

(** ** Reading a directory whole

    A filesystem that answers each read of the directory with whole entries that
    fit the buffer, and with nothing once all have been sent. *)
Class DirStream (W : Type) `{!Libc W} : Type := {
  chunks : Z -> W -> list (list entry);
  chunks_set_errno : forall fd e w, chunks fd (libc_set_errno e w) = chunks fd w;
  chunks_wf : forall fd w, Forall (fun es => Forall wf_entry es /\ es <> [] /\
                             (length (stream es) <= blockSize)%nat) (chunks fd w);
  chunks_read : forall fd b w, length b = blockSize ->
    let '(w', rp) := libc_call "read" [CInt (u32 fd); CBuf b; CInt 8192] w in
    let sent := default [] (head (chunks fd w)) in
    u32 (libc_errno w') = 0 /\ chunks fd w' = tail (chunks fd w) /\
    rp_r1 rp = Z.of_nat (length (stream sent)) /\ rp_bufs rp = [stream sent];
}.

Section whole_directory.
Context {W : Type} `{!Libc W} `{!DirStream W}.
Context (f_fd : Z) (f_name : list Z) (pd_pollable : bool) (pd_waitRead : SysM W (option os_error)).
Implicit Types d : dirst W.

Local Abbreviation rdloop := (readdir_loop f_fd f_name None pd_pollable pd_waitRead).

(** What is still to be listed: [es1] in the window, the rest with the filesystem. *)
Definition pending d (es1 : list entry) (cs : list (list entry)) : Prop :=
  chunks f_fd (os_w (dr_os d)) = cs /\ os_perrno (dr_os d) = true /\ Forall wf_entry es1 /\
  match d_buf d with
  | Some buf => length buf = blockSize /\ 0 <= d_bufp d <= d_nbuf d /\
      d_nbuf d <= Z.of_nat blockSize /\ window d = stream es1
  | None => es1 = [] /\ d_nbuf d = 0 /\ d_bufp d = 0
  end /\ length (dr_pool d) = blockSize.

Definition turns (es1 : list entry) (cs : list (list entry)) : nat :=
  (length es1 + length (mjoin cs) + length cs)%nat.

Lemma stream_nil_iff es : stream es = [] -> es = [].
Proof.
  destruct es as [|e es]; [done|]. change (stream (e :: es)) with (encode e ++ stream es). intros H.
  apply (f_equal length) in H. rewrite length_app in H. pose proof (length_encode e).
  assert (20 <= e_reclen e) by (unfold e_reclen; lia). cbn in H. lia.
Qed.

Lemma length_window d : 0 <= d_bufp d <= d_nbuf d ->
  (Z.to_nat (d_nbuf d) <= length (default [] (d_buf d)))%nat ->
  Z.of_nat (length (window d)) = d_nbuf d - d_bufp d.
Proof. intros H1 H2. unfold window. rewrite length_take, length_drop. lia. Qed.

Lemma chunk_wf o cs : chunks f_fd (os_w o) = cs ->
  let sent := default [] (head cs) in
  Forall wf_entry sent /\ (length (stream sent) <= blockSize)%nat /\ (stream sent = [] <-> cs = []).
Proof.
  intros Hc. pose proof (chunks_wf f_fd (os_w o)) as H. rewrite Hc in H.
  destruct cs as [|c cs]; cbn [head default]; [split_and!; [constructor|cbn; lia|done]|].
  apply Forall_cons_iff in H as [(H1 & H2 & H3) _]. split_and!; [done..|].
  split; [|done]. intros E. by apply stream_nil_iff in E.
Qed.

(** One read of the directory. *)
Lemma read_chunk buf o cs :
  length buf = blockSize -> os_perrno o = true -> chunks f_fd (os_w o) = cs ->
  let sent := stream (default [] (head cs)) in
  exists o', ReadDirent f_fd buf o = ((Z.of_nat (length sent), None, refill buf sent), o') /\
    os_perrno o' = true /\ chunks f_fd (os_w o') = tail cs.
Proof.
  intros Hl Hp Hc. destruct (chunk_wf o cs Hc) as (_ & Hsz & _). cbv zeta in *.
  set (sent := stream _) in *.
  assert (slice_arg buf = CBuf buf) as Es by (by destruct buf).
  unfold ReadDirent, Getdents, read. rewrite Es, Hl.
  pose proof (sysvicall6_run "read" 3 [CInt (u32 f_fd); CBuf buf; CInt (Z.of_nat blockSize)] o) as R.
  cbv zeta in R. change (take (Z.to_nat (Z.min 3 6)) ?l) with l in R.
  pose proof (chunks_read f_fd buf (bridge_world o) Hl) as Hread.
  change (CInt 8192) with (CInt (Z.of_nat blockSize)) in Hread.
  destruct (libc_call "read" _ _) as [w' rp].
  replace (chunks f_fd (bridge_world o)) with cs in Hread
    by (unfold bridge_world; rewrite Hp, chunks_set_errno; done).
  destruct Hread as (He & Hcs & Hr1 & Hbufs). fold sent in Hr1, Hbufs.
  rewrite Hp, He, Hr1, Hbufs in R. exists (mkOs w' true (os_trace o ++
    [EvEnterSyscall; EvCall "read" [CInt (u32 f_fd); CBuf buf; CInt (Z.of_nat blockSize)]; EvExitSyscall])).
  split; [|done]. unfold st_bind, st_ret, sysvicall6. rewrite R. cbn [sr_err sr_r1 sr_bufs].
  do 2 f_equal.
  - rewrite wraps_wrapu by lia. f_equal. unfold blockSize in Hsz. word_small.
  - unfold slice_out. by destruct buf.
Qed.

(** Refilling an exhausted window takes the next chunk, or ends the directory. *)
Lemma refill_window_next fuel d cs :
  pending d [] cs -> is_Some (d_buf d) -> (0 < fuel)%nat ->
  exists d', refill_window f_fd f_name None pd_pollable pd_waitRead fuel d =
      Ret (inr (bool_decide (cs = []))) d' /\
    pending d' (default [] (head cs)) (tail cs) /\ (cs <> [] -> is_Some (d_buf d')).
Proof.
  intros (Hc & Hp & _ & Hb & Hpool) [buf Ebuf] Hf. rewrite Ebuf in Hb. destruct Hb as (Hl & Hr & Hn & Hw).
  assert (d_bufp d = d_nbuf d) as Heq.
  { pose proof (length_window d Hr) as H. rewrite Ebuf, Hw in H. cbn in H. specialize (H ltac:(unfold blockSize in *; lia)). lia. }
  unfold refill_window. rewrite (proj2 (Z.leb_le _ _)) by lia. rewrite Ebuf. change (default [] (Some buf)) with buf.
  destruct fuel as [|fuel]; [lia|]. unfold FD_ReadDirent. cbn [FD_ReadDirent_loop ignoringEINTRIO].
  destruct (read_chunk buf (dr_os d) cs Hl Hp Hc) as (o' & R & Hp' & Hc').
  destruct (chunk_wf (dr_os d) cs Hc) as (Hwf & Hsz & Hnil).
  set (sent := default [] (head cs)) in *. unfold go_bind, go_lift. rewrite R. unfold go_ret.
  rewrite bool_decide_false by done.
  assert (length (refill buf (stream sent)) = blockSize) as Hrl by (by rewrite length_refill).
  destruct (Z.leb_spec (Z.of_nat (length (stream sent))) 0) as [H0|H0].
  - assert (stream sent = []) as Hs by (destruct (stream sent); [done|cbn in H0; lia]).
    assert (cs = []) as -> by (by apply Hnil). rewrite bool_decide_true by done.
    eexists. split; [done|]. split; [|done]. unfold pending. cbn in *. split_and!; try done; lia.
  - assert (cs <> []) as Hne by (intros E; rewrite (proj2 Hnil E) in H0; cbn in H0; lia).
    rewrite bool_decide_false by done. eexists. split; [done|]. split; [|by eexists].
    unfold pending. cbn [dr_os dr_pool d_buf d_nbuf d_bufp]. unfold blockSize in *.
    split_and!; try done; try lia.
    unfold window. cbn [d_nbuf d_bufp d_buf]. change (default [] (Some ?b)) with b. rewrite drop_0, Z.sub_0_r, Nat2Z.id.
    unfold refill. rewrite take_take, Nat.min_l by lia. apply take_app_length.
Qed.

(** Taking the next entry out of the window. *)
Lemma window_advance d e es cs :
  pending d (e :: es) cs ->
  next_record (window d) = (if live e then RecName (e_name e) (stream es) else RecSkip (stream es)) /\
  pending (mkDir (dr_os d) (dr_pool d) (d_buf d) (d_nbuf d)
             (d_bufp d + Z.of_nat (length (window d)) - Z.of_nat (length (stream es)))) es cs.
Proof.
  intros (Hc & Hp & Hwf & Hb & Hpool). destruct (d_buf d) as [buf|] eqn:Ebuf; [|by destruct Hb].
  destruct Hb as (Hl & Hr & Hn & Hw). apply Forall_cons_iff in Hwf as [He Hwf].
  change (stream (e :: es)) with (encode e ++ stream es) in Hw. split.
  { rewrite Hw. by apply next_record_encode. }
  pose proof (length_window d Hr) as Hlw. rewrite Ebuf in Hlw. cbn in Hlw.
  specialize (Hlw ltac:(unfold blockSize in *; lia)).
  assert (Z.of_nat (length (window d)) = e_reclen e + Z.of_nat (length (stream es))) as Hlen.
  { rewrite Hw, length_app, <- (length_encode e). lia. }
  assert (0 <= e_reclen e) by (unfold e_reclen; lia).
  unfold pending. cbn [dr_os dr_pool d_buf d_nbuf d_bufp]. split_and!; try done; try lia.
  replace (d_bufp d + Z.of_nat (length (window d)) - Z.of_nat (length (stream es)))
    with (d_bufp d + e_reclen e) by lia.
  assert (stream es = drop (Z.to_nat (e_reclen e)) (window d)) as ->.
  { rewrite Hw, drop_app_length'; [done|]. pose proof (length_encode e). lia. }
  unfold window. cbn [d_nbuf d_bufp d_buf]. rewrite Ebuf, skipn_firstn_comm, drop_drop.
  f_equal; [lia|]. f_equal. lia.
Qed.

(** The top of the loop: the directory is over, or an entry is in the window. *)
Lemma refill_step fuel d es1 cs :
  pending d es1 cs -> is_Some (d_buf d) -> (0 < fuel)%nat ->
  (es1 = [] /\ cs = [] /\ exists d', pending d' [] [] /\
     refill_window f_fd f_name None pd_pollable pd_waitRead fuel d = Ret (inr true) d') \/
  (exists e es cs' d', pending d' (e :: es) cs' /\ is_Some (d_buf d') /\
     es1 ++ mjoin cs = e :: es ++ mjoin cs' /\ (turns (e :: es) cs' <= turns es1 cs)%nat /\
     refill_window f_fd f_name None pd_pollable pd_waitRead fuel d = Ret (inr false) d').
Proof.
  intros H Hs Hf. destruct es1 as [|e es].
  - destruct (refill_window_next fuel d cs H Hs Hf) as (d' & E & Hp & Hs').
    pose proof H as (Hc & _). pose proof (chunk_wf _ _ Hc) as (_ & _ & Hnil).
    destruct cs as [|c cs].
    + left. rewrite bool_decide_true in E by done. by eauto 6.
    + right. rewrite bool_decide_false in E by done. cbn [head default tail] in *.
      destruct c as [|e es]; [discriminate (proj1 Hnil eq_refl)|].
      exists e, es, cs, d'. split_and!; [done|by apply Hs'|done| |done].
      unfold turns. change (mjoin ((e :: es) :: cs)) with ((e :: es) ++ mjoin cs).
      rewrite length_app. cbn [length]. lia.
  - right. exists e, es, cs, d. split_and!; [done..|]. unfold refill_window.
    pose proof H as (_ & _ & _ & Hb & _). destruct Hs as [buf Eb]. rewrite Eb in Hb.
    destruct Hb as (Hl & Hr & Hn & Hw). destruct (Z.leb_spec (d_nbuf d) (d_bufp d)) as [Hle|]; [|done].
    exfalso. assert (window d = []) as E by (unfold window; by replace (d_nbuf d - d_bufp d) with 0 by lia).
    rewrite E in Hw. symmetry in Hw. by apply stream_nil_iff in Hw.
Qed.

(** The listing of the loop: the next names, in order, as many as asked for. *)
Lemma readdir_loop_lists fuel : forall n l d es1 cs,
  pending d es1 cs -> is_Some (d_buf d) -> (turns es1 cs < fuel)%nat -> n <> 0 \/ 0 < listed l ->
  let all := es1 ++ mjoin cs in
  exists k d' es' cs',
    let found := live_names (take k all) in
    let l' := mkListing (names l ++ found) (dirents l) (infos l) in
    rdloop fuel n readdirName l d =
      Ret (if (Z.of_nat (length found) <? n) && (listed l' =? 0) then (mkListing [] [] [], Some OsEOF) else (l', None)) d' /\
    pending d' es' cs' /\ es' ++ mjoin cs' = drop k all /\
    (0 <= n -> Z.of_nat (length found) <= n) /\
    (n < 0 \/ Z.of_nat (length found) < n -> drop k all = []).
Proof.
  induction fuel as [|fuel IH]; intros n l d es1 cs Hpend Hs Hf Hn; [lia|]. cbv zeta.
  cbn [readdir_loop]. destruct (Z.eqb_spec n 0) as [->|Hn0].
  { exists 0%nat, d, es1, cs. cbn [take drop live_names List.filter map length]. rewrite app_nil_r.
    unfold readdir_end. cbn. destruct l. split_and!; try done; lia. }
  unfold go_bind at 1.
  destruct (refill_step (S fuel) d es1 cs Hpend Hs ltac:(lia)) as
    [(-> & -> & d' & Hp' & ->)|(e & es & cs' & d' & Hp' & Hs' & -> & Ht & ->)].
  { exists 0%nat, d', [], []. cbn [take drop live_names List.filter map length mjoin list_join app]. rewrite app_nil_r.
    unfold readdir_end, go_ret. destruct l. split_and!; try done; lia. }
  unfold go_bind at 1, go_get. destruct (window_advance d' e es cs' Hp') as [-> Hadv].
  assert (turns es cs' < fuel)%nat as Hf' by (unfold turns in *; cbn [length] in Ht; lia).
  destruct (live e) eqn:El.
  - unfold go_bind at 1, set_bufp at 1. unfold go_bind at 1, on_os, add_entry, go_ret at 1.
    cbn [dr_os dr_pool d_buf d_nbuf d_bufp].
    edestruct (IH (if 0 <? n then n - 1 else n) (mkListing (names l ++ [e_name e]) (dirents l) (infos l)) _ es cs' Hadv)
      as (k & d2 & es2 & cs2 & E & Hp2 & Hrest & Hmax & Hall); [done|done| |].
    { right. unfold listed. cbn. rewrite length_app. cbn. lia. }
    exists (S k), d2, es2, cs2. cbn [take drop]. unfold live_names in *. cbn [List.filter]. rewrite El. cbn [map length names dirents infos] in *.
    rewrite <- app_assoc in E. cbn [app] in E. rewrite E. split_and!; [|done|done| |].
    + f_equal. destruct (Z.ltb_spec 0 n); [|by rewrite !(proj2 (Z.ltb_ge _ _)) by lia].
      replace (Z.of_nat (S (length (map e_name (List.filter live (take k (es ++ mjoin cs')))))) <? n)
        with (Z.of_nat (length (map e_name (List.filter live (take k (es ++ mjoin cs'))))) <? n - 1); [done|].
      apply eq_true_iff_eq. rewrite !Z.ltb_lt. lia.
    + destruct (Z.ltb_spec 0 n); lia.
    + intros H1. apply Hall. destruct (Z.ltb_spec 0 n); lia.
  - unfold go_bind at 1, set_bufp at 1.
    edestruct (IH n l _ es cs' Hadv) as (k & d2 & es2 & cs2 & E & Hp2 & Hrest & Hmax & Hall); [done|done|done|].
    exists (S k), d2, es2, cs2. cbn [take drop]. unfold live_names in *. cbn [List.filter]. rewrite El. by split_and!.
Qed.

End whole_directory.

(** ** Concrete runs *)
Definition demo_entries : list entry :=
  [mkEntry 5 0 [46] [0]; mkEntry 0 1 [120] []; mkEntry 7 2 [97; 98] [0; 0]; mkEntry 8 3 [99] []].

Lemma demo_entries_wf : Forall wf_entry demo_entries.
Proof.
  repeat (constructor; [split_and!; [done|done|apply (bool_decide_unpack _); reflexivity]|]). constructor.
Defined.

Lemma ParseDirent_stream_witness :
  exists k, ParseDirent (stream demo_entries) (-1) [] =
      Some (Z.of_nat (length (stream (take k demo_entries))), Z.of_nat (length (live_names (take k demo_entries))),
            live_names (take k demo_entries)) /\
    live_names (take k demo_entries) = [[97; 98]; [99]].
Proof.
  destruct (ParseDirent_stream demo_entries (-1) [] demo_entries_wf) as (k & E & _ & _ & H).
  exists k. split; [exact E|]. rewrite (H (or_introl eq_refl)). reflexivity.
Defined.

Lemma fileMode_faithful_witness :
  Z.land 16877 S_IFMT = S_IFDIR /\ syscallMode (fill_mode 16877) = Z.land 16877 4095.
Proof. split; [reflexivity|]. apply (fileMode_faithful 16877). lia. Defined.

(** A C library with one directory of chunks behind every descriptor. *)
Module DirChunks.
Record world : Type := mkWorld { cw_chunks : bool; cw_errno : Z }.

Definition all (w : world) : list (list entry) := if cw_chunks w then [demo_entries] else [].

Definition call (fn : string) (args : list carg) (w : world) : world * reply :=
  let sent := default [] (head (all w)) in
  (mkWorld false 0, mkReply (Z.of_nat (length (stream sent))) 0 [stream sent]).

#[global] Instance libc : Libc world := {|
  libc_call := call; libc_errno := cw_errno; libc_set_errno e w := mkWorld (cw_chunks w) e |}.

#[global] Instance libc_dir : DirStream world.
Proof.
  refine {| chunks _ w := all w |}.
  - done.
  - intros _ [[] e]; unfold all; cbn; [|constructor].
    constructor; [|constructor]. split_and!; [apply demo_entries_wf|done|].
    unfold blockSize. apply Nat.leb_le. vm_compute. reflexivity.
  - intros fd b [c e] _. by destruct c.
Defined.
End DirChunks.

Definition demo_dirst : dirst DirChunks.world :=
  mkDir (mkOs (DirChunks.mkWorld true 0) true []) (replicate blockSize 0) None 0 0.

