(* ===== verification/ExecPath.v ===== *)
(** * ExecPath: the path of the running program

    os/executable_path.go, which finds the program's file from its first argument, the
    directory it was started in and PATH, on Stat of os/stat_unix.go.  The values of
    [Args], [initWd], [errWd] and Getenv("PATH") are parameters.  What the theorem takes
    from the C library is that stat(2) reads a tree of files that stays as it is
    ([FileTree]). *)
From Stdlib Require Import ZArith Lia List Bool String.
From stdpp Require Import base list strings numbers tactics option.
From S2P Require Import Prelude Libc Syscall AtQnx Dirent.

Definition PathListSeparator : Z := 58.

(** io/fs/fs.go: FileMode.IsRegular *)
Definition IsRegular (m : Z) : bool := Z.land m ModeType =? 0.

(** The errors of [executable]: the sentinels, and those of Stat and Getwd. *)
Inductive exec_error : Type := ExPermission | ExNotExist | ExErr (e : os_error).

#[export] Instance exec_error_eq_dec : EqDecision exec_error.
Proof. solve_decision. Defined.

(** ** splitPathList *)

(** [s[start:i]] *)
Definition slice (s : list Z) (start i : nat) : list Z := take (i - start) (drop start s).

Definition count_sep (s : list Z) : nat :=
  foldl (fun n c => if c =? PathListSeparator then S n else n) 1%nat s.

(** The second loop from [i]: [a], [na] and [start] when it ends.  [fuel] is more than the
    bytes left, so it ends on its own condition. *)
Fixpoint split_loop (fuel : nat) (s : list Z) (n i start na : nat) (a : list (list Z)) :
    list (list Z) * nat * nat :=
  match fuel with
  | O => (a, na, start)
  | S fuel =>
    if (i + 1 <=? length s)%nat && (na + 1 <? n)%nat then
      if nth i s 0 =? PathListSeparator
      then split_loop fuel s n (S i) (S i) (S na) (<[na := slice s start i]> a)
      else split_loop fuel s n (S i) start na a
    else (a, na, start)
  end.

Definition splitPathList (pathList : list Z) : list (list Z) :=
  if bool_decide (pathList = []) then [] else
  let n := count_sep pathList in
  let '(a, na, start) := split_loop (S (length pathList)) pathList n 0 0 0 (replicate n []) in
  let a := <[na := drop start pathList]> a in
  take (na + 1) a.

(** ** executable *)
Section executable.
Context {W : Type} `{!Libc W}.
Context (Args : list (list Z)) (initWd : list Z) (errWd : option os_error) (PATH : list Z).

Abbreviation E := (GoM (osst W)).

(** stat_unix.go: the closure under [ignoringEINTR]; it writes [fs.sys] on every turn. *)
Fixpoint stat_loop (fuel : nat) (name : list Z) (st : list Z) : E (option Z * list Z) :=
  match fuel with
  | O => fun _ => NoFuel
  | S fuel =>
    let! r := go_lift (Syscall.Stat name st) in
    if bool_decide (fst r = Some EINTR) then stat_loop fuel name (snd r) else go_ret r
  end.

Definition statNolog (fuel : nat) (name : list Z) : E (fileStat + os_error) :=
  let! r := stat_loop fuel name stat0 in
  match fst r with
  | Some e => go_ret (inr (OsPathError "stat" name (OsErrno e)))
  | None => go_ret (inl (fillFileStatFromSys (snd r) name))
  end.

(** stat.go; the test log is off outside tests. *)
Definition Stat (fuel : nat) (name : list Z) : E (fileStat + os_error) := statNolog fuel name.

Definition isExecutable (fuel : nat) (path : list Z) : E (option exec_error) :=
  let! r := Stat fuel path in
  match r with
  | inr err => go_ret (Some (ExErr err))
  | inl stat =>
    let mode := fs_mode stat in
    if negb (IsRegular mode) then go_ret (Some ExPermission) else
    if Z.land mode 0x49 =? 0 then go_ret (Some ExPermission) else
    go_ret None
  end.

(** The search through the directories of PATH for [arg]. *)
Fixpoint search_loop (fuel : nat) (arg : list Z) (dirs : list (list Z)) : E (list Z + exec_error) :=
  match dirs with
  | [] => go_ret (inr ExNotExist)
  | dir :: dirs =>
    let dir := if bool_decide (dir = []) then dot else dir in
    let go (dir : list Z) :=
      let exePath := dir ++ [PathSeparator] ++ arg in
      let! err := isExecutable fuel exePath in
      match err with
      | None => go_ret (inl exePath)
      | Some ExPermission => go_ret (inr ExPermission)
      | Some _ => search_loop fuel arg dirs
      end in
    if negb (IsPathSeparator (hd 0 dir)) then
      match errWd with
      | Some e => go_ret (inr (ExErr e))
      | None => go (initWd ++ [PathSeparator] ++ dir)
      end
    else go dir
  end.

(** [if exePath != ""]: the answer for one path. *)
Definition exec_at (fuel : nat) (exePath : list Z) : E (list Z + exec_error) :=
  let! err := isExecutable fuel exePath in
  match err with Some err => go_ret (inr err) | None => go_ret (inl exePath) end.

Definition executable (fuel : nat) : E (list Z + exec_error) :=
  match Args with
  | [] | [] :: _ => go_ret (inr ExNotExist)
  | (c :: rest) as arg :: _ =>
    if IsPathSeparator c then exec_at fuel arg
    else if existsb IsPathSeparator rest then
      match errWd with
      | Some e => go_ret (inr (ExErr e))
      | None => exec_at fuel (initWd ++ [PathSeparator] ++ arg)
      end
    else search_loop fuel arg (splitPathList PATH)
  end.
End executable.

(** ** Splitting *)

(** The reference: the pieces between separators. *)
Fixpoint pieces (s : list Z) : list (list Z) :=
  match s with
  | [] => [[]]
  | c :: s =>
    if c =? PathListSeparator then [] :: pieces s
    else match pieces s with p :: ps => (c :: p) :: ps | [] => [[c]] end
  end.

(** Pieces put together again. *)
Fixpoint join (ps : list (list Z)) : list Z :=
  match ps with
  | [] => []
  | [p] => p
  | p :: ps => p ++ PathListSeparator :: join ps
  end.

Definition seps (s : list Z) : nat := length (List.filter (fun c => c =? PathListSeparator) s).

Lemma seps_app s t : seps (s ++ t) = (seps s + seps t)%nat.
Proof. unfold seps. by rewrite List.filter_app, length_app. Qed.

Lemma pieces_ne s : pieces s <> [].
Proof. destruct s as [|c s]; cbn; [done|]. destruct (_ =? _); [done|]. by destruct (pieces s). Qed.

Lemma join_pieces s : join (pieces s) = s.
Proof.
  induction s as [|c s IH]; cbn; [done|]. pose proof (pieces_ne s). destruct (Z.eqb_spec c PathListSeparator) as [->|].
  - destruct (pieces s) as [|p ps] eqn:Ep; [done|]. cbn. by rewrite <- IH.
  - destruct (pieces s) as [|p [|q ps]] eqn:Ep; [done|..]; cbn in *; by rewrite <- IH.
Qed.

Lemma pieces_clean s : Forall (fun p => PathListSeparator ∉ p) (pieces s).
Proof.
  induction s as [|c s IH]; cbn; [by repeat constructor; apply not_elem_of_nil|].
  destruct (Z.eqb_spec c PathListSeparator); [constructor; [apply not_elem_of_nil|done]|].
  pose proof (pieces_ne s). destruct (pieces s) as [|p ps]; [done|]. inversion IH; subst.
  constructor; [|done]. rewrite not_elem_of_cons. by split.
Qed.

Lemma pieces_one s : seps s = 0%nat -> pieces s = [s].
Proof.
  unfold seps. induction s as [|c s IH]; cbn; [done|]. destruct (_ =? _); [done|]. intros H. by rewrite (IH H).
Qed.

Lemma pieces_sep u v : seps u = 0%nat -> pieces (u ++ PathListSeparator :: v) = u :: pieces v.
Proof.
  unfold seps. induction u as [|c u IH]; cbn; [done|]. destruct (_ =? _); [done|]. intros H. by rewrite (IH H).
Qed.

Lemma count_from s k : foldl (fun n c => if c =? PathListSeparator then S n else n) k s = (k + seps s)%nat.
Proof.
  unfold seps. revert k. induction s as [|c s IH]; intros k; cbn; [lia|]. rewrite IH.
  destruct (_ =? _); cbn; lia.
Qed.

Lemma lookup_nth (s : list Z) i : (i < length s)%nat -> s !! i = Some (nth i s 0).
Proof. intros H. destruct (nth_lookup_or_length s i 0); [done|lia]. Qed.

Lemma slice_snoc s start i : (start <= i < length s)%nat ->
  slice s start (S i) = slice s start i ++ [nth i s 0].
Proof.
  intros H. unfold slice. replace (S i - start)%nat with (S (i - start)) by lia.
  rewrite (take_S_r _ _ (nth i s 0)); [done|]. rewrite lookup_drop.
  replace (start + (i - start))%nat with i by lia. apply lookup_nth; lia.
Qed.

Lemma slice_drop s start i : (start <= i)%nat -> drop start s = slice s start i ++ drop i s.
Proof.
  intros H. unfold slice. rewrite <- (take_drop (i - start) (drop start s)) at 1.
  by rewrite drop_drop, Nat.add_comm, Nat.sub_add by lia.
Qed.

(** From [i] on, with the piece from [start] still open: the loop fills the entries from
    [na] on with the pieces of what is left, but for the last. *)
Lemma split_loop_pieces s n : forall fuel i start na a,
  (start <= i <= length s)%nat -> (length s - i < fuel)%nat -> length a = n ->
  seps (slice s start i) = 0%nat -> n = S (na + seps (drop i s)) ->
  let '(a', na', start') := split_loop fuel s n i start na a in
  take (na' + 1) (<[na' := drop start' s]> a') = take na a ++ pieces (drop start s).
Proof.
  induction fuel as [|fuel IH]; intros i start na a Hi Hf Ha Hs Hn; [lia|]. cbn [split_loop].
  destruct (Nat.leb_spec (i + 1) (length s)) as [Hlt|Hge]; cbn [andb].
  2:{ assert (drop i s = []) as E by (apply drop_ge; lia). rewrite E in Hn. cbn in Hn.
      rewrite (slice_drop s start i) by lia. rewrite E, app_nil_r, pieces_one by done.
      rewrite Nat.add_1_r, (take_S_r _ _ (slice s start i)) by (apply list_lookup_insert_eq; lia).
      by rewrite take_insert_ge by lia. }
  assert (drop i s = nth i s 0 :: drop (S i) s) as Ed.
  { apply drop_S. apply lookup_nth; lia. }
  destruct (Nat.ltb_spec (na + 1) n) as [Hna|Hna].
  2:{ rewrite (slice_drop s start i) by lia. rewrite pieces_one by (rewrite seps_app; lia).
      rewrite Nat.add_1_r. erewrite take_S_r by (apply list_lookup_insert_eq; lia).
      by rewrite take_insert_ge by lia. }
  rewrite Ed in Hn. unfold seps in Hn. cbn [List.filter] in Hn.
  destruct (Z.eqb_spec (nth i s 0) PathListSeparator) as [Ec|Ec].
  - cbn [length] in Hn. fold (seps (drop (S i) s)) in Hn.
    specialize (IH (S i) (S i) (S na) (<[na := slice s start i]> a)).
    destruct (split_loop _ _ _ _ _ _ _) as [[a' na'] start'].
    rewrite IH; [|lia|lia|by rewrite length_insert|unfold slice; by rewrite Nat.sub_diag|lia].
    rewrite (take_S_r _ _ (slice s start i)) by (apply list_lookup_insert_eq; lia).
    rewrite take_insert_ge by lia. rewrite (slice_drop s start i), Ed, Ec by lia.
    rewrite pieces_sep by done. by rewrite <- app_assoc.
  - fold (seps (drop (S i) s)) in Hn.
    specialize (IH (S i) start na a).
    destruct (split_loop _ _ _ _ _ _ _) as [[a' na'] start'].
    apply IH; [lia|lia|done| |done]. rewrite slice_snoc by lia. rewrite seps_app, Hs.
    unfold seps. cbn. by destruct (Z.eqb_spec (nth i s 0) PathListSeparator).
Qed.

Lemma splitPathList_pieces s : splitPathList s = if bool_decide (s = []) then [] else pieces s.
Proof.
  unfold splitPathList. case_bool_decide; [done|].
  pose proof (split_loop_pieces s (count_sep s) (S (length s)) 0 0 0 (replicate (count_sep s) [])) as P.
  destruct (split_loop _ _ _ _ _ _ _) as [[a na] start]. apply P; try lia.
  - apply length_replicate.
  - done.
  - apply count_from.
Qed.

(** ** The search *)

(** A tree of files stat(2) reads and nothing changes: for a path an errno or the cells of
    a struct stat.  A call may be interrupted, [stat_patience] times at most. *)
Class FileTree (W : Type) `{!Libc W} : Type := {
  tree : list Z -> Z + list Z;
  tree_errno : forall p e, tree p = inl e -> e <> 0 /\ e <> EINTR;
  tree_cells : forall p st, tree p = inr st -> length st = length stat0;
  stat_patience : W -> nat;
  stat_patience_set : forall e w, stat_patience (libc_set_errno e w) = stat_patience w;
  stat_call : forall p st w, length st = length stat0 ->
    let '(w', rp) := libc_call "stat" [CStr p; CBuf st] w in
    u32 (libc_errno w') = EINTR /\ (stat_patience w' < stat_patience w)%nat \/
    (stat_patience w' <= stat_patience w)%nat /\
      match tree p with
      | inl e => u32 (libc_errno w') = e
      | inr st' => libc_errno w' = libc_errno w /\ rp_bufs rp = [st']
      end;
}.

(** What the file at a path means for the search. *)
Inductive verdict : Type := Missing (e : Z) | Denied | Runnable.

Definition special (m : Z) : bool :=
  existsb (Z.eqb (Z.land m S_IFMT)) [S_IFBLK; S_IFCHR; S_IFDIR; S_IFIFO; S_IFLNK; S_IFSOCK].

Definition mode_verdict (m : Z) : verdict :=
  if special m || (Z.land m 0x49 =? 0) then Denied else Runnable.

Lemma fill_mode_low m : fill_mode m = fill_mode (Z.land m 65535).
Proof.
  unfold fill_mode. rewrite <- !Z.land_assoc. reflexivity.
Qed.

(** isExecutable's two tests on the portable mode are tests on st_mode. *)
Lemma mode_tests m :
  IsRegular (fill_mode m) = negb (special m) /\ Z.land (fill_mode m) 0x49 = Z.land m 0x49.
Proof.
  assert (Z.land m 0x49 = Z.land (Z.land m 65535) 0x49) as -> by (by rewrite <- Z.land_assoc).
  assert (special m = special (Z.land m 65535)) as -> by (unfold special; by rewrite <- Z.land_assoc).
  rewrite fill_mode_low. set (k := Z.land m 65535).
  assert (0 <= k < 2 ^ 16) as Hk.
  { unfold k. change 65535 with (Z.ones 16). rewrite Z.land_ones by lia. by apply Z.mod_pos_bound. }
  assert ((Bool.eqb (IsRegular (fill_mode k)) (negb (special k)) &&
    (Z.land (fill_mode k) 0x49 =? Z.land k 0x49)) = true) as H.
  { apply (all_below_spec 16 0 (fun k => Bool.eqb (IsRegular (fill_mode k)) (negb (special k)) &&
      (Z.land (fill_mode k) 0x49 =? Z.land k 0x49))); [vm_compute; reflexivity|lia]. }
  by apply andb_true_iff in H as [?%Bool.eqb_prop ?%Z.eqb_eq].
Qed.

Section search.
Context {W : Type} `{!Libc W} `{!LibcErrno W} `{!FileTree W}.
Context (Args : list (list Z)) (initWd : list Z) (errWd : option os_error) (PATH : list Z).
Context (fuel : nat).
Implicit Types o : osst W.

(** What Stat finds at a path; one with a NUL byte does not reach C. *)
Definition found (p : list Z) : Z + list Z := if existsb (Z.eqb 0) p then inl EINVAL else tree p.

Definition verdict_at (p : list Z) : verdict :=
  match found p with inl e => Missing e | inr st => mode_verdict (st_Mode st) end.

(** The state of a thread that has its errno pointer, with fuel for the interruptions left. *)
Definition ready (n : nat) o : Prop := os_perrno o = true /\ (stat_patience (os_w o) < n)%nat.

Lemma Stat_call p st o :
  length st = length stat0 -> os_perrno o = true ->
  wp (Syscall.Stat p st) (fun r o' =>
    os_perrno o' = true /\ length (snd r) = length stat0 /\
    (fst r = Some EINTR /\ (stat_patience (os_w o') < stat_patience (os_w o))%nat \/
     (stat_patience (os_w o') <= stat_patience (os_w o))%nat /\
     match found p with inl e => fst r = Some e /\ e <> EINTR | inr st' => r = (None, st') end)) o.
Proof.
  intros Hl Hp. unfold Syscall.Stat, BytePtrFromString, ByteSliceFromString, found.
  destruct (existsb (Z.eqb 0) p) eqn:Hz; [apply wp_ret; cbn; split_and!; [done..|by right]|].
  apply existsb_zero in Hz. unfold c_string. rewrite cstr_terminated by done.
  apply wp_bind, wp_sysvicall6. change (take (Z.to_nat (Z.min 2 6)) ?l) with l.
  intros w2 rp E. apply wp_ret. cbn [fst snd os_perrno os_w sr_err sr_bufs].
  pose proof (stat_call p st (bridge_world o) Hl) as H. rewrite E in H.
  unfold bridge_world in H. rewrite Hp in H |- *. rewrite stat_patience_set, libc_errno_set in H.
  change (arg_bufs [CStr p; CBuf st]) with [st].
  rewrite nth_refill_all, length_refill. split_and!; [done..|].
  destruct H as [[He Hlt]|[Hle H]]; [left; rewrite He; done|right; split; [done|]].
  destruct (tree p) as [e|st'] eqn:Et.
  - destruct (tree_errno p e Et) as [H0 H1]. rewrite H. unfold err_of. by rewrite (proj2 (Z.eqb_neq _ _) H0).
  - destruct H as [-> ->]. cbn. rewrite refill_full; [done|]. rewrite Hl. by apply (tree_cells p).
Qed.

(** Enough fuel for the interruptions: Stat answers what is there. *)
Lemma stat_loop_answers p n : forall st o,
  length st = length stat0 -> ready n o ->
  go_wp (stat_loop n p st) (fun r o' => (forall m, ready m o -> ready m o') /\
    match found p with inl e => fst r = Some e | inr st' => r = (None, st') end) o.
Proof.
  induction n as [|n IH]; intros st o Hl [Hp Hn]; [lia|]. cbn [stat_loop].
  apply go_wp_bind, go_wp_lift. eapply wp_mono; [by apply Stat_call|].
  intros [e st1] o1 (Hp1 & Hl1 & [[-> Hlt]|[Hle H]]); cbn [fst snd] in *.
  - rewrite bool_decide_true by done. eapply go_wp_mono; [apply IH; [done|split; [done|lia]]|].
    intros r o2 [Hk Hr]. split; [|done]. intros m [_ Hm]. apply Hk. split; [done|lia].
  - rewrite bool_decide_false by (destruct (found p); naive_solver). apply go_wp_ret.
    split; [|by destruct (found p) as [?|?]; [destruct H|]]. intros m [_ Hm]. split; [done|lia].
Qed.

(** isExecutable's answer. *)
Definition answer (p : list Z) : option exec_error :=
  match verdict_at p with
  | Missing e => Some (ExErr (OsPathError "stat" p (OsErrno e)))
  | Denied => Some ExPermission
  | Runnable => None
  end.

Lemma isExecutable_answers p o :
  ready fuel o -> go_wp (isExecutable fuel p) (fun r o' => r = answer p /\ ready fuel o') o.
Proof.
  intros H. unfold isExecutable, Stat, statNolog, answer, verdict_at. do 2 apply go_wp_bind.
  eapply go_wp_mono; [by apply stat_loop_answers|]. intros [e st] o1 [Hk Hr].
  destruct (found p) as [e'|st']; [cbn [fst] in *; subst e; by eauto using go_wp_ret|].
  injection Hr as -> ->. cbn [fst snd]. apply go_wp_ret. cbn [fs_mode fillFileStatFromSys].
  destruct (mode_tests (st_Mode st')) as [-> ->]. unfold mode_verdict. rewrite negb_involutive.
  destruct (special _); cbn [orb]; [by eauto using go_wp_ret|]. destruct (_ =? 0); by eauto using go_wp_ret.
Qed.

(** The file looked for in one directory of PATH; none for a relative directory when
    the directory the program started in is not known. *)
Definition candidate (arg dir : list Z) : option (list Z) :=
  let dir := if bool_decide (dir = []) then dot else dir in
  if IsPathSeparator (hd 0 dir) then Some (dir ++ [PathSeparator] ++ arg)
  else if bool_decide (errWd = None) then Some (initWd ++ [PathSeparator] ++ dir ++ [PathSeparator] ++ arg)
  else None.

Definition missing (arg dir : list Z) : Prop :=
  exists p e, candidate arg dir = Some p /\ verdict_at p = Missing e.

(** [P] of the first of [dirs] where the search does not go on. *)
Definition decisive (arg : list Z) (dirs : list (list Z)) (P : list Z -> Prop) : Prop :=
  exists pre dir post, dirs = pre ++ dir :: post /\ Forall (missing arg) pre /\ P dir.

Definition searched (arg : list Z) (dirs : list (list Z)) (r : list Z + exec_error) : Prop :=
  match r with
  | inl p => decisive arg dirs (fun d => candidate arg d = Some p /\ verdict_at p = Runnable)
  | inr ExPermission => decisive arg dirs (fun d => exists p, candidate arg d = Some p /\ verdict_at p = Denied)
  | inr ExNotExist => Forall (missing arg) dirs
  | inr (ExErr e) => errWd = Some e /\ decisive arg dirs (fun d => candidate arg d = None)
  end.

Lemma decisive_here arg d ds (P : list Z -> Prop) : P d -> decisive arg (d :: ds) P.
Proof. intros H. exists [], d, ds. by split_and!. Qed.

Lemma searched_later arg d ds r : missing arg d -> searched arg ds r -> searched arg (d :: ds) r.
Proof.
  assert (forall P, missing arg d -> decisive arg ds P -> decisive arg (d :: ds) P) as Hl.
  { intros P Hd (pre & x & post & -> & Hf & HP). exists (d :: pre), x, post. split_and!; [done|by constructor|done]. }
  destruct r as [p|[]]; cbn; intros Hd H; [by apply Hl|by apply Hl|by constructor|].
  destruct H. split; [done|by apply Hl].
Qed.

(** One directory, given where its file is. *)
Lemma search_turn arg d ds p (next : GoM (osst W) (list Z + exec_error)) o :
  candidate arg d = Some p -> ready fuel o ->
  (forall o', ready fuel o' -> go_wp next (fun r o'' => searched arg ds r /\ ready fuel o'') o') ->
  go_wp (let! err := isExecutable fuel p in
         match err with
         | None => go_ret (inl p)
         | Some ExPermission => go_ret (inr ExPermission)
         | Some _ => next
         end) (fun r o' => searched arg (d :: ds) r /\ ready fuel o') o.
Proof.
  intros Hc Ho Hn. apply go_wp_bind. eapply go_wp_mono; [by apply isExecutable_answers|].
  intros r o' [-> Ho']. unfold answer. destruct (verdict_at p) as [e| |] eqn:Hv.
  - eapply go_wp_mono; [by apply Hn|]. intros r o2 [Hr ?]. split; [|done]. apply searched_later; [by exists p, e|done].
  - apply go_wp_ret. split; [|done]. apply decisive_here. by exists p.
  - apply go_wp_ret. split; [|done]. by apply decisive_here.
Qed.

Lemma search_loop_finds arg dirs : forall o, ready fuel o ->
  go_wp (search_loop initWd errWd fuel arg dirs) (fun r o' => searched arg dirs r /\ ready fuel o') o.
Proof.
  induction dirs as [|d ds IH]; intros o Ho; cbn [search_loop]; [apply go_wp_ret; split; [constructor|done]|].
  set (dir := if bool_decide (d = []) then dot else d).
  destruct (IsPathSeparator (hd 0 dir)) eqn:Hsep; cbn [negb].
  - apply search_turn; [|done|done]. unfold candidate. fold dir. by rewrite Hsep.
  - destruct errWd as [e|] eqn:He.
    + apply go_wp_ret. split; [|done]. split; [done|]. apply decisive_here. unfold candidate. fold dir.
      by rewrite Hsep, He.
    + apply search_turn; [|done|done]. unfold candidate. fold dir. rewrite Hsep, He, bool_decide_true by done.
      by rewrite <- !app_assoc.
Qed.

Definition at_path (p : list Z) : list Z + exec_error :=
  match answer p with Some e => inr e | None => inl p end.

Lemma exec_at_answers p o : ready fuel o -> go_wp (exec_at fuel p) (fun r _ => r = at_path p) o.
Proof.
  intros Ho. apply go_wp_bind. eapply go_wp_mono; [by apply isExecutable_answers|].
  intros r o' [-> _]. unfold at_path. by destruct (answer p); apply go_wp_ret.
Qed.

(** The directories of a path list. *)
Definition dirs_of (path : list Z) (dirs : list (list Z)) : Prop :=
  match path with
  | [] => dirs = []
  | _ => dirs <> [] /\ join dirs = path /\ Forall (fun d => PathListSeparator ∉ d) dirs
  end.

Lemma splitPathList_dirs path : dirs_of path (splitPathList path).
Proof.
  rewrite splitPathList_pieces. destruct path as [|c path]; [done|]. rewrite bool_decide_false by done.
  split_and!; [apply pieces_ne|apply join_pieces|apply pieces_clean].
Qed.

Definition started (r : list Z + exec_error) : Prop :=
  match Args with
  | [] | [] :: _ => r = inr ExNotExist
  | (c :: rest) as arg :: _ =>
    if bool_decide (c = PathSeparator) then r = at_path arg
    else if bool_decide (PathSeparator ∈ rest) then
      r = match errWd with Some e => inr (ExErr e) | None => at_path (initWd ++ [PathSeparator] ++ arg) end
    else exists dirs, dirs_of PATH dirs /\ searched arg dirs r
  end.

(** C30: executable always answers, given fuel for the interrupted calls, and its answer is
    decided by what stat(2) says of the files: an argument with a slash names the program,
    absolutely or from the directory the process started in, and must be an executable
    regular file; any other is looked for in the directories PATH lists between colons (an
    empty one is the current directory), where the first file that exists decides: it is
    the answer, or ErrPermission is; ErrNotExist means that none exists. *)
Theorem executable_finds o : ready fuel o ->
  exists r o', executable Args initWd errWd PATH fuel o = Ret r o' /\ started r.
Proof.
  intros Ho. assert (go_wp (executable Args initWd errWd PATH fuel) (fun r _ => started r) o) as H.
  2:{ unfold go_wp in H. destruct (executable _ _ _ _ _ _) as [r o'| |]; [by exists r, o'|done..]. }
  unfold executable, started. destruct Args as [|[|c rest] args]; [by apply go_wp_ret..|].
  unfold IsPathSeparator at 1. rewrite (Z.eqb_sym PathSeparator c).
  destruct (Z.eqb_spec c PathSeparator) as [Hc|Hc].
  { rewrite bool_decide_true by done. by apply exec_at_answers. }
  rewrite (bool_decide_false (c = _)) by done. destruct (existsb IsPathSeparator rest) eqn:Hr.
  - apply existsb_exists in Hr as (x & Hx & <-%Z.eqb_eq). rewrite bool_decide_true by by apply list_elem_of_In.
    destruct errWd; [by apply go_wp_ret|by apply exec_at_answers].
  - rewrite bool_decide_false.
    2:{ intros Hin. apply not_true_iff_false in Hr. apply Hr, existsb_exists. exists PathSeparator.
        split; [by apply list_elem_of_In|done]. }
    eapply go_wp_mono; [by apply search_loop_finds|]. intros r o' [H _]. exists (splitPathList PATH).
    split; [apply splitPathList_dirs|done].
Qed.
End search.

(** ** A concrete run

    A tree with one executable, /b/x, and a directory /c/x, over a library whose first
    call is interrupted. *)
Module OneFile.
Record world : Type := mkWorld { left_ : nat; err : Z }.

Definition cells (mode : Z) : list Z := <[9%nat := mode]> stat0.

Definition files (p : list Z) : Z + list Z :=
  if bool_decide (p = [47; 98; 47; 120]) then inr (cells (Z.lor S_IFREG 493))
  else if bool_decide (p = [47; 99; 47; 120]) then inr (cells (Z.lor S_IFDIR 493))
  else inl ENOENT.

Definition call (fn : string) (args : list carg) (w : world) : world * reply :=
  match left_ w with
  | S n => (mkWorld n EINTR, mkReply (-1) 0 [])
  | O =>
    match args with
    | CStr p :: _ =>
      match files p with
      | inl e => (mkWorld 0 e, mkReply (-1) 0 [])
      | inr st => (w, mkReply 0 0 [st])
      end
    | _ => (w, mkReply 0 0 [])
    end
  end.

#[global] Instance libc : Libc world := {|
  libc_call := call; libc_errno := err; libc_set_errno e w := mkWorld (left_ w) e |}.

#[global] Instance libc_errno_ok : LibcErrno world.
Proof. by constructor. Qed.

#[global] Instance libc_files : FileTree world.
Proof.
  refine {| tree := files; stat_patience := left_ |}.
  - intros p e. unfold files. repeat case_bool_decide; [done..|]. by intros [= <-].
  - intros p st. unfold files. repeat case_bool_decide; intros [= <-]; reflexivity.
  - done.
  - intros p st [[|n] e] _; [|left; cbn; split; [done|lia]].
    cbn. unfold files. repeat case_bool_decide; right; by split.
Defined.

(** "/a:/b" and "/a:/c:/b" *)
Definition path : list Z := [47; 97; 58; 47; 98].
Definition path_dir : list Z := [47; 97; 58; 47; 99; 58; 47; 98].
Definition start : osst world := mkOs (mkWorld 1 0) true [].

Lemma start_ready : ready 2 start.
Proof. split; [done|]. cbn. lia. Defined.

(** A directory of the program's name ahead of it ends the search. *)
Lemma dir_ends_search :
  match executable [[120]] [] None path_dir 2 start with Ret r _ => r | _ => inl [] end = inr ExPermission.
Proof. vm_compute. reflexivity. Qed.
End OneFile.

Lemma executable_finds_witness :
  exists o', executable [[120]] [] None OneFile.path 2 OneFile.start = Ret (inl [47; 98; 47; 120]) o' /\
    started [[120]] [] None OneFile.path (inl [47; 98; 47; 120]).
Proof.
  destruct (executable_finds [[120]] [] None OneFile.path 2 OneFile.start OneFile.start_ready) as (r & o' & E & H).
  assert (r = inl [47; 98; 47; 120]) as ->.
  { apply (f_equal (fun x => match x with Ret r _ => r | _ => inl [] end)) in E. vm_compute in E. by symmetry. }
  by exists o'.
Defined.
