(* ===== verification/FdMutex.v ===== *)
(** * FdMutex: the life of a file descriptor

    internal/poll/fd_mutex.go: the reference count, the two locks and the waiter
    counts that share one 64-bit word, and the two semaphores beside it.  Each
    operation of the source is a compare-and-swap loop around a pure function of the
    word; that function is the definition here, and one successful iteration is one
    atomic step of the transition system below (an iteration that loses the race has
    no effect). *)
From Stdlib Require Import ZArith Lia List Bool String.
From stdpp Require Import base list numbers relations tactics option.
From S2P Require Import Prelude.

Definition mutexClosed : Z := 1.
Definition mutexRLock : Z := 2.
Definition mutexWLock : Z := 4.
Definition mutexRef : Z := 8.
Definition mutexRefMask : Z := Z.shiftl (2 ^ 20 - 1) 3.
Definition mutexRWait : Z := 2 ^ 23.
Definition mutexRMask : Z := Z.shiftl (2 ^ 20 - 1) 23.
Definition mutexWWait : Z := 2 ^ 43.
Definition mutexWMask : Z := Z.shiftl (2 ^ 20 - 1) 43.

Definition overflowMsg : string :=
  "too many concurrent operations on a single file or socket (max 1048575)".
Definition inconsistentMsg : string := "inconsistent poll.fdMutex".

(** One iteration: a panic, [return ok] with the new word and the releases of the two
    semaphores, or a new word and sleep. *)
Inductive outcome : Type :=
| OPanic (msg : string)
| OReturn (ok : bool) (state : Z) (rrel wrel : Z)
| OSleep (state : Z).

#[export] Instance outcome_eq_dec : EqDecision outcome.
Proof. solve_decision. Defined.

Definition incref (old : Z) : outcome :=
  if has_bits old mutexClosed then OReturn false old 0 0 else
  let new := u64 (old + mutexRef) in
  if Z.land new mutexRefMask =? 0 then OPanic overflowMsg else OReturn true new 0 0.

(** [for old&mask != 0 { old -= wait; runtime_Semrelease(sema) }]: the releases. *)
Fixpoint release_all (fuel : nat) (old mask wait : Z) : Z :=
  match fuel with
  | O => 0
  | S fuel => if has_bits old mask then 1 + release_all fuel (u64 (old - wait)) mask wait else 0
  end.

(** The waiter fields are 20 bits wide: 2^20 turns are enough. *)
Definition release_fuel : nat := Z.to_nat (2 ^ 20).

Definition increfAndClose (old : Z) : outcome :=
  if has_bits old mutexClosed then OReturn false old 0 0 else
  let new := u64 (Z.lor old mutexClosed + mutexRef) in
  if Z.land new mutexRefMask =? 0 then OPanic overflowMsg else
  let new := Z.ldiff new (Z.lor mutexRMask mutexWMask) in
  OReturn true new (release_all release_fuel old mutexRMask mutexRWait)
                   (release_all release_fuel old mutexWMask mutexWWait).

Definition no_more_refs (new : Z) : bool :=
  Z.land new (Z.lor mutexClosed mutexRefMask) =? mutexClosed.

Definition decref (old : Z) : outcome :=
  if Z.land old mutexRefMask =? 0 then OPanic inconsistentMsg else
  let new := u64 (old - mutexRef) in OReturn (no_more_refs new) new 0 0.

Definition mutexBit (read : bool) : Z := if read then mutexRLock else mutexWLock.
Definition mutexWait (read : bool) : Z := if read then mutexRWait else mutexWWait.
Definition mutexMask (read : bool) : Z := if read then mutexRMask else mutexWMask.

Definition rwlock (read : bool) (old : Z) : outcome :=
  if has_bits old mutexClosed then OReturn false old 0 0 else
  if Z.land old (mutexBit read) =? 0 then
    let new := u64 (Z.lor old (mutexBit read) + mutexRef) in
    if Z.land new mutexRefMask =? 0 then OPanic overflowMsg else OReturn true new 0 0
  else
    let new := u64 (old + mutexWait read) in
    if Z.land new (mutexMask read) =? 0 then OPanic overflowMsg else OSleep new.

Definition rwunlock (read : bool) (old : Z) : outcome :=
  if (Z.land old (mutexBit read) =? 0) || (Z.land old mutexRefMask =? 0) then OPanic inconsistentMsg else
  let new := u64 (Z.ldiff old (mutexBit read) - mutexRef) in
  let waiting := has_bits old (mutexMask read) in
  let new := if waiting then u64 (new - mutexWait read) else new in
  let rel := if waiting then 1 else 0 in
  OReturn (no_more_refs new) new (if read then rel else 0) (if read then 0 else rel).

(** ** The word as a record *)
Record fields : Type := mkFields {
  closed : bool; rlock : bool; wlock : bool; refs : Z; rwait : Z; wwait : Z }.

Definition fields_ok (f : fields) : Prop :=
  0 <= refs f < 2 ^ 20 /\ 0 <= rwait f < 2 ^ 20 /\ 0 <= wwait f < 2 ^ 20.

Definition enc (f : fields) : Z :=
  Z.b2z (closed f) + 2 * Z.b2z (rlock f) + 4 * Z.b2z (wlock f) + 2 ^ 3 * refs f +
  2 ^ 23 * rwait f + 2 ^ 43 * wwait f.

Lemma land_at_mod z lo f hi k n : 0 <= k -> 0 <= n -> z = lo + 2 ^ k * (f + 2 ^ n * hi) ->
  0 <= lo < 2 ^ k -> Z.land z (Z.shiftl (2 ^ n - 1) k) = 2 ^ k * (f mod 2 ^ n).
Proof.
  intros Hk Hn -> Hlo. pose proof (pow2_pos k Hk). pose proof (pow2_pos n Hn).
  rewrite land_field by lia. f_equal.
  rewrite (Z.mul_comm (2 ^ k)), Z.div_add, Z.div_small, Z.add_0_l by lia.
  by rewrite (Z.mul_comm (2 ^ n)), Z_mod_plus_full.
Qed.

Lemma land_at z lo f hi k n : 0 <= k -> 0 <= n -> z = lo + 2 ^ k * (f + 2 ^ n * hi) ->
  0 <= lo < 2 ^ k -> 0 <= f < 2 ^ n -> Z.land z (Z.shiftl (2 ^ n - 1) k) = 2 ^ k * f.
Proof. intros Hk Hn E Hlo Hf. rewrite (land_at_mod _ _ _ _ _ _ Hk Hn E Hlo). by rewrite Z.mod_small. Qed.

Lemma b2z_bound b : 0 <= Z.b2z b <= 1.
Proof. by destruct b. Qed.

Ltac enc_bounds f :=
  pose proof (b2z_bound (closed f)); pose proof (b2z_bound (rlock f)); pose proof (b2z_bound (wlock f));
  change (2 ^ 3) with 8 in *; change (2 ^ 20) with 1048576 in *;
  change (2 ^ 23) with 8388608 in *; change (2 ^ 43) with 8796093022208 in *.

(** Also when the count itself has just overflowed. *)
Lemma land_refs_mod f : Z.land (enc f) mutexRefMask = 8 * (refs f mod 2 ^ 20).
Proof.
  unfold mutexRefMask.
  rewrite (land_at_mod _ (Z.b2z (closed f) + 2 * Z.b2z (rlock f) + 4 * Z.b2z (wlock f)) (refs f) (rwait f + 2 ^ 20 * wwait f) 3 20);
    try lia; unfold enc; enc_bounds f; lia.
Qed.

Lemma land_rwait_mod f : 0 <= refs f < 2 ^ 20 -> Z.land (enc f) mutexRMask = 2 ^ 23 * (rwait f mod 2 ^ 20).
Proof.
  intros Hf. unfold mutexRMask.
  rewrite (land_at_mod _ (Z.b2z (closed f) + 2 * Z.b2z (rlock f) + 4 * Z.b2z (wlock f) + 2 ^ 3 * refs f) (rwait f) (wwait f) 23 20);
    try lia; unfold enc; enc_bounds f; lia.
Qed.

Lemma land_wwait_mod f : 0 <= refs f < 2 ^ 20 -> 0 <= rwait f < 2 ^ 20 ->
  Z.land (enc f) mutexWMask = 2 ^ 43 * (wwait f mod 2 ^ 20).
Proof.
  intros Hf Hr. unfold mutexWMask.
  rewrite (land_at_mod _ (Z.b2z (closed f) + 2 * Z.b2z (rlock f) + 4 * Z.b2z (wlock f) + 2 ^ 3 * refs f + 2 ^ 23 * rwait f) (wwait f) 0 43 20);
    try lia; unfold enc; enc_bounds f; lia.
Qed.

Section encoded.
Context (f : fields) (Hf : fields_ok f).

Lemma land_closed : Z.land (enc f) mutexClosed = Z.b2z (closed f).
Proof.
  destruct Hf as (H1 & H2 & H3). change mutexClosed with (Z.shiftl (2 ^ 1 - 1) 0).
  rewrite (land_at _ 0 (Z.b2z (closed f)) (Z.b2z (rlock f) + 2 * Z.b2z (wlock f) + 4 * refs f + 2 ^ 22 * rwait f + 2 ^ 42 * wwait f) 0 1);
    try lia; unfold enc; enc_bounds f; lia.
Qed.

Lemma land_rlock : Z.land (enc f) mutexRLock = 2 * Z.b2z (rlock f).
Proof.
  destruct Hf as (H1 & H2 & H3). change mutexRLock with (Z.shiftl (2 ^ 1 - 1) 1).
  rewrite (land_at _ (Z.b2z (closed f)) (Z.b2z (rlock f)) (Z.b2z (wlock f) + 2 * refs f + 2 ^ 21 * rwait f + 2 ^ 41 * wwait f) 1 1);
    try lia; unfold enc; enc_bounds f; lia.
Qed.

Lemma land_wlock : Z.land (enc f) mutexWLock = 4 * Z.b2z (wlock f).
Proof.
  destruct Hf as (H1 & H2 & H3). change mutexWLock with (Z.shiftl (2 ^ 1 - 1) 2).
  rewrite (land_at _ (Z.b2z (closed f) + 2 * Z.b2z (rlock f)) (Z.b2z (wlock f)) (refs f + 2 ^ 20 * rwait f + 2 ^ 40 * wwait f) 2 1);
    try lia; unfold enc; enc_bounds f; lia.
Qed.

Lemma land_refs : Z.land (enc f) mutexRefMask = 8 * refs f.
Proof. destruct Hf as (H1 & H2 & H3). by rewrite land_refs_mod, Z.mod_small. Qed.

Lemma land_rwait : Z.land (enc f) mutexRMask = 2 ^ 23 * rwait f.
Proof. destruct Hf as (H1 & H2 & H3). by rewrite land_rwait_mod, Z.mod_small. Qed.

Lemma land_wwait : Z.land (enc f) mutexWMask = 2 ^ 43 * wwait f.
Proof. destruct Hf as (H1 & H2 & H3). by rewrite land_wwait_mod, Z.mod_small. Qed.

Lemma enc_range : in_u 64 (enc f).
Proof. destruct Hf as (H1 & H2 & H3). unfold enc, in_u. enc_bounds f. change (2 ^ 64) with 18446744073709551616. lia. Qed.

Lemma land_done : Z.land (enc f) (Z.lor mutexClosed mutexRefMask) = Z.b2z (closed f) + 8 * refs f.
Proof.
  rewrite Z.land_lor_distr_r, land_closed, land_refs.
  pose proof (Z.add_lor_land (Z.b2z (closed f)) (8 * refs f)) as E.
  assert (Z.land (Z.b2z (closed f)) (8 * refs f) = 0) as E0; [|lia].
  rewrite <- land_closed, <- land_refs. rewrite <- Z.land_assoc, (Z.land_comm mutexClosed), <- !Z.land_assoc.
  change (Z.land mutexRefMask mutexClosed) with 0. by rewrite !Z.land_0_r.
Qed.
End encoded.

(** ** What the operations promise *)
Inductive promise : Type :=
| PPanic (msg : string)
| PReturn (ok : bool) (f : fields) (rrel wrel : Z)
| PSleep (f : fields).

Definition enc_promise (p : promise) : outcome :=
  match p with
  | PPanic msg => OPanic msg
  | PReturn ok f r w => OReturn ok (enc f) r w
  | PSleep f => OSleep (enc f)
  end.

Definition max_refs : Z := 2 ^ 20 - 1.

Definition incref_spec (f : fields) : promise :=
  if closed f then PReturn false f 0 0
  else if refs f =? max_refs then PPanic overflowMsg
  else PReturn true (mkFields false (rlock f) (wlock f) (refs f + 1) (rwait f) (wwait f)) 0 0.

Definition increfAndClose_spec (f : fields) : promise :=
  if closed f then PReturn false f 0 0
  else if refs f =? max_refs then PPanic overflowMsg
  else PReturn true (mkFields true (rlock f) (wlock f) (refs f + 1) 0 0) (rwait f) (wwait f).

Definition decref_spec (f : fields) : promise :=
  if refs f =? 0 then PPanic inconsistentMsg
  else PReturn (closed f && (refs f =? 1)) (mkFields (closed f) (rlock f) (wlock f) (refs f - 1) (rwait f) (wwait f)) 0 0.

(** The lock bit and the waiters of one side. *)
Definition locked (read : bool) (f : fields) : bool := if read then rlock f else wlock f.
Definition waiters (read : bool) (f : fields) : Z := if read then rwait f else wwait f.
Definition with_side (read : bool) (l : bool) (n : Z) (f : fields) (r : Z) : fields :=
  if read then mkFields (closed f) l (wlock f) r n (wwait f)
  else mkFields (closed f) (rlock f) l r (rwait f) n.

Definition rwlock_spec (read : bool) (f : fields) : promise :=
  if closed f then PReturn false f 0 0
  else if negb (locked read f) then
    if refs f =? max_refs then PPanic overflowMsg
    else PReturn true (with_side read true (waiters read f) f (refs f + 1)) 0 0
  else if waiters read f =? max_refs then PPanic overflowMsg
  else PSleep (with_side read true (waiters read f + 1) f (refs f)).

Definition rwunlock_spec (read : bool) (f : fields) : promise :=
  if negb (locked read f) || (refs f =? 0) then PPanic inconsistentMsg
  else let rel := if waiters read f =? 0 then 0 else 1 in
       PReturn (closed f && (refs f =? 1)) (with_side read false (waiters read f - rel) f (refs f - 1))
         (if read then rel else 0) (if read then 0 else rel).

(** ** Refinement *)
Lemma has_closed f : fields_ok f -> has_bits (enc f) mutexClosed = closed f.
Proof. intros Hf. unfold has_bits. rewrite land_closed by done. by destruct (closed f). Qed.

Lemma enc_refs_step f d : enc f + 8 * d = enc (mkFields (closed f) (rlock f) (wlock f) (refs f + d) (rwait f) (wwait f)).
Proof. unfold enc. cbn [closed rlock wlock refs rwait wwait]. lia. Qed.

Lemma overflow_refs c r w n a b : 0 <= n < 2 ^ 20 ->
  (Z.land (enc (mkFields c r w (n + 1) a b)) mutexRefMask =? 0) = (n =? max_refs).
Proof.
  intros Hn. rewrite land_refs_mod. cbn [refs]. unfold max_refs. change (2 ^ 20) with 1048576 in *.
  destruct (Z.eqb_spec n (1048576 - 1)) as [->|Hne]; [done|].
  rewrite Z.mod_small by lia. apply Z.eqb_neq. lia.
Qed.

Lemma enc_u64 f : 0 <= refs f <= 2 ^ 20 -> 0 <= rwait f <= 2 ^ 20 -> 0 <= wwait f <= 2 ^ 20 -> u64 (enc f) = enc f.
Proof.
  intros H1 H2 H3. apply wrapu_small. unfold in_u, enc. enc_bounds f.
  change (2 ^ 64) with 18446744073709551616. lia.
Qed.

Lemma incref_refines f : fields_ok f -> incref (enc f) = enc_promise (incref_spec f).
Proof.
  intros Hf. pose proof Hf as (H1 & H2 & H3). unfold incref, incref_spec. rewrite has_closed by done.
  destruct (closed f) eqn:Ec; [done|]. change mutexRef with (8 * 1).
  rewrite enc_refs_step, enc_u64, overflow_refs by (cbn; lia). rewrite Ec. by destruct (refs f =? max_refs).
Qed.

Lemma done_refs f : fields_ok f -> no_more_refs (enc f) = closed f && (refs f =? 0).
Proof.
  intros Hf. pose proof Hf as (H1 & _). unfold no_more_refs, mutexClosed. rewrite land_done by done.
  destruct (closed f); cbn [Z.b2z andb]; destruct (Z.eqb_spec (refs f) 0) as [->|]; try done; apply Z.eqb_neq; lia.
Qed.

Lemma decref_refines f : fields_ok f -> decref (enc f) = enc_promise (decref_spec f).
Proof.
  intros Hf. pose proof Hf as (H1 & H2 & H3). unfold decref, decref_spec. rewrite land_refs by done.
  destruct (Z.eqb_spec (refs f) 0) as [->|Hn]; [done|]. rewrite (proj2 (Z.eqb_neq _ 0)) by lia.
  change (enc f - mutexRef) with (enc f + 8 * (-1)). rewrite enc_refs_step, enc_u64 by (cbn; lia).
  rewrite done_refs by (split_and!; cbn; lia). cbn [closed refs enc_promise].
  replace (refs f + -1 =? 0) with (refs f =? 1); [done|].
  apply eq_true_iff_eq. rewrite !Z.eqb_eq. lia.
Qed.

Lemma enc_side f read d : enc f + mutexWait read * d =
  enc (with_side read (locked read f) (waiters read f + d) f (refs f)).
Proof.
  destruct read; unfold enc, mutexWait, mutexRWait, mutexWWait, with_side, locked, waiters;
    cbn [closed rlock wlock refs rwait wwait]; lia.
Qed.

Lemma land_mask f read : fields_ok f -> Z.land (enc f) (mutexMask read) = mutexWait read * waiters read f.
Proof. intros Hf. destruct read; [by apply land_rwait|by apply land_wwait]. Qed.

Lemma land_lock f read : fields_ok f -> Z.land (enc f) (mutexBit read) = mutexBit read * Z.b2z (locked read f).
Proof. intros Hf. destruct read; [by apply land_rlock|by apply land_wlock]. Qed.

Lemma waiters_bound f read : fields_ok f -> 0 <= waiters read f < 2 ^ 20.
Proof. intros (H1 & H2 & H3). by destruct read. Qed.

Lemma wait_pos read : 0 < mutexWait read.
Proof. by destruct read. Qed.

Lemma release_all_count fuel read : forall f, fields_ok f -> (Z.to_nat (waiters read f) <= fuel)%nat ->
  release_all fuel (enc f) (mutexMask read) (mutexWait read) = waiters read f.
Proof.
  induction fuel as [|fuel IH]; intros f Hf Hle; pose proof (waiters_bound f read Hf) as Hb; cbn [release_all].
  { lia. }
  unfold has_bits. rewrite land_mask by done. pose proof (wait_pos read).
  destruct (Z.eqb_spec (waiters read f) 0) as [H0|H0].
  - rewrite H0, Z.mul_0_r. done.
  - rewrite (proj2 (Z.eqb_neq _ 0)) by lia. cbn [negb].
    replace (enc f - mutexWait read) with (enc f + mutexWait read * (-1)) by lia.
    rewrite enc_side. set (f' := with_side _ _ _ _ _).
    assert (fields_ok f' /\ waiters read f' = waiters read f - 1) as [Hf' Hw'].
    { destruct Hf as (H1 & H2 & H3). unfold f'. destruct read; cbn in *; (split; [split_and!; cbn; lia|lia]). }
    destruct Hf' as (H1 & H2 & H3). rewrite enc_u64 by lia. rewrite IH by (try done; lia). lia.
Qed.

Lemma enc_lock f read : locked read f = false ->
  enc f + mutexBit read = enc (with_side read true (waiters read f) f (refs f)).
Proof.
  intros Hl. destruct read; cbn in Hl; unfold enc, mutexBit, mutexRLock, mutexWLock, with_side, waiters;
    cbn [closed rlock wlock refs rwait wwait]; rewrite Hl; cbn [Z.b2z]; lia.
Qed.

Lemma increfAndClose_refines f : fields_ok f -> increfAndClose (enc f) = enc_promise (increfAndClose_spec f).
Proof.
  intros Hf. pose proof Hf as (H1 & H2 & H3). unfold increfAndClose, increfAndClose_spec. rewrite has_closed by done.
  destruct (closed f) eqn:Ec; [done|].
  rewrite lor_clear by (rewrite land_closed, Ec; done).
  assert (u64 (enc f + mutexClosed + mutexRef) = enc (mkFields true (rlock f) (wlock f) (refs f + 1) (rwait f) (wwait f))) as ->.
  { replace (enc f + mutexClosed + mutexRef) with (enc (mkFields true (rlock f) (wlock f) (refs f + 1) (rwait f) (wwait f))).
    - apply enc_u64; cbn; lia.
    - unfold enc, mutexClosed, mutexRef. cbn [closed rlock wlock refs rwait wwait]. rewrite Ec. cbn [Z.b2z]. lia. }
  rewrite overflow_refs by done. destruct (Z.eqb_spec (refs f) max_refs) as [|Hm]; [done|]. cbn [enc_promise].
  assert (refs f + 1 < 2 ^ 20) by (unfold max_refs in Hm; lia).
  f_equal.
  - rewrite ldiff_sub, Z.land_lor_distr_r.
    set (g := mkFields true (rlock f) (wlock f) (refs f + 1) (rwait f) (wwait f)).
    assert (fields_ok g) as Hg by (split_and!; cbn; lia).
    assert (Z.land (Z.land (enc g) mutexRMask) (Z.land (enc g) mutexWMask) = 0) as E0.
    { rewrite <- Z.land_assoc, (Z.land_comm mutexRMask), <- !Z.land_assoc.
      change (Z.land mutexWMask mutexRMask) with 0. by rewrite !Z.land_0_r. }
    pose proof (Z.add_lor_land (Z.land (enc g) mutexRMask) (Z.land (enc g) mutexWMask)) as E.
    rewrite land_rwait, land_wwait in * by done. unfold enc. cbn [closed rlock wlock refs rwait wwait g] in *. lia.
  - apply (release_all_count _ true); [done|]. unfold release_fuel. cbn [waiters]. lia.
  - apply (release_all_count _ false); [done|]. unfold release_fuel. cbn [waiters]. lia.
Qed.

Lemma with_side_refs read l n f r : refs (with_side read l n f r) = r.
Proof. by destruct read. Qed.

Lemma enc_with_ref read l n f r :
  enc (with_side read l n f r) + mutexRef = enc (with_side read l n f (r + 1)).
Proof. destruct read; unfold enc, with_side, mutexRef; cbn [closed rlock wlock refs rwait wwait]; lia. Qed.

Lemma rwlock_refines read f : fields_ok f -> rwlock read (enc f) = enc_promise (rwlock_spec read f).
Proof.
  intros Hf. pose proof Hf as (H1 & H2 & H3). pose proof (waiters_bound f read Hf) as Hw.
  unfold rwlock, rwlock_spec. rewrite has_closed by done. destruct (closed f) eqn:Ec; [done|].
  rewrite land_lock by done. destruct (locked read f) eqn:El; cbn [Z.b2z negb].
  - rewrite (proj2 (Z.eqb_neq _ 0)) by (by destruct read).
    replace (enc f + mutexWait read) with (enc f + mutexWait read * 1) by lia. rewrite enc_side, El.
    rewrite enc_u64 by (destruct read; cbn in *; lia).
    replace (Z.land _ (mutexMask read) =? 0) with (waiters read f =? max_refs); [by destruct (_ =? max_refs)|].
    assert (Z.land (enc (with_side read true (waiters read f + 1) f (refs f))) (mutexMask read) =
            mutexWait read * ((waiters read f + 1) mod 2 ^ 20)) as ->.
    { destruct read; cbn [mutexMask mutexWait]; [rewrite land_rwait_mod|rewrite land_wwait_mod]; done. }
    pose proof (wait_pos read). unfold max_refs. change (2 ^ 20) with 1048576 in *.
    destruct (Z.eqb_spec (waiters read f) (1048576 - 1)) as [->|Hne].
    + by rewrite Z.mul_0_r.
    + symmetry. rewrite Z.mod_small by lia. apply Z.eqb_neq. lia.
  - rewrite Z.mul_0_r, Z.eqb_refl. rewrite lor_clear by (rewrite land_lock, El by done; apply Z.mul_0_r).
    rewrite enc_lock, enc_with_ref by done. rewrite enc_u64 by (destruct read; cbn in *; lia).
    rewrite land_refs_mod, with_side_refs. unfold max_refs. change (2 ^ 20) with 1048576 in *.
    destruct (Z.eqb_spec (refs f) (1048576 - 1)) as [->|Hne]; [done|].
    rewrite Z.mod_small, (proj2 (Z.eqb_neq (8 * _) 0)) by lia. done.
Qed.

Lemma rwunlock_refines read f : fields_ok f -> rwunlock read (enc f) = enc_promise (rwunlock_spec read f).
Proof.
  intros Hf. pose proof Hf as (H1 & H2 & H3). pose proof (waiters_bound f read Hf) as Hw.
  unfold rwunlock, rwunlock_spec. rewrite land_lock, land_refs by done.
  destruct (locked read f) eqn:El; cbn [Z.b2z negb orb].
  2:{ by rewrite Z.mul_0_r. }
  rewrite (proj2 (Z.eqb_neq (mutexBit read * 1) 0)) by (by destruct read). cbn [orb].
  destruct (Z.eqb_spec (refs f) 0) as [->|Hr]; [done|]. rewrite (proj2 (Z.eqb_neq (8 * refs f) 0)) by lia.
  assert (u64 (Z.ldiff (enc f) (mutexBit read) - mutexRef) =
          enc (with_side read false (waiters read f) f (refs f - 1))) as ->.
  { rewrite ldiff_sub, land_lock, El by done.
    replace (enc f - mutexBit read * Z.b2z true - mutexRef) with (enc (with_side read false (waiters read f) f (refs f - 1))).
    - apply enc_u64; destruct read; cbn in *; lia.
    - destruct read; cbn in El; unfold enc, mutexBit, mutexRLock, mutexWLock, mutexRef, with_side, waiters;
        cbn [closed rlock wlock refs rwait wwait]; rewrite El; cbn [Z.b2z]; lia. }
  unfold has_bits. rewrite land_mask by done. pose proof (wait_pos read).
  set (g := with_side read false (waiters read f) f (refs f - 1)).
  assert (fields_ok g) as Hg by (destruct read; cbn in *; split_and!; cbn; lia).
  assert (forall rel, 0 <= rel <= waiters read f ->
    no_more_refs (enc (with_side read false (waiters read f - rel) f (refs f - 1))) = closed f && (refs f =? 1)) as Hdone.
  { intros rel Hrel. rewrite done_refs by (destruct read; cbn in *; split_and!; cbn; lia).
    rewrite with_side_refs. destruct read; cbn [closed with_side]; f_equal;
      apply eq_true_iff_eq; rewrite !Z.eqb_eq; lia. }
  destruct (Z.eqb_spec (waiters read f) 0) as [H0|H0].
  - rewrite H0, Z.mul_0_r. cbn [negb Z.eqb enc_promise]. unfold g. rewrite H0.
    specialize (Hdone 0 ltac:(lia)). rewrite H0, Z.sub_0_r in *. by rewrite Hdone.
  - rewrite (proj2 (Z.eqb_neq (mutexWait read * _) 0)) by lia. cbn [negb enc_promise].
    replace (enc g - mutexWait read) with (enc g + mutexWait read * (-1)) by lia. rewrite enc_side.
    replace (with_side read (locked read g) (waiters read g + -1) g (refs g))
      with (with_side read false (waiters read f - 1) f (refs f - 1)) by (by destruct read).
    rewrite enc_u64 by (destruct read; cbn in *; lia). by rewrite Hdone by lia.
Qed.

Inductive fd_op : Type := OpIncref | OpIncrefAndClose | OpDecref | OpRwlock (read : bool) | OpRwunlock (read : bool).

Definition run_fd (o : fd_op) (old : Z) : outcome :=
  match o with
  | OpIncref => incref old | OpIncrefAndClose => increfAndClose old | OpDecref => decref old
  | OpRwlock r => rwlock r old | OpRwunlock r => rwunlock r old
  end.

Definition fd_spec (o : fd_op) (f : fields) : promise :=
  match o with
  | OpIncref => incref_spec f | OpIncrefAndClose => increfAndClose_spec f | OpDecref => decref_spec f
  | OpRwlock r => rwlock_spec r f | OpRwunlock r => rwunlock_spec r f
  end.

(** C27: the bit arithmetic on the packed 64-bit word is the intended record update,
    for every operation and every word: no field ever spills into its neighbour, a
    count that would is refused with the overflow panic, and the waiters woken are
    exactly the waiters counted. *)
Theorem fdMutex_refines o f : fields_ok f -> run_fd o (enc f) = enc_promise (fd_spec o f).
Proof.
  intros Hf. destruct o; cbn [run_fd fd_spec];
    auto using incref_refines, increfAndClose_refines, decref_refines, rwlock_refines, rwunlock_refines.
Qed.

(** ** The goroutines around the word

    One side of the mutex as the goroutines see it: how many hold its lock, sleep on
    its semaphore, were woken and have yet to try again, and the semaphore's count. *)
Record side : Type := mkSide { hold : Z; asleep : Z; retrying : Z; sema : Z }.

Record fdst : Type := mkFd { word : Z; rside : side; wside : side; misc : Z; destroyed : Z }.

Definition side_of (read : bool) (s : fdst) : side := if read then rside s else wside s.
Definition on_side (read : bool) (g : side -> side) (s : fdst) : fdst :=
  if read then mkFd (word s) (g (rside s)) (wside s) (misc s) (destroyed s)
  else mkFd (word s) (rside s) (g (wside s)) (misc s) (destroyed s).

(** The new word, the semaphore releases, and [destroy] when the operation says so. *)
Definition commit (w : Z) (rrel wrel : Z) (d : bool) (s : fdst) : fdst :=
  let post n (x : side) := mkSide (hold x) (asleep x) (retrying x) (sema x + n) in
  mkFd w (post rrel (rside s)) (post wrel (wside s)) (misc s) (destroyed s + Z.b2z d).

Definition add_misc (n : Z) (s : fdst) : fdst := mkFd (word s) (rside s) (wside s) (misc s + n) (destroyed s).
Definition add_hold (n : Z) (x : side) : side := mkSide (hold x + n) (asleep x) (retrying x) (sema x).
Definition add_asleep (n : Z) (x : side) : side := mkSide (hold x) (asleep x + n) (retrying x) (sema x).
Definition add_retry (n : Z) (x : side) : side := mkSide (hold x) (asleep x) (retrying x + n) (sema x).
Definition wake (x : side) : side := mkSide (hold x) (asleep x - 1) (retrying x + 1) (sema x - 1).

(** A goroutine that tries a lock is a new one, or one woken before. *)
Definition attempt (again read : bool) (s : fdst) : fdst :=
  if again then on_side read (add_retry (-1)) s else s.

Inductive fd_step : fdst -> fdst -> Prop :=
| step_incref s w r1 r2 :
    incref (word s) = OReturn true w r1 r2 -> fd_step s (add_misc 1 (commit w r1 r2 false s))
| step_close s w r1 r2 :
    increfAndClose (word s) = OReturn true w r1 r2 -> fd_step s (add_misc 1 (commit w r1 r2 false s))
| step_decref s d w r1 r2 :
    0 < misc s -> decref (word s) = OReturn d w r1 r2 -> fd_step s (add_misc (-1) (commit w r1 r2 d s))
| step_lock again read s w r1 r2 :
    (again = true -> 0 < retrying (side_of read s)) ->
    rwlock read (word s) = OReturn true w r1 r2 ->
    fd_step s (on_side read (add_hold 1) (commit w r1 r2 false (attempt again read s)))
| step_lock_closed again read s w r1 r2 :
    (again = true -> 0 < retrying (side_of read s)) ->
    rwlock read (word s) = OReturn false w r1 r2 -> fd_step s (attempt again read s)
| step_sleep again read s w :
    (again = true -> 0 < retrying (side_of read s)) ->
    rwlock read (word s) = OSleep w ->
    fd_step s (on_side read (add_asleep 1) (commit w 0 0 false (attempt again read s)))
| step_wake read s :
    0 < sema (side_of read s) -> 0 < asleep (side_of read s) -> fd_step s (on_side read wake s)
| step_unlock read s d w r1 r2 :
    0 < hold (side_of read s) -> rwunlock read (word s) = OReturn d w r1 r2 ->
    fd_step s (on_side read (add_hold (-1)) (commit w r1 r2 d s)).

Definition fd_init : fdst := mkFd 0 (mkSide 0 0 0 0) (mkSide 0 0 0 0) 0 0.

Definition fd_reachable (s : fdst) : Prop := rtc fd_step fd_init s.

(** ** The invariant *)
Definition side_inv (read : bool) (f : fields) (x : side) : Prop :=
  0 <= hold x <= 1 /\ locked read f = (hold x =? 1) /\ waiters read f = asleep x - sema x /\
  0 <= sema x /\ 0 <= retrying x /\ (closed f = true -> waiters read f = 0) /\
  (hold x = 0 -> waiters read f = 0 \/ 0 < sema x + retrying x).

Definition fd_inv_with (f : fields) (s : fdst) : Prop :=
  fields_ok f /\ word s = enc f /\ 0 <= misc s /\
  refs f = misc s + hold (rside s) + hold (wside s) /\
  side_inv true f (rside s) /\ side_inv false f (wside s) /\
  destroyed s = Z.b2z (closed f && (refs f =? 0)).

Definition fd_inv (s : fdst) : Prop := exists f, fd_inv_with f s.

Lemma fd_inv_init : fd_inv fd_init.
Proof.
  exists (mkFields false false false 0 0 0). unfold fd_inv_with, fd_init, side_inv, fields_ok. cbn. split_and!; try done; lia.
Qed.

(** The chosen side and the other one. *)
Lemma fd_inv_sides read f s : fd_inv_with f s ->
  side_inv read f (side_of read s) /\ side_inv (negb read) f (side_of (negb read) s) /\
  refs f = misc s + hold (side_of read s) + hold (side_of (negb read) s).
Proof. intros (_ & _ & _ & H & Hr & Hw & _). destruct read; cbn; split_and!; try done; lia. Qed.

(** A step that changes one side, the reference count and nothing else. *)
Lemma fd_inv_side read l n r x' f s :
  fd_inv_with f s -> fields_ok (with_side read l n f r) -> side_inv read (with_side read l n f r) x' ->
  r - refs f = hold x' - hold (side_of read s) ->
  fd_inv (on_side read (fun _ => x')
            (mkFd (enc (with_side read l n f r)) (rside s) (wside s) (misc s) (Z.b2z (closed f && (r =? 0))))).
Proof.
  intros (Hf & Hw & Hm & Hrefs & Hr & Hwr & Hd) Hf' Hx' Hr'. exists (with_side read l n f r).
  unfold fd_inv_with. destruct read; cbn in *; split_and!; try done; lia.
Qed.

Lemma commit_side (read : bool) w k d s :
  commit w (if read then k else 0) (if read then 0 else k) d s =
  on_side read (fun x => mkSide (hold x) (asleep x) (retrying x) (sema x + k))
    (mkFd w (rside s) (wside s) (misc s) (destroyed s + Z.b2z d)).
Proof. destruct read, s as [w0 [] [] m de]; unfold commit, on_side; cbn; by rewrite !Z.add_0_r. Qed.

Lemma commit_misc w d s : commit w 0 0 d s = mkFd w (rside s) (wside s) (misc s) (destroyed s + Z.b2z d).
Proof. destruct s as [w0 [] [] m de]. unfold commit. cbn. by rewrite !Z.add_0_r. Qed.

Lemma attempt_word again read s : word (attempt again read s) = word s.
Proof. by destruct again, read. Qed.

Lemma on_side_const read g s : on_side read g s = on_side read (fun _ => g (side_of read s)) s.
Proof. by destruct read. Qed.

(** A goroutine about to try, new or woken: its side with the count it leaves. *)
Definition tried (again : bool) (x : side) : side :=
  mkSide (hold x) (asleep x) (retrying x - Z.b2z again) (sema x).

Lemma attempt_parts again read s :
  attempt again read s = on_side read (tried again) s.
Proof.
  destruct s as [w [a b c d] [a' b' c' d'] m de]. destruct again, read; unfold attempt, on_side, tried; cbn;
    rewrite ?Z.sub_0_r; done.
Qed.

(** What a step knows of the word, read through the refinement. *)
Ltac fd_outcome H :=
  rewrite ?incref_refines, ?increfAndClose_refines, ?decref_refines, ?rwlock_refines, ?rwunlock_refines in H by assumption;
  unfold incref_spec, increfAndClose_spec, decref_spec, rwlock_spec, rwunlock_spec in H;
  repeat match type of H with
  | context [if ?b then _ else _] => let E := fresh "E" in destruct b eqn:E; cbn [enc_promise] in H; try discriminate H
  end;
  cbn [enc_promise] in H; first [discriminate H | injection H; clear H; intros; subst].

(** The steps on the reference count alone. *)
Lemma fd_inv_misc f s n d :
  fd_inv_with f s -> 0 <= misc s + n -> 0 <= refs f + n < 2 ^ 20 ->
  destroyed s + Z.b2z d = Z.b2z (closed f && (refs f + n =? 0)) ->
  fd_inv (add_misc n (mkFd (enc (mkFields (closed f) (rlock f) (wlock f) (refs f + n) (rwait f) (wwait f)))
                        (rside s) (wside s) (misc s) (destroyed s + Z.b2z d))).
Proof.
  intros (Hf & Hw & Hm & Hrefs & Hr & Hwr & Hd) Hmn Hn Hde.
  exists (mkFields (closed f) (rlock f) (wlock f) (refs f + n) (rwait f) (wwait f)).
  destruct Hf as (H1 & H2 & H3). unfold fd_inv_with. cbn. split_and!; try done; try lia.
Qed.

(** The steps on one side: what the side must satisfy afterwards. *)
Lemma fd_inv_on_side read f s g l n r :
  fd_inv_with f s -> fields_ok (with_side read l n f r) ->
  side_inv read (with_side read l n f r) (g (side_of read s)) ->
  r - refs f = hold (g (side_of read s)) - hold (side_of read s) ->
  forall d, destroyed s + Z.b2z d = Z.b2z (closed f && (r =? 0)) ->
  fd_inv (on_side read g (mkFd (enc (with_side read l n f r)) (rside s) (wside s) (misc s) (destroyed s + Z.b2z d))).
Proof.
  intros H Hf Hx Hr d ->. rewrite on_side_const.
  pose proof (fd_inv_side read l n r (g (side_of read s)) f s H Hf Hx Hr) as G. by destruct read.
Qed.

Lemma with_side_id read f : with_side read (locked read f) (waiters read f) f (refs f) = f.
Proof. by destruct f, read. Qed.

Lemma with_side_ok read l n r f : fields_ok f -> 0 <= n < 2 ^ 20 -> 0 <= r < 2 ^ 20 -> fields_ok (with_side read l n f r).
Proof. intros (H1 & H2 & H3) Hn Hr. destruct read; split_and!; cbn; lia. Qed.

Lemma side_inv_with read l n f r x :
  side_inv read (with_side read l n f r) x <->
  0 <= hold x <= 1 /\ l = (hold x =? 1) /\ n = asleep x - sema x /\ 0 <= sema x /\ 0 <= retrying x /\
  (closed f = true -> n = 0) /\ (hold x = 0 -> n = 0 \/ 0 < sema x + retrying x).
Proof. unfold side_inv. by destruct read. Qed.

Lemma on_side_twice read g1 g2 w s de :
  on_side read g2 (mkFd w (rside (on_side read g1 s)) (wside (on_side read g1 s)) (misc (on_side read g1 s)) de) =
  on_side read (fun x => g2 (g1 x)) (mkFd w (rside s) (wside s) (misc s) de).
Proof. by destruct read. Qed.

Section step_cases.
Context (f : fields) (s : fdst) (Hinv : fd_inv_with f s).

Lemma inv_word : word s = enc f. Proof. apply Hinv. Qed.
Lemma inv_ok : fields_ok f. Proof. apply Hinv. Qed.
Lemma inv_destroyed : destroyed s = Z.b2z (closed f && (refs f =? 0)).
Proof. apply Hinv. Qed.

(** An open file is not destroyed. *)
Lemma inv_open : closed f = false -> forall b, destroyed s + Z.b2z false = Z.b2z (closed f && b).
Proof. intros Hc b. rewrite inv_destroyed, Hc. done. Qed.

(** A reference less: destroyed when it was the last of a closed file. *)
Lemma inv_last : 1 <= refs f ->
  destroyed s + Z.b2z (closed f && (refs f =? 1)) = Z.b2z (closed f && (refs f - 1 =? 0)).
Proof.
  intros H. rewrite inv_destroyed. rewrite (proj2 (Z.eqb_neq (refs f) 0)) by lia. rewrite andb_false_r.
  replace (refs f - 1 =? 0) with (refs f =? 1); [done|]. apply eq_true_iff_eq. rewrite !Z.eqb_eq. lia.
Qed.

Lemma step_incref_inv w r1 r2 : incref (word s) = OReturn true w r1 r2 -> fd_inv (add_misc 1 (commit w r1 r2 false s)).
Proof.
  rewrite inv_word. pose proof inv_ok as Hf. intros H. fd_outcome H. rewrite commit_misc. apply Z.eqb_neq in E0.
  pose proof Hinv as (_ & _ & Hm & _). destruct Hf as (H1 & _). unfold max_refs in *.
  pose proof (fd_inv_misc f s 1 false Hinv ltac:(lia) ltac:(lia) (inv_open E _)) as G. by rewrite E in G.
Qed.

Lemma step_decref_inv d w r1 r2 : 0 < misc s -> decref (word s) = OReturn d w r1 r2 ->
  fd_inv (add_misc (-1) (commit w r1 r2 d s)).
Proof.
  rewrite inv_word. pose proof inv_ok as Hf. intros Hp H. fd_outcome H. rewrite commit_misc. apply Z.eqb_neq in E.
  destruct Hf as (H1 & _). change (refs f - 1) with (refs f + -1).
  apply fd_inv_misc; [done|lia|lia|]. apply inv_last. lia.
Qed.

Lemma step_close_inv w r1 r2 : increfAndClose (word s) = OReturn true w r1 r2 ->
  fd_inv (add_misc 1 (commit w r1 r2 false s)).
Proof.
  rewrite inv_word. pose proof inv_ok as Hf. intros H. fd_outcome H. apply Z.eqb_neq in E0. unfold max_refs in *.
  pose proof Hinv as (_ & _ & Hm & Hrefs & Hr & Hwr & Hd). pose proof Hf as (H1 & H2 & H3).
  exists (mkFields true (rlock f) (wlock f) (refs f + 1) 0 0). rewrite inv_destroyed, E in *.
  unfold fd_inv_with, side_inv in *. cbn in *. split_and!; try tauto; try lia.
  - by split_and!; cbn; lia.
  - rewrite inv_destroyed, E. by destruct (Z.eqb_spec (refs f + 1) 0); [lia|].
Qed.

Lemma step_lock_inv again read w r1 r2 : (again = true -> 0 < retrying (side_of read s)) ->
  rwlock read (word s) = OReturn true w r1 r2 ->
  fd_inv (on_side read (add_hold 1) (commit w r1 r2 false (attempt again read s))).
Proof.
  rewrite inv_word. pose proof inv_ok as Hf. intros Ha H. fd_outcome H.
  apply negb_true_iff in E0. apply Z.eqb_neq in E1. unfold max_refs in *.
  destruct (fd_inv_sides read f s Hinv) as ((S1 & S2 & S3 & S4 & S5 & S6 & S7) & _ & _).
  rewrite E0 in S2. symmetry in S2. apply Z.eqb_neq in S2. pose proof Hf as (H1 & _).
  pose proof (waiters_bound f read Hf).
  rewrite attempt_parts, commit_misc, on_side_twice.
  replace (destroyed (on_side read (tried again) s)) with (destroyed s) by (by destruct read).
  apply fd_inv_on_side; [done|by apply with_side_ok; [|lia|lia]| |cbn; lia|by apply inv_open].
  apply side_inv_with. cbn. rewrite E. destruct again; cbn; [specialize (Ha eq_refl)|]; split_and!; try done; try lia.
  all: rewrite (proj2 (Z.eqb_eq _ _)); [done|lia].
Qed.

Lemma step_lock_closed_inv again read w r1 r2 : (again = true -> 0 < retrying (side_of read s)) ->
  rwlock read (word s) = OReturn false w r1 r2 -> fd_inv (attempt again read s).
Proof.
  rewrite inv_word. pose proof inv_ok as Hf. intros Ha H. fd_outcome H.
  destruct (fd_inv_sides read f s Hinv) as ((S1 & S2 & S3 & S4 & S5 & S6 & S7) & _ & _).
  pose proof (waiters_bound f read Hf). destruct Hf as (H1 & _).
  pose proof (fd_inv_on_side read f s (tried again) (locked read f) (waiters read f) (refs f) Hinv) as G.
  rewrite with_side_id in G. specialize (G inv_ok).
  assert (fd_inv (on_side read (tried again) (mkFd (enc f) (rside s) (wside s) (misc s) (destroyed s + Z.b2z false)))) as G'.
  { apply G; [|cbn; lia|by rewrite inv_destroyed, Z.add_0_r]. rewrite <- (with_side_id read f) at 1.
    apply side_inv_with. cbn. destruct again; cbn; [specialize (Ha eq_refl)|]; split_and!; try done; try lia; tauto. }
  rewrite attempt_parts. rewrite <- inv_word, Z.add_0_r in G'. by destruct s.
Qed.

Lemma step_sleep_inv again read w : (again = true -> 0 < retrying (side_of read s)) ->
  rwlock read (word s) = OSleep w ->
  fd_inv (on_side read (add_asleep 1) (commit w 0 0 false (attempt again read s))).
Proof.
  rewrite inv_word. pose proof inv_ok as Hf. intros Ha H. fd_outcome H.
  apply negb_false_iff in E0. apply Z.eqb_neq in E1. unfold max_refs in *.
  destruct (fd_inv_sides read f s Hinv) as ((S1 & S2 & S3 & S4 & S5 & S6 & S7) & _ & _).
  rewrite E0 in S2. symmetry in S2. apply Z.eqb_eq in S2. pose proof Hf as (H1 & _).
  pose proof (waiters_bound f read Hf).
  rewrite attempt_parts, commit_misc, on_side_twice.
  replace (destroyed (on_side read (tried again) s)) with (destroyed s) by (by destruct read).
  apply fd_inv_on_side; [done|by apply with_side_ok; [|lia|lia]| |cbn; lia|by apply inv_open].
  apply side_inv_with. cbn. rewrite E. destruct again; cbn; [specialize (Ha eq_refl)|]; split_and!; try done; try lia.
  all: rewrite (proj2 (Z.eqb_eq _ _)); [done|lia].
Qed.

Lemma step_wake_inv read : 0 < sema (side_of read s) -> 0 < asleep (side_of read s) -> fd_inv (on_side read wake s).
Proof.
  intros Hs Hb. destruct (fd_inv_sides read f s Hinv) as ((S1 & S2 & S3 & S4 & S5 & S6 & S7) & _ & _).
  pose proof (fd_inv_on_side read f s wake (locked read f) (waiters read f) (refs f) Hinv) as G.
  rewrite with_side_id in G. specialize (G inv_ok).
  assert (fd_inv (on_side read wake (mkFd (enc f) (rside s) (wside s) (misc s) (destroyed s + Z.b2z false)))) as G'.
  { apply G; [|cbn; lia|by rewrite inv_destroyed, Z.add_0_r]. rewrite <- (with_side_id read f) at 1.
    apply side_inv_with. cbn. split_and!; try done; try lia; tauto. }
  rewrite <- inv_word, Z.add_0_r in G'. by destruct s.
Qed.

Lemma step_unlock_inv read d w r1 r2 : 0 < hold (side_of read s) -> rwunlock read (word s) = OReturn d w r1 r2 ->
  fd_inv (on_side read (add_hold (-1)) (commit w r1 r2 d s)).
Proof.
  rewrite inv_word. pose proof inv_ok as Hf. intros Hh H. unfold rwunlock_spec in H.
  rewrite rwunlock_refines in H by done. unfold rwunlock_spec in H.
  destruct (negb (locked read f) || (refs f =? 0)) eqn:E; [discriminate|]. apply orb_false_iff in E as [El Er].
  apply negb_false_iff in El. apply Z.eqb_neq in Er. set (rel := if waiters read f =? 0 then 0 else 1) in *.
  cbn [enc_promise] in H. injection H as <- <- <- <-.
  destruct (fd_inv_sides read f s Hinv) as ((S1 & S2 & S3 & S4 & S5 & S6 & S7) & _ & _).
  pose proof (waiters_bound f read Hf). destruct (Hf) as (H1 & _).
  assert (0 <= rel <= waiters read f /\ (rel = 0 -> waiters read f = 0)) as [Hrel Hrel0]
    by (unfold rel; destruct (Z.eqb_spec (waiters read f) 0); lia).
  rewrite commit_side.
  pose proof (fd_inv_on_side read f s (fun x => add_hold (-1) (mkSide (hold x) (asleep x) (retrying x) (sema x + rel)))
    false (waiters read f - rel) (refs f - 1) Hinv) as G.
  assert (forall m, on_side read (add_hold (-1)) (on_side read (fun x => mkSide (hold x) (asleep x) (retrying x) (sema x + rel)) m) =
    on_side read (fun x => add_hold (-1) (mkSide (hold x) (asleep x) (retrying x) (sema x + rel))) m) as -> by (by destruct read).
  apply G; [by apply with_side_ok; [|lia|lia]| |cbn; lia|by apply inv_last; lia].
  apply side_inv_with. cbn. split_and!; try lia. intros Hc. specialize (S6 Hc). lia.
Qed.
End step_cases.

Lemma fd_inv_step s s' : fd_inv s -> fd_step s s' -> fd_inv s'.
Proof.
  intros [f Hinv] Hstep. destruct Hstep;
    eauto using step_incref_inv, step_decref_inv, step_close_inv, step_lock_inv, step_lock_closed_inv,
      step_sleep_inv, step_wake_inv, step_unlock_inv.
Qed.

Lemma fd_reachable_inv s : fd_reachable s -> fd_inv s.
Proof.
  assert (forall a b, rtc fd_step a b -> fd_inv a -> fd_inv b) as H.
  { induction 1; eauto using fd_inv_step. }
  intros Hr. eapply H; [exact Hr|apply fd_inv_init].
Qed.

(** Nobody holds the descriptor in any way. *)
Definition unheld (s : fdst) : Prop := misc s = 0 /\ hold (rside s) = 0 /\ hold (wside s) = 0.

(** C25: in every interleaving of goroutines that keep to the protocol (release only
    what they hold): at most one holds each lock; no holder ever meets the
    inconsistent-state panic; the descriptor is destroyed at most once, exactly when
    it has been closed and nobody holds it; a destroyed descriptor admits nobody; a
    closed one has woken every sleeper; and while sleepers of a free lock are left
    uncounted for, one of them is on its way. *)
Theorem fdMutex_safe s :
  fd_reachable s ->
  (forall read, hold (side_of read s) <= 1) /\
  (0 < misc s -> forall msg, decref (word s) <> OPanic msg) /\
  (forall read msg, 0 < hold (side_of read s) -> rwunlock read (word s) <> OPanic msg) /\
  (destroyed s = 0 \/ destroyed s = 1) /\
  (destroyed s = 1 <-> has_bits (word s) mutexClosed = true /\ unheld s) /\
  (destroyed s = 1 -> incref (word s) = OReturn false (word s) 0 0 /\
     increfAndClose (word s) = OReturn false (word s) 0 0 /\
     forall read, rwlock read (word s) = OReturn false (word s) 0 0) /\
  (has_bits (word s) mutexClosed = true -> forall read, asleep (side_of read s) = sema (side_of read s)) /\
  (forall read, hold (side_of read s) = 0 -> sema (side_of read s) < asleep (side_of read s) ->
     0 < sema (side_of read s) + retrying (side_of read s)).
Proof.
  intros Hr. destruct (fd_reachable_inv s Hr) as [f Hinv].
  pose proof Hinv as (Hf & Hw & Hm & Hrefs & Hrs & Hws & Hd). rewrite Hw. pose proof Hf as (H1 & _).
  assert (forall read, side_inv read f (side_of read s)) as Hside by (by intros []).
  assert (forall read, 0 <= hold (side_of read s) <= 1) as Hhold by (intros read; apply (Hside read)).
  pose proof (Hhold true) as Hh1. pose proof (Hhold false) as Hh2. cbn [side_of] in Hh1, Hh2.
  rewrite has_closed by done. split_and!.
  - intros read. apply Hhold.
  - intros Hp msg H. rewrite decref_refines in H by done. unfold decref_spec in H.
    rewrite (proj2 (Z.eqb_neq _ 0)) in H by lia. discriminate.
  - intros read msg Hp H. rewrite rwunlock_refines in H by done. unfold rwunlock_spec in H.
    destruct (Hside read) as (_ & El & _). pose proof (Hhold read).
    rewrite El, (proj2 (Z.eqb_eq _ 1)), (proj2 (Z.eqb_neq (refs f) 0)) in H; [discriminate|destruct read; cbn in *; lia|lia].
  - rewrite Hd. destruct (closed f && (refs f =? 0)); cbn; lia.
  - rewrite Hd. unfold unheld. destruct (closed f), (Z.eqb_spec (refs f) 0); cbn; split; intros H; split_and?; try done; try lia;
      destruct H as [_ (? & ? & ?)]; lia.
  - rewrite Hd. intros H. destruct (closed f) eqn:Ec; [|done].
    rewrite incref_refines, increfAndClose_refines by done. unfold incref_spec, increfAndClose_spec. rewrite Ec.
    split_and!; try done. intros read. rewrite rwlock_refines by done. unfold rwlock_spec. by rewrite Ec.
  - intros Hc read. destruct (Hside read) as (_ & _ & S3 & _ & _ & S6 & _). specialize (S6 Hc). lia.
  - intros read H0 Hlt. destruct (Hside read) as (_ & _ & S3 & _ & _ & _ & S7). specialize (S7 H0). lia.
Qed.

(** ** type FD: the operations on a descriptor *)
Inductive fd_err : Type := ErrNetClosing | ErrFileClosing.

Definition errClosing (isFile : bool) : fd_err := if isFile then ErrFileClosing else ErrNetClosing.

(** The error, and whether [destroy] runs. *)
Definition fd_result (isFile : bool) (o : outcome) : option (option fd_err) :=
  match o with
  | OReturn true _ _ _ => Some None
  | OReturn false _ _ _ => Some (Some (errClosing isFile))
  | OPanic _ | OSleep _ => None
  end.
Definition FD_incref (isFile : bool) (st : Z) := fd_result isFile (incref st).
Definition FD_readLock (isFile : bool) (st : Z) := fd_result isFile (rwlock true st).
Definition FD_writeLock (isFile : bool) (st : Z) := fd_result isFile (rwlock false st).
Definition FD_closing (st : Z) : bool := has_bits st mutexClosed.

(** ** Concrete runs *)
Lemma fdMutex_refines_witness :
  rwlock true (enc (mkFields false true false 1 0 3)) = OSleep (enc (mkFields false true false 1 1 3)).
Proof.
  exact (fdMutex_refines (OpRwlock true) (mkFields false true false 1 0 3)
           ltac:(unfold fields_ok; cbn; lia)).
Defined.

(** A reader takes the lock, a second one sleeps, the first unlocks. *)
Definition demo_fd : fdst :=
  mkFd 0 (mkSide 0 1 0 1) (mkSide 0 0 0 0) 0 0.

Lemma demo_fd_reachable : fd_reachable demo_fd.
Proof.
  eapply rtc_l; [apply (step_lock false true _ 10 0 0); [done|reflexivity]|].
  eapply rtc_l; [apply (step_sleep false true _ (10 + mutexRWait)); [done|reflexivity]|].
  eapply rtc_l; [apply (step_unlock true _ false 0 1 0); [reflexivity|reflexivity]|].
  apply rtc_refl.
Defined.

Lemma fdMutex_safe_witness :
  hold (side_of true demo_fd) = 0 /\ sema (side_of true demo_fd) = asleep (side_of true demo_fd) /\
  (forall read, hold (side_of read demo_fd) <= 1).
Proof.
  split; [reflexivity|]. split; [reflexivity|].
  exact (proj1 (fdMutex_safe demo_fd demo_fd_reachable)).
Defined.
