(* ===== verification/FdProg.v ===== *)
(** * FdProg: goroutines that use a descriptor of internal/poll

    An operation of internal/poll runs among others on the same descriptor, so it is
    not a function of a state but a program: a tree that performs one atomic action at
    a time and goes on with its answer.  The actions are the passes of fdMutex, the
    semaphore waits, the accesses to the fields of FD that change ([Sysfd],
    [pd.runtimeCtx], [isBlocking], [csema]), the atomic pieces of the runtime poller's
    entry points (runtime/netpoll.go), and the calls of package syscall.  FdIO.v writes
    the operations of fd_unix.go as such programs; FdLogic.v and FdSystem.v run any
    number of them against the mutex of FdMutex.v and the poll descriptor of Netpoll.v.

    A [for] loop is [iterate], whose fuel bounds its turns; a program that runs out of
    it is a prefix of the real one. *)
From Stdlib Require Import ZArith Lia List Bool String.
From stdpp Require Import base list strings numbers tactics option.
From S2P Require Import Prelude Syscall SyscallSock Netpoll FdMutex.

(** ** Calls of package syscall and internal/syscall/unix

    The descriptor first.  [SUser] is the function handed to RawRead, RawWrite or
    RawControl; socket options and addresses that are only passed on are byte lists. *)
Inductive sysreq : Type :=
| SRead (fd : Z) (p : list Z) | SPread (fd : Z) (p : list Z) (off : Z)
| SWrite (fd : Z) (p : list Z) | SPwrite (fd : Z) (p : list Z) (off : Z)
| SWritev (fd : Z) (iovecs : list (list Z))
| SRecvfrom (fd : Z) (p : list Z) (flags : Z)
| SRecvmsg (fd : Z) (p oob : list Z) (flags : Z)
| SSendto (fd : Z) (p : list Z) (flags : Z) (sa : Sockaddr)
| SSendmsgN (fd : Z) (p oob : list Z) (sa : Sockaddr) (flags : Z)
| SAccept (fd : Z) | SClose (fd : Z)
| SCloseOnExec (fd : Z) | SSetNonblock (fd : Z) (b : bool) | SDup (fd : Z)
| SFchmod (fd mode : Z) | SFchown (fd uid gid : Z) | SFstat (fd : Z) | SFtruncate (fd size : Z)
| SFsync (fd : Z) | SFchdir (fd : Z) | SSeek (fd off whence : Z) | SReadDirent (fd : Z) (p : list Z)
| SShutdown (fd how : Z)
| SSetsockopt (fd level name : Z) (arg : list Z) | SGetsockoptInt (fd level name : Z)
| SUser (fd : Z).

Definition req_fd (r : sysreq) : Z :=
  match r with
  | SRead fd _ | SPread fd _ _ | SWrite fd _ | SPwrite fd _ _ | SWritev fd _ | SRecvfrom fd _ _
  | SRecvmsg fd _ _ _ | SSendto fd _ _ _ | SSendmsgN fd _ _ _ _ | SAccept fd | SClose fd
  | SCloseOnExec fd | SSetNonblock fd _ | SDup fd | SFchmod fd _ | SFchown fd _ _ | SFstat fd
  | SFtruncate fd _ | SFsync fd | SFchdir fd | SSeek fd _ _ | SReadDirent fd _ | SShutdown fd _
  | SSetsockopt fd _ _ _ | SGetsockoptInt fd _ _ | SUser fd => fd
  end.

(** An answer: the count or descriptor (for [SUser] 1 for true), the errno, the memory
    filled, and what recvmsg and accept add. *)
Record sysrep : Type := mkRep {
  rp_n : Z; rp_err : option Z; rp_buf : list Z; rp_oobn : Z; rp_flags : Z; rp_sa : option Sockaddr }.

(** ** Actions *)
Inductive action : Type :=
| AMutex (o : fd_op)              (* one pass of a loop of fdMutex *)
| ASemacquire (read : bool)       (* runtime_Semacquire(&mu.rsema) or (&mu.wsema) *)
| ALoadSysfd | AClearSysfd        (* fd.Sysfd, fd.Sysfd = -1 *)
| ALoadCtx | AClearCtx            (* fd.pd.runtimeCtx != 0, = 0 *)
| ALoadBlocking | AStoreBlocking  (* fd.isBlocking != 0, = 1 *)
| ACsemAcquire | ACsemRelease     (* fd.csema *)
| ACheckErr (mode : Z)            (* netpollcheckerr *)
| AClearSem (mode : Z)            (* pollReset's store of pdNil *)
| ABlock (mode : Z)               (* netpollblock's first loop: the pending notification, if any *)
| ACommit (mode : Z)              (* netpollblockcommit: whether to park *)
| AResume (mode : Z)              (* scheduled again after parking *)
| ATake (mode : Z)                (* netpollblock's exchange with pdNil *)
| AUnblock                        (* pollUnblock *)
| APollClose                      (* pollClose *)
| ASetDeadline (d mode : Z)       (* pollSetDeadline *)
| ASys (r : sysreq)
| APanic (msg : string).

(** For the mutex [None] is a lock that is taken: the goroutine now waits. *)
Definition result (a : action) : Type :=
  match a with
  | AMutex _ => option bool
  | ALoadSysfd | ACheckErr _ | ATake _ => Z
  | ALoadCtx | ALoadBlocking | ABlock _ | ACommit _ => bool
  | ASys _ => sysrep
  | APanic _ => Empty_set
  | ASemacquire _ | AClearSysfd | AClearCtx | AStoreBlocking | ACsemAcquire | ACsemRelease
  | AClearSem _ | AResume _ | AUnblock | APollClose | ASetDeadline _ _ => unit
  end.

(** ** Programs *)
Inductive prog (A : Type) : Type :=
| Done (x : A)
| Act (a : action) (k : result a -> prog A)
| OutOfFuel.
Arguments Done {A} x.
Arguments Act {A} a k.
Arguments OutOfFuel {A}.

Fixpoint pbind {A B} (p : prog A) (k : A -> prog B) : prog B :=
  match p with
  | Done x => k x
  | Act a c => Act a (fun r => pbind (c r) k)
  | OutOfFuel => OutOfFuel
  end.
Definition act (a : action) : prog (result a) := Act a Done.

Declare Scope prog_scope.
Delimit Scope prog_scope with prog.
Notation "'do' x := p 'in' k" := (pbind p (fun x => k))
  (at level 10, x pattern, p at level 100, k at level 200) : prog_scope.
Notation "p1 ;; p2" := (pbind p1 (fun _ => p2))
  (at level 100, p2 at level 200, right associativity) : prog_scope.
Open Scope prog_scope.

(** [for { ... }]: [inl] goes round again with new variables, [inr] leaves. *)
Fixpoint iterate {S A} (fuel : nat) (body : S -> prog (S + A)) (s : S) : prog A :=
  match fuel with
  | O => OutOfFuel
  | S fuel => do r := body s in
              match r with
              | inl s' => iterate fuel body s'
              | inr a => Done a
              end
  end.

(** ** What a program may do, whatever it is answered

    A ghost state [H] follows the run of a program.  [runs h p Q]: from [h] every
    action of [p] is one its ghost state allows, and whatever possible answers it is
    given, it ends with [Q], of its result or of [None] when the fuel runs out. *)
Class Ghost (H : Type) : Type := {
  allowed : action -> H -> Prop;
  possible : forall a, result a -> H -> Prop;
  grant : forall a, result a -> H -> H;
}.

Section runs.
Context {H : Type} `{!Ghost H}.

Fixpoint runs {A} (p : prog A) (Q : option A -> H -> Prop) (h : H) : Prop :=
  match p with
  | Done x => Q (Some x) h
  | OutOfFuel => Q None h
  | Act a k => allowed a h /\ forall r, possible a r h -> runs (k r) Q (grant a r h)
  end.

Lemma runs_mono {A} (p : prog A) (Q Q' : option A -> H -> Prop) h :
  runs p Q h -> (forall o h, Q o h -> Q' o h) -> runs p Q' h.
Proof. intros Hp HQ. revert h Hp. induction p; cbn; intuition auto. Qed.

(** What a program does next, once it has a result. *)
Definition then_runs {A B} (k : A -> prog B) (Q : option B -> H -> Prop) (o : option A) (h : H) : Prop :=
  match o with Some x => runs (k x) Q h | None => Q None h end.

Lemma runs_bind {A B} (p : prog A) (k : A -> prog B) Q h :
  runs p (then_runs k Q) h -> runs (pbind p k) Q h.
Proof. revert h. induction p; cbn; intuition auto. Qed.

Lemma runs_act a (Q : option (result a) -> H -> Prop) h :
  allowed a h -> (forall r, possible a r h -> Q (Some r) (grant a r h)) -> runs (act a) Q h.
Proof. done. Qed.

Lemma runs_step {A} a (k : result a -> prog A) Q h :
  allowed a h -> (forall r, possible a r h -> runs (k r) Q (grant a r h)) -> runs (pbind (act a) k) Q h.
Proof. done. Qed.

(** A loop: [I] holds at the head of every turn, counted down by the fuel. *)
Lemma runs_iterate {S A} (body : S -> prog (S + A)) (I : nat -> S -> H -> Prop) Q fuel s h :
  I fuel s h ->
  (forall n s h, I (Datatypes.S n) s h ->
     runs (body s) (fun o h => match o with
                               | Some (inl s) => I n s h
                               | Some (inr a) => Q (Some a) h
                               | None => Q None h
                               end) h) ->
  (forall s h, I O s h -> Q None h) ->
  runs (iterate fuel body s) Q h.
Proof.
  intros HI Hbody Hend. revert s h HI. induction fuel as [|n IH]; intros s h HI; cbn [iterate]; [by eapply Hend|].
  apply runs_bind. eapply runs_mono; [by apply Hbody|].
  intros [[s'|a]|] h' Hh; cbn; auto.
Qed.
End runs.
