(* ===== verification/FdIO.v ===== *)
(** * FdIO: the operations of internal/poll

    fd_unix.go, fd_posix.go, fd_unixjs.go, fd_fsync_posix.go, fd_poll_runtime.go,
    sys_cloexec.go, writev.go and the sockopt files, with the entry points of
    runtime/netpoll.go they call, as programs over the actions of FdProg.v.  A buffer a
    call fills is part of its answer and of the operation's result. *)
From Stdlib Require Import ZArith Lia List Bool String.
From stdpp Require Import base list strings numbers tactics option.
From S2P Require Import Prelude Syscall SyscallSock Netpoll FdMutex FdProg.

Definition ECONNABORTED : Z := 253.

Inductive perror : Type :=
| EErrno (e : Z) | EClosing (e : fd_err) | ErrDeadlineExceeded | ErrNotPollable | ErrNoDeadline
| EOF | ErrUnexpectedEOF | EText (msg : string).

#[export] Instance fd_err_eq_dec : EqDecision fd_err.
Proof. solve_decision. Defined.
#[export] Instance perror_eq_dec : EqDecision perror.
Proof. solve_decision. Defined.

(** The fields of FD that never change after Init. *)
Record attrs : Type := mkAttrs { IsStream : bool; ZeroReadIsEOF : bool; isFile : bool }.

(** ** runtime/netpoll.go, one atomic step at a time *)
Module Rt.
Definition pollReset (mode : Z) : prog Z :=
  do errcode := act (ACheckErr mode) in
  if negb (errcode =? pollNoError) then Done errcode
  else act (AClearSem mode) ;; Done pollNoError.

Definition netpollblock (mode : Z) : prog bool :=
  do consumed := act (ABlock mode) in
  if (consumed : bool) then Done true else
  do errcode := act (ACheckErr mode) in
  (if errcode =? pollNoError
   then do parked := act (ACommit mode) in if (parked : bool) then act (AResume mode) else Done tt
   else Done tt) ;;
  do old := act (ATake mode) in
  if pdWait <? old then do x := act (APanic "runtime: corrupted polldesc") in match x with end
  else Done (old =? pdReady).

Definition pollWait (fuel : nat) (mode : Z) : prog Z :=
  do errcode := act (ACheckErr mode) in
  if negb (errcode =? pollNoError) then Done errcode else
  iterate fuel (fun _ : unit =>
    do ok := netpollblock mode in
    if (ok : bool) then Done (inr pollNoError) else
    do errcode := act (ACheckErr mode) in
    if negb (errcode =? pollNoError) then Done (inr errcode) else Done (inl tt)) tt.
End Rt.

(** ** fd_mutex.go: the loops that can wait *)
Definition mutex (o : fd_op) : prog bool := do r := act (AMutex o) in Done (default false r).

Definition rwlock (fuel : nat) (read : bool) : prog bool :=
  iterate fuel (fun _ : unit =>
    do r := act (AMutex (OpRwlock read)) in
    match r with
    | Some ok => Done (inr ok)
    | None => act (ASemacquire read) ;; Done (inl tt)
    end) tt.

(** ** fd_poll_runtime.go: pollDesc *)
Section poll.
Context (at_ : attrs) (fuel : nat).

Definition convertErr (res : Z) : prog (option perror) :=
  if res =? pollNoError then Done None
  else if res =? pollErrClosing then Done (Some (EClosing (errClosing (isFile at_))))
  else if res =? pollErrTimeout then Done (Some ErrDeadlineExceeded)
  else if res =? pollErrNotPollable then Done (Some ErrNotPollable)
  else do x := act (APanic "unreachable") in match x with end.

Definition pollable : prog bool := act ALoadCtx.

Definition prepare (mode : Z) : prog (option perror) :=
  do ctx := act ALoadCtx in
  if negb ctx then Done None else
  do res := Rt.pollReset mode in convertErr res.

Definition wait (mode : Z) : prog (option perror) :=
  do ctx := act ALoadCtx in
  if negb ctx then Done (Some (EText "waiting for unsupported file type")) else
  do res := Rt.pollWait fuel mode in convertErr res.

Definition pd_close : prog unit :=
  do ctx := act ALoadCtx in
  if negb ctx then Done tt else act APollClose ;; act AClearCtx.

Definition evict : prog unit :=
  do ctx := act ALoadCtx in
  if negb ctx then Done tt else act AUnblock.

(** ** fd_unix.go and fd_mutex.go: the life of an FD *)
Definition sys (req : Z -> sysreq) : prog sysrep :=
  do fd := act ALoadSysfd in act (ASys (req fd)).

Definition errno (r : sysrep) : option perror := EErrno <$> rp_err r.

Definition destroy : prog (option perror) :=
  pd_close ;;
  do r := sys SClose in
  act AClearSysfd ;;
  act ACsemRelease ;;
  Done (errno r).

Definition FD_incref : prog (option perror) :=
  do ok := mutex OpIncref in
  Done (if (ok : bool) then None else Some (EClosing (errClosing (isFile at_)))).
Definition FD_decref : prog (option perror) :=
  do last := mutex OpDecref in if (last : bool) then destroy else Done None.
Definition FD_lock (read : bool) : prog (option perror) :=
  do ok := rwlock fuel read in
  Done (if (ok : bool) then None else Some (EClosing (errClosing (isFile at_)))).
Definition FD_unlock (read : bool) : prog unit :=
  do last := mutex (OpRwunlock read) in if (last : bool) then destroy ;; Done tt else Done tt.
Definition readLock := FD_lock true.
Definition readUnlock := FD_unlock true.
Definition writeLock := FD_lock false.
Definition writeUnlock := FD_unlock false.

(** if err := fd.incref(); err != nil { return ... }; defer fd.decref(); and the same
    with the locks. *)
Definition with_ref {A} (fail : perror -> A) (body : prog A) : prog A :=
  do err := FD_incref in
  match err with
  | Some err => Done (fail err)
  | None => do x := body in FD_decref ;; Done x
  end.
Definition with_lock {A} (read : bool) (fail : perror -> A) (body : prog A) : prog A :=
  do err := FD_lock read in
  match err with
  | Some err => Done (fail err)
  | None => do x := body in FD_unlock read ;; Done x
  end.

Definition Close : prog (option perror) :=
  do ok := mutex OpIncrefAndClose in
  if negb ok then Done (Some (EClosing (errClosing (isFile at_)))) else
  evict ;;
  do err := FD_decref in
  do blocking := act ALoadBlocking in
  (if negb blocking then act ACsemAcquire else Done tt) ;;
  Done err.

Definition SetBlocking : prog (option perror) :=
  with_ref Some (
    act AStoreBlocking ;;
    do r := sys (fun fd => SSetNonblock fd false) in Done (errno r)).

(** ** Repeating interrupted calls *)
Definition is_errno (r : sysrep) (e : Z) : bool := bool_decide (rp_err r = Some e).

(** fd_posix.go: ignoringEINTR and ignoringEINTR2 around a call on fd.Sysfd, which the
    closures load each time. *)
Definition ignoringEINTR (req : Z -> sysreq) : prog sysrep :=
  iterate fuel (fun _ : unit =>
    do r := sys req in
    if is_errno r EINTR then Done (inl tt) else Done (inr r)) tt.

(** fd_unix.go: ignoringEINTRIO, given the descriptor once; the buffer of an
    interrupted read goes into the next one. *)
Definition ignoringEINTRIO (req : Z -> list Z -> sysreq) (p : list Z) : prog sysrep :=
  do fd := act ALoadSysfd in
  iterate fuel (fun p =>
    do r := act (ASys (req fd p)) in
    if is_errno r EINTR then Done (inl (rp_buf r)) else Done (inr r)) p.

(** The same for a call that only reads [p]. *)
Definition ignoringEINTRIO_out (req : Z -> sysreq) : prog sysrep :=
  do fd := act ALoadSysfd in
  iterate fuel (fun _ : unit =>
    do r := act (ASys (req fd)) in
    if is_errno r EINTR then Done (inl tt) else Done (inr r)) tt.

(** if err == syscall.EAGAIN && fd.pd.pollable() { if err = fd.pd.wait...; err == nil
    { continue } }: [None] is the continue, otherwise the err left. *)
Definition wait_again (mode : Z) (err : option perror) : prog (option (option perror)) :=
  if bool_decide (err = Some (EErrno EAGAIN)) then
    do c := pollable in
    if (c : bool) then
      do w := wait mode in
      match w with None => Done None | Some e => Done (Some (Some e)) end
    else Done (Some err)
  else Done (Some err).

Definition maxRW : Z := 2 ^ 30.
Definition eofError (n : Z) (err : option perror) : option perror :=
  if (n =? 0) && bool_decide (err = None) && ZeroReadIsEOF at_ then Some EOF else err.

(** p[:maxRW] of a stream, and what is left of p. *)
Definition clip (p : list Z) : list Z :=
  if IsStream at_ && (maxRW <? Z.of_nat (length p)) then take (Z.to_nat maxRW) p else p.
Definition unclipped (p : list Z) : list Z := drop (length (clip p)) p.

(** ** Reading *)
Definition Read (p : list Z) : prog (Z * option perror * list Z) :=
  with_lock true (fun err => (0, Some err, p)) (
    if (length p =? 0)%nat then Done (0, None, p) else
    do err := prepare mode_r in
    match err with
    | Some err => Done (0, Some err, p)
    | None =>
      iterate fuel (fun q =>
        do r := ignoringEINTRIO SRead q in
        do w := wait_again mode_r (errno r) in
        match w with
        | None => Done (inl (rp_buf r))
        | Some err =>
          let n := if bool_decide (rp_err r = None) then rp_n r else 0 in
          Done (inr (n, eofError n err, rp_buf r ++ unclipped p))
        end) (clip p)
    end).

Definition Pread (p : list Z) (off : Z) : prog (Z * option perror * list Z) :=
  do err := FD_incref in
  match err with
  | Some err => Done (0, Some err, p)
  | None =>
    do r := ignoringEINTR (fun fd => SPread fd (clip p) off) in
    let n := if bool_decide (rp_err r = None) then rp_n r else 0 in
    FD_decref ;;
    Done (n, eofError n (errno r), rp_buf r ++ unclipped p)
  end.

(** ReadFrom and its two variants, which differ in how they decode the address. *)
Definition ReadFrom (p : list Z) : prog (Z * option Sockaddr * option perror) :=
  with_lock true (fun err => (0, None, Some err)) (
    do err := prepare mode_r in
    match err with
    | Some err => Done (0, None, Some err)
    | None =>
      iterate fuel (fun p =>
        do r := sys (fun fd => SRecvfrom fd p 0) in
        if is_errno r EINTR then Done (inl (rp_buf r)) else
        do w := wait_again mode_r (errno r) in
        match w with
        | None => Done (inl (rp_buf r))
        | Some err =>
          let n := if bool_decide (rp_err r = None) then rp_n r else 0 in
          Done (inr (n, rp_sa r, eofError n err))
        end) p
    end).
Definition ReadFromInet4 := ReadFrom.
Definition ReadFromInet6 := ReadFrom.

(** n, oobn, flags, the address and the error; n is not cleared on an error. *)
Definition ReadMsg (p oob : list Z) (flags : Z) : prog (Z * Z * Z * option Sockaddr * option perror) :=
  with_lock true (fun err => (0, 0, 0, None, Some err)) (
    do err := prepare mode_r in
    match err with
    | Some err => Done (0, 0, 0, None, Some err)
    | None =>
      iterate fuel (fun p =>
        do r := sys (fun fd => SRecvmsg fd p oob flags) in
        if is_errno r EINTR then Done (inl (rp_buf r)) else
        do w := wait_again mode_r (errno r) in
        match w with
        | None => Done (inl (rp_buf r))
        | Some err => Done (inr (rp_n r, rp_oobn r, rp_flags r, rp_sa r, eofError (rp_n r) err))
        end) p
    end).
Definition ReadMsgInet4 := ReadMsg.
Definition ReadMsgInet6 := ReadMsg.

(** ** Writing *)
Definition slice (p : list Z) (i j : Z) : list Z := take (Z.to_nat (j - i)) (drop (Z.to_nat i) p).

(** The end of the next chunk. *)
Definition chunk_end (p : list Z) (nn : Z) : Z :=
  let max := Z.of_nat (length p) in
  if IsStream at_ && (maxRW <? max - nn) then nn + maxRW else max.

(** The panics: Write's own, and that of [p[nn:max]]. *)
Definition invalid_return (got asked : Z) : string :=
  ("invalid return from write: got " ++ Itoa got ++ " from a write of " ++ Itoa asked)%string.
Definition slice_bounds (nn max : Z) : string :=
  ("runtime error: slice bounds out of range [" ++ Itoa nn ++ ":" ++ Itoa max ++ "]")%string.

(** One turn of Write's loop, [nn] bytes written. *)
Definition Write_turn (p : list Z) (nn : Z) : prog (Z + Z * option perror) :=
  let max := chunk_end p nn in
  do r := ignoringEINTRIO_out (fun fd => SWrite fd (slice p nn max)) in
  let n := rp_n r in
  if (0 <? n) && (max - nn <? n) then
    do x := act (APanic (invalid_return n (max - nn))) in match x with end
  else
  let nn := if 0 <? n then nn + n else nn in
  if nn =? Z.of_nat (length p) then Done (inr (nn, errno r)) else
  do w := wait_again mode_w (errno r) in
  match w with
  | None => Done (inl nn)
  | Some (Some err) => Done (inr (nn, Some err))
  | Some None => if n =? 0 then Done (inr (nn, Some ErrUnexpectedEOF)) else Done (inl nn)
  end.

Definition Write (p : list Z) : prog (Z * option perror) :=
  with_lock false (fun err => (0, Some err)) (
    do err := prepare mode_w in
    match err with
    | Some err => Done (0, Some err)
    | None => iterate fuel (Write_turn p) 0
    end).

(** Pwrite's loop does not check the count as Write's does: with more than was asked for,
    the next turn slices out of range.  (The sum would leave the range of int only then,
    and a negative [nn] panics as well.) *)
Definition Pwrite_turn (p : list Z) (off : Z) (nn : Z) : prog (Z + Z * option perror) :=
  let max := chunk_end p nn in
  if max <? nn then do x := act (APanic (slice_bounds nn max)) in match x with end else
  do r := sys (fun fd => SPwrite fd (slice p nn max) (i64 (off + nn))) in
  if is_errno r EINTR then Done (inl nn) else
  let n := rp_n r in
  let nn := if 0 <? n then nn + n else nn in
  if nn =? Z.of_nat (length p) then Done (inr (nn, errno r)) else
  match errno r with
  | Some err => Done (inr (nn, Some err))
  | None => if n =? 0 then Done (inr (nn, Some ErrUnexpectedEOF)) else Done (inl nn)
  end.

Definition Pwrite (p : list Z) (off : Z) : prog (Z * option perror) :=
  with_ref (fun err => (0, Some err)) (iterate fuel (Pwrite_turn p off) 0).

(** WriteTo and its two variants. *)
Definition WriteTo (p : list Z) (sa : Sockaddr) : prog (Z * option perror) :=
  with_lock false (fun err => (0, Some err)) (
    do err := prepare mode_w in
    match err with
    | Some err => Done (0, Some err)
    | None =>
      iterate fuel (fun _ : unit =>
        do r := sys (fun fd => SSendto fd p 0 sa) in
        if is_errno r EINTR then Done (inl tt) else
        do w := wait_again mode_w (errno r) in
        match w with
        | None => Done (inl tt)
        | Some (Some err) => Done (inr (0, Some err))
        | Some None => Done (inr (Z.of_nat (length p), None))
        end) tt
    end).
Definition WriteToInet4 := WriteTo.
Definition WriteToInet6 := WriteTo.

Definition WriteMsg (p oob : list Z) (sa : Sockaddr) : prog (Z * Z * option perror) :=
  with_lock false (fun err => (0, 0, Some err)) (
    do err := prepare mode_w in
    match err with
    | Some err => Done (0, 0, Some err)
    | None =>
      iterate fuel (fun _ : unit =>
        do r := sys (fun fd => SSendmsgN fd p oob sa 0) in
        if is_errno r EINTR then Done (inl tt) else
        do w := wait_again mode_w (errno r) in
        match w with
        | None => Done (inl tt)
        | Some (Some err) => Done (inr (rp_n r, 0, Some err))
        | Some None => Done (inr (rp_n r, Z.of_nat (length oob), None))
        end) tt
    end).
Definition WriteMsgInet4 := WriteMsg.
Definition WriteMsgInet6 := WriteMsg.

(** ** writev.go *)
Definition maxVec : nat := 1024.

(** The chunks of one writev: at most [k], empty ones skipped, a chunk too long for a
    stream cut and ending the list. *)
Fixpoint gather (k : nat) (v : list (list Z)) : list (list Z) :=
  match v with
  | [] => []
  | chunk :: v =>
    match k with
    | O => []
    | S k' =>
      if (length chunk =? 0)%nat then gather k v
      else if IsStream at_ && (2 ^ 30 <? Z.of_nat (length chunk)) then [take (Z.to_nat (2 ^ 30)) chunk]
      else chunk :: gather k' v
    end
  end.

(** fd.go *)
Fixpoint consume (v : list (list Z)) (n : Z) : list (list Z) :=
  match v with
  | [] => []
  | c :: v => let ln0 := Z.of_nat (length c) in
              if n <? ln0 then drop (Z.to_nat n) c :: v else consume v (n - ln0)
  end.

(** The count, the error and the chunks left in *v. *)
Definition Writev (v : list (list Z)) : prog (Z * option perror * list (list Z)) :=
  with_lock false (fun err => (0, Some err, v)) (
    do err := prepare mode_w in
    match err with
    | Some err => Done (0, Some err, v)
    | None =>
      iterate fuel (fun '(v, n, err) =>
        if (length v =? 0)%nat then Done (inr (n, err, v)) else
        let iovecs := gather maxVec v in
        if (length iovecs =? 0)%nat then Done (inr (n, err, v)) else
        do r := sys (fun fd => SWritev fd iovecs) in
        let wrote := if rp_n r =? -1 then 0 else rp_n r in
        let n := n + wrote in
        let v := consume v wrote in
        match errno r with
        | Some e =>
          if is_errno r EINTR then Done (inl (v, n, Some e)) else
          if is_errno r EAGAIN then
            do w := wait mode_w in
            match w with
            | None => Done (inl (v, n, None))
            | Some e => Done (inr (n, Some e, v))
            end
          else Done (inr (n, Some e, v))
        | None => if n =? 0 then Done (inr (n, Some ErrUnexpectedEOF, v)) else Done (inl (v, n, None))
        end) (v, 0, None)
    end).

(** ** Accepting, sys_cloexec.go *)
Definition accept : prog (Z * option Sockaddr * string * option perror) :=
  do r := sys SAccept in
  (match rp_err r with
   | None => act (ASys (SCloseOnExec (rp_n r))) ;; Done tt
   | Some _ => Done tt
   end) ;;
  match errno r with
  | Some err => Done (-1, None, "accept"%string, Some err)
  | None =>
    do r1 := act (ASys (SSetNonblock (rp_n r) true)) in
    match errno r1 with
    | Some err => act (ASys (SClose (rp_n r))) ;; Done (-1, None, "setnonblock"%string, Some err)
    | None => Done (rp_n r, rp_sa r, ""%string, None)
    end
  end.

Definition Accept : prog (Z * option Sockaddr * string * option perror) :=
  with_lock true (fun err => (-1, None, ""%string, Some err)) (
    do err := prepare mode_r in
    match err with
    | Some err => Done (-1, None, ""%string, Some err)
    | None =>
      iterate fuel (fun _ : unit =>
        do (s, rsa, errcall, err) := accept in
        if bool_decide (err = None) then Done (inr (s, rsa, ""%string, None)) else
        if bool_decide (err = Some (EErrno EINTR)) then Done (inl tt) else
        if bool_decide (err = Some (EErrno ECONNABORTED)) then Done (inl tt) else
        do w := wait_again mode_r err in
        match w with
        | None => Done (inl tt)
        | Some err => Done (inr (-1, None, errcall, err))
        end) tt
    end).

(** ** One call under a reference *)
Definition plain (req : Z -> sysreq) : prog (option perror) :=
  with_ref Some (do r := sys req in Done (errno r)).
Definition plain_retried (req : Z -> sysreq) : prog (option perror) :=
  with_ref Some (do r := ignoringEINTR req in Done (errno r)).

Definition Fchmod (mode : Z) := plain_retried (fun fd => SFchmod fd mode).
Definition Fchown (uid gid : Z) := plain_retried (fun fd => SFchown fd uid gid).
Definition Ftruncate (size : Z) := plain_retried (fun fd => SFtruncate fd size).
Definition Fsync := plain_retried SFsync.
Definition Fstat : prog (option perror * list Z) :=
  with_ref (fun err => (Some err, [])) (do r := ignoringEINTR SFstat in Done (errno r, rp_buf r)).
Definition Shutdown (how : Z) := plain (fun fd => SShutdown fd how).
Definition Fchdir := plain SFchdir.
Definition Setsockopt (level name : Z) (arg : list Z) := plain (fun fd => SSetsockopt fd level name arg).
Definition GetsockoptInt (level name : Z) : prog (Z * option perror) :=
  with_ref (fun err => (-1, Some err)) (
    do r := sys (fun fd => SGetsockoptInt fd level name) in Done (rp_n r, errno r)).
Definition Seek (offset whence : Z) : prog (Z * option perror) :=
  with_ref (fun err => (0, Some err)) (
    do r := sys (fun fd => SSeek fd offset whence) in Done (rp_n r, errno r)).
Definition RawControl : prog (option perror) :=
  with_ref Some (do _ := sys SUser in Done None).

Definition ReadDirent (buf : list Z) : prog (Z * option perror * list Z) :=
  with_ref (fun err => (0, Some err, buf)) (
    iterate fuel (fun buf =>
      do r := ignoringEINTRIO SReadDirent buf in
      do w := wait_again mode_r (errno r) in
      match w with
      | None => Done (inl (rp_buf r))
      | Some err => Done (inr (if bool_decide (rp_err r = None) then rp_n r else 0, err, rp_buf r))
      end) buf).

(** syscall.F_DUPFD_CLOEXEC is 0, so DupCloseOnExec takes the two calls of
    dupCloseOnExecOld; syscall.ForkLock, read-locked around them, is SyscallProc's. *)
Definition dupCloseOnExecOld : prog (Z * string * option perror) :=
  do r := sys SDup in
  match errno r with
  | Some err => Done (-1, "dup"%string, Some err)
  | None => act (ASys (SCloseOnExec (rp_n r))) ;; Done (rp_n r, ""%string, None)
  end.
Definition DupCloseOnExec := dupCloseOnExecOld.
Definition Dup : prog (Z * string * option perror) :=
  with_ref (fun err => (-1, ""%string, Some err)) DupCloseOnExec.

Definition raw (read : bool) (mode : Z) : prog (option perror) :=
  with_lock read Some (
    do err := prepare mode in
    match err with
    | Some err => Done (Some err)
    | None =>
      iterate fuel (fun _ : unit =>
        do r := sys SUser in
        if negb (rp_n r =? 0) then Done (inr None) else
        do err := wait mode in
        match err with Some err => Done (inr (Some err)) | None => Done (inl tt) end) tt
    end).
Definition RawRead := raw true mode_r.
Definition RawWrite := raw false mode_w.

Definition WriteOnce (p : list Z) : prog (Z * option perror) :=
  with_lock false (fun err => (0, Some err)) (
    do r := ignoringEINTRIO_out (fun fd => SWrite fd p) in Done (rp_n r, errno r)).

(** Only for a goroutine that nobody else can meet on the descriptor (a connect): it
    takes no lock. *)
Definition WaitWrite : prog (option perror) := wait mode_w.

(** ** Deadlines: [until] is time.Until(t), absent for the zero time. *)
Definition deadline_arg (until : option Z) : Z :=
  match until with None => 0 | Some d => if d =? 0 then -1 else d end.

Definition setDeadlineImpl (until : option Z) (mode : Z) : prog (option perror) :=
  with_ref Some (
    do ctx := act ALoadCtx in
    if negb ctx then Done (Some ErrNoDeadline)
    else act (ASetDeadline (deadline_arg until) mode) ;; Done None).
Definition SetDeadline (t : option Z) := setDeadlineImpl t mode_rw.
Definition SetReadDeadline (t : option Z) := setDeadlineImpl t mode_r.
Definition SetWriteDeadline (t : option Z) := setDeadlineImpl t mode_w.
End poll.

(** ** Init

    fd.pd.init asked the runtime to watch the descriptor and got [errno]; the results
    are [isFile], whether [pd.runtimeCtx] is set, [isBlocking] and the error. *)
Definition Init (net : string) (pollable : bool) (errno : Z) : bool * bool * bool * option perror :=
  let isFile := bool_decide (net = "file"%string) in
  if negb pollable then (isFile, false, true, None)
  else if negb (errno =? 0) then (isFile, false, true, Some (EErrno errno))
  else (isFile, true, false, None).
