(* ===== verification/FdLogic.v ===== *)
(** * FdLogic: what a goroutine holds of a descriptor

    The protocol of internal/poll/fd_mutex.go, goroutine by goroutine: a goroutine may
    use the descriptor while it holds a reference or a lock, waits in the poller only
    under the lock of its mode, unblocks the poller once, when its own close succeeded,
    and takes the descriptor apart only when its release was the last one, step by
    step in the order of [destroy].  [holds] is what one goroutine has; the [Ghost]
    instance says what it may do next and what it has afterwards.  Every operation of
    FdIO.v keeps to it and gives everything back. *)
From Stdlib Require Import ZArith Lia List Bool String.
From stdpp Require Import base list strings numbers tactics option.
From S2P Require Import Prelude Syscall SyscallSock Netpoll FdMutex FdProg FdIO.

(** Waiting for a lock: asleep on its semaphore, or woken and about to try again. *)
Inductive waits : Type := NotWaiting | Asleep (read : bool) | Woken (read : bool).

(** Waiting in the poller: [Blocked] after netpollblock's first loop, [Checked] when it
    then found no error, [Parked] once the goroutine is in the semaphore word, [Back]
    when it runs again. *)
Inductive phase : Type := NoWait | Blocked | Checked | Parked | Back.

(** Taking the descriptor apart. *)
Inductive dying : Type := NotDying | Last | Retired | Unset | ClosedFd | ClearedFd.

#[export] Instance waits_eq_dec : EqDecision waits.
Proof. solve_decision. Defined.
#[export] Instance phase_eq_dec : EqDecision phase.
Proof. solve_decision. Defined.
#[export] Instance dying_eq_dec : EqDecision dying.
Proof. solve_decision. Defined.

(** [h_won]: its Close was the one that closed; [h_gone]: it has seen the descriptor
    closed, through csema. *)
Record holds : Type := mkHolds {
  h_misc : Z; h_r : bool; h_w : bool; h_waits : waits; h_wr : phase; h_ww : phase;
  h_closer : bool; h_dying : dying; h_won : bool; h_gone : bool }.

Definition h0 : holds := mkHolds 0 false false NotWaiting NoWait NoWait false NotDying false false.

Definition set_misc n h := mkHolds n (h_r h) (h_w h) (h_waits h) (h_wr h) (h_ww h) (h_closer h) (h_dying h) (h_won h) (h_gone h).
Definition set_waits x h := mkHolds (h_misc h) (h_r h) (h_w h) x (h_wr h) (h_ww h) (h_closer h) (h_dying h) (h_won h) (h_gone h).
Definition set_closer x h := mkHolds (h_misc h) (h_r h) (h_w h) (h_waits h) (h_wr h) (h_ww h) x (h_dying h) (h_won h) (h_gone h).
Definition set_dying x h := mkHolds (h_misc h) (h_r h) (h_w h) (h_waits h) (h_wr h) (h_ww h) (h_closer h) x (h_won h) (h_gone h).
Definition set_won x h := mkHolds (h_misc h) (h_r h) (h_w h) (h_waits h) (h_wr h) (h_ww h) (h_closer h) (h_dying h) x (h_gone h).
Definition set_gone x h := mkHolds (h_misc h) (h_r h) (h_w h) (h_waits h) (h_wr h) (h_ww h) (h_closer h) (h_dying h) (h_won h) x.
Definition set_lock (read b : bool) h :=
  if read then mkHolds (h_misc h) b (h_w h) (h_waits h) (h_wr h) (h_ww h) (h_closer h) (h_dying h) (h_won h) (h_gone h)
  else mkHolds (h_misc h) (h_r h) b (h_waits h) (h_wr h) (h_ww h) (h_closer h) (h_dying h) (h_won h) (h_gone h).
Definition set_phase (read : bool) x h :=
  if read then mkHolds (h_misc h) (h_r h) (h_w h) (h_waits h) x (h_ww h) (h_closer h) (h_dying h) (h_won h) (h_gone h)
  else mkHolds (h_misc h) (h_r h) (h_w h) (h_waits h) (h_wr h) x (h_closer h) (h_dying h) (h_won h) (h_gone h).

Definition lock_of (read : bool) (h : holds) : bool := if read then h_r h else h_w h.
Definition phase_of (read : bool) (h : holds) : phase := if read then h_wr h else h_ww h.

Definition asleep_for (read : bool) (h : holds) : bool :=
  match h_waits h with Asleep r => Bool.eqb r read | _ => false end.
Definition woken_for (read : bool) (h : holds) : bool :=
  match h_waits h with Woken r => Bool.eqb r read | _ => false end.

(** It keeps the descriptor alive. *)
Definition attached (h : holds) : bool := (0 <? h_misc h) || h_r h || h_w h.

(** The side of the mutex that serializes a poller mode. *)
Definition side_of_mode (mode : Z) : option bool :=
  if mode =? mode_r then Some true else if mode =? mode_w then Some false else None.

(** The runtime context is there to be used. *)
Definition ctx_usable (pollable : bool) (h : holds) : Prop := pollable = true /\ attached h = true.

(** Its goroutine holds the lock of the mode, and is at [ph] of a wait in it. *)
Definition in_mode (mode : Z) (ph : phase) (h : holds) : Prop :=
  match side_of_mode mode with
  | Some read => lock_of read h = true /\ phase_of read h = ph
  | None => False
  end.
Definition to_phase (mode : Z) (ph : phase) (h : holds) : holds :=
  match side_of_mode mode with Some read => set_phase read ph h | None => h end.

Definition is_blocked (mode : Z) (h : holds) : bool :=
  match side_of_mode mode with Some read => bool_decide (phase_of read h = Blocked) | None => false end.

(** ** The kernel

    What the kernel may answer a call is a relation.  The laws a development with
    goroutines relies on: accept and dup give a descriptor that was not open before, a
    read of a directory does not report EAGAIN (ReadDirent would wait in the poller
    without the read lock), and every call is answered somehow.  No law bounds the count
    a write reports. *)
Class Kernel : Type := kernel_answers : sysreq -> sysrep -> Prop.

Class KernelLaws `{KN : Kernel} : Prop := {
  kernel_accept : forall fd rep, kernel_answers (SAccept fd) rep -> rp_err rep = None -> 0 <= rp_n rep /\ rp_n rep <> fd;
  kernel_dup : forall fd rep, kernel_answers (SDup fd) rep -> rp_err rep = None -> 0 <= rp_n rep /\ rp_n rep <> fd;
  kernel_dir : forall fd p rep, kernel_answers (SReadDirent fd p) rep -> rp_err rep <> Some EAGAIN;
  kernel_some : forall r, exists rep, kernel_answers r rep;
}.

Section logic.
(** [fd0] is the descriptor, [pollable] whether the runtime watches it. *)
Context `{KN : Kernel} (fd0 : Z) (pollable : bool).

(** The panics of Write and Pwrite, and when they are due: the kernel said it wrote more
    than it was given. *)
Definition write_panic (msg : string) : Prop :=
  (exists fd q rep, kernel_answers (SWrite fd q) rep /\ Z.of_nat (length q) < rp_n rep /\
     msg = invalid_return (rp_n rep) (Z.of_nat (length q))) \/
  (exists fd q off rep nn max, kernel_answers (SPwrite fd q off) rep /\ Z.of_nat (length q) < rp_n rep /\
     msg = slice_bounds nn max).

(** The system calls a goroutine may make: on the descriptor while it keeps it alive,
    its close when it takes it apart, anything on another. *)
Definition sys_allowed (r : sysreq) (h : holds) : Prop :=
  match r with
  | SClose fd =>
    if fd =? fd0 then h_dying h = (if pollable then Unset else Last) else fd <> -1
  | _ => if req_fd r =? fd0 then attached h = true else req_fd r <> -1
  end.

Definition fd_allowed (a : action) (h : holds) : Prop :=
  match a with
  | AMutex OpIncref => h_waits h = NotWaiting
  | AMutex OpIncrefAndClose => h_waits h = NotWaiting /\ h_closer h = false
  | AMutex OpDecref => h_waits h = NotWaiting /\ 0 < h_misc h /\ (h_closer h = true -> pollable = false) /\ h_dying h = NotDying
  | AMutex (OpRwlock read) => (h_waits h = NotWaiting \/ h_waits h = Woken read) /\ lock_of read h = false
  | AMutex (OpRwunlock read) =>
    h_waits h = NotWaiting /\ lock_of read h = true /\ phase_of read h = NoWait /\ h_dying h = NotDying
  | ASemacquire read => h = set_waits (Asleep read) h0
  | ALoadSysfd | ALoadCtx | ALoadBlocking | AStoreBlocking => True
  | ACsemAcquire => h = set_won true h0
  | AClearSysfd => h_dying h = ClosedFd
  | ACsemRelease => h_dying h = ClearedFd
  | AClearCtx => h_dying h = Retired
  | ACheckErr mode => ctx_usable pollable h /\ is_Some (side_of_mode mode)
  | AClearSem mode => ctx_usable pollable h /\ in_mode mode NoWait h
  | ABlock mode => ctx_usable pollable h /\ in_mode mode NoWait h
  | ACommit mode => ctx_usable pollable h /\ in_mode mode Checked h
  | AResume mode => ctx_usable pollable h /\ in_mode mode Parked h
  | ATake mode => ctx_usable pollable h /\ (in_mode mode Blocked h \/ in_mode mode Checked h \/ in_mode mode Back h)
  | AUnblock => ctx_usable pollable h /\ h_closer h = true
  | APollClose => pollable = true /\ h_dying h = Last
  | ASetDeadline _ mode => ctx_usable pollable h /\ (mode = mode_r \/ mode = mode_w \/ mode = mode_rw)
  | ASys r => sys_allowed r h
  | APanic msg => write_panic msg
  end.

(** The answers a goroutine can get, by what it holds. *)
Definition fd_possible (a : action) : result a -> holds -> Prop :=
  match a with
  | AMutex o => fun r h => match o with OpRwlock _ => True | _ => is_Some r end
  | ALoadSysfd => fun fd h => (attached h = true \/ h_dying h = Last \/ h_dying h = Retired \/ h_dying h = Unset) -> fd = fd0
  | ALoadCtx => fun c h => ((attached h = true \/ h_dying h = Last) -> c = pollable)
  | ACheckErr _ => fun r _ => 0 <= r <= 3
  | ATake _ => fun r _ => r = pdNil \/ r = pdReady \/ r = pdWait
  | ASys r => fun rep _ => kernel_answers r rep
  | _ => fun _ _ => True
  end.

Definition fd_grant (a : action) : result a -> holds -> holds :=
  match a with
  | AMutex OpIncref => fun r h => if default false r then set_misc (h_misc h + 1) h else h
  | AMutex OpIncrefAndClose => fun r h => if default false r then set_won true (set_closer true (set_misc (h_misc h + 1) h)) else h
  | AMutex OpDecref => fun r h =>
      let h := set_closer false (set_misc (h_misc h - 1) h) in if default false r then set_dying Last h else h
  | AMutex (OpRwlock read) => fun r h =>
      match r with
      | Some ok => set_waits NotWaiting (set_lock read ok h)
      | None => set_waits (Asleep read) h
      end
  | AMutex (OpRwunlock read) => fun r h =>
      let h := set_lock read false h in if default false r then set_dying Last h else h
  | ASemacquire read => fun _ h => set_waits (Woken read) h
  | AClearSysfd => fun _ h => set_dying ClearedFd h
  | ACsemRelease => fun _ h => set_dying NotDying h
  | AClearCtx => fun _ h => set_dying Unset h
  | ACsemAcquire => fun _ h => set_gone true h
  | ACheckErr mode => fun r h => if (r =? pollNoError) && is_blocked mode h then to_phase mode Checked h else h
  | ABlock mode => fun consumed h => if consumed : bool then h else to_phase mode Blocked h
  | ACommit mode => fun parked h => if parked : bool then to_phase mode Parked h else h
  | AResume mode => fun _ h => to_phase mode Back h
  | ATake mode => fun _ h => to_phase mode NoWait h
  | AUnblock => fun _ h => set_closer false h
  | APollClose => fun _ h => set_dying Retired h
  | ASys (SClose fd) => fun _ h => if fd =? fd0 then set_dying ClosedFd h else h
  | _ => fun _ h => h
  end.

#[export] Instance fd_ghost : Ghost holds := {|
  allowed := fd_allowed; possible := fd_possible; grant := fd_grant |}.

(** [p] takes nothing it does not give back. *)
Definition keeps {A} (h : holds) (p : prog A) : Prop := runs p (fun o h' => is_Some o -> h' = h) h.

Lemma keeps_done {A} h (x : A) : keeps h (Done x).
Proof. done. Qed.

Lemma keeps_pbind {A B} h (p : prog A) (k : A -> prog B) :
  keeps h p -> (forall x, keeps h (k x)) -> keeps h (pbind p k).
Proof.
  intros Hp Hk. apply runs_bind. eapply runs_mono; [exact Hp|].
  intros [x|] h' H; cbn; [rewrite H by eauto; apply Hk|by intros []].
Qed.

Lemma keeps_act h a : allowed a h -> (forall r, possible a r h -> grant a r h = h) -> keeps h (act a).
Proof. intros Ha Hg. apply runs_act; [done|]. intros r Hr _. by apply Hg. Qed.

Lemma keeps_iterate {S A} h fuel (body : S -> prog (S + A)) s :
  (forall s, keeps h (body s)) -> keeps h (iterate fuel body s).
Proof.
  intros Hb. apply (runs_iterate _ (fun _ _ h' => h' = h)); [done| |by intros ? ? ? []].
  intros n s' h' ->. eapply runs_mono; [apply Hb|]. intros [[|]|] h' H; [by apply H; eauto|intros _; by apply H; eauto|by intros []].
Qed.
End logic.

Create HintDb keeps.
#[export] Hint Resolve keeps_done : keeps.

(** The next steps of a program that takes nothing. *)
Ltac keep :=
  repeat (cbv zeta; lazymatch goal with
  | |- keeps _ _ _ (Done _) => apply keeps_done
  | |- keeps _ _ _ (iterate _ _ _) => apply keeps_iterate; intros ?
  | |- keeps _ _ _ (pbind _ _) => apply keeps_pbind; [|intros ?]
  | |- keeps _ _ _ (match _ with _ => _ end) => case_match
  | |- keeps _ _ _ _ => solve [eauto with keeps]
  end).

Section operations.
Context `{KN : Kernel} `{KL : !KernelLaws} (fd0 : Z) (pollable : bool) (at_ : attrs) (fuel : nat).
#[local] Existing Instance fd_ghost.
Local Abbreviation keeps := (keeps fd0 pollable).
Local Abbreviation runs := (@runs holds (fd_ghost fd0 pollable) _).

Implicit Types h : holds.

(** A call on the descriptor that is not its close. *)
Definition on_fd (req : Z -> sysreq) : Prop :=
  forall fd, req_fd (req fd) = fd /\ match req fd with SClose _ => False | _ => True end.

Lemma sys_used r h : req_fd r = fd0 -> match r with SClose _ => False | _ => True end -> attached h = true ->
  sys_allowed fd0 pollable r h /\ forall rep, fd_grant fd0 (ASys r) rep h = h.
Proof. intros Hr Hc Ha. destruct r; try done; cbn in *; by rewrite Hr, Z.eqb_refl. Qed.

Lemma sys_other r h : req_fd r <> fd0 -> req_fd r <> -1 ->
  sys_allowed fd0 pollable r h /\ forall rep, fd_grant fd0 (ASys r) rep h = h.
Proof. intros H1 H2. apply Z.eqb_neq in H1. destruct r; cbn in *; by rewrite H1. Qed.

Lemma keeps_run_call r h : req_fd r = fd0 -> match r with SClose _ => False | _ => True end -> attached h = true ->
  keeps h (act (ASys r)).
Proof. intros Hr Hc Ha. destruct (sys_used r h Hr Hc Ha) as [H1 H2]. apply keeps_act; [done|]. intros. apply H2. Qed.

Lemma keeps_with_fd {A} h (k : Z -> prog A) : attached h = true -> keeps h (k fd0) ->
  keeps h (pbind (act ALoadSysfd) k).
Proof. intros Ha Hk. split; [done|]. intros fd Hfd. cbn in Hfd. rewrite Hfd by eauto. exact Hk. Qed.

Lemma keeps_sys req h : on_fd req -> attached h = true -> keeps h (sys req).
Proof. intros Hr Ha. apply keeps_with_fd; [done|]. destruct (Hr fd0). by apply keeps_run_call. Qed.

Lemma keeps_ignoringEINTR req h : on_fd req -> attached h = true -> keeps h (ignoringEINTR fuel req).
Proof. intros. unfold ignoringEINTR. keep. by apply keeps_sys. Qed.

Lemma keeps_ignoringEINTRIO req p h : (forall p, on_fd (fun fd => req fd p)) -> attached h = true ->
  keeps h (ignoringEINTRIO fuel req p).
Proof. intros Hr Ha. apply keeps_with_fd; [done|]. keep. destruct (Hr s fd0). by apply keeps_run_call. Qed.

Lemma keeps_ignoringEINTRIO_out req h : on_fd req -> attached h = true -> keeps h (ignoringEINTRIO_out fuel req).
Proof. intros Hr Ha. apply keeps_with_fd; [done|]. keep. destruct (Hr fd0). by apply keeps_run_call. Qed.

(** ** The poller *)
Definition free_in (mode : Z) h : Prop := in_mode mode NoWait h.

Lemma keeps_convertErr res h : 0 <= res <= 3 -> keeps h (convertErr at_ res).
Proof.
  intros Hr. unfold convertErr, pollNoError, pollErrClosing, pollErrTimeout, pollErrNotPollable. keep.
  repeat match goal with E : (_ =? _) = false |- _ => apply Z.eqb_neq in E end. lia.
Qed.

Lemma to_phase_back mode ph h : free_in mode h -> to_phase mode NoWait (to_phase mode ph h) = h.
Proof.
  unfold free_in, in_mode, to_phase. destruct (side_of_mode mode) as [[]|]; [| |done]; destruct h; cbn; by intros [_ ->].
Qed.
Lemma to_phase_twice mode p1 p2 h : to_phase mode p1 (to_phase mode p2 h) = to_phase mode p1 h.
Proof. unfold to_phase. by destruct (side_of_mode mode) as [[]|]. Qed.
Lemma to_phase_in mode ph ph' h : in_mode mode ph' h -> in_mode mode ph (to_phase mode ph h).
Proof. unfold in_mode, to_phase. by destruct (side_of_mode mode) as [[]|]; cbn; [intros [-> _]..|]. Qed.
Lemma to_phase_attached mode ph h : attached (to_phase mode ph h) = attached h.
Proof. unfold to_phase. by destruct (side_of_mode mode) as [[]|]. Qed.

Lemma in_mode_side mode ph h : in_mode mode ph h -> is_Some (side_of_mode mode).
Proof. unfold in_mode. destruct (side_of_mode mode); [eauto|done]. Qed.

Lemma blocked_is mode h : is_Some (side_of_mode mode) -> is_blocked mode (to_phase mode Blocked h) = true.
Proof. unfold is_blocked, to_phase. destruct (side_of_mode mode) as [[]|]; [done..|]. by intros []. Qed.
Lemma free_not_blocked mode h : free_in mode h -> is_blocked mode h = false.
Proof.
  unfold free_in, in_mode, is_blocked. destruct (side_of_mode mode); [|done]. intros [_ ->]. done.
Qed.

Lemma keeps_netpollblock mode h : free_in mode h -> ctx_usable pollable h -> keeps h (Rt.netpollblock mode).
Proof.
  intros Hm [Hp Ha]. pose proof (in_mode_side _ _ _ Hm).
  assert (forall ph, ctx_usable pollable (to_phase mode ph h)) as Hu by (intros; split; [done|by rewrite to_phase_attached]).
  assert (forall ph, in_mode mode ph (to_phase mode ph h)) as Hi by (intros; by eapply to_phase_in).
  split; [done|]. intros [] _; cbn; [done|]. split; [done|]. intros err _. rewrite blocked_is by done.
  rewrite andb_true_r, to_phase_twice. apply runs_bind.
  apply (runs_mono _ (fun _ h' => exists ph, (ph = Blocked \/ ph = Checked \/ ph = Back) /\ h' = to_phase mode ph h)).
  - destruct (err =? pollNoError); [|cbn; eauto]. cbn. split; [done|]. intros [] _; [|cbn; eauto].
    cbn. rewrite to_phase_twice. split; [done|]. intros _ _. rewrite to_phase_twice. eauto.
  - intros [[]|] h' (ph & Hph & ->); [|by intros []]. cbn.
    split; [split; [done|destruct Hph as [-> |[-> | ->]]; auto]|].
    intros old Hold. rewrite to_phase_back by done.
    unfold pdNil, pdReady, pdWait in *. destruct (Z.ltb_spec 2 old); [lia|done].
Qed.

(** [rwmode]: the mode of the lock it holds, outside any wait. *)
Definition rwmode (mode : Z) h : Prop := free_in mode h /\ attached h = true.

Lemma rwmode_usable mode h : pollable = true -> rwmode mode h ->
  ctx_usable pollable h /\ is_Some (side_of_mode mode) /\ free_in mode h.
Proof. intros Hp [Hf Ha]. split_and!; [done| |done]. by eapply in_mode_side. Qed.

(** A value checked against the error codes keeps its range. *)
Definition keeps_code h (p : prog Z) : Prop :=
  runs p (fun o h' => forall x, o = Some x -> h' = h /\ 0 <= x <= 3) h.

Lemma keeps_code_convert p h : keeps_code h p -> keeps h (pbind p (fun res => convertErr at_ res)).
Proof.
  intros Hp. apply runs_bind. eapply runs_mono; [exact Hp|]. intros [x|] h' H; [|by intros []].
  destruct (H x eq_refl) as [-> ?]. by apply keeps_convertErr.
Qed.

Lemma pollReset_code mode h : pollable = true -> rwmode mode h -> keeps_code h (Rt.pollReset mode).
Proof.
  intros Hp Hm. destruct (rwmode_usable _ _ Hp Hm) as (Hu & Hs & Hf).
  split; [done|]. intros err Herr. cbn. rewrite free_not_blocked, andb_false_r by done. unfold pollNoError.
  destruct (Z.eqb_spec err 0); cbn [negb].
  - split; [done|]. intros r _ x [= <-]. split; [done|lia].
  - intros x [= <-]. done.
Qed.

Lemma pollWait_code mode h : pollable = true -> rwmode mode h -> keeps_code h (Rt.pollWait fuel mode).
Proof.
  intros Hp Hm. destruct (rwmode_usable _ _ Hp Hm) as (Hu & Hs & Hf).
  assert (forall err, fd_grant fd0 (ACheckErr mode) err h = h) as Hsame
    by (intros err; cbn; by rewrite free_not_blocked, andb_false_r).
  apply runs_step; [done|]. intros err Herr. cbn [grant fd_ghost]. rewrite Hsame. unfold pollNoError.
  destruct (Z.eqb_spec err 0); cbn [negb]; [|intros x [= <-]; done].
  apply (runs_iterate _ (fun _ _ h' => h' = h)); [done| |by intros ? ? ? ? [=]].
  intros n [] h' ->. apply runs_bind. eapply runs_mono; [by apply keeps_netpollblock|].
  intros [ok|] h' H; [|intros x [=]]. rewrite H by eauto. cbn [then_runs].
  destruct ok; [intros x [= <-]; split; [done|lia]|].
  apply runs_step; [done|]. intros e1 He1. cbn [grant fd_ghost]. rewrite Hsame. destruct (Z.eqb_spec e1 0); cbn [negb]; [done|]. intros x [= <-]. done.
Qed.

(** A step that asks whether there is a context, with both answers' continuations. *)
Lemma keeps_with_ctx {A} h (k : bool -> prog A) : attached h = true ->
  (forall c, c = pollable -> keeps h (k c)) -> keeps h (pbind (act ALoadCtx) k).
Proof. intros Ha Hk. split; [done|]. intros c Hc. apply Hk, Hc. eauto. Qed.

Lemma keeps_prepare mode h : rwmode mode h -> keeps h (prepare at_ mode).
Proof.
  intros Hm. apply keeps_with_ctx; [apply Hm|]. intros [] Hp; cbn [negb]; [|done].
  apply keeps_code_convert. by apply pollReset_code.
Qed.

Lemma keeps_wait mode h : rwmode mode h -> keeps h (wait at_ fuel mode).
Proof.
  intros Hm. apply keeps_with_ctx; [apply Hm|]. intros [] Hp; cbn [negb]; [|done].
  apply keeps_code_convert. by apply pollWait_code.
Qed.

Lemma keeps_wait_again mode err h : rwmode mode h -> keeps h (wait_again at_ fuel mode err).
Proof.
  intros Hm. unfold wait_again. case_bool_decide; [|done]. unfold FdIO.pollable. apply keeps_with_ctx; [apply Hm|].
  intros [] _; [|done]. apply keeps_pbind; [by apply keeps_wait|by intros [e|]].
Qed.

(** ** Taking and giving back *)

(** What a goroutine that was idle ends with: nothing, but it may have seen the close. *)
Definition idle h : Prop := h = h0 \/ h = set_won true h0 \/ h = set_gone true (set_won true h0).
(** From [h] it always comes to [h']. *)
Definition keeps_from {A} (h h' : holds) (p : prog A) : Prop := runs p (fun o h'' => is_Some o -> h'' = h') h.
Definition gives_back {A} (p : prog A) (h : holds) : Prop := runs p (fun o h' => is_Some o -> idle h') h.

Lemma gives_back_bind {A B} (p : prog A) (k : A -> prog B) h :
  gives_back p h -> (forall x h, idle h -> gives_back (k x) h) -> gives_back (pbind p k) h.
Proof.
  intros Hp Hk. apply runs_bind. eapply runs_mono; [exact Hp|]. intros [x|] h' H; [apply Hk; eauto|by intros []].
Qed.

Lemma keeps_then {A B} (p : prog A) (k : A -> prog B) h :
  keeps h p -> (forall x, gives_back (k x) h) -> gives_back (pbind p k) h.
Proof.
  intros Hp Hk. apply runs_bind. eapply runs_mono; [exact Hp|]. intros [x|] h' H; [rewrite H by eauto; apply Hk|by intros []].
Qed.

Lemma keeps_idle {A} (p : prog A) h : idle h -> keeps h p -> gives_back p h.
Proof. intros Hi Hp. eapply runs_mono; [exact Hp|]. intros o h' H Ho. by rewrite H. Qed.

Lemma destroy_runs won : keeps_from (set_dying Last (set_won won h0)) (set_won won h0) destroy.
Proof.
  unfold keeps_from, destroy, pd_close, sys. cbn. split; [done|]. intros c Hc.
  rewrite (Hc (or_intror eq_refl)). clear Hc.
  pose proof (Z.eqb_refl fd0) as Hfd. destruct pollable eqn:Hp; cbn.
  - split_and!; try done. intros _ _. split; [done|]. intros _ _. split; [done|]. intros fd Hf. rewrite Hf by auto.
    cbn. rewrite Hfd. by repeat (split; [done|]; intros ? _; cbn; rewrite ?Hfd).
  - split; [done|]. intros fd Hf. rewrite Hf by auto. cbn. rewrite Hfd.
    by repeat (split; [done|]; intros ? _; cbn; rewrite ?Hfd).
Qed.

Lemma destroy_back : gives_back destroy (set_dying Last h0).
Proof. eapply runs_mono; [apply (destroy_runs false)|]. intros o h H Ho. left. by apply H. Qed.

Definition hM : holds := set_misc 1 h0.
Definition hL (read : bool) : holds := set_lock read true h0.

Lemma FD_decref_back : gives_back FD_decref hM.
Proof.
  apply runs_step; [done|]. intros [[]|] Hr; [apply destroy_back|by left|by destruct Hr].
Qed.

Lemma FD_unlock_back read : gives_back (FD_unlock read) (hL read).
Proof.
  apply runs_step; [by destruct read|]. intros [[]|] Hr; [|by destruct read; left|by destruct Hr].
  apply gives_back_bind; [|by intros x h Hh _]. destruct read; apply destroy_back.
Qed.

Lemma with_ref_back {A} (fail : perror -> A) body : keeps hM body -> gives_back (with_ref at_ fail body) h0.
Proof.
  intros Hb. apply runs_step; [done|]. intros [[]|] Hr; [|by left|by destruct Hr].
  apply keeps_then; [exact Hb|]. intros x. apply gives_back_bind; [apply FD_decref_back|by intros ? h Hh _].
Qed.

(** The loop that takes a lock: it is held in the end unless the descriptor is closed. *)
Lemma rwlock_runs read :
  runs (rwlock fuel read) (fun o h => forall ok, o = Some ok -> h = if (ok : bool) then hL read else h0) h0.
Proof.
  apply (runs_iterate _ (fun _ _ h => h = h0 \/ h = set_waits (Woken read) h0)); [by left| |by intros ? ? ? ? [=]].
  intros n [] h Hh. apply runs_step; [destruct Hh as [-> | ->], read; cbn; auto|].
  intros [ok|] _; cbn.
  - intros ok' [= <-]. by destruct Hh as [-> | ->], read, ok.
  - split; [by destruct Hh as [-> | ->]|]. intros [] _. right. by destruct Hh as [-> | ->].
Qed.

Lemma with_lock_back {A} read (fail : perror -> A) body :
  keeps (hL read) body -> gives_back (with_lock at_ fuel read fail body) h0.
Proof.
  intros Hb. apply runs_bind. unfold FD_lock. apply runs_bind. eapply runs_mono; [apply rwlock_runs|].
  intros [ok|] h H; [|by intros []]. rewrite (H ok eq_refl). cbn [then_runs]. destruct ok; [|by left].
  apply keeps_then; [exact Hb|]. intros x. apply gives_back_bind; [apply FD_unlock_back|by intros ? h' Hh _].
Qed.

Lemma rwmode_lock (read : bool) : rwmode (if read then mode_r else mode_w) (hL read).
Proof. by destruct read. Qed.

Lemma attached_lock read : attached (hL read) = true.
Proof. by destruct read. Qed.

Lemma rw_r : rwmode mode_r (hL true).
Proof. exact (rwmode_lock true). Qed.
Lemma rw_w : rwmode mode_w (hL false).
Proof. exact (rwmode_lock false). Qed.
Lemma attached_M : attached hM = true.
Proof. done. Qed.

#[local] Hint Resolve keeps_prepare keeps_wait keeps_wait_again keeps_sys keeps_ignoringEINTR keeps_ignoringEINTRIO
  keeps_ignoringEINTRIO_out rw_r rw_w attached_M attached_lock : keeps.
#[local] Hint Extern 1 (on_fd _) => (intros ?; by split) : keeps.
#[local] Hint Extern 1 (forall _, on_fd _) => (intros ? ?; by split) : keeps.

(** ** The operations *)
Ltac op f := unfold f; first [apply with_lock_back | apply with_ref_back]; keep.

Lemma Read_back p : gives_back (Read at_ fuel p) h0.
Proof. op Read. Qed.
Lemma Pread_back p off : gives_back (Pread at_ fuel p off) h0.
Proof.
  apply runs_step; [done|]. intros [[]|] Hr; [|by left|by destruct Hr].
  apply keeps_then; [eauto with keeps|]. intros r. apply gives_back_bind; [apply FD_decref_back|by intros ? h Hh _].
Qed.
Lemma ReadFrom_back p : gives_back (ReadFrom at_ fuel p) h0.
Proof. op ReadFrom. Qed.
Lemma ReadMsg_back p oob flags : gives_back (ReadMsg at_ fuel p oob flags) h0.
Proof. op ReadMsg. Qed.
Lemma WriteTo_back p sa : gives_back (WriteTo at_ fuel p sa) h0.
Proof. op WriteTo. Qed.
Lemma WriteMsg_back p oob sa : gives_back (WriteMsg at_ fuel p oob sa) h0.
Proof. op WriteMsg. Qed.
Lemma Writev_back v : gives_back (Writev at_ fuel v) h0.
Proof. op Writev. Qed.
Lemma plain_back req : on_fd req -> gives_back (plain at_ req) h0.
Proof. intros Hr. op plain. Qed.
Lemma plain_retried_back req : on_fd req -> gives_back (plain_retried at_ fuel req) h0.
Proof. intros Hr. op plain_retried. Qed.
Lemma Fstat_back : gives_back (Fstat at_ fuel) h0.
Proof. op Fstat. Qed.
Lemma GetsockoptInt_back l n : gives_back (GetsockoptInt at_ l n) h0.
Proof. op GetsockoptInt. Qed.
Lemma Seek_back o w : gives_back (Seek at_ o w) h0.
Proof. op Seek. Qed.
Lemma RawControl_back : gives_back (RawControl at_) h0.
Proof. op RawControl. Qed.
Lemma raw_back read : gives_back (raw at_ fuel read (if read then mode_r else mode_w)) h0.
Proof. op raw; destruct read; eauto with keeps. Qed.
Lemma WriteOnce_back p : gives_back (WriteOnce at_ fuel p) h0.
Proof. op WriteOnce. Qed.
Lemma SetBlocking_back : gives_back (SetBlocking at_) h0.
Proof. op SetBlocking. by apply keeps_act. Qed.

(** ** The operations whose course depends on what the kernel promises *)
Definition answers {A} (P : A -> Prop) h (p : prog A) : Prop :=
  runs p (fun o h' => forall x, o = Some x -> h' = h /\ P x) h.

Lemma answers_keeps {A B} P h (p : prog A) (k : A -> prog B) :
  answers P h p -> (forall x, P x -> keeps h (k x)) -> keeps h (pbind p k).
Proof.
  intros Hp Hk. apply runs_bind. eapply runs_mono; [exact Hp|]. intros [x|] h' H; [|by intros []].
  destruct (H x eq_refl) as [-> Hx]. by apply Hk.
Qed.

Lemma answers_call r h : req_fd r = fd0 -> match r with SClose _ => False | _ => True end -> attached h = true ->
  answers (kernel_answers r) h (act (ASys r)).
Proof.
  intros Hr Hc Ha. destruct (sys_used r h Hr Hc Ha) as [H1 H2]. apply runs_act; [done|].
  intros rep Hrep x [= <-]. split; [apply H2|done].
Qed.

Lemma answers_retried {S} (P : sysrep -> Prop) h (req : S -> sysreq) (next : sysrep -> S) s :
  (forall s, answers P h (act (ASys (req s)))) ->
  answers P h (iterate fuel (fun s => do r := act (ASys (req s)) in
                             if is_errno r EINTR then Done (inl (next r)) else Done (inr r)) s).
Proof.
  intros Hr. apply (runs_iterate _ (fun _ _ h' => h' = h)); [done| |by intros ? ? ? ? [=]].
  intros n s' h' ->. apply runs_bind. eapply runs_mono; [apply Hr|].
  intros [r|] h' H; [|intros ? [=]]. destruct (H r eq_refl) as [-> Hp]. cbn.
  destruct (is_errno r EINTR); cbn; [done|by intros ? [= <-]].
Qed.

Lemma length_slice p i j : 0 <= i <= j -> j <= Z.of_nat (length p) -> Z.of_nat (length (slice p i j)) = j - i.
Proof. intros H1 H2. unfold slice. rewrite length_take, length_drop. lia. Qed.

Lemma chunk_end_range p nn : 0 <= nn <= Z.of_nat (length p) -> nn <= chunk_end at_ p nn <= Z.of_nat (length p).
Proof.
  intros H. unfold chunk_end, maxRW. destruct (IsStream at_); cbn [andb]; [|lia].
  destruct (Z.ltb_spec (2 ^ 30) (Z.of_nat (length p) - nn)); lia.
Qed.

Lemma keeps_write p : keeps (hL false) (iterate fuel (Write_turn at_ fuel p) 0).
Proof.
  apply (runs_iterate _ (fun _ nn h => h = hL false /\ 0 <= nn <= Z.of_nat (length p)));
    [split; [done|lia]| |by intros ? ? ? []].
  intros k nn h [-> Hnn]. unfold Write_turn. cbv zeta. set (max := chunk_end at_ p nn).
  assert (nn <= max <= Z.of_nat (length p)) as Hmax by (by apply chunk_end_range).
  apply runs_bind. unfold ignoringEINTRIO_out. apply runs_step; [done|]. intros fd Hfd.
  rewrite (Hfd (or_introl (attached_lock false))).
  eapply runs_mono; [refine (answers_retried (kernel_answers (SWrite fd0 (slice p nn max))) (hL false)
    (fun _ => SWrite fd0 (slice p nn max)) (fun _ => tt) tt _); intros; by apply answers_call|].
  intros [r|] h H; [|by intros []]. destruct (H r eq_refl) as [-> Hr]. cbn [then_runs].
  destruct ((0 <? rp_n r) && (max - nn <? rp_n r)) eqn:E.
  { apply andb_true_iff in E as [_ E%Z.ltb_lt]. split; [|by intros []]. left. exists fd0, (slice p nn max), r.
    rewrite length_slice by lia. done. }
  apply andb_false_iff in E. rewrite !Z.ltb_ge in E.
  set (nn' := if 0 <? rp_n r then _ else _).
  assert (0 <= nn' <= Z.of_nat (length p)) as Hnn' by (unfold nn'; destruct (Z.ltb_spec 0 (rp_n r)); lia).
  destruct (nn' =? _); [by intros _|]. apply runs_bind.
  eapply runs_mono; [apply keeps_wait_again, rw_w|]. intros [w|] h H'; [|by intros []].
  rewrite H' by eauto. cbn [then_runs]. destruct w as [[err|]|]; [by intros _| |done].
  destruct (rp_n r =? 0); [by intros _|done].
Qed.

Lemma Write_back p : gives_back (Write at_ fuel p) h0.
Proof.
  unfold Write. apply with_lock_back, keeps_pbind; [eauto with keeps|]. intros [e|]; [done|apply keeps_write].
Qed.

(** The count goes past the end only by an answer that is too long. *)
Definition counted (p : list Z) (nn : Z) : Prop :=
  0 <= nn /\ (nn <= Z.of_nat (length p) \/
    exists fd q off rep, kernel_answers (SPwrite fd q off) rep /\ Z.of_nat (length q) < rp_n rep).

Lemma keeps_pwrite p off : keeps hM (iterate fuel (Pwrite_turn at_ p off) 0).
Proof.
  apply (runs_iterate _ (fun _ nn h => h = hM /\ counted p nn)); [split; [done|split; [done|left; lia]]| |by intros ? ? ? []].
  intros k nn h [-> [Hnn Hc]]. unfold Pwrite_turn. cbv zeta. set (max := chunk_end at_ p nn).
  destruct (Z.ltb_spec max nn) as [Hlt|Hge].
  { split; [|by intros []]. right. destruct Hc as [Hc|(fd & q & o & rep & H1 & H2)]; [|by exists fd, q, o, rep, nn, max].
    pose proof (chunk_end_range p nn). lia. }
  apply runs_bind. unfold sys. apply runs_step; [done|]. intros fd Hfd. rewrite (Hfd (or_introl eq_refl)).
  eapply runs_mono; [by apply answers_call|]. intros [r|] h H; [|by intros []]. destruct (H r eq_refl) as [-> Hr].
  cbn [then_runs]. destruct (is_errno r EINTR); [split; [done|by split]|].
  set (nn' := if 0 <? rp_n r then _ else _). assert (counted p nn') as Hc'.
  { unfold nn'. destruct (Z.ltb_spec 0 (rp_n r)); [|by split]. split; [lia|].
    destruct Hc as [Hc|Hc]; [|by right]. pose proof (chunk_end_range p nn ltac:(lia)).
    pose proof (length_slice p nn max ltac:(lia) ltac:(unfold max; lia)).
    destruct (Z.leb_spec (rp_n r) (max - nn)); [left; unfold max in *; lia|right].
    exists fd0, (slice p nn max), (i64 (off + nn)), r. split; [done|lia]. }
  destruct (nn' =? _); [by intros _|]. destruct (errno r); [by intros _|]. destruct (rp_n r =? 0); [by intros _|done].
Qed.

Lemma Pwrite_back p off : gives_back (Pwrite at_ fuel p off) h0.
Proof. unfold Pwrite. apply with_ref_back, keeps_pwrite. Qed.

(** A call on a descriptor that is not this one. *)
Lemma keeps_other r h : req_fd r <> fd0 -> req_fd r <> -1 -> keeps h (act (ASys r)).
Proof. intros H1 H2. destruct (sys_other r h H1 H2) as [H3 H4]. apply keeps_act; [done|]. intros. apply H4. Qed.

Lemma keeps_fresh {A} req (k : sysrep -> prog A) h : attached h = true ->
  req = SAccept \/ req = SDup ->
  (forall r, (rp_err r = None -> 0 <= rp_n r /\ rp_n r <> fd0) -> keeps h (k r)) -> keeps h (pbind (sys req) k).
Proof.
  intros Ha Hr Hk. unfold sys. apply keeps_with_fd; [done|].
  apply (answers_keeps (kernel_answers (req fd0))); [apply answers_call; by destruct Hr as [-> | ->]|].
  intros r Hp. apply Hk. destruct Hr as [-> | ->]; [by apply kernel_accept|by apply kernel_dup].
Qed.

Lemma keeps_accept h : attached h = true -> keeps h accept.
Proof.
  intros Ha. apply keeps_fresh; [done|by left|]. intros r Hr. unfold errno.
  destruct (rp_err r) as [e|]; cbn [fmap option_fmap option_map]; keep.
  all: destruct (Hr eq_refl); apply keeps_other; cbn; lia.
Qed.

Lemma Accept_back : gives_back (Accept at_ fuel) h0.
Proof. unfold Accept. apply with_lock_back. keep. apply keeps_accept, attached_lock. Qed.

Lemma Dup_back : gives_back (Dup at_) h0.
Proof.
  unfold Dup, DupCloseOnExec, dupCloseOnExecOld. apply with_ref_back. apply keeps_fresh; [done|by right|].
  intros r Hr. unfold errno. destruct (rp_err r) as [e|]; cbn [fmap option_fmap option_map]; keep.
  destruct (Hr eq_refl); apply keeps_other; cbn; lia.
Qed.

Lemma ReadDirent_back buf : gives_back (ReadDirent at_ fuel buf) h0.
Proof.
  unfold ReadDirent. apply with_ref_back. apply keeps_iterate. intros q.
  apply (answers_keeps (fun r => rp_err r <> Some EAGAIN)).
  - unfold ignoringEINTRIO. apply runs_step; [done|]. intros fd Hfd. rewrite (Hfd (or_introl eq_refl)).
    apply (answers_retried (fun r => rp_err r <> Some EAGAIN) hM (SReadDirent fd0) rp_buf).
    intros b. eapply runs_mono; [by apply answers_call|]. intros o h' H x Hx. destruct (H x Hx) as [-> Hr].
    split; [done|by eapply kernel_dir].
  - intros r Hr. unfold wait_again, errno. rewrite bool_decide_eq_false_2; [by keep|].
    destruct (rp_err r); [|done]. intros [= ->]. done.
Qed.

Lemma setDeadlineImpl_back t mode : mode = mode_r \/ mode = mode_w \/ mode = mode_rw ->
  gives_back (setDeadlineImpl at_ t mode) h0.
Proof.
  intros Hm. apply with_ref_back, keeps_with_ctx; [done|]. intros [] Hp; cbn [negb]; [|done].
  keep. by apply keeps_act.
Qed.

(** Close: it returns nothing held, and when the descriptor is not in blocking mode it
    has seen it closed. *)
Lemma Close_back : gives_back (Close at_) h0.
Proof.
  apply runs_step; [done|]. intros [[]|] Hr; [|by left|by destruct Hr]. cbn [negb default].
  apply runs_bind. unfold evict. apply runs_step; [done|]. intros c Hc. rewrite (Hc (or_introl eq_refl)). clear Hc.
  apply (runs_mono _ (fun o h => is_Some o -> h = set_won true (set_closer (negb pollable) hM))).
  - destruct pollable; cbn [negb]; [|by intros _]. split; [done|]. by intros [] _ _.
  - intros [[]|] h H; [|by intros []]. rewrite H by eauto. cbn [then_runs].
    apply runs_bind. apply (runs_mono _ (fun o h => is_Some o -> h = set_won true h0)).
    + apply runs_step; [split_and!; try done; by destruct pollable|].
      intros [[]|] Hs; [apply (destroy_runs true)|done|by destruct Hs].
    + intros [err|] h' Hh; [|by intros []]. rewrite Hh by eauto. cbn [then_runs].
      apply runs_step; [done|]. intros b _. destruct b; cbn; [by right; left|].
      split; [done|]. intros [] _ _. by right; right.
Qed.
End operations.
