(* ===== verification/FdSystem.v ===== *)
(** * FdSystem: any number of goroutines on one descriptor

    The operations of FdIO.v run concurrently, one atomic action of one goroutine at a
    time, against the state they share: the word and semaphores of fdMutex (FdMutex.v,
    with its counts of holders), the fields of FD that change, the runtime's poll
    descriptor with its timers (Netpoll.v), and the kernel's descriptor.  Between the
    actions timers fire, their callbacks run, and the poller reports readiness.  The
    answers of the kernel are those of a [Kernel] (FdLogic.v).

    Whatever would be a use after close, a double close, or a throw of the runtime or
    of internal/poll is a fault that stops the system.  Two are reachable: the overflow
    panic of fdMutex, and the panic of Write or Pwrite over a kernel that reports more
    bytes written than it was given. *)
From Stdlib Require Import ZArith Lia List Bool String.
From stdpp Require Import base list strings numbers tactics option relations.
From S2P Require Import Prelude Syscall SyscallSock Netpoll FdMutex FdProg FdIO FdLogic.
Import Netpoll.Deadlines(dsys, mkDs, ds_live, ds_pd, ds_fly, run_locked, seq_room).

(** ** The calls *)
Inductive fdcall : Type :=
| CRead (p : list Z) | CPread (p : list Z) (off : Z) | CReadFrom (p : list Z)
| CReadMsg (p oob : list Z) (flags : Z) | CReadDirent (buf : list Z)
| CWrite (p : list Z) | CPwrite (p : list Z) (off : Z) | CWriteTo (p : list Z) (sa : Sockaddr)
| CWriteMsg (p oob : list Z) (sa : Sockaddr) | CWritev (v : list (list Z)) | CWriteOnce (p : list Z)
| CAccept | CClose | CSetBlocking | CDup
| CFchmod (mode : Z) | CFchown (uid gid : Z) | CFstat | CFtruncate (size : Z) | CFsync | CFchdir
| CSeek (off whence : Z) | CShutdown (how : Z)
| CSetsockopt (level name : Z) (arg : list Z) | CGetsockoptInt (level name : Z)
| CRawControl | CRawRead | CRawWrite
| CSetDeadline (t : option Z) | CSetReadDeadline (t : option Z) | CSetWriteDeadline (t : option Z).

Definition forget {A} (p : prog A) : prog unit := do _ := p in Done tt.

Definition run_call (at_ : attrs) (fuel : nat) (c : fdcall) : prog unit :=
  match c with
  | CRead p => forget (Read at_ fuel p)
  | CPread p off => forget (Pread at_ fuel p off)
  | CReadFrom p => forget (ReadFrom at_ fuel p)
  | CReadMsg p oob flags => forget (ReadMsg at_ fuel p oob flags)
  | CReadDirent buf => forget (ReadDirent at_ fuel buf)
  | CWrite p => forget (Write at_ fuel p)
  | CPwrite p off => forget (Pwrite at_ fuel p off)
  | CWriteTo p sa => forget (WriteTo at_ fuel p sa)
  | CWriteMsg p oob sa => forget (WriteMsg at_ fuel p oob sa)
  | CWritev v => forget (Writev at_ fuel v)
  | CWriteOnce p => forget (WriteOnce at_ fuel p)
  | CAccept => forget (Accept at_ fuel)
  | CClose => forget (Close at_)
  | CSetBlocking => forget (SetBlocking at_)
  | CDup => forget (Dup at_)
  | CFchmod mode => forget (Fchmod at_ fuel mode)
  | CFchown uid gid => forget (Fchown at_ fuel uid gid)
  | CFstat => forget (Fstat at_ fuel)
  | CFtruncate size => forget (Ftruncate at_ fuel size)
  | CFsync => forget (Fsync at_ fuel)
  | CFchdir => forget (Fchdir at_)
  | CSeek off whence => forget (Seek at_ off whence)
  | CShutdown how => forget (Shutdown at_ how)
  | CSetsockopt level name arg => forget (Setsockopt at_ level name arg)
  | CGetsockoptInt level name => forget (GetsockoptInt at_ level name)
  | CRawControl => forget (RawControl at_)
  | CRawRead => forget (RawRead at_ fuel)
  | CRawWrite => forget (RawWrite at_ fuel)
  | CSetDeadline t => forget (SetDeadline at_ t)
  | CSetReadDeadline t => forget (SetReadDeadline at_ t)
  | CSetWriteDeadline t => forget (SetWriteDeadline at_ t)
  end.

(** ** The shared state *)
Record shared : Type := mkSh {
  sh_mu : fdst; sh_ctx : bool; sh_ds : dsys; sh_sysfd : Z; sh_open : bool; sh_csema : Z; sh_blocking : bool }.

Definition set_mu x s := mkSh x (sh_ctx s) (sh_ds s) (sh_sysfd s) (sh_open s) (sh_csema s) (sh_blocking s).
Definition set_ctx x s := mkSh (sh_mu s) x (sh_ds s) (sh_sysfd s) (sh_open s) (sh_csema s) (sh_blocking s).
Definition set_ds x s := mkSh (sh_mu s) (sh_ctx s) x (sh_sysfd s) (sh_open s) (sh_csema s) (sh_blocking s).
Definition set_sysfd x s := mkSh (sh_mu s) (sh_ctx s) (sh_ds s) x (sh_open s) (sh_csema s) (sh_blocking s).
Definition set_open x s := mkSh (sh_mu s) (sh_ctx s) (sh_ds s) (sh_sysfd s) x (sh_csema s) (sh_blocking s).
Definition set_csema x s := mkSh (sh_mu s) (sh_ctx s) (sh_ds s) (sh_sysfd s) (sh_open s) x (sh_blocking s).
Definition set_blocking x s := mkSh (sh_mu s) (sh_ctx s) (sh_ds s) (sh_sysfd s) (sh_open s) (sh_csema s) x.

Definition sh_pd (s : shared) : pollDesc := ds_pd (sh_ds s).
Definition set_pd (pd : pollDesc) (s : shared) : shared :=
  set_ds (mkDs (ds_live (sh_ds s)) pd (ds_fly (sh_ds s))) s.

(** What a pass of fdMutex leaves, with the counts of FdMutex.v kept. *)
Definition mu_after (o : fd_op) (h : holds) (out : outcome) (mu : fdst) : fdst :=
  let try read := attempt (woken_for read h) read mu in
  match o, out with
  | (OpIncref | OpIncrefAndClose), OReturn true w r1 r2 => add_misc 1 (commit w r1 r2 false mu)
  | OpDecref, OReturn d w r1 r2 => add_misc (-1) (commit w r1 r2 d mu)
  | OpRwlock read, OReturn true w r1 r2 => on_side read (add_hold 1) (commit w r1 r2 false (try read))
  | OpRwlock read, OReturn false _ _ _ => try read
  | OpRwlock read, OSleep w => on_side read (add_asleep 1) (commit w 0 0 false (try read))
  | OpRwunlock read, OReturn d w r1 r2 => on_side read (add_hold (-1)) (commit w r1 r2 d mu)
  | _, _ => mu
  end.

Section system.
Context `{KN : Kernel} (fd0 : Z).

(** The effect of an action that is not a fault, and its answer. *)
Definition does (a : action) : result a -> holds -> shared -> shared -> Prop :=
  let on_pd (P : pollDesc -> pollDesc -> Prop) (s s' : shared) :=
    ds_live (sh_ds s) = true /\ exists pd', P (sh_pd s) pd' /\ s' = set_pd pd' s in
  match a with
  | AMutex o => fun r h s s' =>
    let out := run_fd o (word (sh_mu s)) in
    s' = set_mu (mu_after o h out (sh_mu s)) s /\
    match out with OReturn ok _ _ _ => r = Some ok | OSleep _ => r = None | OPanic _ => False end
  | ASemacquire read => fun _ _ s s' =>
    0 < sema (side_of read (sh_mu s)) /\ s' = set_mu (on_side read wake (sh_mu s)) s
  | ALoadSysfd => fun r _ s s' => r = sh_sysfd s /\ s' = s
  | AClearSysfd => fun _ _ s s' => s' = set_sysfd (-1) s
  | ALoadCtx => fun r _ s s' => r = sh_ctx s /\ s' = s
  | AClearCtx => fun _ _ s s' => s' = set_ctx false s
  | ALoadBlocking => fun r _ s s' => r = sh_blocking s /\ s' = s
  | AStoreBlocking => fun _ _ s s' => s' = set_blocking true s
  | ACsemAcquire => fun _ _ s s' => 0 < sh_csema s /\ s' = set_csema (sh_csema s - 1) s
  | ACsemRelease => fun _ _ s s' => s' = set_csema (sh_csema s + 1) s
  | ACheckErr mode => fun r _ s s' =>
    ds_live (sh_ds s) = true /\ r = netpollcheckerr (sh_pd s) mode /\ s' = s
  | AClearSem mode => fun _ _ => on_pd (fun pd pd' => pd' = set_gpp mode pdNil pd)
  | ABlock mode => fun r _ => on_pd (fun pd pd' =>
      (gpp mode pd = pdReady /\ r = true /\ pd' = set_gpp mode pdNil pd) \/
      (gpp mode pd = pdNil /\ r = false /\ pd' = set_gpp mode pdWait pd))
  | ACommit mode => fun r _ => on_pd (fun pd pd' =>
      if gpp mode pd =? pdWait then r = true /\ exists gp, pdWait < gp /\ pd' = set_gpp mode gp pd
      else r = false /\ pd' = pd)
  | AResume mode => fun _ _ => on_pd (fun pd pd' => (gpp mode pd = pdNil \/ gpp mode pd = pdReady) /\ pd' = pd)
  | ATake mode => fun r _ => on_pd (fun pd pd' => r = gpp mode pd /\ pd' = set_gpp mode pdNil pd)
  | AUnblock => fun _ _ => on_pd (fun pd pd' => seq_room pd /\ exists out, pollUnblock_locked pd = Ret out pd')
  | APollClose => fun _ _ s s' =>
    ds_live (sh_ds s) = true /\ exists pd', pollClose_check (sh_pd s) = Ret tt pd' /\
      s' = set_ds (mkDs false (free_locked pd') (ds_fly (sh_ds s))) s
  | ASetDeadline d mode => fun _ _ => on_pd (fun pd pd' =>
      seq_room pd /\ exists now out, setDeadline_locked now d mode pd = Ret out pd')
  | ASys r => fun rep _ s s' =>
    kernel_answers r rep /\
    s' = match r with SClose fd => if fd =? fd0 then set_open false s else s | _ => s end
  | APanic _ => fun _ _ _ _ => False
  end.

(** The faults. *)
Definition faults (a : action) (s : shared) (msg : string) : Prop :=
  let freed := ds_live (sh_ds s) = false /\ msg = "use of a freed polldesc"%string in
  match a with
  | AMutex o => run_fd o (word (sh_mu s)) = OPanic msg
  | ACheckErr _ | AClearSem _ | ACommit _ | AResume _ | ATake _ => freed
  | ABlock mode =>
    freed \/ (gpp mode (sh_pd s) <> pdNil /\ gpp mode (sh_pd s) <> pdReady /\ msg = "runtime: double wait"%string)
  | AUnblock => freed \/ (seq_room (sh_pd s) /\ exists pd', pollUnblock_locked (sh_pd s) = Throw msg pd')
  | APollClose => freed \/ exists pd', pollClose_check (sh_pd s) = Throw msg pd'
  | ASetDeadline d mode =>
    freed \/ (seq_room (sh_pd s) /\ exists now pd', setDeadline_locked now d mode (sh_pd s) = Throw msg pd')
  | ASys r =>
    ((req_fd r = fd0 /\ sh_open s = false) \/ req_fd r = -1) /\ msg = "use of a closed descriptor"%string
  | APanic m => msg = m
  | _ => False
  end.

(** The runtime's part of the poll descriptor, and its fault. *)
Inductive env_step : shared -> shared -> Prop :=
| env_fire_rt s : 0 < t_when (pd_rt (sh_pd s)) ->
    env_step s (set_ds (mkDs (ds_live (sh_ds s)) (rt_stop (sh_pd s)) (pd_rt (sh_pd s) :: ds_fly (sh_ds s))) s)
| env_fire_wt s : 0 < t_when (pd_wt (sh_pd s)) ->
    env_step s (set_ds (mkDs (ds_live (sh_ds s)) (wt_stop (sh_pd s)) (pd_wt (sh_pd s) :: ds_fly (sh_ds s))) s)
| env_run s t l1 l2 out pd' : ds_fly (sh_ds s) = l1 ++ t :: l2 -> run_locked t (sh_pd s) = Ret out pd' ->
    env_step s (set_ds (mkDs (ds_live (sh_ds s)) pd' (l1 ++ l2)) s)
| env_ready s mode out pd' : mode = mode_r \/ mode = mode_w ->
    unblock mode true (sh_pd s) = Ret out pd' -> env_step s (set_pd pd' s)
| env_err s b : env_step s (set_pd (setEventErr b 0 (sh_pd s)) s).

Definition env_faults (s : shared) (msg : string) : Prop :=
  exists t pd', t ∈ ds_fly (sh_ds s) /\ run_locked t (sh_pd s) = Throw msg pd'.

(** ** The system *)
Record goroutine : Type := mkG { g_prog : prog unit; g_h : holds }.
Record system : Type := mkSys { s_gs : list goroutine; s_sh : shared; s_crash : option string }.

Context (at_ : attrs).

Inductive step : system -> system -> Prop :=
| step_call gs s fuel c :
    step (mkSys gs s None) (mkSys (gs ++ [mkG (run_call at_ fuel c) h0]) s None)
| step_act gs s i a k h r s' :
    gs !! i = Some (mkG (Act a k) h) -> does a r h s s' ->
    step (mkSys gs s None) (mkSys (<[i := mkG (k r) (fd_grant fd0 a r h)]> gs) s' None)
| step_fault gs s i a k h msg :
    gs !! i = Some (mkG (Act a k) h) -> faults a s msg ->
    step (mkSys gs s None) (mkSys gs s (Some msg))
| step_env gs s s' : env_step s s' -> step (mkSys gs s None) (mkSys gs s' None)
| step_env_fault gs s msg : env_faults s msg -> step (mkSys gs s None) (mkSys gs s (Some msg)).

(** After Init: not watched by the runtime, or with a poll descriptor just opened. *)
Definition start (blocking : bool) (ds : dsys) : system :=
  mkSys [] (mkSh fd_init (ds_live ds) ds fd0 true 0 blocking) None.

Inductive opened : dsys -> Prop :=
| opened_not : opened Deadlines.dinit
| opened_pd ds a fd pd' : Deadlines.reachable ds -> ds_live ds = false ->
    seq_room (ds_pd ds) -> pollOpen_locked a fd (ds_pd ds) = Ret tt pd' ->
    opened (mkDs true pd' (ds_fly ds)).

Definition reachable (s : system) : Prop := exists blocking ds, opened ds /\ rtc step (start blocking ds) s.
End system.

(** ** Running the system

    [answer]: what the kernel answers, the address a parking goroutine has and the time,
    where the next action asks for them. *)
Record answer : Type := mkAnswer { an_rep : sysrep; an_gp : Z; an_now : Z }.

Section exec.
(** [sys_ok] decides what the kernel may answer. *)
Context (sys_ok : sysreq -> sysrep -> bool) (fd0 : Z) (at_ : attrs).

Definition deciding : Kernel := fun r rep => sys_ok r rep = true.
#[local] Existing Instance deciding.

Definition room_b (pd : pollDesc) : bool := (pd_rseq pd <? 2 ^ 32 - 1) && (pd_wseq pd <? 2 ^ 32 - 1).

Definition exec_pd {A} (s : shared) (f : pollDesc -> option (A * pollDesc)) : option (A * shared) :=
  if ds_live (sh_ds s) then (fun '(r, pd) => (r, set_pd pd s)) <$> f (sh_pd s) else None.

Definition exec_act (an : answer) (a : action) (h : holds) (s : shared) : option (result a * shared) :=
  match a with
  | AMutex o =>
    let out := run_fd o (word (sh_mu s)) in
    match out with
    | OReturn ok _ _ _ => Some (Some ok, set_mu (mu_after o h out (sh_mu s)) s)
    | OSleep _ => Some (None, set_mu (mu_after o h out (sh_mu s)) s)
    | OPanic _ => None
    end
  | ASemacquire read =>
    if 0 <? sema (side_of read (sh_mu s)) then Some (tt, set_mu (on_side read wake (sh_mu s)) s) else None
  | ALoadSysfd => Some (sh_sysfd s, s)
  | AClearSysfd => Some (tt, set_sysfd (-1) s)
  | ALoadCtx => Some (sh_ctx s, s)
  | AClearCtx => Some (tt, set_ctx false s)
  | ALoadBlocking => Some (sh_blocking s, s)
  | AStoreBlocking => Some (tt, set_blocking true s)
  | ACsemAcquire => if 0 <? sh_csema s then Some (tt, set_csema (sh_csema s - 1) s) else None
  | ACsemRelease => Some (tt, set_csema (sh_csema s + 1) s)
  | ACheckErr mode => if ds_live (sh_ds s) then Some (netpollcheckerr (sh_pd s) mode, s) else None
  | AClearSem mode => exec_pd s (fun pd => Some (tt, set_gpp mode pdNil pd))
  | ABlock mode => exec_pd s (fun pd =>
      if gpp mode pd =? pdReady then Some (true, set_gpp mode pdNil pd)
      else if gpp mode pd =? pdNil then Some (false, set_gpp mode pdWait pd) else None)
  | ACommit mode => exec_pd s (fun pd =>
      if gpp mode pd =? pdWait
      then if pdWait <? an_gp an then Some (true, set_gpp mode (an_gp an) pd) else None
      else Some (false, pd))
  | AResume mode => exec_pd s (fun pd =>
      if (gpp mode pd =? pdNil) || (gpp mode pd =? pdReady) then Some (tt, pd) else None)
  | ATake mode => exec_pd s (fun pd => Some (gpp mode pd, set_gpp mode pdNil pd))
  | AUnblock => exec_pd s (fun pd =>
      if room_b pd then match pollUnblock_locked pd with Ret _ pd' => Some (tt, pd') | _ => None end else None)
  | APollClose =>
    if ds_live (sh_ds s) then
      match pollClose_check (sh_pd s) with
      | Ret _ pd' => Some (tt, set_ds (mkDs false (free_locked pd') (ds_fly (sh_ds s))) s)
      | _ => None
      end
    else None
  | ASetDeadline d mode => exec_pd s (fun pd =>
      if room_b pd then match setDeadline_locked (an_now an) d mode pd with Ret _ pd' => Some (tt, pd') | _ => None end
      else None)
  | ASys r =>
    if sys_ok r (an_rep an)
    then Some (an_rep an, match r with SClose fd => if fd =? fd0 then set_open false s else s | _ => s end)
    else None
  | APanic _ => None
  end.

(** A step that begins a call, or goroutine [i]'s next action. *)
Inductive command : Type := Begin (fuel : nat) (c : fdcall) | Go (i : nat) (an : answer).

Definition exec (cmd : command) (s : system) : option system :=
  if s_crash s then None else
  match cmd with
  | Begin fuel c => Some (mkSys (s_gs s ++ [mkG (run_call at_ fuel c) h0]) (s_sh s) None)
  | Go i an =>
    match s_gs s !! i with
    | Some (mkG (Act a k) h) =>
      (fun '(r, sh) => mkSys (<[i := mkG (k r) (fd_grant fd0 a r h)]> (s_gs s)) sh None) <$> exec_act an a h (s_sh s)
    | _ => None
    end
  end.

Fixpoint execs (cmds : list command) (s : system) : option system :=
  match cmds with [] => Some s | c :: cs => s ← exec c s; execs cs s end.

Lemma exec_pd_on {A} s (f : pollDesc -> option (A * pollDesc)) r s' : exec_pd s f = Some (r, s') ->
  ds_live (sh_ds s) = true /\ exists pd', f (sh_pd s) = Some (r, pd') /\ s' = set_pd pd' s.
Proof.
  unfold exec_pd. destruct (ds_live (sh_ds s)); [|done]. destruct (f (sh_pd s)) as [[r' pd']|]; [|done].
  cbn. intros [= -> <-]. eauto.
Qed.

Lemma room_b_spec pd : room_b pd = true -> seq_room pd.
Proof. unfold room_b, seq_room. intros [H1%Z.ltb_lt H2%Z.ltb_lt]%andb_true_iff. done. Qed.

Lemma exec_act_does an a h s r s' :
  exec_act an a h s = Some (r, s') -> does fd0 a r h s s'.
Proof.
  intros H. destruct a; cbn [exec_act does] in *; cbv zeta in *;
    try (apply exec_pd_on in H as (Hl & pd' & H & ->); split; [done|exists pd'; split; [|done]]);
    try (by injection H as <- <-).
  - destruct (run_fd o (word (sh_mu s))); [done| |]; by injection H as <- <-.
  - destruct (Z.ltb_spec 0 (sema (side_of read (sh_mu s)))); [|done]. by injection H as <- <-.
  - destruct (Z.ltb_spec 0 (sh_csema s)); [|done]. by injection H as <- <-.
  - destruct (ds_live (sh_ds s)); [|done]. by injection H as <- <-.
  - destruct (Z.eqb_spec (gpp mode (sh_pd s)) pdReady); [injection H as <- <-; by left|].
    destruct (Z.eqb_spec (gpp mode (sh_pd s)) pdNil); [injection H as <- <-; by right|done].
  - destruct (Z.eqb_spec (gpp mode (sh_pd s)) pdWait); [|by injection H as <- <-].
    destruct (Z.ltb_spec pdWait (an_gp an)); [|done]. injection H as <- <-. eauto.
  - destruct (_ || _) eqn:E; [|done]. injection H as <- <-. split; [|done].
    apply orb_true_iff in E as [E%Z.eqb_eq|E%Z.eqb_eq]; auto.
  - destruct (room_b _) eqn:E; [|done]. split; [by apply room_b_spec|].
    destruct (pollUnblock_locked (sh_pd s)); [|done..]. injection H as <- <-. eauto.
  - destruct (ds_live (sh_ds s)); [|done]. split; [done|]. destruct (pollClose_check (sh_pd s)) as [[] pd'|?|]; [|done..].
    injection H as <- <-. eauto.
  - destruct (room_b _) eqn:E; [|done]. split; [by apply room_b_spec|].
    destruct (setDeadline_locked (an_now an) d mode (sh_pd s)) eqn:E2; [|done..]. injection H as <- <-. eauto.
  - destruct (sys_ok r0 (an_rep an)) eqn:E; [|done]. injection H as <- <-. by split.
  - done.
Qed.

Lemma execs_reach cmds s s' : execs cmds s = Some s' -> rtc (step fd0 at_) s s'.
Proof.
  revert s. induction cmds as [|c cmds IH]; intros s H; cbn in H; [by injection H as <-|].
  destruct (exec c s) as [s1|] eqn:E; [|done]. cbn in H. eapply rtc_l; [|apply IH, H].
  unfold exec in E. destruct s as [gs sh [cr|]]; cbn in E; [done|]. destruct c as [fuel c|i an].
  - injection E as <-. apply step_call.
  - destruct (gs !! i) as [[[x|a k|] h]|] eqn:Hi; try done.
    destruct (exec_act an a h sh) as [[r sh']|] eqn:Ea; [|done]. injection E as <-.
    eapply step_act; [exact Hi|]. eapply exec_act_does, Ea.
Qed.
End exec.

(** The answers of a kernel that keeps the laws, decided: what a descriptor number may be
    and that no directory would block; and those of one that answers anything. *)
Definition lawful (r : sysreq) (rep : sysrep) : bool :=
  match r with
  | SAccept fd | SDup fd => bool_decide (rp_err rep <> None) || ((0 <=? rp_n rep) && negb (rp_n rep =? fd))
  | SReadDirent _ _ => bool_decide (rp_err rep <> Some EAGAIN)
  | _ => true
  end.

Definition anything (r : sysreq) (rep : sysrep) : bool := true.

#[export] Instance lawful_laws : @KernelLaws (deciding lawful).
Proof.
  assert (forall rep fd, bool_decide (rp_err rep <> None) || ((0 <=? rp_n rep) && negb (rp_n rep =? fd)) = true ->
    rp_err rep = None -> 0 <= rp_n rep /\ rp_n rep <> fd) as H.
  { intros rep fd [H%bool_decide_eq_true|[H1%Z.leb_le H2%negb_true_iff%Z.eqb_neq]%andb_true_iff]%orb_true_iff He; [by destruct H|done]. }
  split; unfold kernel_answers, deciding, lawful.
  - intros fd rep. apply H.
  - intros fd rep. apply H.
  - by intros fd p rep ?%bool_decide_eq_true.
  - intros r. exists (mkRep 0 (Some 1) [] 0 0 None). destruct r; try done; by apply orb_true_iff; left.
Qed.
