(* ===== verification/FdInv.v ===== *)
(** * FdInv: the counts and the semaphore words

    Two halves of the invariant of FdSystem.v.  The counts of the mutex are the sums of
    what the goroutines hold, through every pass of it, so no pass panics but one that
    overflows.  The semaphore words of the poll descriptor are those of the goroutines
    waiting in them, one at most in each, under the lock of its mode. *)
From Stdlib Require Import ZArith Lia List Bool String.
From stdpp Require Import base list strings numbers tactics option relations.
From S2P Require Import Prelude Syscall SyscallSock Netpoll FdMutex FdProg FdIO FdLogic FdSystem.
Import Netpoll.Deadlines(dsys, mkDs, ds_live, ds_pd, ds_fly, run_locked, seq_room, dinv).

(** ** What the poller's operations do to the semaphore words *)
Definition mode_of (read : bool) : Z := if read then mode_r else mode_w.

(** A word is left alone, emptied or made ready. *)
Definition calmed (v v' : Z) : Prop := v' = v \/ v' = pdNil \/ v' = pdReady.
Definition calm (pd pd' : pollDesc) : Prop := forall read, calmed (gpp (mode_of read) pd) (gpp (mode_of read) pd').

#[export] Instance calm_preorder : PreOrder calm.
Proof.
  split; [intros pd read; by left|]. intros p1 p2 p3 H1 H2 read.
  destruct (H2 read) as [-> | H]; [apply H1|by right].
Qed.

(** [quiet m]: every way [m] ends, the words are calm and [pd_closing] is as it was. *)
Definition same_closing (pd pd' : pollDesc) : Prop := calm pd pd' /\ pd_closing pd' = pd_closing pd.

#[export] Instance same_closing_preorder : PreOrder same_closing.
Proof.
  split; [by split|]. intros p1 p2 p3 [H1 E1] [H2 E2]. split; [by etransitivity|congruence].
Qed.

Definition quietly {A} (m : PdM A) : Prop := forall pd x pd', m pd = Ret x pd' -> same_closing pd pd'.

Lemma quietly_ret {A} (x : A) : quietly (go_ret x).
Proof. by intros pd y pd' [= _ <-]. Qed.
Lemma quietly_throw {A} msg : quietly (A := A) (go_throw msg).
Proof. by intros pd y pd' [=]. Qed.
Lemma quietly_get : quietly go_get.
Proof. by intros pd y pd' [= _ <-]. Qed.
Lemma quietly_bind {A B} (m : PdM A) (k : A -> PdM B) :
  quietly m -> (forall x, quietly (k x)) -> quietly (go_bind m k).
Proof.
  intros Hm Hk pd y pd' H. unfold go_bind in H. destruct (m pd) as [x pd1|msg pd1|] eqn:E; [|done..].
  etransitivity; [by eapply Hm|by eapply Hk].
Qed.
Lemma quietly_modify f : (forall pd, same_closing pd (f pd)) -> quietly (go_modify f).
Proof. intros Hf pd y pd' [= _ <-]. apply Hf. Qed.

Lemma calm_unblock mode io pd pd' g d : netpollunblock pd mode io = (pd', g, d) -> same_closing pd pd'.
Proof.
  unfold netpollunblock, same_closing, calm, calmed, mode_of, gpp, set_gpp. intros H.
  destruct (mode =? mode_w) eqn:E; repeat case_match; simplify_eq; split; try done; intros []; cbn; auto.
Qed.
Lemma quietly_unblock mode io : quietly (unblock mode io).
Proof.
  intros pd x pd' H. unfold unblock in H. destruct (netpollunblock pd mode io) as [[p g] d] eqn:E.
  simplify_eq. by eapply calm_unblock.
Qed.
Lemma quietly_rt_modify w f s : quietly (rt_modify w f s).
Proof. intros pd x pd' H. unfold rt_modify in H. destruct (timer_modify _ _ _ _ _); [|done].
  simplify_eq. split; [intros []; by left|done].
Qed.
Lemma quietly_wt_modify w f s : quietly (wt_modify w f s).
Proof. intros pd x pd' H. unfold wt_modify in H. destruct (timer_modify _ _ _ _ _); [|done].
  simplify_eq. split; [intros []; by left|done].
Qed.

(** Updates of the other fields. *)
Ltac quietly :=
  repeat (cbv zeta; lazymatch goal with
  | |- quietly (go_ret _) => apply quietly_ret
  | |- quietly (go_throw _) => apply quietly_throw
  | |- quietly go_get => apply quietly_get
  | |- quietly (unblock _ _) => apply quietly_unblock
  | |- quietly (rt_modify _ _ _) => apply quietly_rt_modify
  | |- quietly (wt_modify _ _ _) => apply quietly_wt_modify
  | |- quietly (go_bind _ _) => apply quietly_bind; [|intros ?]
  | |- quietly (go_modify _) => apply quietly_modify; intros ?; repeat case_match; by split; [intros []; left|]
  | |- quietly (match _ with _ => _ end) => case_match
  | |- quietly (if _ then _ else _) => case_match
  end).

Lemma quietly_setDeadline now d mode : quietly (setDeadline_locked now d mode).
Proof. unfold setDeadline_locked, setDeadline_rt, setDeadline_wt. quietly. Qed.

Lemma quietly_run t : quietly (run_locked t).
Proof. unfold run_locked, deadlineimpl_locked. quietly. Qed.

(** pollUnblock closes and leaves both words without a waiter. *)
Lemma unblock_settles mode pd g pd' : unblock mode false pd = Ret g pd' ->
  gpp mode pd' = pdNil \/ gpp mode pd' = pdReady.
Proof.
  unfold unblock, netpollunblock. intros H. destruct (Z.eqb_spec (gpp mode pd) pdReady).
  - injection H as _ <-. by right.
  - cbn [negb andb] in H. rewrite andb_true_r in H. destruct (Z.eqb_spec (gpp mode pd) pdNil).
    + injection H as _ <-. by left.
    + left. assert (forall v, gpp mode (set_gpp mode v pd) = v) as Hg by (intros v; unfold gpp, set_gpp; by destruct (mode =? mode_w)).
      repeat case_match; simplify_eq; apply Hg.
Qed.

Lemma pollUnblock_closes pd out pd' : pollUnblock_locked pd = Ret out pd' ->
  (forall read, gpp (mode_of read) pd' = pdNil \/ gpp (mode_of read) pd' = pdReady) /\
  pd_closing pd' = true /\ pd_closing pd = false.
Proof.
  intros H. unfold pollUnblock_locked in H. unfold go_bind at 1, go_get in H.
  destruct (pd_closing pd) eqn:Ec; [done|]. unfold go_bind at 1, go_modify at 1 in H.
  match type of H with ?m ?p = _ => assert (quietly m) as Hq by quietly; specialize (Hq p _ _ H) end.
  split; [|split; [apply Hq|done]].
  unfold go_bind, go_modify, go_ret in H. clear Hq.
  destruct (unblock mode_r false _) as [[g1 d1] pd1| |] eqn:E1; [|done..].
  destruct (unblock mode_w false pd1) as [[g2 d2] pd2| |] eqn:E2; [|done..].
  pose proof (unblock_settles _ _ _ _ E1) as S1. pose proof (unblock_settles _ _ _ _ E2) as S2.
  destruct (calm_unblock mode_w false pd1 pd2 g2 d2) as [Hc _];
    [unfold unblock in E2; destruct (netpollunblock pd1 mode_w false) as [[? ?] ?]; by injection E2 as <- <- <-|].
  assert (forall read, gpp (mode_of read) pd2 = pdNil \/ gpp (mode_of read) pd2 = pdReady) as Hs.
  { intros []; [|exact S2]. destruct (Hc true) as [-> |H1]; [exact S1|exact H1]. }
  injection H as _ <-. intros read. specialize (Hs read).
  destruct (pd_rrun pd2); cbn; (destruct (pd_wrun pd2); by destruct read).
Qed.

Lemma checkerr_range pd mode : 0 <= netpollcheckerr pd mode <= 3.
Proof.
  unfold netpollcheckerr, pollErrClosing, pollErrTimeout, pollErrNotPollable, pollNoError. repeat case_match; lia.
Qed.

Lemma gpp_set_other read read' v pd : read <> read' ->
  gpp (mode_of read) (set_gpp (mode_of read') v pd) = gpp (mode_of read) pd.
Proof. by destruct read, read'. Qed.

Lemma side_of_mode_Some mode read : side_of_mode mode = Some read -> mode = mode_of read.
Proof.
  unfold side_of_mode. destruct (Z.eqb_spec mode mode_r) as [->|]; [by intros [= <-]|].
  destruct (Z.eqb_spec mode mode_w) as [->|]; [by intros [= <-]|done].
Qed.

(** ** Sums over the goroutines *)
Fixpoint total (f : holds -> Z) (gs : list goroutine) : Z :=
  match gs with [] => 0 | g :: gs => f (g_h g) + total f gs end.

Section totals.
Context (f : holds -> Z).

Lemma total_app l1 l2 : total f (l1 ++ l2) = total f l1 + total f l2.
Proof. induction l1 as [|g l IH]; cbn; lia. Qed.

Lemma total_insert gs i g g' : gs !! i = Some g -> total f (<[i:=g']> gs) = total f gs - f (g_h g) + f (g_h g').
Proof.
  revert i. induction gs as [|g1 gs IH]; intros [|i] H; [done..| |].
  - injection H as ->. cbn. lia.
  - change (<[S i:=g']> (g1 :: gs)) with (g1 :: <[i:=g']> gs). cbn [total]. rewrite (IH i H). lia.
Qed.

Definition all_nonneg (gs : list goroutine) : Prop := forall g, g ∈ gs -> 0 <= f (g_h g).

Lemma all_nonneg_tail g gs : all_nonneg (g :: gs) -> 0 <= f (g_h g) /\ all_nonneg gs.
Proof. intros H. split; [apply H; by left|]. intros x Hx. apply H. by right. Qed.

Lemma total_nonneg gs : all_nonneg gs -> 0 <= total f gs.
Proof. induction gs as [|g gs IH]; cbn; [done|]. intros [H1 H2]%all_nonneg_tail. specialize (IH H2). lia. Qed.

Lemma total_ge gs i g : all_nonneg gs -> gs !! i = Some g -> f (g_h g) <= total f gs.
Proof.
  revert i. induction gs as [|g1 gs IH]; intros [|i] Hf H; [done..| |];
    apply all_nonneg_tail in Hf as [H1 H2]; cbn in *; simplify_eq.
  - pose proof (total_nonneg gs H2). lia.
  - specialize (IH i H2 H). lia.
Qed.

(** Two different goroutines. *)
Lemma total_two gs i j g1 g2 : all_nonneg gs -> i <> j ->
  gs !! i = Some g1 -> gs !! j = Some g2 -> f (g_h g1) + f (g_h g2) <= total f gs.
Proof.
  revert i j. induction gs as [|g gs IH]; intros [|i] [|j] Hf Hij H1 H2; try done;
    apply all_nonneg_tail in Hf as [Hg Hf]; cbn in *; simplify_eq.
  - pose proof (total_ge gs j g2 Hf H2). lia.
  - pose proof (total_ge gs i g1 Hf H1). lia.
  - specialize (IH i j Hf ltac:(congruence) H1 H2). lia.
Qed.
End totals.

(** ** Every goroutine *)
Definition each (P : holds -> Prop) (gs : list goroutine) : Prop := forall j g, gs !! j = Some g -> P (g_h g).

Lemma each_insert P gs i p h : each P gs -> P h -> each P (<[i:=mkG p h]> gs).
Proof. intros Hg Hh j g [(<- & <- & _)|[_ H]]%list_lookup_insert_Some; [done|by eapply Hg]. Qed.

Lemma each_app P gs p h : each P gs -> P h -> each P (gs ++ [mkG p h]).
Proof.
  intros Hg Hh j g [H|[_ H]]%lookup_app_Some; [by eapply Hg|].
  apply list_lookup_singleton_Some in H as [_ <-]. done.
Qed.

Lemma each_nonneg f gs : each (fun h => 0 <= f h) gs -> all_nonneg f gs.
Proof. intros H g [j Hj]%list_elem_of_lookup. by eapply H. Qed.

(** A sum of zeros and ones that is zero. *)
Lemma total_none (b : holds -> bool) gs : total (fun h => Z.b2z (b h)) gs = 0 -> each (fun h => b h = false) gs.
Proof.
  intros H0 j g Hj.
  pose proof (total_ge (fun h => Z.b2z (b h)) gs j g ltac:(apply each_nonneg; intros ? ? _; by destruct (b _)) Hj) as H.
  cbn in H. destruct (b (g_h g)); [cbn in H; lia|done].
Qed.

(** ** The mutex counts what the goroutines hold *)
Record mu_inv (gs : list goroutine) (mu : fdst) : Prop := {
  mi_inv : fd_inv mu;
  mi_misc : misc mu = total h_misc gs;
  mi_hold read : hold (side_of read mu) = total (fun h => Z.b2z (lock_of read h)) gs;
  mi_asleep read : asleep (side_of read mu) = total (fun h => Z.b2z (asleep_for read h)) gs;
  mi_woken read : retrying (side_of read mu) = total (fun h => Z.b2z (woken_for read h)) gs;
  mi_pos : each (fun h => 0 <= h_misc h) gs }.

Definition same_counts (h h' : holds) : Prop :=
  h_misc h' = h_misc h /\ h_r h' = h_r h /\ h_w h' = h_w h /\ h_waits h' = h_waits h.

Lemma mu_inv_frame gs mu i p p' h h' : gs !! i = Some (mkG p h) -> same_counts h h' ->
  mu_inv gs mu -> mu_inv (<[i:=mkG p' h']> gs) mu.
Proof.
  intros Hi (E1 & E2 & E3 & E4) [A1 A2 A3 A4 A5 A6]. split; try done.
  - rewrite (total_insert _ _ _ _ _ Hi). cbn. lia.
  - intros read. rewrite (total_insert _ _ _ _ _ Hi), A3. cbn. destruct read; cbn; rewrite ?E2, ?E3; lia.
  - intros read. rewrite (total_insert _ _ _ _ _ Hi), A4. cbn. unfold asleep_for. rewrite E4. lia.
  - intros read. rewrite (total_insert _ _ _ _ _ Hi), A5. cbn. unfold woken_for. rewrite E4. lia.
  - apply each_insert; [done|]. rewrite E1. by apply (A6 i _ Hi).
Qed.

(** ** A pass of the mutex *)
Definition bit_after (o : fd_op) (ok c : bool) : bool :=
  match o with OpIncrefAndClose => c || ok | _ => c end.

(** What a pass does to the closed bit, and when it panics. *)
Lemma pass_word o f : fields_ok f ->
  match run_fd o (enc f) with
  | OPanic m => m = overflowMsg \/ refs f = 0 \/ exists read, o = OpRwunlock read /\ locked read f = false
  | OReturn ok w _ _ => has_bits w mutexClosed = bit_after o ok (closed f)
  | OSleep w => (exists read, o = OpRwlock read) /\ has_bits w mutexClosed = closed f
  end.
Proof.
  intros Hf. pose proof Hf as (H1 & H2 & H3).
  assert (forall r l n, 0 <= n < 2 ^ 20 -> 0 <= r < 2 ^ 20 -> forall read,
    has_bits (enc (with_side read l n f r)) mutexClosed = closed f) as Hside.
  { intros r l n Hn Hr read. rewrite has_closed by (by apply with_side_ok). by destruct read. }
  destruct o as [| | |read|read]; cbn [run_fd bit_after];
    rewrite ?incref_refines, ?increfAndClose_refines, ?decref_refines, ?rwlock_refines, ?rwunlock_refines by done;
    unfold incref_spec, increfAndClose_spec, decref_spec, rwlock_spec, rwunlock_spec.
  - destruct (closed f) eqn:Ec; cbn; [by rewrite has_closed|]. destruct (Z.eqb_spec (refs f) max_refs); cbn; [by left|].
    unfold max_refs in *. rewrite has_closed; [done|split_and!; cbn; lia].
  - destruct (closed f) eqn:Ec; cbn; [by rewrite has_closed|]. destruct (Z.eqb_spec (refs f) max_refs); cbn; [by left|].
    unfold max_refs in *. rewrite has_closed; [done|split_and!; cbn; lia].
  - destruct (Z.eqb_spec (refs f) 0); cbn; [by auto|]. rewrite has_closed; [done|split_and!; cbn; lia].
  - pose proof (waiters_bound f read Hf). unfold max_refs.
    destruct (closed f) eqn:Ec; cbn; [by rewrite has_closed|]. destruct (negb (locked read f)).
    + destruct (Z.eqb_spec (refs f) (2 ^ 20 - 1)); cbn; [by left|]. apply Hside; lia.
    + destruct (Z.eqb_spec (waiters read f) (2 ^ 20 - 1)); cbn; [by left|]. split; [by exists read|]. apply Hside; lia.
  - pose proof (waiters_bound f read Hf). destruct (locked read f) eqn:El; cbn; [|by right; right; exists read].
    destruct (Z.eqb_spec (refs f) 0); cbn; [by auto|]. apply Hside; [|lia].
    destruct (Z.eqb_spec (waiters read f) 0); lia.
Qed.

Section mutex.
Context `{KN : Kernel} (fd0 : Z) (pollable : bool).
Context (gs : list goroutine) (mu : fdst) (Hmu : mu_inv gs mu).
Context (i : nat) (p p' : prog unit) (h : holds) (Hi : gs !! i = Some (mkG p h)).

Lemma nonneg_b2z (b : holds -> bool) : all_nonneg (fun h => Z.b2z (b h)) gs.
Proof. intros g _. cbn. by destruct (b _). Qed.

Lemma misc_nonneg : all_nonneg h_misc gs.
Proof. apply each_nonneg, Hmu. Qed.

Lemma hold_one read : total (fun h => Z.b2z (lock_of read h)) gs <= 1.
Proof.
  rewrite <- (mi_hold _ _ Hmu). destruct (mi_inv _ _ Hmu) as [f (_ & _ & _ & _ & Hr & Hw & _)].
  destruct read; [apply Hr|apply Hw].
Qed.

(** Who holds a lock holds it alone. *)
Lemma lock_alone read j g : lock_of read h = true -> gs !! j = Some g -> j <> i -> lock_of read (g_h g) = false.
Proof.
  intros Hl Hj Hne. pose proof (hold_one read) as H1.
  pose proof (total_two _ gs i j _ _ (nonneg_b2z (lock_of read)) ltac:(congruence) Hi Hj) as H2. cbn in H2.
  rewrite Hl in H2. destruct (lock_of read (g_h g)); [cbn in H2; lia|done].
Qed.

Lemma holds_counted : h_misc h <= misc mu /\ forall read, Z.b2z (lock_of read h) <= hold (side_of read mu).
Proof.
  split.
  - rewrite (mi_misc _ _ Hmu). by apply (total_ge _ _ _ _ misc_nonneg Hi).
  - intros read. rewrite (mi_hold _ _ Hmu). by apply (total_ge _ _ _ _ (nonneg_b2z (lock_of read)) Hi).
Qed.

Lemma attached_refs f : fd_inv_with f mu -> attached h = true -> 1 <= refs f.
Proof.
  intros (_ & _ & Hm & Hrefs & Hr & Hw & _) Ha. destruct holds_counted as [H1 H2].
  pose proof (H2 true) as H3. pose proof (H2 false) as H4. cbn in H3, H4.
  destruct Hr as (? & _), Hw as (? & _). unfold attached in Ha.
  destruct (h_r h), (h_w h), (Z.ltb_spec 0 (h_misc h)); cbn in *; try done; lia.
Qed.

Lemma attached_alive : attached h = true -> destroyed mu = 0.
Proof.
  intros Ha. destruct (mi_inv _ _ Hmu) as [f Hf]. pose proof (attached_refs f Hf Ha).
  destruct Hf as (_ & _ & _ & _ & _ & _ & ->). rewrite (proj2 (Z.eqb_neq (refs f) 0)), andb_false_r by lia. done.
Qed.

Lemma destroyed_unheld : destroyed mu = 1 -> has_bits (word mu) mutexClosed = true /\
  each (fun h => h_misc h = 0 /\ forall read, lock_of read h = false) gs.
Proof.
  intros Hd. destruct (mi_inv _ _ Hmu) as [f (Hf & Hw & Hm & Hrefs & Hr & Hwr & Hde)].
  rewrite Hw, has_closed by done. rewrite Hd in Hde. destruct (closed f); [|done].
  destruct (Z.eqb_spec (refs f) 0) as [E|]; [|done]. destruct Hr as (? & _), Hwr as (? & _). split; [done|].
  assert (misc mu = 0 /\ forall read, hold (side_of read mu) = 0) as [Hm0 Hh0] by (split; [lia|intros []; cbn; lia]).
  intros j g Hj. split.
  - pose proof (total_ge _ _ _ _ misc_nonneg Hj) as H1. rewrite <- (mi_misc _ _ Hmu), Hm0 in H1.
    pose proof (mi_pos _ _ Hmu j g Hj) as H2. cbn in H2. lia.
  - intros read. apply (total_none (lock_of read) gs) with j; [|done]. by rewrite <- (mi_hold _ _ Hmu).
Qed.

Lemma woken_counted read : woken_for read h = true -> 0 < retrying (side_of read mu).
Proof.
  intros Hw. rewrite (mi_woken _ _ Hmu).
  pose proof (total_ge _ _ _ _ (nonneg_b2z (woken_for read)) Hi) as H. cbn in H. rewrite Hw in H. cbn in H. lia.
Qed.

Lemma asleep_counted read : asleep_for read h = true -> 0 < asleep (side_of read mu).
Proof.
  intros Hw. rewrite (mi_asleep _ _ Hmu).
  pose proof (total_ge _ _ _ _ (nonneg_b2z (asleep_for read)) Hi) as H. cbn in H. rewrite Hw in H. cbn in H. lia.
Qed.

(** No pass but an overflowing one panics. *)
Lemma pass_no_panic o msg : fd_allowed fd0 pollable (AMutex o) h -> run_fd o (word mu) = OPanic msg -> msg = overflowMsg.
Proof.
  intros Ha Hrun. destruct (mi_inv _ _ Hmu) as [f Hinv]. pose proof Hinv as (Hf & Hw & _ & Hrefs & Hr & Hwr & _).
  rewrite Hw in Hrun. pose proof (pass_word o f Hf) as H. rewrite Hrun in H. destruct holds_counted as [H1 H2].
  destruct o as [| | |read|read]; cbn [fd_allowed] in Ha;
    cbn [run_fd] in Hrun;
    rewrite ?incref_refines, ?increfAndClose_refines, ?rwlock_refines in Hrun by done.
  - unfold incref_spec in Hrun. repeat case_match; by simplify_eq/=.
  - unfold increfAndClose_spec in Hrun. repeat case_match; by simplify_eq/=.
  - destruct H as [H|[H|(? & [=] & _)]]; [done|]. pose proof (attached_refs f Hinv).
    unfold attached in *. rewrite (proj2 (Z.ltb_lt 0 _)) in * by tauto. cbn in *. lia.
  - unfold rwlock_spec in Hrun. repeat case_match; by simplify_eq/=.
  - destruct Ha as (_ & Hl & _). destruct H as [H|[H|(read' & [= <-] & H)]]; [done| |].
    + pose proof (attached_refs f Hinv) as Hat. unfold attached in Hat. specialize (H2 read). rewrite Hl in H2. cbn in H2.
      destruct read; cbn in Hl; rewrite Hl in Hat; cbn in Hat; rewrite ?orb_true_r in Hat; specialize (Hat eq_refl); lia.
    + specialize (H2 read). rewrite Hl in H2. cbn in H2.
      destruct read; cbn in H, H2; [destruct Hr as (? & E & _)|destruct Hwr as (? & E & _)]; cbn in E;
        rewrite H in E; symmetry in E; apply Z.eqb_neq in E; lia.
Qed.

(** The counts after a pass that does not panic. *)
Definition answer_of (out : outcome) : option bool :=
  match out with OReturn ok _ _ _ => Some ok | _ => None end.

Lemma pass_fd_inv o out : fd_allowed fd0 pollable (AMutex o) h -> run_fd o (word mu) = out ->
  (forall msg, out <> OPanic msg) -> fd_inv (mu_after o h out mu).
Proof.
  intros Ha Hrun Hout. pose proof (mi_inv _ _ Hmu) as Hinv. destruct holds_counted as [H1 H2].
  pose proof woken_counted as Hre.
  destruct o as [| | |read|read]; cbn [run_fd fd_allowed] in *; destruct out as [msg|[] w r1 r2|w]; try (by destruct (Hout msg));
    cbn [mu_after]; try exact Hinv; (eapply fd_inv_step; [exact Hinv|]).
  - by apply step_incref.
  - by apply step_close.
  - apply step_decref; [lia|done].
  - apply step_decref; [lia|done].
  - by apply step_lock; [apply Hre|].
  - by eapply step_lock_closed; [apply Hre|].
  - by apply step_sleep; [apply Hre|].
  - apply step_unlock; [|done]. specialize (H2 read). destruct Ha as (_ & -> & _) in H2. cbn in H2. lia.
  - apply step_unlock; [|done]. specialize (H2 read). destruct Ha as (_ & -> & _) in H2. cbn in H2. lia.
Qed.

Lemma pass_mu_inv o out : fd_allowed fd0 pollable (AMutex o) h -> run_fd o (word mu) = out ->
  (forall msg, out <> OPanic msg) ->
  mu_inv (<[i := mkG p' (fd_grant fd0 (AMutex o) (answer_of out) h)]> gs) (mu_after o h out mu).
Proof.
  intros Ha Hrun Hout. pose proof (pass_fd_inv o out Ha Hrun Hout) as Hinv.
  assert (match out with OSleep _ => exists read, o = OpRwlock read | _ => True end) as Hsl.
  { destruct (mi_inv _ _ Hmu) as [f (Hf & Hw & _)]. rewrite Hw in Hrun.
    pose proof (pass_word o f Hf) as H. rewrite Hrun in H. destruct out; [done..|apply H]. }
  destruct Hmu as [_ A2 A3 A4 A5 A6]. pose proof (A6 i _ Hi) as Hpos. cbn in Hpos.
  split; [done|..|apply each_insert; [exact A6|]]; [|intros side ..|];
    rewrite ?(total_insert _ _ _ _ _ Hi), <- ?A2, <- ?A3, <- ?A4, <- ?A5; clear A2 A3 A4 A5 A6; cbn [g_h].
  all: unfold woken_for, asleep_for, lock_of in *.
  all: destruct h as [m lr lw wt pr pw cl dy go], o as [| | |read|read]; cbn in Ha, Hpos;
    destruct out as [msg|[] w r1 r2|w]; try (by destruct (Hout msg)); try (by destruct Hsl as [? [=]]).
  all: try (cbn; lia).
  all: try (destruct side; cbn; lia).
  all: destruct read; try destruct side.
  all: first [destruct Ha as [[-> | ->] Hl]|destruct Ha as (-> & Hl & _)]; cbn in *; rewrite ?Hl; cbn; lia.
Qed.

Lemma wake_mu_inv read : h_waits h = Asleep read -> 0 < sema (side_of read mu) ->
  mu_inv (<[i := mkG p' (set_waits (Woken read) h)]> gs) (on_side read wake mu).
Proof.
  intros Hw Hs. assert (0 < asleep (side_of read mu)) as Hb.
  { apply asleep_counted. unfold asleep_for. rewrite Hw. by destruct read. }
  destruct Hmu as [A1 A2 A3 A4 A5 A6]. pose proof (A6 i _ Hi) as Hpos.
  split; [by eapply fd_inv_step, step_wake|..|by apply each_insert]; [|intros side ..];
    rewrite (total_insert _ _ _ _ _ Hi), <- ?A2, <- ?A3, <- ?A4, <- ?A5; unfold asleep_for, woken_for; cbn; rewrite ?Hw.
  all: destruct read; try destruct side; cbn; lia.
Qed.
End mutex.

(** ** The semaphore words and the goroutines in them *)
Definition settled (v : Z) : Prop := v = pdNil \/ v = pdReady.

(** [cl]: the descriptor is closing, and whoever had checked for that before is on its
    way back. *)
Definition phase_ok (cl : bool) (ph : phase) (v : Z) : Prop :=
  match ph with
  | NoWait => True
  | Blocked => settled v \/ v = pdWait
  | Checked => settled v \/ (cl = false /\ v = pdWait)
  | Parked => settled v \/ (cl = false /\ pdWait < v)
  | Back => settled v
  end.

(** A goroutine waits only under the lock of its mode. *)
Definition in_turn (h : holds) : Prop := forall read, phase_of read h <> NoWait -> lock_of read h = true.

Record sem_inv (gs : list goroutine) (pd : pollDesc) : Prop := {
  si_phase read : each (fun h => phase_ok (pd_closing pd) (phase_of read h) (gpp (mode_of read) pd)) gs;
  si_quiet read : each (fun h => phase_of read h = NoWait) gs -> settled (gpp (mode_of read) pd);
  si_turn : each in_turn gs }.

Lemma calmed_settled v v' : calmed v v' -> settled v -> settled v'.
Proof. unfold settled. intros [-> |[-> | ->]]; auto. Qed.

Lemma calmed_phase cl ph v v' : calmed v v' -> phase_ok cl ph v -> phase_ok cl ph v'.
Proof. unfold phase_ok, settled. intros [-> |[-> | ->]]; destruct ph; auto. Qed.

Lemma settled_phase cl ph v : settled v -> phase_ok cl ph v.
Proof. destruct ph; cbn; auto. Qed.

(** Once both words are settled nobody is kept. *)
Lemma sem_settled gs pd : (forall read, settled (gpp (mode_of read) pd)) -> each in_turn gs -> sem_inv gs pd.
Proof. intros Hs Ht. split; [|done|done]. intros read j g _. apply settled_phase, Hs. Qed.

Lemma sem_calm gs pd pd' : same_closing pd pd' -> sem_inv gs pd -> sem_inv gs pd'.
Proof.
  intros [Hc Hcl] [A1 A2 A3]. split; [|intros read Hq; eapply calmed_settled; [apply Hc|by apply A2]|done].
  intros read j g Hj. rewrite Hcl. eapply calmed_phase; [apply Hc|by eapply A1].
Qed.

Lemma lookup_insert_self {A} (l : list A) i x y : l !! i = Some x -> <[i:=y]> l !! i = Some y.
Proof. intros H. apply list_lookup_insert_eq. by eapply lookup_lt_Some. Qed.

(** The goroutine stays where it was in its waits. *)
Lemma sem_frame gs pd i p p' h h' : gs !! i = Some (mkG p h) ->
  (forall read, phase_of read h' = phase_of read h) -> in_turn h' ->
  sem_inv gs pd -> sem_inv (<[i := mkG p' h']> gs) pd.
Proof.
  intros Hi Hp Ht [A1 A2 A3]. split; [| |by apply each_insert].
  - intros read. apply each_insert; [apply A1|]. rewrite Hp. exact (A1 read i _ Hi).
  - intros read Hq. apply A2. intros j g Hj. destruct (decide (j = i)) as [-> |Hne].
    + rewrite Hi in Hj. injection Hj as <-. cbn [g_h]. rewrite <- (Hp read). exact (Hq i _ (lookup_insert_self _ _ _ _ Hi)).
    + apply (Hq j g). by rewrite list_lookup_insert_ne.
Qed.

(** The goroutine that holds the lock of [read] goes on in its wait. *)
Lemma sem_phase gs mu pd i p p' h read ph v : mu_inv gs mu -> gs !! i = Some (mkG p h) -> lock_of read h = true ->
  phase_ok (pd_closing pd) ph v -> (ph = NoWait -> settled v) ->
  sem_inv gs pd -> sem_inv (<[i := mkG p' (set_phase read ph h)]> gs) (set_gpp (mode_of read) v pd).
Proof.
  intros Hmu Hi Hl Hv Hn [A1 A2 A3].
  assert (forall j g, gs !! j = Some g -> j <> i -> phase_of read (g_h g) = NoWait) as Ho.
  { intros j g Hj Hne. destruct (decide (phase_of read (g_h g) = NoWait)) as [|Hw]; [done|].
    pose proof (A3 j g Hj read Hw). by rewrite (lock_alone _ _ Hmu _ _ _ Hi read j g) in *. }
  assert (forall r, phase_of r (set_phase read ph h) = if Bool.eqb r read then ph else phase_of r h) as Hset by (by intros []; destruct read).
  assert (forall r, gpp (mode_of r) (set_gpp (mode_of read) v pd) = if Bool.eqb r read then v else gpp (mode_of r) pd) as Hg
    by (by intros []; destruct read).
  assert (pd_closing (set_gpp (mode_of read) v pd) = pd_closing pd) as Hcl by (by destruct read).
  split.
  - intros r j g [(<- & <- & _)|[Hne Hj]]%list_lookup_insert_Some; cbn [g_h]; rewrite Hg, Hcl.
    + rewrite Hset. destruct (Bool.eqb r read); [done|]. exact (A1 r i _ Hi).
    + destruct (Bool.eqb r read) eqn:E; [apply eqb_prop in E as ->; by rewrite (Ho j g)|by eapply A1].
  - intros r Hq. rewrite Hg. pose proof (Hq i _ (lookup_insert_self _ _ _ _ Hi)) as Hqi. cbn [g_h] in Hqi. rewrite Hset in Hqi.
    destruct (Bool.eqb r read); [by apply Hn|]. apply A2. intros j g Hj. destruct (decide (j = i)) as [-> |Hne].
    + rewrite Hi in Hj. by injection Hj as <-.
    + apply (Hq j g). by rewrite list_lookup_insert_ne.
  - apply each_insert; [done|]. intros r. rewrite Hset. pose proof (A3 i _ Hi r) as Ht. cbn in Ht.
    intros H. destruct r, read; cbn in *; auto.
Qed.

(** The word of a lock's holder that does not wait is settled. *)
Lemma sem_free gs mu pd i p h read : mu_inv gs mu -> gs !! i = Some (mkG p h) -> sem_inv gs pd ->
  lock_of read h = true -> phase_of read h = NoWait -> settled (gpp (mode_of read) pd).
Proof.
  intros Hmu Hi [A1 A2 A3] Hl Hp. apply A2. intros j g Hj. destruct (decide (j = i)) as [-> |Hne].
  - rewrite Hi in Hj. by injection Hj as <-.
  - destruct (decide (phase_of read (g_h g) = NoWait)) as [|Hw]; [done|].
    pose proof (A3 j g Hj read Hw). by rewrite (lock_alone _ _ Hmu _ _ _ Hi read j g) in *.
Qed.

Lemma sem_unheld gs pd : sem_inv gs pd -> each (fun h => forall read, lock_of read h = false) gs ->
  forall read, settled (gpp (mode_of read) pd).
Proof.
  intros [A1 A2 A3] Hl read. apply A2. intros j g Hj. destruct (decide (phase_of read (g_h g) = NoWait)) as [|Hw]; [done|].
  pose proof (A3 j g Hj read Hw). by rewrite (Hl j g Hj) in *.
Qed.
