(* ===== verification/FdSafe.v ===== *)
(** * FdSafe: the life of the descriptor

    The rest of the invariant of FdSystem.v: the descriptor is whole until the last
    holder of a closed one takes it apart, piece by piece and alone; the Close that won
    unblocks the poller once and is woken once.  Every step of the system keeps the
    invariant ([act_ok], [env_ok], [ok_call]), and under it no action a goroutine may
    take is a fault but an overflow ([faults_overflow]). *)
From Stdlib Require Import ZArith Lia List Bool String.
From stdpp Require Import base list strings numbers tactics option relations.
From S2P Require Import Prelude Syscall SyscallSock Netpoll FdMutex FdProg FdIO FdLogic FdSystem FdInv.
Import Netpoll.Deadlines(dsys, mkDs, ds_live, ds_pd, ds_fly, run_locked, seq_room, dinv).

(** The poll descriptor's own invariant: its timers, and the summary it publishes. *)
Definition pd_ok (ds : dsys) : Prop := dinv ds /\ info_published (ds_pd ds).

Lemma pd_ok_info live pd pd' fly : Deadlines.same_timing pd pd' -> Deadlines.same_info pd pd' ->
  pd_ok (mkDs live pd fly) -> pd_ok (mkDs live pd' fly).
Proof.
  intros Ht Hi [Hd Hp]. split; [by eapply Deadlines.same_timing_inv|by eapply Deadlines.same_info_published].
Qed.

Lemma pd_ok_gpp live mode v pd fly : pd_ok (mkDs live pd fly) -> pd_ok (mkDs live (set_gpp mode v pd) fly).
Proof. apply pd_ok_info; [apply Deadlines.same_timing_gpp|apply Deadlines.same_info_gpp]. Qed.

Section life.
Context `{KN : Kernel} `{KL : !KernelLaws} (fd0 : Z) (pollable : bool).

(** ** The life of the descriptor *)
Definition whole (s : shared) : Prop :=
  sh_ctx s = pollable /\ ds_live (sh_ds s) = pollable /\ sh_sysfd s = fd0 /\ sh_open s = true.
Definition gone (s : shared) : Prop := sh_open s = false /\ sh_ctx s = false /\ ds_live (sh_ds s) = false.

(** What is left of it while a goroutine takes it apart. *)
Definition part (d : dying) (s : shared) : Prop :=
  match d with
  | NotDying => True
  | Last => whole s
  | Retired => ds_live (sh_ds s) = false /\ sh_sysfd s = fd0 /\ sh_open s = true
  | Unset => sh_ctx s = false /\ ds_live (sh_ds s) = false /\ sh_sysfd s = fd0 /\ sh_open s = true
  | ClosedFd | ClearedFd => gone s
  end.

Definition is_dying (h : holds) : bool := negb (bool_decide (h_dying h = NotDying)).
Definition dying_n (gs : list goroutine) : Z := total (fun h => Z.b2z (is_dying h)) gs.

Record life (gs : list goroutine) (s : shared) : Prop := {
  li_whole : destroyed (sh_mu s) = 0 -> whole s;
  li_part : each (fun h => part (h_dying h) s) gs;
  li_one : dying_n gs <= destroyed (sh_mu s);
  li_gone : destroyed (sh_mu s) = 1 -> dying_n gs = 0 -> gone s;
  li_seen : each (fun h => h_gone h = true -> sh_open s = false) gs;
  li_csema : 0 < sh_csema s -> sh_open s = false;
  li_posts : sh_csema s + total (fun h => Z.b2z (h_gone h)) gs + dying_n gs = destroyed (sh_mu s) }.

(** Who closes, and what the poll descriptor knows of it. *)
Record closing (gs : list goroutine) (s : shared) : Prop := {
  cl_count : pollable = true ->
    total (fun h => Z.b2z (h_closer h)) gs + Z.b2z (pd_closing (sh_pd s)) = Z.b2z (has_bits (word (sh_mu s)) mutexClosed);
  cl_holds : each (fun h => h_closer h = true -> 0 < h_misc h) gs;
  cl_won : total (fun h => Z.b2z (h_won h)) gs = Z.b2z (has_bits (word (sh_mu s)) mutexClosed);
  cl_gone : each (fun h => h_gone h = true -> h_won h = true) gs }.

Definition returns (p : prog unit) (h : holds) : Prop :=
  @runs holds (@fd_ghost KN fd0 pollable) _ p (fun o h' => is_Some o -> idle h') h.

(** The whole invariant. *)
Record ok (gs : list goroutine) (s : shared) : Prop := {
  ok_mu : mu_inv gs (sh_mu s);
  ok_ds : pd_ok (sh_ds s);
  ok_sem : sem_inv gs (sh_pd s);
  ok_closing : closing gs s;
  ok_life : life gs s;
  ok_runs : forall j g, gs !! j = Some g -> returns (g_prog g) (g_h g) }.

(** What the invariant says of one goroutine. *)
Section one.
Context (gs : list goroutine) (s : shared) (Hok : ok gs s).
Context (i : nat) (p : prog unit) (h : holds) (Hi : gs !! i = Some (mkG p h)).

Lemma attached_whole : attached h = true -> whole s.
Proof. intros Ha. apply (li_whole _ _ (ok_life _ _ Hok)). by eapply attached_alive; [apply Hok|exact Hi|]. Qed.

Lemma usable_live : ctx_usable pollable h -> ds_live (sh_ds s) = true.
Proof. intros [Hp Ha]. destruct (attached_whole Ha) as (_ & -> & _). done. Qed.

Lemma my_ds : pd_ok (mkDs (ds_live (sh_ds s)) (sh_pd s) (ds_fly (sh_ds s))).
Proof. pose proof (ok_ds _ _ Hok) as H. unfold sh_pd. by destruct (sh_ds s). Qed.

Lemma live_ds : ctx_usable pollable h -> dinv (mkDs true (sh_pd s) (ds_fly (sh_ds s))).
Proof. intros Hu. rewrite <- (usable_live Hu). apply my_ds. Qed.

Lemma my_part : part (h_dying h) s.
Proof. exact (li_part _ _ (ok_life _ _ Hok) i _ Hi). Qed.

Lemma dying_counted : h_dying h <> NotDying -> destroyed (sh_mu s) = 1 /\ dying_n gs = 1.
Proof.
  intros Hd. pose proof (li_one _ _ (ok_life _ _ Hok)) as H1.
  pose proof (total_ge _ _ _ _ (nonneg_b2z gs is_dying) Hi) as H2. cbn in H2.
  unfold is_dying at 1 in H2. rewrite bool_decide_eq_false_2 in H2 by done. cbn in H2. fold (dying_n gs) in H2.
  destruct (mi_inv _ _ (ok_mu _ _ Hok)) as [f (_ & _ & _ & _ & _ & _ & E)].
  destruct (closed f && (refs f =? 0)); cbn in E; lia.
Qed.

Lemma dying_alone j g : h_dying h <> NotDying -> gs !! j = Some g -> j <> i -> h_dying (g_h g) = NotDying.
Proof.
  intros Hd Hj Hne. destruct (dying_counted Hd) as [_ H1].
  pose proof (total_two _ gs i j _ _ (nonneg_b2z gs is_dying) ltac:(congruence) Hi Hj) as H2.
  fold (dying_n gs) in H2. cbn in H2. unfold is_dying at 1 in H2. rewrite bool_decide_eq_false_2 in H2 by done.
  unfold is_dying in H2. destruct (decide (h_dying (g_h g) = NotDying)); [done|].
  rewrite bool_decide_eq_false_2 in H2 by done. cbn in H2. lia.
Qed.

(** The last goroutine finds nobody waiting, and the poll descriptor closing. *)
Lemma last_ready : h_dying h = Last -> pollable = true ->
  ds_live (sh_ds s) = true /\ pollClose_check (sh_pd s) = Ret tt (sh_pd s).
Proof.
  intros Hd Hp. pose proof my_part as Hpart. rewrite Hd in Hpart. destruct Hpart as (_ & Hl & _). split; [congruence|].
  destruct (dying_counted ltac:(by rewrite Hd)) as [Hde _].
  destruct (destroyed_unheld _ _ (ok_mu _ _ Hok) Hde) as [Hc Hu].
  assert (each (fun h => forall read, lock_of read h = false) gs) as Hlk by (intros j g Hj; by apply (Hu j g)).
  pose proof (sem_unheld _ _ (ok_sem _ _ Hok) Hlk) as Hs.
  pose proof (cl_count _ _ (ok_closing _ _ Hok) Hp) as Hcl. rewrite Hc in Hcl.
  assert (total (fun h => Z.b2z (h_closer h)) gs = 0) as H0.
  { clear Hcl. pose proof (cl_holds _ _ (ok_closing _ _ Hok)) as Hch.
    assert (each (fun h => h_closer h = false) gs) as Hn.
    { intros j g Hj. destruct (h_closer (g_h g)) eqn:E; [|done]. specialize (Hch j g Hj E). cbn in Hch.
      destruct (Hu j g Hj) as [E0 _]. lia. }
    clear -Hn. induction gs as [|g l IH]; cbn; [done|]. rewrite (Hn O g eq_refl). cbn. apply IH.
    intros j g' Hj. by apply (Hn (S j) g'). }
  assert (pd_closing (sh_pd s) = true) as Hcls by (destruct (pd_closing (sh_pd s)); [done|cbn in Hcl; lia]).
  unfold pollClose_check. unfold go_bind at 1, go_get at 1. rewrite Hcls. cbn [negb].
  pose proof (Hs false) as Hw. pose proof (Hs true) as Hr. unfold settled, mode_of in *.
  destruct Hw as [Hw|Hw], Hr as [Hr|Hr]; unfold gpp in *; cbn in Hw, Hr; cbn; by rewrite ?Hw, ?Hr.
Qed.

Lemma closer_open : ctx_usable pollable h -> h_closer h = true -> pd_closing (sh_pd s) = false.
Proof.
  intros [Hp _] Hc. pose proof (cl_count _ _ (ok_closing _ _ Hok) Hp) as H.
  pose proof (total_ge _ _ _ _ (nonneg_b2z gs h_closer) Hi) as H1. cbn in H1. rewrite Hc in H1. cbn in H1.
  destruct (pd_closing (sh_pd s)), (has_bits _ _); cbn in H; lia.
Qed.

(** ** The answers and the faults of one goroutine's next action *)
Context (Hfd0 : 0 <= fd0).

Lemma waiting_word mode ph : in_mode mode ph h -> phase_ok (pd_closing (sh_pd s)) ph (gpp mode (sh_pd s)).
Proof.
  unfold in_mode. destruct (side_of_mode mode) as [read|] eqn:E; [|done]. intros [_ <-].
  rewrite (side_of_mode_Some _ _ E). exact (si_phase _ _ (ok_sem _ _ Hok) read i _ Hi).
Qed.

Lemma free_word mode : in_mode mode NoWait h -> settled (gpp mode (sh_pd s)).
Proof.
  unfold in_mode. destruct (side_of_mode mode) as [read|] eqn:E; [|done]. intros [Hl Hp].
  rewrite (side_of_mode_Some _ _ E). eapply sem_free; [apply Hok|exact Hi|apply Hok|done..].
Qed.

Lemma does_possible a r s' : fd_allowed fd0 pollable a h -> does fd0 a r h s s' -> fd_possible fd0 pollable a r h.
Proof.
  intros Ha Hd. destruct a; cbn in *; try done.
  - destruct Hd as [_ Hr]. destruct (mi_inv _ _ (ok_mu _ _ Hok)) as [f (Hf & Hw & _)].
    pose proof (pass_word o f Hf) as H. rewrite <- Hw in H.
    destruct (run_fd o _); [done|by subst; destruct o; eauto|]. destruct H as [[read ->] _]. done.
  - destruct Hd as [-> _]. intros [Hat|Hdy]; [by apply attached_whole|]. pose proof my_part as Hp.
    destruct Hdy as [Hdy|[Hdy|Hdy]]; rewrite Hdy in Hp; apply Hp.
  - destruct Hd as [-> _]. intros [Hat|Hdy]; [by apply attached_whole|]. pose proof my_part as Hp. rewrite Hdy in Hp. apply Hp.
  - destruct Hd as (_ & -> & _). apply checkerr_range.
  - destruct Hd as (_ & pd' & [-> _] & _). destruct Ha as [_ [Hm|[Hm|Hm]]]; apply waiting_word in Hm; unfold phase_ok, settled in Hm; tauto.
  - apply Hd.
Qed.

Lemma faults_overflow a msg : fd_allowed fd0 pollable a h -> faults fd0 a s msg -> msg = overflowMsg \/ write_panic msg.
Proof.
  intros Ha Hf. destruct a; cbn [fd_allowed sys_allowed faults] in Ha, Hf; cbv zeta in Hf; try done.
  - left. by eapply (pass_no_panic fd0 pollable); [apply Hok|exact Hi|exact Ha|].
  - destruct Hf as [Hf _]. rewrite usable_live in Hf; [done|apply Ha].
  - destruct Hf as [Hf _]. rewrite usable_live in Hf; [done|apply Ha].
  - destruct Ha as [Hu Hm]. pose proof (free_word _ Hm) as Hw. unfold settled in Hw.
    rewrite (usable_live Hu) in Hf. destruct Hf as [[[=] _]|(H1 & H2 & _)]. by destruct Hw.
  - destruct Hf as [Hf _]. rewrite usable_live in Hf; [done|apply Ha].
  - destruct Hf as [Hf _]. rewrite usable_live in Hf; [done|apply Ha].
  - destruct Hf as [Hf _]. rewrite usable_live in Hf; [done|apply Ha].
  - destruct Ha as [Hu Hc]. rewrite (usable_live Hu) in Hf. destruct Hf as [[[=] _]|(Hroom & pd' & E)].
    destruct (Deadlines.pollUnblock_ok _ _ (live_ds Hu) Hroom (closer_open Hu Hc)) as (out & pd2 & E2 & _). by rewrite E2 in E.
  - destruct (last_ready (proj2 Ha) (proj1 Ha)) as [Hl Hck]. rewrite Hl, Hck in Hf. by destruct Hf as [[[=] _]|[? [=]]].
  - destruct Ha as [Hu _]. rewrite (usable_live Hu) in Hf. destruct Hf as [[[=] _]|(Hroom & now & pd' & E)].
    destruct (Deadlines.setDeadline_ok now d mode _ _ (live_ds Hu) Hroom) as (out & pd2 & E2 & _). by rewrite E2 in E.
  - destruct Hf as [Hf _]. exfalso.
    assert (match r with SClose _ => False | _ => True end -> (if req_fd r =? fd0 then attached h = true else req_fd r <> -1) -> False) as Hoth.
    { intros _ H. destruct (Z.eqb_spec (req_fd r) fd0) as [E|E].
      - destruct (attached_whole H) as (_ & _ & _ & Hop). rewrite Hop in Hf. destruct Hf as [[_ [=]]|Hf]; lia.
      - destruct Hf as [[Hf _]|Hf]; lia. }
    destruct r; try (by apply Hoth). cbn in *. destruct (Z.eqb_spec fd fd0) as [E|E].
    + pose proof my_part as Hp. rewrite Ha in Hp. destruct pollable; destruct Hp as (_ & _ & _ & Hop); rewrite Hop in Hf;
        (destruct Hf as [[_ [=]]|Hf]; lia).
    + destruct Hf as [[Hf _]|Hf]; lia.
  - right. by subst msg.
Qed.

(** ** Steps of one goroutine *)
Definition same_body (s s' : shared) : Prop :=
  sh_ctx s' = sh_ctx s /\ ds_live (sh_ds s') = ds_live (sh_ds s) /\ sh_sysfd s' = sh_sysfd s /\ sh_open s' = sh_open s.

Lemma part_body s1 s2 d : same_body s1 s2 -> part d s1 -> part d s2.
Proof. intros (E1 & E2 & E3 & E4). unfold part, whole, gone. by rewrite E1, E2, E3, E4. Qed.

Lemma life_frame p' h' s' : h_dying h' = h_dying h -> (h_gone h' = true -> h_gone h = true \/ sh_open s = false) ->
  destroyed (sh_mu s') = destroyed (sh_mu s) -> same_body s s' ->
  sh_csema s' + Z.b2z (h_gone h') = sh_csema s + Z.b2z (h_gone h) -> sh_csema s' <= sh_csema s ->
  life (<[i := mkG p' h']> gs) s'.
Proof.
  intros Hd Hg Hde Hb Hsum Hcs. pose proof Hb as (E1 & E2 & E3 & E4). destruct (ok_life _ _ Hok) as [A1 A2 A3 A4 A5 A6 A7].
  assert (dying_n (<[i := mkG p' h']> gs) = dying_n gs) as Hn.
  { unfold dying_n. rewrite (total_insert _ _ _ _ _ Hi). cbn. unfold is_dying. rewrite Hd. lia. }
  split; rewrite ?Hde, ?Hn, ?E4; auto.
  - intros H. by apply (part_body s s' Last Hb), A1.
  - apply each_insert; [|rewrite Hd]; [intros j g Hj|]; (apply (part_body s s' _ Hb)); [by eapply A2|exact (A2 i _ Hi)].
  - intros H1 H2. by apply (part_body s s' ClosedFd Hb), A4.
  - apply each_insert; [exact A5|]. intros [H|H]%Hg; [exact (A5 i _ Hi H)|done].
  - intros H. apply A6. lia.
  - rewrite (total_insert _ _ _ _ _ Hi). cbn [g_h]. lia.
Qed.

Lemma closing_frame p' h' s' : h_closer h' = h_closer h -> h_misc h' = h_misc h ->
  h_won h' = h_won h -> (h_gone h' = true -> h_won h' = true) ->
  pd_closing (sh_pd s') = pd_closing (sh_pd s) ->
  has_bits (word (sh_mu s')) mutexClosed = has_bits (word (sh_mu s)) mutexClosed ->
  closing (<[i := mkG p' h']> gs) s'.
Proof.
  intros Hc Hm Hwo Hgo Hp Hw. destruct (ok_closing _ _ Hok) as [A1 A2 A3 A4]. split.
  - intros Hpo. rewrite (total_insert _ _ _ _ _ Hi), Hp, Hw. cbn [g_h]. rewrite Hc. specialize (A1 Hpo). lia.
  - apply each_insert; [exact A2|]. rewrite Hc, Hm. exact (A2 i _ Hi).
  - rewrite (total_insert _ _ _ _ _ Hi), Hw. cbn [g_h]. rewrite Hwo. lia.
  - by apply each_insert.
Qed.

Lemma runs_frame p' h' : returns p' h' ->
  forall j g, <[i := mkG p' h']> gs !! j = Some g -> returns (g_prog g) (g_h g).
Proof. intros H j g [(<- & <- & _)|[_ Hj]]%list_lookup_insert_Some; [done|by apply (ok_runs _ _ Hok j)]. Qed.

(** A step that leaves the mutex and the descriptor alone. *)
Lemma ok_quiet p' h' s' : returns p' h' -> same_counts h h' -> h_closer h' = h_closer h -> h_dying h' = h_dying h ->
  h_won h' = h_won h -> (h_gone h' = true -> h_won h' = true /\ (h_gone h = true \/ sh_open s = false)) ->
  sh_mu s' = sh_mu s -> same_body s s' ->
  sh_csema s' + Z.b2z (h_gone h') = sh_csema s + Z.b2z (h_gone h) -> sh_csema s' <= sh_csema s ->
  pd_ok (sh_ds s') -> pd_closing (sh_pd s') = pd_closing (sh_pd s) ->
  sem_inv (<[i := mkG p' h']> gs) (sh_pd s') -> ok (<[i := mkG p' h']> gs) s'.
Proof.
  intros Hr Hc Hcl Hd Hwo Hg Hmu Hb Hsum Hcs Hds Hp Hsem. split; try done.
  - rewrite Hmu. eapply mu_inv_frame; [exact Hi|exact Hc|apply Hok].
  - apply closing_frame; [done|apply Hc|done|by intros H; apply Hg|done|by rewrite Hmu].
  - apply life_frame; [done|by intros H; apply Hg|by rewrite Hmu|done..].
  - by apply runs_frame.
Qed.

(** Its own waits unchanged. *)
Lemma my_turn : in_turn h.
Proof. exact (si_turn _ _ (ok_sem _ _ Hok) i _ Hi). Qed.

Lemma my_won : h_gone h = true -> h_won h = true.
Proof. exact (cl_gone _ _ (ok_closing _ _ Hok) i _ Hi). Qed.

Lemma ok_same p' s' : returns p' h -> sh_mu s' = sh_mu s -> same_body s s' -> sh_csema s' = sh_csema s ->
  pd_ok (sh_ds s') -> same_closing (sh_pd s) (sh_pd s') -> ok (<[i := mkG p' h]> gs) s'.
Proof.
  intros Hr Hmu Hb Hcs Hds Hca. apply ok_quiet; auto using my_won; [by split_and!|by rewrite Hcs|lia|apply Hca|].
  eapply sem_frame; [exact Hi|done|apply my_turn|]. eapply sem_calm; [exact Hca|apply Hok].
Qed.

(** Taking the descriptor apart, one piece further. *)
Lemma ok_die p' d s' : returns p' (set_dying d h) -> h_dying h <> NotDying -> sh_mu s' = sh_mu s ->
  pd_ok (sh_ds s') -> same_closing (sh_pd s) (sh_pd s') ->
  part d s' -> (d = NotDying -> gone s') -> (sh_open s = false -> sh_open s' = false) ->
  (0 < sh_csema s' -> sh_open s' = false) ->
  sh_csema s' = sh_csema s + match d with NotDying => 1 | _ => 0 end ->
  ok (<[i := mkG p' (set_dying d h)]> gs) s'.
Proof.
  intros Hr Hd Hmu Hds Hca Hpart Hgone Hop Hcs Hpost. destruct (dying_counted Hd) as [Hde Hn].
  destruct (ok_life _ _ Hok) as [A1 A2 A3 A4 A5 A6 A7].
  assert (dying_n (<[i := mkG p' (set_dying d h)]> gs) = Z.b2z (is_dying (set_dying d h))) as Hn'.
  { unfold dying_n in *. rewrite (total_insert _ _ _ _ _ Hi), Hn. cbn [g_h]. unfold is_dying at 1.
    rewrite bool_decide_eq_false_2 by done. cbn. lia. }
  split; try done.
  - rewrite Hmu. eapply mu_inv_frame; [exact Hi|by split_and!|apply Hok].
  - eapply sem_frame; [exact Hi|by intros []|exact my_turn|]. eapply sem_calm; [exact Hca|apply Hok].
  - apply closing_frame; [done|done|done|exact my_won|apply Hca|by rewrite Hmu].
  - split; rewrite ?Hmu, ?Hde, ?Hn'; [done| |by destruct (is_dying _); cbn; lia| | |done|].
    + intros j g [(<- & <- & _)|[Hne Hj]]%list_lookup_insert_Some; [done|]. by rewrite (dying_alone j g).
    + intros _. unfold is_dying. cbn [h_dying set_dying]. destruct (decide (d = NotDying)) as [E|E]; [by intros _; apply Hgone|].
      by rewrite bool_decide_eq_false_2.
    + apply each_insert; [intros j g Hj H; apply Hop; by eapply A5|]. intros H. apply Hop. exact (A5 i _ Hi H).
    + rewrite (total_insert _ _ _ _ _ Hi). cbn [g_h set_dying h_gone]. unfold is_dying. cbn [set_dying h_dying].
      rewrite Hpost. rewrite Hn, Hde in A7. destruct d;
        first [rewrite bool_decide_eq_true_2 by done|rewrite bool_decide_eq_false_2 by done]; cbn; lia.
  - by apply runs_frame.
Qed.

Lemma ok_wake p' read : returns p' (set_waits (Woken read) h) -> h_waits h = Asleep read ->
  0 < sema (side_of read (sh_mu s)) ->
  ok (<[i := mkG p' (set_waits (Woken read) h)]> gs) (set_mu (on_side read wake (sh_mu s)) s).
Proof.
  intros Hr Hw Hs. split; try apply Hok.
  - by eapply wake_mu_inv; [apply Hok|exact Hi| |].
  - eapply sem_frame; [exact Hi|done|exact my_turn|apply Hok].
  - apply closing_frame; try done; [exact my_won|by destruct read].
  - apply life_frame; try done; [by auto|by destruct read].
  - by apply runs_frame.
Qed.

(** A pass of the mutex.  The last reference of a closed descriptor is gone: *)
Definition last_out (o : fd_op) (out : outcome) : bool :=
  match o, out with (OpDecref | OpRwunlock _), OReturn d _ _ _ => d | _, _ => false end.

Lemma pass_destroyed o out mu : destroyed (mu_after o h out mu) = destroyed mu + Z.b2z (last_out o out).
Proof.
  destruct o as [| | |[]|[]], out as [?|[] ? ? ?|?]; unfold mu_after, attempt; cbn; try case_match; cbn; lia.
Qed.

Lemma pass_dying o out : h_dying (fd_grant fd0 (AMutex o) (answer_of out) h) = if last_out o out then Last else h_dying h.
Proof. by destruct o as [| | |[]|[]], out as [?|[] ? ? ?|?]. Qed.

Lemma pass_gone o out : h_gone (fd_grant fd0 (AMutex o) (answer_of out) h) = h_gone h.
Proof. by destruct o as [| | |[]|[]], out as [?|[] ? ? ?|?]. Qed.

Lemma pass_phase o out read : phase_of read (fd_grant fd0 (AMutex o) (answer_of out) h) = phase_of read h.
Proof. by destruct o as [| | |[]|[]], out as [?|[] ? ? ?|?], read. Qed.

Lemma pass_turn o out : fd_allowed fd0 pollable (AMutex o) h -> in_turn (fd_grant fd0 (AMutex o) (answer_of out) h).
Proof.
  intros Ha read Hw. rewrite pass_phase in Hw. pose proof (my_turn read Hw) as Hl.
  destruct o as [| | |r|r]; cbn [fd_allowed] in Ha; destruct out as [?|[] ? ? ?|?]; cbn; try done.
  all: try (destruct Ha as [_ Hf]; by destruct r, read; cbn in *; congruence).
  all: try (destruct Ha as (_ & _ & Hn & _); by destruct r, read; cbn in *; congruence).
Qed.

(** The closed bit is set by the closer. *)
Lemma pass_closed o out : run_fd o (word (sh_mu s)) = out -> (forall msg, out <> OPanic msg) ->
  has_bits (word (mu_after o h out (sh_mu s))) mutexClosed =
  bit_after o (default false (answer_of out)) (has_bits (word (sh_mu s)) mutexClosed).
Proof.
  intros Hrun Hout. destruct (mi_inv _ _ (ok_mu _ _ Hok)) as [f (Hf & Hw & _)]. pose proof (pass_word o f Hf) as H.
  rewrite <- Hw, Hrun in H. rewrite <- (has_closed f Hf), <- Hw in H.
  destruct o as [| | |r|r], out as [?|[] ? ? ?|?]; try (by edestruct Hout); cbn; try done;
    try (by destruct H as [[? [=]] _]); unfold attempt; try case_match; try destruct r; cbn; try exact H; try apply H; try done.
  by rewrite orb_false_r.
Qed.

(** A pass that closes is the first. *)
Lemma pass_first w r1 r2 : run_fd OpIncrefAndClose (word (sh_mu s)) = OReturn true w r1 r2 ->
  has_bits (word (sh_mu s)) mutexClosed = false.
Proof. cbn [run_fd]. unfold increfAndClose. by destruct (has_bits (word (sh_mu s)) mutexClosed). Qed.

Lemma pass_won o out : run_fd o (word (sh_mu s)) = out -> (forall msg, out <> OPanic msg) ->
  Z.b2z (h_won (fd_grant fd0 (AMutex o) (answer_of out) h)) - Z.b2z (h_won h) =
  Z.b2z (bit_after o (default false (answer_of out)) (has_bits (word (sh_mu s)) mutexClosed)) -
  Z.b2z (has_bits (word (sh_mu s)) mutexClosed).
Proof.
  intros Hrun Hout. pose proof (cl_won _ _ (ok_closing _ _ Hok)) as Hw.
  destruct o as [| | |[]|[]], out as [?|[] w r1 r2|?]; try (by edestruct Hout); cbn; rewrite ?orb_false_r; try lia.
  pose proof (pass_first _ _ _ Hrun) as Hc. rewrite Hc in *. cbn in *.
  pose proof (total_none h_won gs Hw i _ Hi) as Hn. cbn in Hn. rewrite Hn. done.
Qed.

Lemma pass_closing p' o out : fd_allowed fd0 pollable (AMutex o) h ->
  run_fd o (word (sh_mu s)) = out -> (forall msg, out <> OPanic msg) ->
  closing (<[i := mkG p' (fd_grant fd0 (AMutex o) (answer_of out) h)]> gs) (set_mu (mu_after o h out (sh_mu s)) s).
Proof.
  intros Ha Hrun Hout. destruct (ok_closing _ _ Hok) as [A1 A2 A3 A4].
  pose proof (A2 i _ Hi) as Hch. cbn [g_h] in Hch. pose proof (mi_pos _ _ (ok_mu _ _ Hok) i _ Hi) as Hpos. cbn [g_h] in Hpos.
  split.
  - intros Hpo. specialize (A1 Hpo). rewrite (total_insert _ _ _ _ _ Hi). cbn [g_h sh_mu set_mu sh_pd].
    rewrite (pass_closed o out Hrun Hout). change (sh_pd (set_mu _ s)) with (sh_pd s).
    assert (forall b, h_closer (fd_grant fd0 (AMutex o) (answer_of out) h) = b -> b = h_closer h ->
      bit_after o (default false (answer_of out)) (has_bits (word (sh_mu s)) mutexClosed) = has_bits (word (sh_mu s)) mutexClosed ->
      total (fun h => Z.b2z (h_closer h)) gs - Z.b2z (h_closer h) + Z.b2z b + Z.b2z (pd_closing (sh_pd s)) =
      Z.b2z (bit_after o (default false (answer_of out)) (has_bits (word (sh_mu s)) mutexClosed))) as Hsame
      by (intros b _ -> ->; lia).
    destruct o as [| | |r|r]; cbn [fd_allowed] in Ha.
    + apply (Hsame _ eq_refl); [|done]. by destruct out as [?|[] ? ? ?|?].
    + destruct out as [?|[] w r1 r2|?]; try (by edestruct Hout).
      * pose proof (pass_first _ _ _ Hrun) as Hc. rewrite Hc in A1 |- *. destruct Ha as [_ ->]. cbn in *. lia.
      * apply (Hsame _ eq_refl); [done|]. cbn. by rewrite orb_false_r.
      * apply (Hsame _ eq_refl); [done|]. cbn. by rewrite orb_false_r.
    + apply (Hsame _ eq_refl); [|done]. destruct Ha as (_ & _ & Hn & _).
      destruct (h_closer h); [by rewrite Hn in Hpo by done|]. by destruct out as [?|[] ? ? ?|?].
    + apply (Hsame _ eq_refl); [|done]. by destruct out as [?|[] ? ? ?|?], r.
    + apply (Hsame _ eq_refl); [|done]. by destruct out as [?|[] ? ? ?|?], r.
  - apply each_insert; [exact A2|].
    destruct o as [| | |[]|[]], out as [?|[] ? ? ?|?]; cbn; intros Hc; try done; try (by apply Hch); lia.
  - rewrite (total_insert _ _ _ _ _ Hi), A3. cbn [g_h sh_mu set_mu]. rewrite (pass_closed o out Hrun Hout).
    pose proof (pass_won o out Hrun Hout). lia.
  - apply each_insert; [exact A4|]. rewrite pass_gone. intros Hg. specialize (my_won Hg).
    by destruct o as [| | |[]|[]], out as [?|[] ? ? ?|?].
Qed.

Lemma ok_pass p' o out : fd_allowed fd0 pollable (AMutex o) h ->
  run_fd o (word (sh_mu s)) = out -> (forall msg, out <> OPanic msg) ->
  returns p' (fd_grant fd0 (AMutex o) (answer_of out) h) ->
  ok (<[i := mkG p' (fd_grant fd0 (AMutex o) (answer_of out) h)]> gs) (set_mu (mu_after o h out (sh_mu s)) s).
Proof.
  intros Ha Hrun Hout Hret.
  pose proof (pass_mu_inv fd0 pollable _ _ (ok_mu _ _ Hok) i p p' h Hi o out Ha Hrun Hout) as Hmu.
  destruct (ok_life _ _ Hok) as [A1 A2 A3 A4 A5 A6 A7].
  assert (last_out o out = true -> h_dying h = NotDying) as Hnd.
  { intros Hl. unfold last_out in Hl. destruct o; try done; cbn in Ha; tauto. }
  pose proof (pass_destroyed o out (sh_mu s)) as Hde.
  assert (0 <= destroyed (sh_mu s) /\ 0 <= destroyed (mu_after o h out (sh_mu s)) <= 1) as [Hd0 Hd1].
  { destruct (mi_inv _ _ (ok_mu _ _ Hok)) as [f (_ & _ & _ & _ & _ & _ & ->)].
    destruct (mi_inv _ _ Hmu) as [f' (_ & _ & _ & _ & _ & _ & ->)]. by split; [|apply b2z_bound]; apply b2z_bound. }
  set (h' := fd_grant fd0 (AMutex o) (answer_of out) h) in *.
  assert (dying_n (<[i := mkG p' h']> gs) = dying_n gs + Z.b2z (last_out o out)) as Hn.
  { unfold dying_n. rewrite (total_insert _ _ _ _ _ Hi). cbn [g_h].
    assert (is_dying h' = if last_out o out then true else is_dying h) as ->
      by (unfold is_dying, h'; rewrite pass_dying; by destruct (last_out o out)).
    destruct (last_out o out) eqn:E; [|cbn; lia].
    assert (is_dying h = false) as -> by (unfold is_dying; by rewrite Hnd). cbn. lia. }
  split; try apply Hok; try done.
  - eapply sem_frame; [exact Hi|apply pass_phase|by apply pass_turn|apply Hok].
  - by apply pass_closing.
  - assert (0 <= dying_n gs) as Hnn by (apply total_nonneg, nonneg_b2z).
    split; cbn [sh_mu set_mu sh_csema sh_open]; rewrite ?Hn, ?Hde; try done.
    + intros H. apply A1. destruct (last_out o out); cbn in *; lia.
    + apply each_insert; [exact A2|]. unfold h'. rewrite pass_dying. destruct (last_out o out); [|exact (A2 i _ Hi)].
      apply A1. cbn in *. lia.
    + lia.
    + intros H1 H2. apply A4; destruct (last_out o out); cbn in *; lia.
    + apply each_insert; [exact A5|]. unfold h'. rewrite pass_gone. exact (A5 i _ Hi).
    + rewrite (total_insert _ _ _ _ _ Hi). cbn [g_h]. unfold h'. rewrite pass_gone. lia.
  - by apply runs_frame.
Qed.

(** evict, by the goroutine whose Close won. *)
Lemma ok_unblock p' out pd' : ctx_usable pollable h -> h_closer h = true -> seq_room (sh_pd s) ->
  pollUnblock_locked (sh_pd s) = Ret out pd' -> returns p' (set_closer false h) ->
  ok (<[i := mkG p' (set_closer false h)]> gs) (set_pd pd' s).
Proof.
  intros Hu Hc Hroom E Hret. destruct (pollUnblock_closes _ _ _ E) as (Hset & Hcl & Hop).
  destruct (Deadlines.pollUnblock_ok _ _ (live_ds Hu) Hroom Hop) as (out2 & pd2 & E2 & Hds).
  rewrite E in E2. injection E2 as <- <-.
  split; try done.
  - eapply mu_inv_frame; [exact Hi|by split_and!|apply Hok].
  - unfold set_pd. cbn [sh_ds set_ds]. rewrite (usable_live Hu). split; [exact Hds|by eapply Deadlines.pollUnblock_published].
  - apply sem_settled; [exact Hset|]. apply each_insert; [apply (ok_sem _ _ Hok)|exact my_turn].
  - destruct (ok_closing _ _ Hok) as [A1 A2 A3 A4]. split; [|by apply each_insert| |apply each_insert; [done|exact my_won]].
    + intros Hp. specialize (A1 Hp). rewrite (total_insert _ _ _ _ _ Hi). cbn [g_h]. rewrite Hc. rewrite Hop in A1.
      change (sh_pd (set_pd pd' s)) with pd'. rewrite Hcl. cbn in *. lia.
    + rewrite (total_insert _ _ _ _ _ Hi). cbn [g_h set_closer h_won set_pd sh_mu set_ds]. lia.
  - apply life_frame; try done. by auto.
  - by apply runs_frame.
Qed.

(** A step of the poll descriptor in one of the goroutine's waits. *)
Lemma ok_wait p' mode ph ph' v : in_mode mode ph h -> ctx_usable pollable h ->
  phase_ok (pd_closing (sh_pd s)) ph' v -> (ph' = NoWait -> settled v) -> returns p' (to_phase mode ph' h) ->
  ok (<[i := mkG p' (to_phase mode ph' h)]> gs) (set_pd (set_gpp mode v (sh_pd s)) s).
Proof.
  unfold in_mode, to_phase. destruct (side_of_mode mode) as [read|] eqn:E; [|done].
  rewrite (side_of_mode_Some _ _ E). intros [Hl _] Hu Hv Hn Hret. pose proof my_won. apply ok_quiet; try done.
  - by destruct read.
  - by destruct read.
  - by destruct read.
  - by destruct read.
  - destruct read; by auto.
  - by destruct read.
  - apply pd_ok_gpp, my_ds.
  - by destruct read.
  - eapply sem_phase; [apply Hok|exact Hi|done|done|done|apply Hok].
Qed.

(** A step that leaves the goroutine's waits alone and the poll descriptor calm. *)
Lemma ok_poll p' pd' : pd_ok (mkDs (ds_live (sh_ds s)) pd' (ds_fly (sh_ds s))) -> same_closing (sh_pd s) pd' ->
  returns p' h -> ok (<[i := mkG p' h]> gs) (set_pd pd' s).
Proof. intros Hds Hc Hret. by apply ok_same. Qed.

Lemma set_gpp_calm mode v : settled v -> same_closing (sh_pd s) (set_gpp mode v (sh_pd s)).
Proof.
  intros Hv. split; [|unfold set_gpp; by case_match]. intros read. unfold calmed, settled, gpp, set_gpp, mode_of in *.
  destruct (mode =? mode_w), read; cbn; tauto.
Qed.

Lemma settled_nil : settled pdNil.
Proof. by left. Qed.

Lemma ok_deadline p' now d mode out pd' : ctx_usable pollable h -> seq_room (sh_pd s) ->
  setDeadline_locked now d mode (sh_pd s) = Ret out pd' -> returns p' h -> ok (<[i := mkG p' h]> gs) (set_pd pd' s).
Proof.
  intros Hu Hroom E Hret. apply ok_poll; [|by eapply quietly_setDeadline|done].
  destruct (Deadlines.setDeadline_ok now d mode _ _ (live_ds Hu) Hroom) as (out2 & pd2 & E2 & Hds).
  rewrite E in E2. injection E2 as <- <-. rewrite (usable_live Hu). split; [done|].
  eapply Deadlines.setDeadline_published; [apply (ok_ds _ _ Hok)|exact E].
Qed.

(** A check that finds no error finds the descriptor not closing. *)
Lemma check_open mode : netpollcheckerr (sh_pd s) mode = pollNoError -> pd_closing (sh_pd s) = false.
Proof.
  rewrite netpollcheckerr_published by apply (ok_ds _ _ Hok). by destruct (pd_closing (sh_pd s)).
Qed.

Lemma set_gpp_id mode pd : set_gpp mode (gpp mode pd) pd = pd.
Proof. unfold set_gpp, gpp. by destruct (mode =? mode_w), pd. Qed.

Lemma set_pd_id : set_pd (sh_pd s) s = s.
Proof. by destruct s as [? ? [] ? ? ? ?]. Qed.

Lemma ok_check p' mode : ctx_usable pollable h -> 
  let r := netpollcheckerr (sh_pd s) mode in
  returns p' (fd_grant fd0 (ACheckErr mode) r h) -> ok (<[i := mkG p' (fd_grant fd0 (ACheckErr mode) r h)]> gs) s.
Proof.
  intros Hu r Hret. unfold r in *. clear r. cbn [fd_grant] in *. pose proof (ok_ds _ _ Hok) as Hds.
  destruct (Z.eqb_spec (netpollcheckerr (sh_pd s) mode) pollNoError) as [E|]; [|by apply ok_same].
  destruct (is_blocked mode h) eqn:Eb; cbn [andb] in *; [|by apply ok_same].
  assert (in_mode mode Blocked h) as Hm.
  { unfold is_blocked, in_mode in *. destruct (side_of_mode mode); [|done]. apply bool_decide_eq_true in Eb.
    split; [|done]. apply my_turn. by rewrite Eb. }
  pose proof (waiting_word _ _ Hm) as Hw. rewrite <- set_pd_id at 1. rewrite <- (set_gpp_id mode (sh_pd s)).
  eapply ok_wait; [exact Hm|exact Hu| |done|done]. cbn in *. destruct Hw as [|]; [by left|right]. by eauto using check_open.
Qed.

Lemma ok_retire p' pd' : pollable = true -> h_dying h = Last -> pollClose_check (sh_pd s) = Ret tt pd' ->
  returns p' (set_dying Retired h) ->
  ok (<[i := mkG p' (set_dying Retired h)]> gs) (set_ds (mkDs false (free_locked pd') (ds_fly (sh_ds s))) s).
Proof.
  intros Hp Hd E Hret. destruct (Deadlines.pollClose_check_inv _ _ E) as [-> Hcl].
  pose proof my_part as Hpart. rewrite Hd in Hpart. destruct Hpart as (H1 & H2 & H3 & H4).
  apply ok_die; try done; [by rewrite Hd| |by split; [intros []; left|]|apply (li_csema _ _ (ok_life _ _ Hok))|cbn; lia].
  pose proof my_ds as Hds. rewrite H2, Hp in Hds.
  split; [apply Deadlines.pollClose_ok; [done|apply Hds]|apply publishInfo_published].
Qed.

(** Every action keeps the invariant. *)
Lemma act_ok a k r s' : p = Act a k -> does fd0 a r h s s' ->
  ok (<[i := mkG (k r) (fd_grant fd0 a r h)]> gs) s'.
Proof.
  intros Hact Hd. pose proof (ok_runs _ _ Hok i _ Hi) as Hr0. cbn [g_h g_prog] in Hr0. rewrite Hact in Hr0. destruct Hr0 as [Ha Hk].
  specialize (Hk r (does_possible a r s' Ha Hd)). fold (returns (k r) (fd_grant fd0 a r h)) in Hk.
  change (allowed a h) with (fd_allowed fd0 pollable a h) in Ha. change (grant a r h) with (fd_grant fd0 a r h) in Hk.
  pose proof (li_csema _ _ (ok_life _ _ Hok)) as Hcs. pose proof (ok_ds _ _ Hok) as Hds. pose proof my_part as Hpart.
  destruct a; cbn [fd_allowed does] in Ha, Hd; cbv zeta in Hd.
  - destruct Hd as [-> Hr]. destruct (run_fd o (word (sh_mu s))) as [m|ok_ w r1 r2|w] eqn:E; [done| |]; rewrite Hr in *; clear Hr.
    + by apply (ok_pass (k (Some ok_)) o (OReturn ok_ w r1 r2)).
    + by apply (ok_pass (k None) o (OSleep w)).
  - destruct Hd as [Hs ->]. apply ok_wake; [done|by rewrite Ha|done].
  - destruct Hd as [-> ->]. by apply ok_same.
  - subst s'. cbn [fd_grant] in *. apply ok_die; try done; try (rewrite Ha in *; done). cbn. lia.
  - destruct Hd as [-> ->]. by apply ok_same.
  - subst s'. cbn [fd_grant] in *. apply ok_die; try done; rewrite Ha in *; [done| |cbn; lia]. by destruct Hpart as (H1 & H2 & H3).
  - destruct Hd as [-> ->]. by apply ok_same.
  - subst s'. by apply ok_same.
  - destruct Hd as [Hp ->]. cbn [fd_grant] in *. apply ok_quiet; try done; [by rewrite Ha; auto|by rewrite Ha; cbn; lia|cbn; lia|].
    eapply sem_frame; [exact Hi|done|exact my_turn|apply Hok].
  - subst s'. cbn [fd_grant] in *. rewrite Ha in Hpart. apply ok_die; try done; [by rewrite Ha|]. intros _. apply Hpart.
  - destruct Hd as (_ & -> & ->). by apply ok_check; [apply Ha|].
  - destruct Hd as (_ & pd' & -> & ->). apply ok_poll; [apply pd_ok_gpp, my_ds|apply set_gpp_calm, settled_nil|done].
  - destruct Ha as [Hu Hm]. destruct Hd as (_ & pd' & Hp & ->). cbn [fd_grant] in *.
    destruct Hp as [(_ & -> & ->)|(_ & -> & ->)].
    + apply ok_poll; [apply pd_ok_gpp, my_ds|apply set_gpp_calm, settled_nil|done].
    + eapply ok_wait; [exact Hm|exact Hu|by right|done|done].
  - destruct Ha as [Hu Hm]. destruct Hd as (_ & pd' & Hp & ->). cbn [fd_grant] in *.
    destruct (Z.eqb_spec (gpp mode (sh_pd s)) pdWait) as [Ew|].
    + destruct Hp as (-> & gp & Hgp & ->). pose proof (waiting_word _ _ Hm) as Hw. rewrite Ew in Hw.
      destruct Hw as [[Hw|Hw]|[Hop _]]; [done..|]. eapply ok_wait; [exact Hm|exact Hu|by right|done|done].
    + destruct Hp as [-> ->]. by apply ok_poll; [apply my_ds| |].
  - destruct Ha as [Hu Hm]. destruct Hd as (_ & pd' & [Hp ->] & ->). cbn [fd_grant] in *.
    rewrite <- (set_gpp_id mode (sh_pd s)). eapply ok_wait; [exact Hm|exact Hu|exact Hp|done|done].
  - destruct Ha as [Hu Hm]. destruct Hd as (_ & pd' & [_ ->] & ->). cbn [fd_grant] in *.
    destruct Hm as [Hm|[Hm|Hm]]; (eapply ok_wait; [exact Hm|exact Hu|done|intros _; apply settled_nil|done]).
  - destruct Hd as (_ & pd' & [Hroom [out E]] & ->). by eapply ok_unblock; [apply Ha|apply Ha|exact Hroom|exact E|].
  - destruct Hd as (_ & pd' & E & ->). by apply ok_retire; [apply Ha|apply Ha|exact E|].
  - destruct Hd as (_ & pd' & (Hroom & now & out & E) & ->). by eapply ok_deadline; [apply Ha|exact Hroom|exact E|].
  - destruct Hd as [_ Hs']. destruct r0; cbn [fd_grant] in *; subst s'; try (by apply ok_same).
    cbn in Ha. destruct (Z.eqb_spec fd fd0) as [E|E]; [|by apply ok_same].
    apply ok_die; try done; try (rewrite Ha in *; destruct pollable; done); [|cbn; lia].
    assert (sh_ctx s = false /\ ds_live (sh_ds s) = false) as [H1 H2]; [|by split_and!].
    destruct pollable eqn:Ep; rewrite Ha in Hpart; [by destruct Hpart as (H1 & H2 & _)|].
    destruct Hpart as (H1 & H2 & _). by rewrite H1, H2.
  - done.
Qed.
End one.

(** ** Steps of the runtime *)
Lemma ok_env gs s pd fly : ok gs s -> pd_ok (mkDs (ds_live (sh_ds s)) pd fly) -> same_closing (sh_pd s) pd ->
  ok gs (set_ds (mkDs (ds_live (sh_ds s)) pd fly) s).
Proof.
  intros Hok Hds Hca. split; try apply Hok; [done| | |].
  - eapply sem_calm; [exact Hca|apply Hok].
  - destruct (ok_closing _ _ Hok) as [A1 A2 A3 A4]. split; [|exact A2|done|done].
    intros Hp. cbn. destruct Hca as [_ ->]. by apply A1.
  - by destruct (ok_life _ _ Hok).
Qed.

Lemma same_closing_fire pd pd' : (forall mode, gpp mode pd' = gpp mode pd) -> pd_closing pd' = pd_closing pd -> same_closing pd pd'.
Proof. intros H1 H2. split; [|done]. intros read. left. apply H1. Qed.

Lemma env_ok gs s s' : ok gs s -> env_step s s' -> ok gs s'.
Proof.
  intros Hok Hs. pose proof (my_ds gs s Hok) as Hd.
  destruct Hs as [s Hw|s Hw|s t l1 l2 out pd' Hf E|s mode out pd' Hm E|s b].
  - apply ok_env; [done|split; [by apply Deadlines.fire_rt_ok; [apply Hd|]|apply Hd]|by apply same_closing_fire].
  - apply ok_env; [done|split; [by apply Deadlines.fire_wt_ok; [apply Hd|]|apply Hd]|by apply same_closing_fire].
  - apply ok_env; [done| |by eapply quietly_run].
    rewrite Hf in Hd. destruct Hd as [Hd Hp]. destruct (Deadlines.run_ok _ _ _ _ _ Hd) as (out2 & pd2 & E2 & Hd2).
    rewrite E in E2. injection E2 as <- <-. split; [done|by eapply Deadlines.run_published].
  - apply ok_env; [done| |by eapply quietly_unblock].
    destruct (Deadlines.unblock_run mode true (sh_pd s)) as (out2 & v & E2). rewrite E in E2. injection E2 as _ ->.
    by apply pd_ok_gpp.
  - apply ok_env; [done| |].
    + split; [eapply Deadlines.same_timing_inv; [apply Deadlines.setEventErr_timing|apply Hd]|].
      apply Deadlines.setEventErr_published, Hd.
    + apply same_closing_fire; [intros mode|]; unfold setEventErr; cbv zeta; cbn [Z.eqb negb andb]; by destruct (negb _).
Qed.

Lemma env_no_fault gs s msg : ok gs s -> ~ env_faults s msg.
Proof.
  intros Hok (t & pd' & (l1 & l2 & Hf)%list_elem_of_split & E). destruct (ok_ds _ _ Hok) as [Hds _]. unfold sh_pd in E.
  destruct (sh_ds s) as [live pd fly]. cbn [ds_fly ds_pd] in Hf, E. subst fly.
  destruct (Deadlines.run_ok _ _ _ _ _ Hds) as (out2 & pd2 & E2 & Hd2). by rewrite E2 in E.
Qed.

(** ** A goroutine that begins *)
Lemma ok_call gs s p : ok gs s -> returns p h0 -> ok (gs ++ [mkG p h0]) s.
Proof.
  intros [A B C D E F] Hp. split; [|done| | | |].
  - destruct A as [A1 A2 A3 A4 A5 A6]. split; [done| | | | |by apply each_app]; [|intros read..];
      rewrite total_app; rewrite <- ?A2, <- ?A3, <- ?A4, <- ?A5; cbn [total g_h]; [cbn; lia|destruct read; cbn; lia..].
  - destruct C as [C1 C2 C3]. split; [intros read; by apply each_app; [apply C1|destruct read]| |apply each_app; [done|by intros []]].
    intros read Hq. apply C2. intros j g Hj. apply (Hq j g). by apply lookup_app_l_Some.
  - destruct D as [D1 D2 D3 D4]. split; [|by apply each_app|rewrite total_app; cbn; lia|by apply each_app].
    intros Hpo. rewrite total_app. specialize (D1 Hpo). cbn. lia.
  - destruct E as [E1 E2 E3 E4 E5 E6 E7].
    assert (dying_n (gs ++ [mkG p h0]) = dying_n gs) as Hn.
    { unfold dying_n. rewrite total_app. cbn [total g_h]. change (is_dying h0) with false. cbn [Z.b2z]. lia. }
    split; rewrite ?Hn; try done; try (by apply each_app). rewrite total_app. cbn. lia.
  - intros j g [Hj|[_ Hj]]%lookup_app_Some; [by eapply F|]. apply list_lookup_singleton_Some in Hj as [_ <-]. done.
Qed.

Lemma run_call_returns at_ fuel c : returns (run_call at_ fuel c) h0.
Proof.
  assert (forall A (p : prog A), gives_back fd0 pollable p h0 -> returns (forget p) h0) as Hf.
  { intros A p Hp. apply runs_bind. eapply runs_mono; [exact Hp|]. intros [x|] h H; cbn; [by intros _; apply H; eauto|by intros []]. }
  destruct c; cbn [run_call]; apply Hf;
    eauto using Read_back, Pread_back, ReadFrom_back, ReadMsg_back, ReadDirent_back, Write_back, Pwrite_back, WriteTo_back,
      WriteMsg_back, Writev_back, WriteOnce_back, Accept_back, Close_back, SetBlocking_back, Dup_back, Fstat_back,
      Seek_back, GetsockoptInt_back, RawControl_back.
  all: try (apply plain_back; intros ?; by split).
  all: try (apply plain_retried_back; intros ?; by split).
  - exact (raw_back fd0 pollable at_ fuel true).
  - exact (raw_back fd0 pollable at_ fuel false).
  - apply setDeadlineImpl_back. by right; right.
  - apply setDeadlineImpl_back. by left.
  - apply setDeadlineImpl_back. by right; left.
Qed.
End life.
