(* ===== verification/FdLive.v ===== *)
(** * FdLive: the theorems about a shared descriptor

    From the invariant of FdSafe.v: no reachable fault but the overflow panic and those
    of a write the kernel answers with more than it was given ([FD_safe]), nothing left behind once every call has returned ([FD_quiescent]), and
    no deadlock ([FD_progress]); with concrete interleavings run by [execs]. *)
From Stdlib Require Import ZArith Lia List Bool String.
From stdpp Require Import base list strings numbers tactics option relations.
From S2P Require Import Prelude Syscall SyscallSock Netpoll FdMutex FdProg FdIO FdLogic FdSystem FdInv FdSafe.
Import Netpoll.Deadlines(dsys, mkDs, ds_live, ds_pd, ds_fly, run_locked, seq_room, dinv).

Section live.
Context `{KN : Kernel} `{KL : !KernelLaws}.

(** ** Reachable states *)
Lemma opened_ok fd0 blocking ds : opened ds ->
  ok fd0 (ds_live ds) [] (mkSh fd_init (ds_live ds) ds fd0 true 0 blocking).
Proof.
  intros Ho.
  assert (pd_ok ds /\ (forall read, gpp (mode_of read) (ds_pd ds) = pdNil) /\ pd_closing (ds_pd ds) = false) as (Hds & Hg & Hcl).
  { destruct Ho as [|ds a fd pd' Hr Hl Hroom E].
    - split; [by split; [apply Deadlines.dinv_init|]|split; [by intros []|done]].
    - assert (dinv (mkDs false (ds_pd ds) (ds_fly ds))) as Hd
        by (rewrite <- Hl; pose proof (Deadlines.dinv_reachable _ Hr) as H; by destruct ds).
      split; [split; [by eapply Deadlines.pollOpen_ok|by eapply Deadlines.pollOpen_published]|]. cbn [ds_pd].
      unfold pollOpen_locked, go_bind, go_get, go_modify, go_throw, go_ret in E.
      destruct (_ && _); [done|]. destruct (_ && _); [done|]. injection E as <-.
      unfold setEventErr. cbn [Z.eqb negb andb]. destruct (negb _), (pd_fdseq _ =? 0); (split; [by intros []|done]). }
  split; try done.
  - split; [apply fd_inv_init|done|by intros []..|by intros j g Hj].
  - split; [by intros read j g Hj|intros read _; left; apply Hg|by intros j g Hj].
  - split; [|by intros j g Hj|done|by intros j g Hj]. intros _. unfold sh_pd. cbn [sh_ds]. by rewrite Hcl.
Qed.

Definition crash_ok (c : option string) : Prop :=
  c = None \/ c = Some overflowMsg \/ exists msg, c = Some msg /\ write_panic msg.

Lemma reachable_ok fd0 at_ s : 0 <= fd0 -> reachable fd0 at_ s ->
  (exists pollable, ok fd0 pollable (s_gs s) (s_sh s)) /\ crash_ok (s_crash s).
Proof.
  intros Hfd (blocking & ds & Ho & Hr).
  assert (ok fd0 (ds_live ds) (s_gs (start fd0 blocking ds)) (s_sh (start fd0 blocking ds)) /\
          crash_ok (s_crash (start fd0 blocking ds))) as H by (split; [by apply opened_ok|by left]).
  revert H. generalize (start fd0 blocking ds) Hr. clear Hr Ho. intros s1 Hr H.
  assert (ok fd0 (ds_live ds) (s_gs s) (s_sh s) /\ crash_ok (s_crash s)) as [Hok Hc]; [|eauto].
  induction Hr as [|s1 s2 s3 Hs _ IH]; [done|]. apply IH. clear IH. destruct H as [Hok _].
  destruct Hs as [gs s1 fuel c|gs s1 i a k h r s' Hi Hd|gs s1 i a k h msg Hi Hf|gs s1 s' He|gs s1 msg He]; cbn in *.
  - split; [|by left]. apply ok_call; [done|]. apply run_call_returns.
  - split; [|by left]. by eapply act_ok.
  - split; [done|right]. pose proof (ok_runs _ _ _ _ Hok i _ Hi) as [Ha _].
    destruct (faults_overflow _ _ _ _ Hok _ _ _ Hi Hfd a msg Ha Hf) as [-> |Hw]; [by left|right; by exists msg].
  - split; [|by left]. by eapply env_ok.
  - by destruct (env_no_fault _ _ _ _ _ Hok He).
Qed.

(** What a goroutine that has returned holds. *)
Lemma returned_idle fd0 pollable gs s j h : ok fd0 pollable gs s -> gs !! j = Some (mkG (Done tt) h) -> idle h.
Proof. intros Hok Hj. pose proof (ok_runs _ _ _ _ Hok j _ Hj) as H. by apply H. Qed.

(** Nobody holds anything: what is left in the mutex. *)
Lemma nobody_holds gs mu : mu_inv gs mu -> each (fun h => h_misc h = 0 /\ h_r h = false /\ h_w h = false) gs ->
  misc mu = 0 /\ forall read, hold (side_of read mu) = 0.
Proof.
  intros Hmu H.
  assert (forall f : holds -> Z, each (fun h => f h = 0) gs -> total f gs = 0) as H0.
  { clear. intros f. induction gs as [|g l IH]; intros H; cbn; [done|]. rewrite (H O g eq_refl), IH; [done|].
    intros j g' Hj. by apply (H (S j) g'). }
  rewrite (mi_misc _ _ Hmu). split.
  - apply H0. intros j g Hj. by apply (H j g).
  - intros read. rewrite (mi_hold _ _ Hmu). apply H0. intros j g Hj. cbn. destruct (H j g Hj) as (_ & H1 & H2).
    destruct read; cbn; by rewrite ?H1, ?H2.
Qed.

(** Nobody holds anything and nobody was woken in vain. *)
Lemma nobody_awake gs mu f : mu_inv gs mu -> fd_inv_with f mu ->
  each (fun h => h_misc h = 0 /\ h_r h = false /\ h_w h = false) gs ->
  (forall read, retrying (side_of read mu) = 0) ->
  refs f = 0 /\ forall read, locked read f = false /\ waiters read f = asleep (side_of read mu) - sema (side_of read mu) /\
    (waiters read f = 0 \/ 0 < sema (side_of read mu)).
Proof.
  intros Hmu Hf Hn Hr. destruct (nobody_holds _ _ Hmu Hn) as [Hm Hh].
  pose proof (Hh true) as Ht. pose proof (Hh false) as Hw. cbn [side_of] in Ht, Hw.
  split; [destruct Hf as (_ & _ & _ & E & _); lia|]. intros read. destruct (fd_inv_sides read f mu Hf) as (Hs & _).
  destruct Hs as (S1 & S2 & S3 & S4 & S5 & S6 & S7). specialize (Hh read). specialize (Hr read).
  split_and!; [rewrite S2, Hh; done|done|]. destruct (S7 Hh); [by left|right; lia].
Qed.

(** C1: whatever calls any number of goroutines make on one descriptor, in whatever
    order their steps, the runtime's and the timers' come, and whatever a kernel that
    keeps [KernelLaws] answers (accept and dup give descriptors that were not open, the
    read of a directory does not report EAGAIN), the only panics are the overflow check
    of fdMutex and, where the kernel may tell a write or pwrite that it wrote more than it
    was given, the check of Write and the slice of Pwrite; nothing else panics or throws.
    In particular no system call is made on the descriptor after it was closed, it is not
    closed twice, and the runtime's poll descriptor is not used once freed, not closed
    while a goroutine waits in it, and never waited in twice.  The descriptor is closed
    only when it was marked closed and nobody holds it; a call that has returned holds
    nothing; and a goroutine that went through csema in Close has seen it closed. *)
Theorem FD_safe fd0 at_ s : 0 <= fd0 -> reachable fd0 at_ s ->
  (s_crash s = None \/ s_crash s = Some overflowMsg \/ exists msg, s_crash s = Some msg /\ write_panic msg) /\
  (sh_open (s_sh s) = false ->
     has_bits (word (sh_mu (s_sh s))) mutexClosed = true /\
     forall j g, s_gs s !! j = Some g -> attached (g_h g) = false) /\
  (forall j g, s_gs s !! j = Some g -> g_prog g = Done tt -> idle (g_h g)) /\
  (forall j g, s_gs s !! j = Some g -> h_gone (g_h g) = true -> sh_open (s_sh s) = false).
Proof.
  intros Hfd Hr. destruct (reachable_ok fd0 at_ s Hfd Hr) as [[pollable Hok] Hc]. split_and!; [done| | |].
  - intros Hop. assert (destroyed (sh_mu (s_sh s)) = 1) as Hd.
    { destruct (mi_inv _ _ (ok_mu _ _ _ _ Hok)) as [f (_ & _ & _ & _ & _ & _ & E)].
      destruct (closed f && (refs f =? 0)); cbn in E; [done|].
      destruct (li_whole _ _ _ _ (ok_life _ _ _ _ Hok) E) as (_ & _ & _ & H). congruence. }
    destruct (destroyed_unheld _ _ (ok_mu _ _ _ _ Hok) Hd) as [Hcl Hu]. split; [done|].
    intros j g Hj. destruct (Hu j g Hj) as [Hm Hl]. pose proof (Hl true) as H1. pose proof (Hl false) as H2.
    cbn [lock_of] in H1, H2. unfold attached. by rewrite Hm, H1, H2.
  - intros j [p h] Hj Hp. cbn [g_prog] in Hp. subst p. by eapply returned_idle.
  - exact (li_seen _ _ _ _ (ok_life _ _ _ _ Hok)).
Qed.

(** C3: when every call has returned, nothing is left behind: a descriptor that was
    marked closed is closed, its runtime context cleared and its poll descriptor freed;
    one that was not is whole, and fdMutex is as it was at the start, without
    references, locks, waiters or pending wakeups. *)
Theorem FD_quiescent fd0 at_ s : 0 <= fd0 -> reachable fd0 at_ s ->
  (forall j g, s_gs s !! j = Some g -> g_prog g = Done tt) ->
  if has_bits (word (sh_mu (s_sh s))) mutexClosed
  then sh_open (s_sh s) = false /\ sh_ctx (s_sh s) = false /\ ds_live (sh_ds (s_sh s)) = false
  else sh_open (s_sh s) = true /\ sh_sysfd (s_sh s) = fd0 /\ word (sh_mu (s_sh s)) = 0 /\
       forall read, sema (side_of read (sh_mu (s_sh s))) = 0.
Proof.
  intros Hfd Hr Hall. destruct (reachable_ok fd0 at_ s Hfd Hr) as [[pollable Hok] _].
  assert (each idle (s_gs s)) as Hidle.
  { intros j [p h] Hj. pose proof (Hall j _ Hj) as E. cbn in E. subst p. by eapply returned_idle. }
  pose proof (ok_mu _ _ _ _ Hok) as Hmu. destruct (mi_inv _ _ Hmu) as [f Hf].
  assert (forall b : bool -> holds -> bool, (forall read h, idle h -> b read h = false) ->
    forall read, total (fun h => Z.b2z (b read h)) (s_gs s) = 0) as H0.
  { intros b Hb read. clear -Hidle Hb. induction (s_gs s) as [|g l IH]; cbn; [done|].
    rewrite IH by (intros j g' Hj; by apply (Hidle (S j) g')).
    by rewrite (Hb read _ (Hidle O g eq_refl)). }
  assert (forall A (f : holds -> A), (f h0 = f (set_won true h0)) -> (f h0 = f (set_gone true (set_won true h0))) ->
    forall h, idle h -> f h = f h0) as Hi by (by intros A g E1 E2 h [-> |[-> | ->]]).
  assert (forall read, asleep (side_of read (sh_mu (s_sh s))) = 0) as Has
    by (intros read; rewrite (mi_asleep _ _ Hmu); apply (H0 asleep_for); intros r h Hh; by apply (Hi _ (asleep_for r))).
  assert (forall read, retrying (side_of read (sh_mu (s_sh s))) = 0) as Hre
    by (intros read; rewrite (mi_woken _ _ Hmu); apply (H0 woken_for); intros r h Hh; by apply (Hi _ (woken_for r))).
  assert (each (fun h => h_misc h = 0 /\ h_r h = false /\ h_w h = false) (s_gs s)) as Hno
    by (intros j g Hj; by destruct (Hidle j g Hj) as [-> |[-> | ->]]).
  destruct (nobody_awake _ _ f Hmu Hf Hno Hre) as [Hrefs Hside].
  destruct Hf as (Hok1 & Hw & _ & _ & _ & _ & Hd). rewrite Hw, has_closed by done.
  pose proof (ok_life _ _ _ _ Hok) as Hlife. rewrite Hrefs in Hd. destruct (closed f) eqn:Ec; cbn in Hd.
  - apply (li_gone _ _ _ _ Hlife); [done|]. apply (H0 (fun _ => is_dying)); [|exact true]. intros _ h Hh. by apply (Hi _ is_dying).
  - destruct (li_whole _ _ _ _ Hlife Hd) as (_ & _ & Hs & Hop).
    assert (forall read, waiters read f = 0 /\ sema (side_of read (sh_mu (s_sh s))) = 0) as Hz.
    { intros read. destruct (Hside read) as (_ & E & _). pose proof (waiters_bound f read Hok1). rewrite (Has read) in E.
      destruct (mi_inv _ _ Hmu) as [f' Hf']. destruct (fd_inv_sides read f' _ Hf') as ((_ & _ & _ & S4 & _) & _). lia. }
    split_and!; [done|done| |by intros read; apply Hz].
    destruct (Hside true) as (L1 & _), (Hside false) as (L2 & _), (Hz true) as [W1 _], (Hz false) as [W2 _].
    destruct f as [c rl wl rf rw ww]. cbn in *. by subst.
Qed.

(** ** Progress *)
Section progress.
Context (fd0 : Z) (pollable : bool) (gs : list goroutine) (s : shared) (Hok : ok fd0 pollable gs s).
Context (Hroom : seq_room (sh_pd s)).

(** The action can happen now: with an answer, or as a fault. *)
Definition can (a : action) (h : holds) : Prop :=
  (exists r s', does fd0 a r h s s') \/ exists msg, faults fd0 a s msg.

Definition waits_for (a : action) : Prop :=
  match a with ASemacquire _ | AResume _ | ACsemAcquire => True | _ => False end.

Section one.
Context (i : nat) (p : prog unit) (h : holds) (Hi : gs !! i = Some (mkG p h)).

(** Everything but a wait. *)
Lemma can_act a : fd_allowed fd0 pollable a h -> ~ waits_for a -> can a h.
Proof.
  intros Ha Hw. destruct a; try (by destruct Hw); cbn [fd_allowed] in Ha; unfold can; cbn [does faults]; cbv zeta;
    try (pose proof (usable_live _ _ _ _ Hok _ _ _ Hi (proj1 Ha)) as Hl; rewrite Hl); try (left; by repeat eexists).
  - destruct (run_fd o (word (sh_mu s))) as [m|ok_ w r1 r2|w]; [right; by exists m|left..].
    + by exists (Some ok_), (set_mu (mu_after o h (OReturn ok_ w r1 r2) (sh_mu s)) s).
    + by exists None, (set_mu (mu_after o h (OSleep w) (sh_mu s)) s).
  - destruct (free_word _ _ _ _ Hok _ _ _ Hi mode (proj2 Ha)) as [E|E]; left; [exists false|exists true];
      eexists; (split; [done|]); eexists; (split; [|reflexivity]); [right|left]; by split_and!.
  - left. destruct (gpp mode (sh_pd s) =? pdWait) eqn:E; [exists true|exists false]; eexists; (split; [done|]); eexists;
      (split; [|reflexivity]); [|done]. split; [done|]. by exists (pdWait + 1).
  - left. pose proof (closer_open _ _ _ _ Hok _ _ _ Hi (proj1 Ha) (proj2 Ha)) as Hop.
    destruct (Deadlines.pollUnblock_ok _ _ (live_ds _ _ _ _ Hok _ _ _ Hi (proj1 Ha)) Hroom Hop) as (out & pd & E & _).
    exists tt. eexists. split; [done|]. exists pd. split; [|reflexivity]. eauto.
  - left. destruct (last_ready _ _ _ _ Hok _ _ _ Hi (proj2 Ha) (proj1 Ha)) as [Hl Hck]. exists tt. eexists. split; [done|].
    exists (sh_pd s). by rewrite Hck.
  - left. destruct (Deadlines.setDeadline_ok 0 d mode _ _ (live_ds _ _ _ _ Hok _ _ _ Hi (proj1 Ha)) Hroom) as (out & pd & E & _).
    exists tt. eexists. split; [done|]. exists pd. split; [|reflexivity]. eauto.
  - left. destruct (kernel_some r) as [rep Hrep]. exists rep. eexists. split; [done|reflexivity].
  - right. by exists msg.
Qed.

(** A goroutine parked in the poller goes on when its word is settled, which it is once
    the descriptor is closing. *)
Lemma can_resume mode : fd_allowed fd0 pollable (AResume mode) h ->
  can (AResume mode) h \/ (pd_closing (sh_pd s) = false /\ pdWait < gpp mode (sh_pd s)).
Proof.
  intros [Hu Hm]. pose proof (usable_live _ _ _ _ Hok _ _ _ Hi Hu) as Hl.
  destruct (waiting_word _ _ _ _ Hok _ _ _ Hi _ _ Hm) as [Hs|Hs]; [left|by right].
  left. exists tt, (set_pd (sh_pd s) s). split; [done|]. by exists (sh_pd s).
Qed.
End one.

(** Every goroutine that has not returned sleeps for the mutex or for the close. *)
Definition resting (g : goroutine) : Prop :=
  g_prog g = Done tt \/ (exists read k, g_prog g = Act (ASemacquire read) k) \/ exists k, g_prog g = Act ACsemAcquire k.

Context (Hrest : forall j g, gs !! j = Some g -> resting g).

Lemma resting_holds : each (fun h => idle h \/ exists read, h = set_waits (Asleep read) h0) gs.
Proof.
  intros i [p h] Hi. pose proof (ok_runs _ _ _ _ Hok i _ Hi) as Hrun. cbn [g_h].
  destruct (Hrest i _ Hi) as [E|[(r & k' & E)|(k' & E)]]; cbn in E; subst p.
  - left. by eapply returned_idle.
  - destruct Hrun as [Ha _]. right. by exists r.
  - destruct Hrun as [Ha _]. left. by right; left.
Qed.

Lemma resting_none (b : holds -> bool) : b h0 = false -> b (set_won true h0) = false ->
  b (set_gone true (set_won true h0)) = false -> (forall read, b (set_waits (Asleep read) h0) = false) ->
  total (fun h => Z.b2z (b h)) gs = 0.
Proof.
  intros E1 E2 E3 E4. pose proof resting_holds as H. clear -E1 E2 E3 E4 H. induction gs as [|g l IH]; cbn; [done|].
  rewrite IH by (intros j g' Hj; by apply (H (S j) g')).
  by destruct (H O g eq_refl) as [[-> |[-> | ->]]|[read ->]]; rewrite ?E1, ?E2, ?E3, ?E4.
Qed.

Lemma resting_free : each (fun h => h_misc h = 0 /\ h_r h = false /\ h_w h = false) gs /\
  (forall read, retrying (side_of read (sh_mu s)) = 0) /\ dying_n gs = 0.
Proof.
  split_and!.
  - intros j g Hj. by destruct (resting_holds j g Hj) as [[-> |[-> | ->]]|[read ->]].
  - intros read. rewrite (mi_woken _ _ (ok_mu _ _ _ _ Hok)). by apply resting_none.
  - by apply resting_none.
Qed.

(** A sleeper of the mutex has been woken. *)
Lemma can_wake j h read k : gs !! j = Some (mkG (Act (ASemacquire read) k) h) -> can (ASemacquire read) h.
Proof.
  intros Hj. destruct resting_free as (Hno & Hre & _). pose proof (ok_mu _ _ _ _ Hok) as Hmu.
  destruct (mi_inv _ _ Hmu) as [f Hf]. destruct (nobody_awake _ _ f Hmu Hf Hno Hre) as [_ Hside].
  destruct (Hside read) as (_ & E & Hs). pose proof (ok_runs _ _ _ _ Hok j _ Hj) as [Ha _]. cbn in Ha.
  assert (0 < asleep (side_of read (sh_mu s))).
  { eapply asleep_counted; [exact Hmu|exact Hj|]. rewrite Ha. by destruct read. }
  left. exists tt. eexists. split; [|reflexivity]. destruct Hs; lia.
Qed.

(** The close the winner waits for has happened. *)
Lemma can_go j h k : gs !! j = Some (mkG (Act ACsemAcquire k) h) -> can ACsemAcquire h.
Proof.
  intros Hj. destruct resting_free as (Hno & Hre & Hdy). pose proof (ok_mu _ _ _ _ Hok) as Hmu.
  pose proof (ok_closing _ _ _ _ Hok) as Hcl. pose proof (ok_life _ _ _ _ Hok) as Hli.
  destruct (mi_inv _ _ Hmu) as [f Hf]. destruct (nobody_awake _ _ f Hmu Hf Hno Hre) as [Hrefs _].
  pose proof (ok_runs _ _ _ _ Hok j _ Hj) as [Ha _]. cbn in Ha. subst h.
  pose proof (cl_won _ _ _ Hcl) as Hw. pose proof (li_posts _ _ _ _ Hli) as Hp.
  assert (1 <= total (fun h => Z.b2z (h_won h)) gs) as H1 by exact (total_ge _ _ _ _ (nonneg_b2z gs h_won) Hj).
  destruct Hf as (Hok1 & Ew & _ & _ & _ & _ & Hd). rewrite Ew, has_closed in Hw by done. rewrite Hrefs in Hd.
  destruct (closed f); [|cbn in Hw; lia]. cbn in Hd, Hw.
  assert (each (fun h => h_gone h = false) gs) as Hng.
  { intros i g Hi. destruct (decide (i = j)) as [-> |Hne]; [rewrite Hj in Hi; by injection Hi as <-|].
    destruct (h_gone (g_h g)) eqn:E; [|done]. pose proof (cl_gone _ _ _ Hcl i g Hi E) as Hwon. cbn in Hwon.
    pose proof (total_two _ gs i j _ _ (nonneg_b2z gs h_won) Hne Hi Hj) as H2. cbn in H2. rewrite Hwon in H2. cbn in H2. lia. }
  assert (total (fun h => Z.b2z (h_gone h)) gs = 0) as H0.
  { clear -Hng. induction gs as [|g l IH]; cbn; [done|]. rewrite (Hng O g eq_refl), IH; [done|].
    intros i g' Hi. by apply (Hng (S i) g'). }
  left. exists tt. eexists. split; [|reflexivity]. lia.
Qed.
End progress.

Lemma all_or_not (P : goroutine -> Prop) (gs : list goroutine) : (forall g, P g \/ ~ P g) ->
  (forall j g, gs !! j = Some g -> P g) \/ exists j g, gs !! j = Some g /\ ~ P g.
Proof.
  intros Hdec. induction gs as [|g l IH]; [left; by intros []|].
  destruct (Hdec g) as [Hg|Hg]; [|right; by exists O, g].
  destruct IH as [IH|(j & g' & Hj & Hg')]; [left|right; by exists (S j), g'].
  intros [|j] g' Hj; [by injection Hj as <-|by eapply IH].
Qed.

Lemma returned_dec g : g_prog g = Done tt \/ ~ g_prog g = Done tt.
Proof. destruct g as [[[]|a k|] h]; [by left|by right..]. Qed.

Lemma resting_dec g : resting g \/ ~ resting g.
Proof.
  destruct g as [[[]|a k|] h]; [by left; left| |right; intros [?|[(? & ? & ?)|(? & ?)]]; done].
  destruct a; try (right; intros [E|[(x & k' & E)|(k' & E)]]; cbn in E; discriminate E).
  - left. right. left. by exists read, k.
  - left. right. right. by exists k.
Qed.

(** C2: a descriptor never deadlocks.  While the sequence numbers of its deadlines have
    room, in every reachable state all calls have returned, or some goroutine's next
    action can happen, or one is parked in the poller for a descriptor that is not
    closing: then it waits for the kernel, its deadline or a Close.  In particular a
    Close wakes every goroutine that waits, and the Close itself returns. *)
Theorem FD_progress fd0 at_ s : 0 <= fd0 -> reachable fd0 at_ s -> s_crash s = None -> seq_room (sh_pd (s_sh s)) ->
  (forall j g, s_gs s !! j = Some g -> g_prog g <> OutOfFuel) ->
  (forall j g, s_gs s !! j = Some g -> g_prog g = Done tt) \/
  (exists j a k h, s_gs s !! j = Some (mkG (Act a k) h) /\ can fd0 (s_sh s) a h) \/
  (exists j mode k h, s_gs s !! j = Some (mkG (Act (AResume mode) k) h) /\
     pd_closing (sh_pd (s_sh s)) = false /\ pdWait < gpp mode (sh_pd (s_sh s))).
Proof.
  intros Hfd Hr Hcr Hroom Hfuel. destruct (reachable_ok fd0 at_ s Hfd Hr) as [[pollable Hok] _].
  destruct s as [gs sh cr]. cbn [s_gs s_sh s_crash] in *. clear Hr Hcr.
  destruct (all_or_not resting gs resting_dec) as [Hrest|(j & g & Hj & Hg)].
  - destruct (all_or_not (fun g => g_prog g = Done tt) gs returned_dec) as [Hall|(j & [p h] & Hj & Hg)]; [by left|].
    right. left. cbn in Hg. destruct (Hrest j _ Hj) as [E|[(r & k & E)|(k & E)]]; [done| |]; cbn in E; subst p.
    + exists j, (ASemacquire r), k, h. split; [done|]. by eapply (can_wake fd0 pollable).
    + exists j, ACsemAcquire, k, h. split; [done|]. by eapply (can_go fd0 pollable).
  - right. destruct g as [[[]|a k|] h]; [by destruct Hg; left| |by destruct (Hfuel j _ Hj)].
    pose proof (ok_runs _ _ _ _ Hok j _ Hj) as [Ha _].
    assert ((exists mode, a = AResume mode) \/ ~ waits_for a) as [[mode ->]|Hw].
    { destruct a; first [by left; exists mode|right; intros Hw; first [done|apply Hg]];
        [right; left; by exists read, k|right; right; by exists k]. }
    + destruct (can_resume _ _ _ _ Hok _ _ _ Hj mode Ha) as [Hc|[H1 H2]]; [left; by exists j, (AResume mode), k, h|].
      right. by exists j, mode, k, h.
    + left. exists j, a, k, h. split; [done|]. by eapply (can_act fd0 pollable).
Qed.

End live.

(** ** Concrete runs

    Descriptor 5, not watched by the runtime, in non-blocking mode. *)
Definition demo_attrs : attrs := mkAttrs false true false.
#[local] Existing Instance deciding.
Definition demo_start : system := start 5 false Netpoll.Deadlines.dinit.
Definition said (n : Z) : answer := mkAnswer (mkRep n None [] 0 0 None) 3 0.
Definition turns (i n : nat) : list command := repeat (Go i (said 1)) n.
Definition demo (script : list command) : system := default demo_start (execs lawful 5 demo_attrs script demo_start).

Definition runs_through (script : list command) : bool :=
  if execs lawful 5 demo_attrs script demo_start then true else false.

Lemma demo_reachable script : runs_through script = true -> reachable (KN := deciding lawful) 5 demo_attrs (demo script).
Proof.
  unfold runs_through. destruct (execs lawful 5 demo_attrs script demo_start) as [s|] eqn:Hs; [intros _|done]. exists false, Netpoll.Deadlines.dinit. split; [constructor|].
  apply (execs_reach lawful 5 demo_attrs script). unfold demo. by rewrite Hs.
Qed.

(** Two goroutines write a byte each, and a third closes meanwhile. *)
Definition closing_script : list command :=
  [Begin 3 (CWrite [7]); Begin 3 (CWrite [8]); Begin 3 CClose] ++ turns 0 3 ++ turns 1 1 ++ turns 2 3 ++ turns 1 2 ++
  turns 0 7 ++ turns 2 2.

(** The writer that was first finishes its byte and takes the descriptor apart, the one
    that slept is refused, and the Close returns. *)
Lemma FD_safe_witness :
  length (s_gs (demo closing_script)) = 3%nat /\ sh_open (s_sh (demo closing_script)) = false /\
  (forall j g, s_gs (demo closing_script) !! j = Some g -> attached (g_h g) = false).
Proof.
  assert (sh_open (s_sh (demo closing_script)) = false) as Hop by (vm_compute; reflexivity).
  split; [vm_compute; reflexivity|]. split; [exact Hop|].
  exact (proj2 (proj1 (proj2 (FD_safe (KN := deciding lawful) 5 demo_attrs (demo closing_script) ltac:(lia)
           (demo_reachable closing_script ltac:(vm_compute; reflexivity)))) Hop)).
Defined.

(** What has become of a program, without looking into it. *)
Definition has_returned (g : goroutine) : bool := match g_prog g with Done _ => true | _ => false end.
Definition has_fuel (g : goroutine) : bool := match g_prog g with OutOfFuel => false | _ => true end.

Lemma all_returned gs : forallb has_returned gs = true -> forall j g, gs !! j = Some g -> g_prog g = Done tt.
Proof.
  rewrite forallb_forall. intros H j g Hj. specialize (H g (proj1 (list_elem_of_In _ _) (list_elem_of_lookup_2 _ _ _ Hj))).
  unfold has_returned in H. by destruct (g_prog g) as [[]| |].
Qed.

Lemma all_fuel gs : forallb has_fuel gs = true -> forall j g, gs !! j = Some g -> g_prog g <> OutOfFuel.
Proof.
  rewrite forallb_forall. intros H j g Hj. specialize (H g (proj1 (list_elem_of_In _ _) (list_elem_of_lookup_2 _ _ _ Hj))).
  unfold has_fuel in H. by destruct (g_prog g).
Qed.

Lemma FD_quiescent_witness :
  sh_csema (s_sh (demo closing_script)) = 0 /\ sh_open (s_sh (demo closing_script)) = false /\
  sh_ctx (s_sh (demo closing_script)) = false.
Proof.
  split; [vm_compute; reflexivity|].
  pose proof (FD_quiescent (KN := deciding lawful) 5 demo_attrs (demo closing_script) ltac:(lia)
    (demo_reachable closing_script ltac:(vm_compute; reflexivity))
    (all_returned (s_gs (demo closing_script)) ltac:(vm_compute; reflexivity))) as H.
  replace (has_bits (word (sh_mu (s_sh (demo closing_script)))) mutexClosed) with true in H by (vm_compute; reflexivity).
  split; apply H.
Defined.

(** While the first writer is in its system call, the second sleeps. *)
Definition sleeping_script : list command := firstn 7 closing_script.

Lemma FD_progress_witness :
  asleep (wside (sh_mu (s_sh (demo sleeping_script)))) = 1 /\
  ((exists j a k h, s_gs (demo sleeping_script) !! j = Some (mkG (Act a k) h) /\ can (KN := deciding lawful) 5 (s_sh (demo sleeping_script)) a h) \/
   (exists j mode k h, s_gs (demo sleeping_script) !! j = Some (mkG (Act (AResume mode) k) h))).
Proof.
  split; [vm_compute; reflexivity|].
  destruct (FD_progress (KN := deciding lawful) 5 demo_attrs (demo sleeping_script) ltac:(lia)
    (demo_reachable sleeping_script ltac:(vm_compute; reflexivity)) ltac:(vm_compute; reflexivity)
    ltac:(vm_compute; split; reflexivity)
    (all_fuel (s_gs (demo sleeping_script)) ltac:(vm_compute; reflexivity))) as [H|[H|H]].
  - exfalso. destruct (s_gs (demo sleeping_script) !! O) as [g|] eqn:E.
    + assert (match s_gs (demo sleeping_script) !! O with Some g => has_returned g | None => false end = false) as Hn
        by (vm_compute; reflexivity).
      rewrite E in Hn. specialize (H O g E). unfold has_returned in Hn. rewrite H in Hn. discriminate Hn.
    + assert (match s_gs (demo sleeping_script) !! O with Some g => true | None => false end = true) as Hn
        by (vm_compute; reflexivity).
      rewrite E in Hn. discriminate Hn.
  - left. exact H.
  - right. destruct H as (j & mode & k & h & H & _). exists j, mode, k, h. exact H.
Defined.

(** ** What the laws and the panics are about *)
Definition acting (s : system) (i : nat) : option action :=
  match s_gs s !! i with Some (mkG (Act a _) _) => Some a | _ => None end.

Lemma reachable_fault `{KN : Kernel} fd0 at_ s i a msg :
  reachable fd0 at_ s -> s_crash s = None -> acting s i = Some a -> faults fd0 a (s_sh s) msg ->
  exists s', reachable fd0 at_ s' /\ s_crash s' = Some msg.
Proof.
  destruct s as [gs sh cr]. cbn. intros (b & ds & Ho & Hr) -> Ha Hf. unfold acting in Ha. cbn in Ha.
  destruct (gs !! i) as [[[x|a' k|] h]|] eqn:Hi; try done. injection Ha as ->.
  exists (mkSys gs sh (Some msg)). split; [|done]. exists b, ds. split; [done|].
  eapply rtc_r; [exact Hr|]. by eapply step_fault.
Qed.

(** A kernel that answers a write of one byte with two makes Write panic. *)
Definition overlong_script : list command := Begin 3 (CWrite [7]) :: turns 0 3 ++ [Go 0 (said 2)].

Lemma write_panic_reached :
  exists s, reachable (KN := deciding lawful) 5 demo_attrs s /\
    s_crash s = Some "invalid return from write: got 2 from a write of 1"%string.
Proof.
  apply (reachable_fault 5 demo_attrs (demo overlong_script) 0 (APanic (invalid_return 2 1)));
    [apply demo_reachable|..]; vm_compute; reflexivity.
Qed.

(** Without the law on directories, two calls of ReadDirent that would block wait in the
    poller at the same time. *)
Definition watched : dsys :=
  mkDs true (match pollOpen_locked 64 5 (ds_pd Netpoll.Deadlines.dinit) with Ret _ pd => pd | _ => pollDesc0 end) [].
Definition would_block : answer := mkAnswer (mkRep (-1) (Some EAGAIN) [] 0 0 None) 3 0.
Definition dir_script : list command :=
  [Begin 3 (CReadDirent [0]); Begin 3 (CReadDirent [0])] ++ repeat (Go 0 would_block) 8 ++ repeat (Go 1 would_block) 6.

Lemma ReadDirent_waits_twice :
  exists s, reachable (KN := deciding anything) 5 demo_attrs s /\ s_crash s = Some "runtime: double wait"%string.
Proof.
  pose (s := default demo_start (execs anything 5 demo_attrs dir_script (start 5 false watched))).
  assert (acting s 1 = Some (ABlock mode_r)) as Ha by (vm_compute; reflexivity).
  apply (reachable_fault (KN := deciding anything) 5 demo_attrs s 1 (ABlock mode_r)); [|by vm_compute|exact Ha|].
  - exists false, watched. split.
    + exact (opened_pd Netpoll.Deadlines.dinit 64 5 (ds_pd watched) Netpoll.Deadlines.reach_init eq_refl
               ltac:(vm_compute; split; reflexivity) ltac:(vm_compute; reflexivity)).
    + apply (execs_reach anything 5 demo_attrs dir_script).
      assert (bool_decide (is_Some (execs anything 5 demo_attrs dir_script (start 5 false watched))) = true) as H
        by (vm_compute; reflexivity).
      apply bool_decide_eq_true in H as [x E]. unfold s. by rewrite E.
  - right. vm_compute. split_and!; congruence.
Qed.
