(* ===== verification/FdTrace.v ===== *)
(** * FdTrace: what one operation does and returns

    The course of one operation of FdIO.v, whatever it is answered: [plays p t q] runs
    program [p] through the actions and answers of the trace [t] to [q].  In a system of
    goroutines each of them plays such a trace ([goroutine_plays]), so what is proved
    here of all traces holds in every interleaving.  The theorems say what the loops of
    Write, Writev, Pwrite and Read transfer and report, and that no loop goes round
    more often than it is told to retry. *)
From Stdlib Require Import ZArith Lia List Bool String.
From stdpp Require Import base list strings numbers tactics option relations.
From S2P Require Import Prelude Syscall SyscallSock Netpoll FdMutex FdProg FdIO FdLogic FdSystem.

(** ** Traces *)
Inductive event : Type := ev (a : action) (r : result a).

Inductive plays {A} : prog A -> list event -> prog A -> Prop :=
| plays_nil p : plays p [] p
| plays_act a k r t q : plays (k r) t q -> plays (Act a k) (ev a r :: t) q.

(** What the system calls of the kernel promise: an error transfers nothing, and no call
    transfers more than it was given. *)
Definition within (rep : sysrep) (len : nat) : Prop :=
  match rp_err rep with
  | Some _ => rp_n rep <= 0
  | None => 0 <= rp_n rep <= Z.of_nat len
  end.
Definition honest (e : event) : Prop :=
  match e with
  | ev (ASys (SWrite _ q)) rep | ev (ASys (SPwrite _ q _)) rep => within rep (length q)
  | ev (ASys (SWritev _ v)) rep => within rep (length (concat v)) /\ -1 <= rp_n rep
  | ev (ASys (SRead _ q)) rep => within rep (length q) /\ length (rp_buf rep) = length q
  | _ => True
  end.

(** The ghost state of a run is the trace so far. *)
#[export] Instance trace_ghost : Ghost (list event) := {|
  allowed := fun _ _ => True; possible := fun a r _ => honest (ev a r); grant := fun a r h => h ++ [ev a r] |}.

Lemma runs_plays {A} (p q : prog A) t Q h : plays p t q -> runs p Q h -> Forall honest t -> runs q Q (h ++ t).
Proof.
  intros Hp. revert h. induction Hp as [p|a k r t q _ IH]; intros h Hr Ht; [by rewrite app_nil_r|].
  apply Forall_cons in Ht as [H1 H2]. destruct Hr as [_ Hr].
  replace (h ++ ev a r :: t) with ((h ++ [ev a r]) ++ t) by (by rewrite <- app_assoc). exact (IH _ (Hr r H1) H2).
Qed.

(** From the start to the end. *)
Lemma runs_done {A} (p : prog A) t x Q : runs p Q [] -> plays p t (Done x) -> Forall honest t -> Q (Some x) t.
Proof. intros Hr Hp Ht. exact (runs_plays _ _ _ _ _ Hp Hr Ht). Qed.
Lemma runs_out {A} (p : prog A) t Q : runs p Q [] -> plays p t OutOfFuel -> Forall honest t -> Q None t.
Proof. intros Hr Hp Ht. exact (runs_plays _ _ _ _ _ Hp Hr Ht). Qed.

Lemma plays_snoc {A} (p : prog A) t a k r : plays p t (Act a k) -> plays p (t ++ [ev a r]) (k r).
Proof.
  remember (Act a k) as q eqn:E. intros H. revert E.
  induction H as [p|a' k' r' t q _ IH]; intros E; [subst p; by do 2 constructor|]. constructor. by apply IH.
Qed.

(** ** Goroutines of a system *)
Section system.
Context `{KN : Kernel} (fd0 : Z) (at_ : attrs).

Definition traced (g : goroutine) : Prop := exists fuel c t, plays (run_call at_ fuel c) t (g_prog g).

Lemma step_traced s s' : step fd0 at_ s s' -> Forall traced (s_gs s) -> Forall traced (s_gs s').
Proof.
  intros Hs Ht. destruct Hs as [gs s fuel c|gs s i a k h r s' Hi Hd| | |]; cbn [s_gs] in *; try done.
  - apply Forall_app. split; [done|]. constructor; [|done]. exists fuel, c, []. constructor.
  - apply Forall_insert; [done|]. pose proof (Forall_lookup_1 _ _ _ _ Ht Hi) as (fuel & c & t & Hp).
    exists fuel, c, (t ++ [ev a r]). exact (plays_snoc _ _ _ _ r Hp).
Qed.

(** What a goroutine of a reachable state has done so far is a trace of its call. *)
Lemma goroutine_plays s j g : reachable fd0 at_ s -> s_gs s !! j = Some g -> traced g.
Proof.
  intros (b & ds & _ & Hr) Hj. assert (Forall traced (s_gs s)) as H; [|by eapply Forall_lookup_1].
  assert (Forall traced (s_gs (start fd0 b ds))) as H0 by constructor.
  induction Hr; eauto using step_traced.
Qed.
End system.

(** ** Programs that leave a measure of the trace alone *)
Fixpoint only {A} (P : action -> Prop) (p : prog A) : Prop :=
  match p with Act a k => P a /\ forall r, only P (k r) | _ => True end.

Lemma only_bind {A B} P (p : prog A) (k : A -> prog B) : only P p -> (forall x, only P (k x)) -> only P (pbind p k).
Proof. intros Hp Hk. induction p as [x|a c IH|]; cbn in *; [apply Hk| |done]. destruct Hp as [H1 H2]. auto. Qed.

Lemma only_iterate {S A} P fuel (body : S -> prog (S + A)) s : (forall s, only P (body s)) -> only P (iterate fuel body s).
Proof.
  intros Hb. revert s. induction fuel as [|n IH]; intros s; [done|]. apply only_bind; [apply Hb|]. by intros [s'|a].
Qed.

Ltac only_these :=
  repeat (cbv zeta; lazymatch goal with
  | |- only _ (Done _) => exact I
  | |- only _ (act _) => split; [done|intros; exact I]
  | |- only _ (Act _ _) => split; [done|intros]
  | |- only _ (iterate _ _ _) => apply only_iterate; intros
  | |- only _ (pbind _ _) => apply only_bind; [|intros]
  | |- only _ (match _ with _ => _ end) => case_match
  | |- only _ (if _ then _ else _) => case_match
  | r : Empty_set |- _ => destruct r
  end).

Lemma runs_only {A X} (f : list event -> X) P (p : prog A) h :
  only P p -> (forall a r h, P a -> f (h ++ [ev a r]) = f h) -> runs p (fun _ h' => f h' = f h) h.
Proof.
  intros Hp Hf. revert h Hp. induction p as [x|a k IH|]; intros h Hp; [done| |done].
  destruct Hp as [Ha Hk]. split; [done|]. intros r _. eapply runs_mono; [by apply IH|].
  cbn. intros o h' ->. by apply Hf.
Qed.

(** ** Retries

    The answers after which the code tries again: an interrupted call, one that would
    block, a connection gone before it was accepted, a lock that is taken, a wakeup of
    the poller that brings no readiness, a RawRead function that is not finished; and a
    writev that took nothing, on which Writev goes round too unless it was the first. *)
Definition again_err (rep : sysrep) : bool :=
  bool_decide (rp_err rep = Some EINTR) || bool_decide (rp_err rep = Some EAGAIN) ||
  bool_decide (rp_err rep = Some ECONNABORTED).
Definition retry (e : event) : bool :=
  match e with
  | ev (AMutex (OpRwlock _)) r => bool_decide (r = None)
  | ev (ATake _) v => negb (v =? pdReady)
  | ev (ASys (SUser _)) rep => rp_n rep =? 0
  | ev (ASys (SWritev _ _)) rep => again_err rep || ((rp_n rep =? 0) && bool_decide (rp_err rep = None))
  | ev (ASys _) rep => again_err rep
  | _ => false
  end.
Definition retries (t : list event) : nat := length (List.filter retry t).

Lemma retries_snoc h e : retries (h ++ [e]) = (retries h + if retry e then 1 else 0)%nat.
Proof. unfold retries. rewrite List.filter_app, length_app. cbn. by destruct (retry e). Qed.

Section bounded.
Context (at_ : attrs) (fuel : nat).

(** The fuel runs out only after as many retries, [c] turns aside. *)
Definition spent (c : nat) (h h' : list event) : Prop := (fuel <= retries h' - retries h + c)%nat.
Definition bounded {A} (c : nat) (p : prog A) : Prop :=
  forall h, runs p (fun o h' => (retries h <= retries h')%nat /\ (o = None -> spent c h h')) h.

Lemma bounded_done {A} c (x : A) : bounded c (Done x).
Proof. by intros h. Qed.

Lemma bounded_bind {A B} c (p : prog A) (k : A -> prog B) : bounded c p -> (forall x, bounded c (k x)) -> bounded c (pbind p k).
Proof.
  intros Hp Hk h. apply runs_bind. eapply runs_mono; [apply Hp|]. intros [x|] h1 [H1 H2]; cbn [then_runs].
  - eapply runs_mono; [apply Hk|]. intros o h2 [H3 H4]. unfold spent in *. split; [lia|]. intros E. specialize (H4 E). lia.
  - split; [done|]. intros _. by apply H2.
Qed.

Lemma bounded_act c a : bounded c (act a).
Proof.
  intros h. apply runs_act; [done|]. intros r _. cbn [grant trace_ghost]. rewrite retries_snoc. split; [lia|by intros [=]].
Qed.

(** A loop whose every further turn was asked for. *)
Lemma bounded_iterate {S A} c (body : S -> prog (S + A)) s :
  (forall s h, runs (body s) (fun o h' => match o with
     | Some (inl _) => (retries h < retries h')%nat
     | Some (inr _) => (retries h <= retries h')%nat
     | None => (retries h <= retries h')%nat /\ spent c h h' end) h) ->
  bounded c (iterate fuel body s).
Proof.
  intros Hb h0. apply (runs_iterate _ (fun n _ h => (retries h0 <= retries h /\ fuel <= n + (retries h - retries h0))%nat)).
  - lia.
  - intros n s' h [H1 H2]. eapply runs_mono; [apply Hb|]. unfold spent. intros [[s2|a]|] h' H; [lia|split; [lia|done]|].
    destruct H. split; [lia|]. lia.
  - unfold spent. intros s' h [H1 H2]. split; [done|]. lia.
Qed.

(** One action, and what it adds to the retries. *)
Lemma runs_ev {A} a (k : result a -> prog A) Q h :
  (forall r, honest (ev a r) -> runs (k r) Q (h ++ [ev a r])) -> runs (pbind (act a) k) Q h.
Proof. intros Hk. apply runs_step; [done|]. exact Hk. Qed.

Lemma retries_ge h e : (retries h <= retries (h ++ [e]))%nat.
Proof. rewrite retries_snoc. lia. Qed.
Lemma retries_gt h e : retry e = true -> (retries h < retries (h ++ [e]))%nat.
Proof. intros He. rewrite retries_snoc, He. lia. Qed.

Lemma bounded_rwlock read : bounded 0 (rwlock fuel read).
Proof.
  apply bounded_iterate. intros s h. apply runs_ev. intros [ok|] _; cbn [runs].
  - apply retries_ge.
  - apply runs_ev. intros r _. cbn [runs]. rewrite !retries_snoc. cbn. lia.
Qed.

(** An answer the code tries again on. *)
Definition not_user (r : sysreq) : bool := match r with SUser _ => false | _ => true end.

Lemma errno_retry r rep e : not_user r = true -> rp_err rep = Some e -> e = EINTR \/ e = EAGAIN \/ e = ECONNABORTED ->
  retry (ev (ASys r) rep) = true.
Proof.
  intros Hu E He. assert (again_err rep = true) as Ha.
  { unfold again_err. rewrite E. by destruct He as [-> |[-> | ->]]. }
  destruct r; try done; cbn [retry]; by rewrite Ha.
Qed.

Lemma is_errno_Some rep e : is_errno rep e = true <-> rp_err rep = Some e.
Proof. apply bool_decide_eq_true. Qed.

(** ** Loops of interrupted calls *)
Lemma bounded_eintr {S} (req : S -> sysreq) (next : sysrep -> S) s : (forall s, not_user (req s) = true) ->
  bounded 0 (iterate fuel (fun s => do r := act (ASys (req s)) in
    if is_errno r EINTR then Done (inl (next r)) else Done (inr r)) s).
Proof.
  intros Hu. apply bounded_iterate. intros s' h. apply runs_ev. intros r _.
  destruct (is_errno r EINTR) eqn:E; cbn [runs]; [|apply retries_ge].
  apply retries_gt. apply is_errno_Some in E. eapply errno_retry; eauto.
Qed.

Lemma bounded_ignoringEINTR req : (forall fd, not_user (req fd) = true) -> bounded 0 (ignoringEINTR fuel req).
Proof.
  intros Hu. apply bounded_iterate. intros s' h. unfold sys. apply runs_bind, runs_ev. intros fd _.
  apply runs_act; [done|]. intros r _. cbn [grant trace_ghost then_runs].
  pose proof (retries_ge h (ev ALoadSysfd fd)). destruct (is_errno r EINTR) eqn:E; cbn [runs].
  - apply is_errno_Some in E. pose proof (retries_gt (h ++ [ev ALoadSysfd fd]) (ev (ASys (req fd)) r)
      (errno_retry _ _ _ (Hu fd) E ltac:(eauto))). lia.
  - pose proof (retries_ge (h ++ [ev ALoadSysfd fd]) (ev (ASys (req fd)) r)). lia.
Qed.

Lemma bounded_ignoringEINTRIO req p : (forall fd p, not_user (req fd p) = true) -> bounded 0 (ignoringEINTRIO fuel req p).
Proof. intros Hu. apply bounded_bind; [apply bounded_act|]. intros fd. by apply (bounded_eintr (req fd) rp_buf). Qed.

Lemma bounded_ignoringEINTRIO_out req : (forall fd, not_user (req fd) = true) -> bounded 0 (ignoringEINTRIO_out fuel req).
Proof. intros Hu. apply bounded_bind; [apply bounded_act|]. intros fd. by apply (bounded_eintr (fun _ => req fd) (fun _ => tt)). Qed.

(** ** The poller *)
Lemma bounded_panic {A} msg : bounded 0 (do x := act (APanic msg) in match x with end : prog A).
Proof. intros h. split; [done|]. intros []. Qed.

(** netpollblock that brings no readiness was answered so. *)
Lemma netpollblock_retry mode h :
  runs (Rt.netpollblock mode) (fun o h' => match o with
    | Some true => (retries h <= retries h')%nat
    | Some false => (retries h < retries h')%nat
    | None => False end) h.
Proof.
  apply runs_ev. intros [] _; cbn [runs]; [apply retries_ge|].
  apply runs_ev. intros e _. set (h1 := (h ++ _) ++ _). assert (retries h <= retries h1)%nat as H1
    by (unfold h1; rewrite !retries_snoc; lia). clearbody h1.
  apply runs_bind. apply (runs_mono _ (fun o h' => is_Some o /\ (retries h <= retries h')%nat)).
  - destruct (e =? pollNoError); [|by cbn; eauto]. apply runs_ev. intros [] _; cbn [runs]; rewrite ?retries_snoc; [|split; [eauto|lia]].
    apply runs_act; [done|]. intros r _. cbn [grant trace_ghost]. rewrite !retries_snoc. split; [eauto|lia].
  - intros o h2 [[[] ->] H2]. cbn [then_runs]. apply runs_ev. intros old _.
    destruct (pdWait <? old); [split; [done|intros []]|]. cbn [runs].
    pose proof (retries_ge h2 (ev (ATake mode) old)). destruct (old =? pdReady) eqn:E; [lia|].
    assert (retry (ev (ATake mode) old) = true) as Hr by (cbn [retry]; by rewrite E).
    pose proof (retries_gt h2 _ Hr). lia.
Qed.

Lemma bounded_pollWait mode : bounded 0 (Rt.pollWait fuel mode).
Proof.
  apply bounded_bind; [apply bounded_act|]. intros e. destruct (negb (e =? pollNoError)); [apply bounded_done|].
  apply bounded_iterate. intros s h. apply runs_bind. eapply runs_mono; [apply netpollblock_retry|].
  intros [[]|] h1 H; cbn [then_runs]; [done| |done]. apply runs_ev. intros e1 _.
  pose proof (retries_ge h1 (ev (ACheckErr mode) e1)). destruct (negb (e1 =? pollNoError)); cbn [runs]; lia.
Qed.

Lemma bounded_convertErr res : bounded 0 (convertErr at_ res).
Proof.
  unfold convertErr. repeat (case_match; [apply bounded_done|]). apply bounded_panic.
Qed.
End bounded.

Create HintDb bounded.
#[export] Hint Resolve bounded_done bounded_act bounded_rwlock bounded_ignoringEINTR bounded_ignoringEINTRIO
  bounded_ignoringEINTRIO_out bounded_pollWait bounded_convertErr : bounded.

Ltac bounded :=
  repeat (cbv beta iota zeta; lazymatch goal with
  | |- bounded _ _ (act _) => apply bounded_act
  | |- bounded _ _ (pbind _ _) => apply bounded_bind; [|intros ?]
  | |- bounded _ _ (match _ with _ => _ end) => case_match
  | |- bounded _ _ (if _ then _ else _) => case_match
  | |- bounded _ _ _ => solve [eauto with bounded]
  end).

Section operations.
Context (at_ : attrs) (fuel : nat).
Local Abbreviation bounded := (bounded fuel).
Local Abbreviation spent := (spent fuel).

Lemma bounded_prepare mode : bounded 0 (prepare at_ mode).
Proof. unfold prepare, Rt.pollReset. bounded. Qed.
Lemma bounded_wait mode : bounded 0 (wait at_ fuel mode).
Proof. unfold wait. bounded. Qed.
#[local] Hint Resolve bounded_prepare bounded_wait : bounded.
Lemma bounded_wait_again mode err : bounded 0 (wait_again at_ fuel mode err).
Proof. unfold wait_again, pollable. bounded. Qed.
Lemma bounded_destroy : bounded 0 destroy.
Proof. unfold destroy, pd_close, sys. bounded. Qed.
Lemma bounded_sys req : bounded 0 (sys req).
Proof. unfold sys. bounded. Qed.
#[local] Hint Resolve bounded_wait_again bounded_destroy bounded_sys : bounded.

Lemma bounded_weaken {A} c c' (p : prog A) : (c <= c')%nat -> bounded c p -> bounded c' p.
Proof.
  intros Hc Hp h. eapply runs_mono; [apply Hp|]. intros o h' [H1 H2]. split; [done|]. intros E. specialize (H2 E).
  unfold FdTrace.spent in *. lia.
Qed.
Lemma bounded_any {A} c (p : prog A) : bounded 0 p -> bounded c p.
Proof. apply bounded_weaken. lia. Qed.

Lemma bounded_with_ref {A} c (fail : perror -> A) body : bounded c body -> bounded c (with_ref at_ fail body).
Proof.
  intros Hb. unfold with_ref, FD_incref, FD_decref, mutex. bounded; try done; apply bounded_any; eauto with bounded.
Qed.
Lemma bounded_with_lock {A} c read (fail : perror -> A) body : bounded c body -> bounded c (with_lock at_ fuel read fail body).
Proof.
  intros Hb. unfold with_lock, FD_lock, FD_unlock, mutex. bounded; try done; apply bounded_any; bounded.
Qed.

(** ** Loops that ask again

    [asks err p]: when [p] reports through [err] an error the code tries again on, it was
    answered one. *)
Definition retried (err : option perror) : Prop :=
  exists e, err = Some (EErrno e) /\ (e = EINTR \/ e = EAGAIN \/ e = ECONNABORTED).
Definition asks {A} (err : A -> option perror) (p : prog A) : Prop :=
  forall h, runs p (fun o h' => (retries h <= retries h')%nat /\
    match o with Some x => retried (err x) -> (retries h < retries h')%nat | None => spent 0 h h' end) h.
Definition again {S A} (err : option perror) (p : prog (S + A)) : Prop :=
  forall h, runs p (fun o h' => (retries h <= retries h')%nat /\
    match o with Some (inl _) => retried err | Some (inr _) => True | None => spent 0 h h' end) h.

Lemma again_inr {S A} err (x : A) : again (S := S) err (Done (inr x)).
Proof. by intros h. Qed.
Lemma again_inl {S A} err (s : S) : retried err -> again (A := A) err (Done (inl s)).
Proof. by intros Hr h. Qed.
Lemma again_bind {S A B} err (p : prog B) (k : B -> prog (S + A)) :
  bounded 0 p -> (forall x, again err (k x)) -> again err (pbind p k).
Proof.
  intros Hp Hk h. apply runs_bind. eapply runs_mono; [apply Hp|]. intros [x|] h1 [H1 H2]; cbn [then_runs]; [|by auto].
  eapply runs_mono; [apply Hk|]. intros o h2 [H3 H4]. split; [lia|]. destruct o as [[]|]; try done.
  unfold FdTrace.spent in *. lia.
Qed.

Lemma wait_again_spec mode err h :
  runs (wait_again at_ fuel mode err) (fun o h' => (retries h <= retries h')%nat /\
    match o with Some None => err = Some (EErrno EAGAIN) | Some (Some e) => e = None <-> err = None | None => spent 0 h h' end) h.
Proof.
  unfold wait_again. case_bool_decide as E; [|by split].
  apply runs_ev. intros c _. set (h1 := h ++ _). assert (retries h <= retries h1)%nat as H1 by apply retries_ge. clearbody h1.
  destruct c; [|by split]. apply runs_bind. eapply runs_mono; [apply bounded_wait|].
  intros [[e|]|] h2 [H2 H3]; cbn; (split; [lia|]); [by rewrite E|done|]. specialize (H3 eq_refl). unfold FdTrace.spent in *. lia.
Qed.

Lemma again_wait {S A} mode err (k : option (option perror) -> prog (S + A)) :
  (forall e, again err (k (Some e))) -> (err = Some (EErrno EAGAIN) -> again err (k None)) ->
  again err (pbind (wait_again at_ fuel mode err) k).
Proof.
  intros Hk Hn h. apply runs_bind. eapply runs_mono; [apply wait_again_spec|].
  assert (forall (p : prog (S + A)) h1, again err p -> (retries h <= retries h1)%nat ->
    runs p (fun o h' => (retries h <= retries h')%nat /\
      match o with Some (inl _) => retried err | Some (inr _) => True | None => spent 0 h h' end) h1) as Hgo.
  { intros p h1 Hp H1. eapply runs_mono; [apply Hp|]. intros o h2 [H2 H3]. split; [lia|].
    destruct o as [[]|]; try done. unfold FdTrace.spent in *. lia. }
  intros [[e|]|] h1 [H1 H2]; cbn [then_runs]; [apply Hgo; auto|apply Hgo; auto|done].
Qed.

Lemma bounded_loop {S A B} (err : B -> option perror) (p : S -> prog B) (k : S -> B -> prog (S + A)) s :
  (forall s, asks err (p s)) -> (forall s x, again (err x) (k s x)) ->
  bounded 0 (iterate fuel (fun s => pbind (p s) (k s)) s).
Proof.
  intros Hp Hk. apply bounded_iterate. intros s' h. apply runs_bind. eapply runs_mono; [apply Hp|].
  intros [x|] h1 [H1 H2]; cbn [then_runs]; [|done]. eapply runs_mono; [apply Hk|].
  intros [[s2|a]|] h2 [H3 H4]; [specialize (H2 H4); lia|lia|split; [lia|]]. unfold FdTrace.spent in *. lia.
Qed.

Lemma retried_errno r : retried (errno r) -> exists e, rp_err r = Some e /\ (e = EINTR \/ e = EAGAIN \/ e = ECONNABORTED).
Proof. unfold errno. intros (e & E & He). destruct (rp_err r); [|done]. injection E as ->. eauto. Qed.

Lemma asks_call r : not_user r = true -> asks errno (act (ASys r)).
Proof.
  intros Hu h. apply runs_act; [done|]. intros rep _. cbn [grant trace_ghost]. split; [apply retries_ge|].
  intros (e & E & He)%retried_errno. apply retries_gt. by eapply errno_retry.
Qed.

Lemma asks_bind {A B} (err : A -> option perror) (p : prog B) (k : B -> prog A) :
  bounded 0 p -> (forall x, asks err (k x)) -> asks err (pbind p k).
Proof.
  intros Hp Hk h. apply runs_bind. eapply runs_mono; [apply Hp|]. intros [x|] h1 [H1 H2]; cbn [then_runs]; [|by auto].
  eapply runs_mono; [apply Hk|]. intros o h2 [H3 H4]. split; [lia|]. destruct o; [intros H; specialize (H4 H); lia|].
  unfold FdTrace.spent in *. lia.
Qed.

Lemma asks_sys req : (forall fd, not_user (req fd) = true) -> asks errno (sys req).
Proof. intros Hu. apply asks_bind; [apply bounded_act|]. intros fd. by apply asks_call. Qed.

(** The loop that ends with the first answer that is not an interruption. *)
Lemma asks_eintr {S} (req : S -> sysreq) (next : sysrep -> S) s : (forall s, not_user (req s) = true) ->
  asks errno (iterate fuel (fun s => do r := act (ASys (req s)) in
    if is_errno r EINTR then Done (inl (next r)) else Done (inr r)) s).
Proof.
  intros Hu h0. apply (runs_iterate _ (fun n _ h => (retries h0 <= retries h /\ fuel <= n + (retries h - retries h0))%nat)).
  - lia.
  - intros n s' h [H1 H2]. apply runs_bind. eapply runs_mono; [apply (asks_call _ (Hu s'))|].
    intros [r|] h1 [H3 H4]; cbn [then_runs]; [|unfold FdTrace.spent in *; split; lia].
    destruct (is_errno r EINTR) eqn:E; cbn [runs].
    + apply is_errno_Some in E. assert (retries h < retries h1)%nat by (apply H4; exists EINTR; unfold errno; rewrite E; auto). lia.
    + split; [lia|]. intros Hr. specialize (H4 Hr). lia.
  - intros s' h [H1 H2]. unfold FdTrace.spent. split; [done|lia].
Qed.

Lemma asks_ignoringEINTRIO req p : (forall fd p, not_user (req fd p) = true) -> asks errno (ignoringEINTRIO fuel req p).
Proof. intros Hu. apply asks_bind; [apply bounded_act|]. intros fd. by apply (asks_eintr (req fd) rp_buf). Qed.

Lemma asks_ignoringEINTRIO_out req : (forall fd, not_user (req fd) = true) -> asks errno (ignoringEINTRIO_out fuel req).
Proof. intros Hu. apply asks_bind; [apply bounded_act|]. intros fd. by apply (asks_eintr (fun _ => req fd) (fun _ => tt)). Qed.

Lemma retried_again : retried (Some (EErrno EAGAIN)).
Proof. exists EAGAIN. auto. Qed.
Lemma is_errno_retried r e : is_errno r e = true -> e = EINTR \/ e = EAGAIN \/ e = ECONNABORTED -> retried (errno r).
Proof. intros E%is_errno_Some He. exists e. unfold errno. by rewrite E. Qed.

(** ** The operations *)
Ltac steps :=
  repeat (cbv beta iota zeta; lazymatch goal with
  | |- again _ (Done (inr _)) => apply again_inr
  | |- again _ (pbind (wait_again _ _ _ _) _) => apply again_wait; [intros ?|intros ?]
  | |- again _ (pbind _ _) => apply again_bind; [|intros ?]
  | H : ?e = Some (EErrno EAGAIN) |- again ?e (Done (inl _)) => rewrite H; apply again_inl, retried_again
  | H : is_errno ?r EINTR = true |- again (errno ?r) (Done (inl _)) => apply again_inl, (is_errno_retried r EINTR H); by left
  | H : is_errno ?r EAGAIN = true |- again (errno ?r) (Done (inl _)) => apply again_inl, (is_errno_retried r EAGAIN H); by auto
  | |- again _ (match _ with _ => _ end) => case_match
  | |- again _ (if _ then _ else _) => case_match
  | |- bounded _ _ => solve [bounded]
  end).
Ltac looped :=
  repeat (cbv beta iota zeta; lazymatch goal with
  | |- bounded _ (with_lock _ _ _ _ _) => apply bounded_with_lock
  | |- bounded _ (with_ref _ _ _) => apply bounded_with_ref
  | |- bounded _ (pbind _ _) => apply bounded_bind; [|intros ?]
  | |- bounded _ (iterate _ _ _) => apply (bounded_loop errno);
      [intros; first [apply asks_ignoringEINTRIO|apply asks_ignoringEINTRIO_out|apply asks_sys]; done|intros; steps]
  | |- bounded _ (match _ with _ => _ end) => case_match
  | |- bounded _ (if _ then _ else _) => case_match
  | |- bounded _ _ => solve [bounded]
  end).

Lemma Read_bounded p : bounded 0 (Read at_ fuel p).
Proof. unfold Read. looped. Qed.
Lemma Pread_bounded p off : bounded 0 (Pread at_ fuel p off).
Proof. unfold Pread, FD_incref, FD_decref, mutex. looped. Qed.
Lemma ReadFrom_bounded p : bounded 0 (ReadFrom at_ fuel p).
Proof. unfold ReadFrom. looped. Qed.
Lemma ReadMsg_bounded p oob flags : bounded 0 (ReadMsg at_ fuel p oob flags).
Proof. unfold ReadMsg. looped. Qed.
Lemma WriteTo_bounded p sa : bounded 0 (WriteTo at_ fuel p sa).
Proof. unfold WriteTo. looped. Qed.
Lemma WriteMsg_bounded p oob sa : bounded 0 (WriteMsg at_ fuel p oob sa).
Proof. unfold WriteMsg. looped. Qed.
Lemma ReadDirent_bounded buf : bounded 0 (ReadDirent at_ fuel buf).
Proof. unfold ReadDirent. looped. Qed.
Lemma WriteOnce_bounded p : bounded 0 (WriteOnce at_ fuel p).
Proof. unfold WriteOnce. looped. Qed.

Lemma plain_bounded req : bounded 0 (plain at_ req).
Proof. unfold plain. looped. Qed.
Lemma plain_retried_bounded req : (forall fd, not_user (req fd) = true) -> bounded 0 (plain_retried at_ fuel req).
Proof. intros Hu. unfold plain_retried. looped. Qed.
Lemma Fstat_bounded : bounded 0 (Fstat at_ fuel).
Proof. unfold Fstat. looped. Qed.
Lemma GetsockoptInt_bounded l n : bounded 0 (GetsockoptInt at_ l n).
Proof. unfold GetsockoptInt. looped. Qed.
Lemma Seek_bounded o w : bounded 0 (Seek at_ o w).
Proof. unfold Seek. looped. Qed.
Lemma RawControl_bounded : bounded 0 (RawControl at_).
Proof. unfold RawControl. looped. Qed.
Lemma SetBlocking_bounded : bounded 0 (SetBlocking at_).
Proof. unfold SetBlocking. looped. Qed.
Lemma Dup_bounded : bounded 0 (Dup at_).
Proof. unfold Dup, DupCloseOnExec, dupCloseOnExecOld. looped. Qed.
Lemma setDeadlineImpl_bounded t mode : bounded 0 (setDeadlineImpl at_ t mode).
Proof. unfold setDeadlineImpl. looped. Qed.
Lemma Close_bounded : bounded 0 (Close at_).
Proof. unfold Close, evict, FD_decref, mutex. looped. Qed.

Lemma raw_bounded read mode : bounded 0 (raw at_ fuel read mode).
Proof.
  unfold raw. apply bounded_with_lock, bounded_bind; [bounded|]. intros [e|]; [bounded|].
  apply bounded_iterate. intros s h. unfold sys. apply runs_bind, runs_ev. intros fd _.
  apply runs_act; [done|]. intros r _. cbn [grant trace_ghost then_runs].
  set (h1 := h ++ [_]). assert (retries h <= retries h1)%nat as H1 by apply retries_ge. clearbody h1.
  destruct (rp_n r =? 0) eqn:E; cbn [negb]; [|cbn [runs]; pose proof (retries_ge h1 (ev (ASys (SUser fd)) r)); lia].
  pose proof (retries_gt h1 (ev (ASys (SUser fd)) r) E). apply runs_bind. eapply runs_mono; [apply bounded_wait|].
  intros [[e|]|] h2 [H2 H3]; cbn [then_runs runs]; [lia|lia|]. specialize (H3 eq_refl).
  unfold FdTrace.spent in *. split; lia.
Qed.

(** The error of accept is that of one of its calls. *)
Definition accept_err (x : Z * option Sockaddr * string * option perror) : option perror := x.2.

Lemma asks_accept : asks accept_err accept.
Proof.
  unfold accept. intros h. apply runs_bind. eapply runs_mono; [by apply asks_sys|].
  intros [r|] h1 [H1 H2]; cbn [then_runs]; [|done]. apply runs_bind.
  apply (runs_mono _ (fun o h' => is_Some o /\ (retries h1 <= retries h')%nat)).
  { destruct (rp_err r); cbn [runs]; [by eauto|]. apply runs_ev. intros x _. cbn [runs]. split; [eauto|apply retries_ge]. }
  intros o h2 [[[] ->] H3]. cbn [then_runs].
  destruct (errno r) as [e|] eqn:E; cbn [runs].
  - split; [lia|]. intros Hr. cbn in Hr. specialize (H2 Hr). lia.
  - apply runs_bind. eapply runs_mono; [by apply asks_call|]. intros [r1|] h3 [H4 H5]; cbn [then_runs]; [|unfold FdTrace.spent in *; split; lia].
    destruct (errno r1) as [e|] eqn:E1; cbn [runs].
    + apply runs_ev. intros x _. cbn [runs]. pose proof (retries_ge h3 (ev (ASys (SClose (rp_n r))) x)). split; [lia|].
      intros Hr. cbn in Hr. specialize (H5 Hr). lia.
    + split; [lia|]. intros (e & He & _). discriminate He.
Qed.

Lemma Accept_bounded : bounded 0 (Accept at_ fuel).
Proof.
  unfold Accept. apply bounded_with_lock, bounded_bind; [bounded|]. intros [e|]; [bounded|].
  apply (bounded_loop accept_err (fun _ => accept)); [intros; apply asks_accept|].
  intros _ [[[s rsa] errcall] err]. cbn [accept_err snd].
  case_bool_decide as E1; [apply again_inr|]. case_bool_decide as E2; [apply again_inl; exists EINTR; auto|].
  case_bool_decide as E3; [apply again_inl; exists ECONNABORTED; auto|]. steps.
Qed.
End operations.

(** ** What the calls of a trace transfer *)
Lemma runs_and {A} (p : prog A) (Q1 Q2 : option A -> list event -> Prop) h :
  runs p Q1 h -> runs p Q2 h -> runs p (fun o h' => Q1 o h' /\ Q2 o h') h.
Proof.
  revert h. induction p as [x|a k IH|]; intros h; [by split| |by split].
  intros [H1 K1] [_ K2]. split; [done|]. intros r Hr. apply IH; auto.
Qed.

Lemma only_plays {A} P (p q : prog A) t : only P p -> plays p t q -> Forall (fun '(ev a _) => P a) t.
Proof. intros Hp Ht. induction Ht as [|a k r t q _ IH]; [done|]. destruct Hp as [H1 H2]. constructor; auto. Qed.

(** [f] is what a system call and its answer transfer. *)
Section transfers.
Context {X : Type} (f : sysreq -> sysrep -> list X).

Definition transfer (e : event) : list X := match e with ev (ASys q) rep => f q rep | _ => [] end.
Definition transfers (t : list event) : list X := concat (map transfer t).

Lemma transfers_snoc h e : transfers (h ++ [e]) = transfers h ++ transfer e.
Proof. unfold transfers. by rewrite map_app, concat_app, <- app_nil_r with (l := transfer e). Qed.

Definition silent (a : action) : Prop := match a with ASys q => forall rep, f q rep = [] | _ => True end.
Lemma transfers_silent a r h : silent a -> transfers (h ++ [ev a r]) = transfers h.
Proof. intros Ha. rewrite transfers_snoc. destruct a; try apply app_nil_r. cbn. by rewrite Ha, app_nil_r. Qed.

Context (at_ : attrs) (fuel : nat) (closes : forall fd rep, f (SClose fd) rep = []).
Local Abbreviation bounded := (bounded fuel).
Local Abbreviation spent := (spent fuel).

(** A program that transfers nothing and comes to an end. *)
Definition idles {A} (p : prog A) : Prop :=
  forall h, runs p (fun o h' => transfers h' = transfers h /\ (retries h <= retries h')%nat /\ (o = None -> spent 0 h h')) h.

Lemma idles_intro {A} (p : prog A) : only silent p -> bounded 0 p -> idles p.
Proof.
  intros Ho Hb h. apply runs_and; [|apply Hb]. by apply (runs_only transfers silent); [|intros; apply transfers_silent].
Qed.

Lemma idles_prepare mode : idles (prepare at_ mode).
Proof.
  apply idles_intro; [|apply bounded_prepare]. unfold prepare, Rt.pollReset, convertErr. only_these.
Qed.
Lemma only_wait mode : only silent (wait at_ fuel mode).
Proof. unfold wait, Rt.pollWait, Rt.netpollblock, convertErr. only_these. Qed.
Lemma idles_wait mode : idles (wait at_ fuel mode).
Proof. apply idles_intro; [apply only_wait|apply bounded_wait]. Qed.
Lemma only_wait_again mode err : only silent (wait_again at_ fuel mode err).
Proof. unfold wait_again, pollable. only_these. apply only_wait. Qed.
Lemma idles_incref : idles (FD_incref at_).
Proof. apply idles_intro; unfold FD_incref, mutex; [only_these|bounded]. Qed.
Lemma idles_lock read : idles (FD_lock at_ fuel read).
Proof. apply idles_intro; unfold FD_lock, FdIO.rwlock; [only_these|]. apply bounded_bind; [apply bounded_rwlock|intros; apply bounded_done]. Qed.
Lemma only_destroy : only silent destroy.
Proof using closes. unfold destroy, pd_close, sys. only_these. split; [intros ?; apply closes|]. intros. exact I. Qed.
Lemma idles_decref : idles FD_decref.
Proof using closes.
  apply idles_intro; unfold FD_decref, mutex; [only_these; apply only_destroy|]. bounded; apply bounded_destroy.
Qed.
Lemma idles_unlock read : idles (FD_unlock read).
Proof using closes.
  apply idles_intro; unfold FD_unlock, mutex; [only_these; apply only_destroy|]. bounded; apply bounded_destroy.
Qed.

(** wait_again on the error of an answer. *)
Lemma idles_wait_again mode err h :
  runs (wait_again at_ fuel mode err) (fun o h' => transfers h' = transfers h /\ (retries h <= retries h')%nat /\
    match o with Some None => err = Some (EErrno EAGAIN) | Some (Some e) => e = None <-> err = None | None => spent 0 h h' end) h.
Proof.
  apply runs_and; [|apply wait_again_spec].
  apply (runs_only transfers silent); [apply only_wait_again|intros; by apply transfers_silent].
Qed.

(** [p] transfers what [good] says of its result, within [c] turns more than it is told
    to retry. *)
Definition yields {A} (c : nat) (good : A -> list X -> Prop) (p : prog A) : Prop :=
  forall h, runs p (fun o h' => exists new, transfers h' = transfers h ++ new /\ (retries h <= retries h')%nat /\
    match o with Some x => good x new | None => spent c h h' end) h.

Lemma yields_bounded {A} c (good : A -> list X -> Prop) p : yields c good p -> bounded c p.
Proof.
  intros Hw h. eapply runs_mono; [apply Hw|]. intros [x|] h' (new & _ & H1 & H2); (split; [done|]); [done|by intros _].
Qed.

Lemma yields_done {A} c (good : A -> list X -> Prop) x : good x [] -> yields c good (Done x).
Proof. intros Hb h. exists []. by rewrite app_nil_r. Qed.

Lemma yields_bind {A B} c (good : B -> list X -> Prop) (p : prog A) (k : A -> prog B) :
  idles p -> (forall x, yields c good (k x)) -> yields c good (pbind p k).
Proof.
  intros Hp Hk h. apply runs_bind. eapply runs_mono; [apply Hp|]. intros [x|] h1 (H1 & H2 & H3); cbn [then_runs].
  - eapply runs_mono; [apply Hk|]. intros o h2 (new & E & H4 & H5). exists new. rewrite E, H1. split; [done|]. split; [lia|].
    destruct o; [done|]. unfold FdTrace.spent in *. lia.
  - exists []. rewrite app_nil_r. split; [done|]. split; [lia|]. specialize (H3 eq_refl). unfold FdTrace.spent in *. lia.
Qed.

(** Then a program that transfers nothing and keeps the result. *)
Lemma yields_then {A B} c (good : A -> list X -> Prop) (p : prog A) (q : prog B) :
  yields c good p -> idles q -> yields c good (pbind p (fun x => pbind q (fun _ => Done x))).
Proof.
  intros Hp Hq h. apply runs_bind. eapply runs_mono; [apply Hp|]. intros [x|] h1 (new & E & H1 & H2); cbn [then_runs]; [|by exists new].
  apply runs_bind. eapply runs_mono; [apply Hq|]. intros [u|] h2 (H3 & H4 & H5); cbn [then_runs runs];
    exists new; rewrite H3, E; (split; [done|]); (split; [lia|]); [done|].
  specialize (H5 eq_refl). unfold FdTrace.spent in *. lia.
Qed.

Lemma yields_with_lock {A} c read (fail : perror -> A) (good : A -> list X -> Prop) body :
  (forall e, good (fail e) []) -> yields c good body -> yields c good (with_lock at_ fuel read fail body).
Proof using closes.
  intros Hf Hb. apply yields_bind; [apply idles_lock|]. intros [e|]; [by apply yields_done|].
  apply yields_then; [done|apply idles_unlock].
Qed.
Lemma yields_with_ref {A} c (fail : perror -> A) (good : A -> list X -> Prop) body :
  (forall e, good (fail e) []) -> yields c good body -> yields c good (with_ref at_ fail body).
Proof using closes.
  intros Hf Hb. apply yields_bind; [apply idles_incref|]. intros [e|]; [by apply yields_done|].
  apply yields_then; [done|apply idles_decref].
Qed.

(** A loop: [I s new] when [new] was transferred to come to [s]; every turn brings [left]
    down or was asked for. *)
Lemma yields_turns {S A} (I : S -> list X -> Prop) (left : S -> nat) (good : A -> list X -> Prop)
    (body : S -> prog (S + A)) s :
  I s [] ->
  (forall s new h, I s new -> runs (body s) (fun o h' => exists more, transfers h' = transfers h ++ more /\
     (retries h <= retries h')%nat /\
     match o with
     | Some (inl s') => I s' (new ++ more) /\ (left s' < left s + (retries h' - retries h))%nat
     | Some (inr x) => good x (new ++ more)
     | None => spent 0 h h'
     end) h) ->
  yields (left s) good (iterate fuel body s).
Proof using Type.
  intros H0 Hb h0.
  apply (runs_iterate _ (fun n s' h => exists new, transfers h = transfers h0 ++ new /\ I s' new /\
    (retries h0 <= retries h /\ fuel + left s' <= n + (retries h - retries h0) + left s)%nat)).
  - exists []. rewrite app_nil_r. split_and!; try done; lia.
  - intros n s' h (new & Hd & HI & Hr & Hf). eapply runs_mono; [by apply Hb|].
    intros [[s2|x]|] h1 (more & E & H1 & H2).
    + destruct H2 as [H2 H3]. exists (new ++ more). rewrite E, Hd, app_assoc. split_and!; try done; lia.
    + exists (new ++ more). rewrite E, Hd, app_assoc. split_and!; try done; lia.
    + exists (new ++ more). rewrite E, Hd, app_assoc. unfold FdTrace.spent in *. split_and!; try done; lia.
  - intros s' h (new & Hd & HI & Hr & Hf). exists new. unfold FdTrace.spent. split_and!; try done; lia.
Qed.
End transfers.

(** ** What reaches the kernel *)
Definition taken (q : sysreq) (rep : sysrep) : list Z :=
  match q with
  | SWrite _ p => take (Z.to_nat (rp_n rep)) p
  | SWritev _ v => take (Z.to_nat (rp_n rep)) (concat v)
  | _ => []
  end.
(** The bytes written, in the order the kernel took them. *)
Abbreviation delivered := (transfers taken).

Section writing.
Context (at_ : attrs) (fuel : nat).
Local Abbreviation spent := (spent fuel).

(** A write under ignoringEINTRIO: the interrupted calls took nothing. *)
Lemma write_call q h :
  runs (ignoringEINTRIO_out fuel (fun fd => SWrite fd q)) (fun o h' => (retries h <= retries h')%nat /\
    match o with
    | Some r => delivered h' = delivered h ++ take (Z.to_nat (rp_n r)) q /\ within r (length q) /\
                (rp_err r = Some EAGAIN -> (retries h < retries h')%nat)
    | None => delivered h' = delivered h /\ spent 0 h h'
    end) h.
Proof.
  apply runs_ev. intros fd _. set (h0 := h ++ _).
  assert (retries h <= retries h0 /\ delivered h0 = delivered h)%nat as [Hr0 Hd0] by (split; [apply retries_ge|by apply (transfers_silent taken)]).
  clearbody h0.
  apply (runs_iterate _ (fun n _ h1 => delivered h1 = delivered h /\ (retries h <= retries h1 /\ fuel <= n + (retries h1 - retries h))%nat)).
  - split; [done|lia].
  - intros n [] h1 (E & H1 & H2). apply runs_ev. intros r Hr. cbn [honest] in Hr.
    pose proof (retries_ge h1 (ev (ASys (SWrite fd q)) r)).
    destruct (is_errno r EINTR) eqn:Ei; cbn [runs].
    + apply is_errno_Some in Ei. rewrite (transfers_snoc taken), E. cbn [transfer taken]. unfold within in Hr. rewrite Ei in Hr.
      pose proof (retries_gt h1 (ev (ASys (SWrite fd q)) r) (errno_retry (SWrite fd q) _ _ eq_refl Ei ltac:(auto))).
      rewrite Z2Nat.nonpos by done. rewrite take_0, app_nil_r. split; [done|lia].
    + split; [lia|]. rewrite (transfers_snoc taken), E. split; [done|]. split; [done|]. intros Ea.
      pose proof (retries_gt h1 (ev (ASys (SWrite fd q)) r) (errno_retry (SWrite fd q) _ _ eq_refl Ea ltac:(auto))). lia.
  - intros [] h1 (E & H1 & H2). split; [done|]. split; [done|]. unfold FdTrace.spent. lia.
Qed.

(** What Write reports of the bytes it wrote. *)
Definition Write_reports (p : list Z) (x : Z * option perror) (new : list Z) : Prop :=
  0 <= x.1 <= Z.of_nat (length p) /\ new = take (Z.to_nat x.1) p /\
  (x.2 = None -> x.1 = Z.of_nat (length p)) /\ (p <> [] -> x.1 = Z.of_nat (length p) -> x.2 = None).

Lemma take_slice (p : list Z) nn m n : 0 <= nn <= m -> m <= Z.of_nat (length p) -> 0 <= n <= m - nn ->
  take (Z.to_nat nn) p ++ take (Z.to_nat n) (slice p nn m) = take (Z.to_nat (nn + n)) p.
Proof.
  intros H1 H2 H3. unfold slice. rewrite take_take, Nat.min_l by lia.
  rewrite Z2Nat.inj_add by lia. apply take_take_drop.
Qed.

Lemma Write_loop p : yields taken fuel (length p) (Write_reports p) (iterate fuel (Write_turn at_ fuel p) 0).
Proof.
  set (len := Z.of_nat (length p)). replace (length p) with (length p - Z.to_nat 0)%nat by (cbn; lia).
  apply (yields_turns taken fuel (fun nn new => 0 <= nn <= len /\ (p <> [] -> nn < len) /\ new = take (Z.to_nat nn) p)
    (fun nn => length p - Z.to_nat nn)%nat).
  { split_and!; try done; [unfold len; lia|]. destruct p; [done|]. unfold len. cbn. lia. }
  intros nn new h (Hnn & Hlt & ->). unfold Write_turn. cbv zeta. set (max := chunk_end at_ p nn).
  assert (nn <= max <= len) as Hmax by (by apply chunk_end_range).
  apply runs_bind. eapply runs_mono; [apply write_call|].
  pose proof (length_slice p nn max ltac:(lia) ltac:(unfold max; lia)) as Hls.
  intros [r|] h1 [H1 H2]; cbn [then_runs]; [|destruct H2 as [E Hs]; exists []; by rewrite E, app_nil_r].
  destruct H2 as (E & Hw & Ha). unfold within in Hw.
  assert (rp_n r <= max - nn) as Hle by (destruct (rp_err r); lia).
  rewrite (proj2 (Z.ltb_ge (max - nn) (rp_n r))), andb_false_r by lia.
  set (nn' := if 0 <? rp_n r then nn + rp_n r else nn).
  assert (nn' = nn + Z.max 0 (rp_n r)) as En by (unfold nn'; destruct (Z.ltb_spec 0 (rp_n r)); lia). clearbody nn'.
  set (more := take (Z.to_nat (rp_n r)) (slice p nn max)) in *.
  assert (take (Z.to_nat nn) p ++ more = take (Z.to_nat nn') p) as Hnew.
  { rewrite En, <- (take_slice p nn max) by (fold len; lia). unfold more. f_equal. f_equal. lia. }
  clearbody more. fold len. destruct (Z.eqb_spec nn' len) as [Ee|Ee].
  - cbn [runs]. exists more. rewrite Hnew. split; [done|]. split; [lia|]. unfold Write_reports. cbn [fst snd]. fold len.
    split_and!; try done; try lia. intros Hp _. specialize (Hlt Hp). unfold errno. destruct (rp_err r); [lia|done].
  - apply runs_bind. eapply runs_mono; [apply (idles_wait_again taken)|].
    assert (forall e, e <> None -> Write_reports p (nn', e) (take (Z.to_nat nn') p)) as Hrep
      by (intros e He; unfold Write_reports; cbn [fst snd]; fold len; split_and!; try done; lia).
    intros w h2 (E2 & H3 & H4); cbn [then_runs]; destruct w as [[[e|]|]|]; cbn [runs].
    + exists more. rewrite E2, Hnew. split; [done|]. split; [lia|]. by apply Hrep.
    + apply proj1 in H4. specialize (H4 eq_refl). unfold errno in H4. destruct (rp_err r); [done|].
      destruct (Z.eqb_spec (rp_n r) 0); cbn [runs]; exists more; rewrite E2, Hnew; (split; [done|]); (split; [lia|]);
        [by apply Hrep|]. unfold len in *. split_and!; try done; lia.
    + assert (retries h < retries h1)%nat by (apply Ha; unfold errno in H4; destruct (rp_err r); [by injection H4 as ->|done]).
      exists more. rewrite E2, Hnew. unfold len in *. split_and!; try done; lia.
    + exists more. rewrite E2. split; [done|]. split; [lia|]. unfold FdTrace.spent in *. lia.
Qed.

Lemma Write_yields p : yields taken fuel (length p) (Write_reports p) (Write at_ fuel p).
Proof.
  assert (forall e, Write_reports p (0, Some e) []) as Hf.
  { intros e. unfold Write_reports. cbn [fst snd]. split_and!; try done; [lia|]. destruct p; [done|]. cbn. lia. }
  apply yields_with_lock; [done|done|]. apply yields_bind; [apply idles_prepare|].
  intros [e|]; [by apply yields_done|apply Write_loop].
Qed.

(** ** Writev *)
Lemma consume_drop v n : 0 <= n <= Z.of_nat (length (concat v)) -> concat (consume v n) = drop (Z.to_nat n) (concat v).
Proof.
  revert n. induction v as [|c v IH]; intros n Hn; cbn in *; [by rewrite drop_nil|]. rewrite length_app in Hn.
  destruct (Z.ltb_spec n (Z.of_nat (length c))) as [H|H]; cbn.
  - rewrite drop_app. replace (Z.to_nat n - length c)%nat with 0%nat by lia. by rewrite drop_0.
  - rewrite IH by lia. rewrite drop_app, (drop_ge c) by lia. cbn. f_equal. lia.
Qed.

(** The chunks of one call are the next bytes. *)
Lemma gather_prefix v : forall k, exists m, concat (gather at_ k v) = take m (concat v).
Proof.
  induction v as [|c v IH]; intros k; cbn; [by exists 0%nat|]. destruct k as [|k]; [by exists 0%nat|].
  destruct (length c =? 0)%nat eqn:E.
  - apply Nat.eqb_eq, length_zero_iff_nil in E as ->. apply IH.
  - destruct (IsStream at_ && _).
    + exists (min (Z.to_nat (2 ^ 30)) (length c)). cbn [concat]. rewrite app_nil_r, take_app_le by lia.
      destruct (Nat.min_spec (Z.to_nat (2 ^ 30)) (length c)) as [[H ->]|[H ->]]; [done|]. by rewrite firstn_all, take_ge.
    + destruct (IH k) as [m Hm]. exists (length c + m)%nat. cbn [concat]. by rewrite Hm, take_app_add.
Qed.

Lemma gather_none v k : gather at_ (S k) v = [] -> concat v = [].
Proof.
  induction v as [|c v IH]; cbn; [done|]. destruct (length c =? 0)%nat eqn:E; [|by destruct (IsStream at_ && _)].
  apply Nat.eqb_eq, length_zero_iff_nil in E as ->. exact IH.
Qed.

Lemma gather_some v k : concat v = [] -> gather at_ k v = [].
Proof.
  induction v as [|c v IH]; cbn; [done|]. intros [-> H]%app_eq_nil. destruct k as [|k]; [done|]. by apply IH.
Qed.

(** The count, and what is left in *v. *)
Definition Writev_reports (v : list (list Z)) (x : Z * option perror * list (list Z)) (new : list Z) : Prop :=
  0 <= x.1.1 <= Z.of_nat (length (concat v)) /\ new = take (Z.to_nat x.1.1) (concat v) /\
  concat x.2 = drop (Z.to_nat x.1.1) (concat v) /\ (x.1.2 = None -> concat x.2 = []).

(** One writev. *)
Lemma writev_call v h :
  runs (sys (fun fd => SWritev fd v)) (fun o h' => exists r, o = Some r /\ within r (length (concat v)) /\ -1 <= rp_n r /\
    delivered h' = delivered h ++ take (Z.to_nat (rp_n r)) (concat v) /\ (retries h <= retries h')%nat /\
    ((exists e, rp_err r = Some e /\ (e = EINTR \/ e = EAGAIN)) \/ (rp_err r = None /\ rp_n r = 0) ->
     (retries h < retries h')%nat)) h.
Proof.
  apply runs_ev. intros fd _. apply runs_act; [done|]. intros r [Hw H1]. cbn [grant trace_ghost]. exists r.
  rewrite !transfers_snoc, !retries_snoc. change (transfer taken (ev ALoadSysfd fd)) with (@nil Z). rewrite app_nil_r.
  split_and!; try done; [lia|]. intros [(e & E & He)|[E H0]].
  - rewrite (errno_retry (SWritev fd v) r e) by (try done; tauto). lia.
  - cbn [retry]. rewrite E, H0, (bool_decide_eq_true_2 (None = None)) by done. rewrite Z.eqb_refl, orb_true_r. lia.
Qed.

Lemma Writev_yields v : yields taken fuel (length (concat v)) (Writev_reports v) (Writev at_ fuel v).
Proof.
  assert (forall e, Writev_reports v (0, Some e, v) []) as Hf.
  { intros e. unfold Writev_reports. cbn [fst snd]. split_and!; try done; lia. }
  apply yields_with_lock; [done|done|]. apply yields_bind; [apply idles_prepare|].
  intros [e|]; [by apply yields_done|].
  set (all := concat v). set (len := Z.of_nat (length all)).
  apply (yields_turns taken fuel (fun '(v', n, err) new => 0 <= n <= len /\ new = take (Z.to_nat n) all /\
    concat v' = drop (Z.to_nat n) all /\ (err <> None -> concat v' <> [])) (fun '(v', _, _) => length (concat v'))).
  { split_and!; try done; lia. }
  intros [[v' n] err] new h (Hn & -> & Hv & He). cbv beta zeta iota.
  assert (Z.of_nat (length (concat v')) = len - n) as Hlen by (rewrite Hv, length_drop; unfold len; lia).
  assert (concat v' = [] -> Writev_reports v (n, err, v') (take (Z.to_nat n) all ++ [])) as Hend.
  { intros E. rewrite app_nil_r. unfold Writev_reports. cbn [fst snd]. fold all len. split_and!; try done; lia. }
  destruct (length v' =? 0)%nat eqn:E0.
  { apply Nat.eqb_eq, length_zero_iff_nil in E0 as ->. exists []. rewrite app_nil_r. split_and!; try done. by apply Hend. }
  destruct (length (gather at_ maxVec v') =? 0)%nat eqn:E1.
  { apply Nat.eqb_eq, length_zero_iff_nil in E1. exists []. rewrite app_nil_r. split_and!; try done. apply Hend.
    exact (gather_none v' _ E1). }
  assert (concat v' <> []) as Hne by (intros E; by rewrite (gather_some v' maxVec E) in E1).
  destruct (gather_prefix v' maxVec) as [m Hm]. clear Hend E0 E1.
  apply runs_bind. eapply runs_mono; [apply writev_call|]. cbn beta. intros o h1 (r & -> & Hw & Hm1 & Hd & H1 & H2). cbn [then_runs].
  rewrite Hm, take_take in Hd. rewrite Hm, length_take in Hw. unfold within in Hw.
  set (wrote := if rp_n r =? -1 then 0 else rp_n r).
  assert (0 <= wrote <= Z.of_nat (length (concat v')) /\ delivered h1 = delivered h ++ take (Z.to_nat wrote) (concat v') /\
    (rp_err r <> None -> wrote = 0) /\ (rp_err r = None -> wrote = rp_n r)) as (Hwr & Hd' & Hw0 & Hw1).
  { assert (wrote = Z.max 0 (rp_n r)) as -> by (unfold wrote; destruct (Z.eqb_spec (rp_n r) (-1)); lia).
    assert (Z.max 0 (rp_n r) <= Z.of_nat (m `min` length (concat v'))) as Hle by (destruct (rp_err r); lia).
    split_and!; [lia|lia| |intros; destruct (rp_err r); [lia|done]|intros E; rewrite E in Hw; lia].
    rewrite Hd. f_equal. f_equal. lia. }
  clearbody wrote. clear Hd Hm.
  assert (take (Z.to_nat n) all ++ take (Z.to_nat wrote) (concat v') = take (Z.to_nat (n + wrote)) all) as Hnew.
  { rewrite Hv, Z2Nat.inj_add by lia. apply take_take_drop. }
  assert (concat (consume v' wrote) = drop (Z.to_nat (n + wrote)) all) as Hcons.
  { rewrite consume_drop by lia. rewrite Hv, drop_drop. f_equal. lia. }
  assert (Z.of_nat (length (concat (consume v' wrote))) = len - (n + wrote)) as Hlen' by (rewrite Hcons, length_drop; unfold len in *; lia).
  assert (forall (e : option perror) h2, delivered h2 = delivered h1 -> (retries h1 <= retries h2)%nat -> e <> None ->
    exists more, delivered h2 = delivered h ++ more /\ (retries h <= retries h2)%nat /\
      Writev_reports v (n + wrote, e, consume v' wrote) (take (Z.to_nat n) all ++ more)) as Hend.
  { intros e h2 E2 H3 He2. exists (take (Z.to_nat wrote) (concat v')). rewrite E2, Hnew. split_and!; [done|lia|].
    unfold Writev_reports. cbn [fst snd]. fold all len. split_and!; try done; lia. }
  assert (forall (e : option perror) h2, delivered h2 = delivered h1 -> (retries h1 <= retries h2)%nat ->
    (e <> None -> concat (consume v' wrote) <> []) ->
    (length (concat (consume v' wrote)) < length (concat v') + (retries h2 - retries h))%nat ->
    exists more, delivered h2 = delivered h ++ more /\ (retries h <= retries h2)%nat /\
      (0 <= n + wrote <= len /\ take (Z.to_nat n) all ++ more = take (Z.to_nat (n + wrote)) all /\
       concat (consume v' wrote) = drop (Z.to_nat (n + wrote)) all /\ (e <> None -> concat (consume v' wrote) <> [])) /\
      (length (concat (consume v' wrote)) < length (concat v') + (retries h2 - retries h))%nat) as Hgo.
  { intros e h2 E2 H3 He2 Hm2. exists (take (Z.to_nat wrote) (concat v')). rewrite E2. split_and!; try done; lia. }
  unfold errno. destruct (rp_err r) as [e|] eqn:Ee; cbn [fmap option_fmap option_map].
  - rewrite (Hw0 ltac:(done)) in *. rewrite Z.add_0_r in *.
    destruct (is_errno r EINTR) eqn:Ei; [|destruct (is_errno r EAGAIN) eqn:Ea].
    + cbn [runs]. apply is_errno_Some in Ei. rewrite Ee in Ei. injection Ei as ->.
      specialize (H2 (or_introl (ex_intro _ _ (conj eq_refl (or_introl eq_refl))))). apply Hgo; [done|lia| |lia].
      intros _ E. rewrite Hcons, <- Hv in E. done.
    + apply is_errno_Some in Ea. rewrite Ee in Ea. injection Ea as ->.
      specialize (H2 (or_introl (ex_intro _ _ (conj eq_refl (or_intror eq_refl))))).
      apply runs_bind. eapply runs_mono; [apply (idles_wait taken)|]. intros [[w|]|] h2 (E2 & H3 & H4); cbn [then_runs runs].
      * by apply Hend.
      * apply Hgo; [done|lia|done|lia].
      * exists (take (Z.to_nat 0) (concat v')). rewrite E2. specialize (H4 eq_refl). unfold FdTrace.spent in *. split_and!; [done|lia|lia].
    + cbn [runs]. by apply Hend.
  - specialize (Hw1 eq_refl). destruct (Z.eqb_spec (n + wrote) 0); cbn [runs].
    + by apply Hend.
    + apply Hgo; [done|lia|done|]. destruct (Z.eq_dec wrote 0) as [E|E]; [|lia].
      assert (rp_n r = 0) as E0 by lia. specialize (H2 (or_intror (conj eq_refl E0))). lia.
Qed.
End writing.


(** ** Pwrite

    The pieces the kernel put into the file, each with its offset.  syscall.pwrite hands
    libc's pwrite the two words of the offset; its off_t has 32 bits and is the first
    (syscall_qnx.go). *)
Definition off_t (off : Z) : Z := i32 (lo32 off).

Lemma off_t_small off : 0 <= off < 2 ^ 31 -> off_t off = off.
Proof.
  intros H. unfold off_t, lo32. rewrite wraps_wrapu by lia. apply wraps_small; unfold in_s; lia.
Qed.

Definition landing (q : sysreq) (rep : sysrep) : list (Z * list Z) :=
  match q with
  | SPwrite _ p off => if 0 <? rp_n rep then [(off_t off, take (Z.to_nat (rp_n rep)) p)] else []
  | _ => []
  end.
Abbreviation landed := (transfers landing).

(** The pieces lie one behind the other from [off] on and make up [bytes]. *)
Fixpoint tiles (off : Z) (ps : list (Z * list Z)) (bytes : list Z) : Prop :=
  match ps with
  | [] => bytes = []
  | (o, b) :: ps => o = off /\ exists rest, bytes = b ++ rest /\ tiles (off + Z.of_nat (length b)) ps rest
  end.

Lemma tiles_snoc off ps bytes b : tiles off ps bytes ->
  tiles off (ps ++ [(off + Z.of_nat (length bytes), b)]) (bytes ++ b).
Proof.
  revert off bytes. induction ps as [|[o c] ps IH]; intros off bytes; cbn [tiles app].
  - intros ->. cbn. split; [lia|]. exists []. by rewrite app_nil_r.
  - intros (-> & rest & -> & H). split; [done|]. exists (rest ++ b). rewrite <- app_assoc. split; [done|].
    rewrite length_app. replace (off + Z.of_nat (length c + length rest))
      with (off + Z.of_nat (length c) + Z.of_nat (length rest)) by lia. by apply IH.
Qed.

Section pwriting.
Context (at_ : attrs) (fuel : nat) (p : list Z) (off : Z).
Local Abbreviation len := (Z.of_nat (length p)).

(** What Pwrite reports of the pieces it placed, where the offsets are in range. *)
Definition Pwrite_reports (x : Z * option perror) (ps : list (Z * list Z)) : Prop :=
  0 <= x.1 <= len /\ (0 <= off -> off + len <= 2 ^ 31 -> tiles off ps (take (Z.to_nat x.1) p)) /\
  (x.2 = None -> x.1 = len).

(** One pwrite. *)
Lemma pwrite_call q o h :
  runs (sys (fun fd => SPwrite fd q o)) (fun x h' => exists r, x = Some r /\ within r (length q) /\
    landed h' = landed h ++ (if 0 <? rp_n r then [(off_t o, take (Z.to_nat (rp_n r)) q)] else []) /\
    (retries h <= retries h')%nat /\ (rp_err r = Some EINTR -> (retries h < retries h')%nat)) h.
Proof.
  apply runs_ev. intros fd _. apply runs_act; [done|]. intros r Hw. cbn [grant trace_ghost]. exists r.
  rewrite !transfers_snoc, !retries_snoc. change (transfer landing (ev ALoadSysfd fd)) with (@nil (Z * list Z)). rewrite app_nil_r.
  split_and!; try done; [lia|]. intros E. rewrite (errno_retry (SPwrite fd q o) r EINTR) by auto. lia.
Qed.

(** The next piece. *)
Lemma tiles_next ps nn max n : 0 <= nn <= max -> max <= len -> 0 < n <= max - nn ->
  0 <= off -> off + len <= 2 ^ 31 -> tiles off ps (take (Z.to_nat nn) p) ->
  tiles off (ps ++ [(off_t (i64 (off + nn)), take (Z.to_nat n) (slice p nn max))]) (take (Z.to_nat (nn + n)) p).
Proof.
  intros H1 H2 H3 H4 H5 Ht. apply (tiles_snoc _ _ _ (take (Z.to_nat n) (slice p nn max))) in Ht.
  rewrite (take_slice p nn max) in Ht by lia. rewrite length_take in Ht.
  replace (off + Z.of_nat (Z.to_nat nn `min` length p)) with (off_t (i64 (off + nn))) in Ht; [done|].
  rewrite (wraps_small 64) by (unfold in_s; lia). rewrite off_t_small; lia.
Qed.

Lemma Pwrite_yields : yields landing fuel (length p) Pwrite_reports (Pwrite at_ fuel p off).
Proof.
  apply yields_with_ref; [done|intros e; unfold Pwrite_reports; cbn [fst snd]; split_and!; try done; lia|].
  replace (length p) with (length p - Z.to_nat 0)%nat at 1 by (cbn; lia).
  apply (yields_turns landing fuel (fun nn ps => 0 <= nn <= len /\
    (0 <= off -> off + len <= 2 ^ 31 -> tiles off ps (take (Z.to_nat nn) p))) (fun nn => length p - Z.to_nat nn)%nat).
  { split_and!; try done; lia. }
  intros nn ps h (Hnn & Ht). cbv zeta. set (max := chunk_end at_ p nn).
  assert (nn <= max <= len) as Hmax by (by apply chunk_end_range).
  pose proof (length_slice p nn max ltac:(lia) ltac:(unfold max; lia)) as Hls.
  unfold Pwrite_turn. fold max. cbv zeta. rewrite (proj2 (Z.ltb_ge max nn)) by lia.
  apply runs_bind. eapply runs_mono; [apply pwrite_call|]. cbn beta.
  intros o h1 (r & -> & Hw & E & H1 & H2). cbn [then_runs]. unfold within in Hw.
  assert (rp_n r <= max - nn) as Hle by (destruct (rp_err r); lia).
  set (nn' := if 0 <? rp_n r then nn + rp_n r else nn).
  assert (nn' = nn + Z.max 0 (rp_n r)) as En by (unfold nn'; destruct (Z.ltb_spec 0 (rp_n r)); lia).
  set (more := if 0 <? rp_n r then _ else _) in *.
  assert (0 <= off -> off + len <= 2 ^ 31 -> tiles off (ps ++ more) (take (Z.to_nat nn') p)) as Ht'.
  { intros Ho1 Ho2. unfold more, nn'. destruct (Z.ltb_spec 0 (rp_n r)); [|rewrite app_nil_r; auto].
    apply tiles_next; try lia. auto. }
  clearbody nn' more. clear Ht.
  assert (forall e, (e = None -> nn' = len) -> exists new, landed h1 = landed h ++ new /\ (retries h <= retries h1)%nat /\
    Pwrite_reports (nn', e) (ps ++ new)) as Hend.
  { intros e He. exists more. unfold Pwrite_reports. cbn [fst snd]. split_and!; try done; lia. }
  destruct (is_errno r EINTR) eqn:Ei; cbn [runs].
  - apply is_errno_Some in Ei. specialize (H2 Ei). rewrite Ei in Hw. replace nn' with nn in * by lia.
    exists more. split_and!; try done; lia.
  - destruct (Z.eqb_spec nn' len); cbn [runs]; [by apply Hend|].
    unfold errno. destruct (rp_err r) eqn:Ee; cbn; [by apply Hend|].
    destruct (Z.eqb_spec (rp_n r) 0); cbn [runs]; [by apply Hend|]. exists more. split_and!; try done; lia.
Qed.
End pwriting.

(** ** Reading

    The bytes a read brought. *)
Definition brought (q : sysreq) (rep : sysrep) : list Z :=
  match q with SRead _ _ => take (Z.to_nat (rp_n rep)) (rp_buf rep) | _ => [] end.
Abbreviation received := (transfers brought).

Section reading.
Context (at_ : attrs) (fuel : nat).
Local Abbreviation spent := (spent fuel).

(** What Read returns of the bytes it received: they are at the front of the buffer, and
    what lies behind the most it asks for is untouched. *)
Definition Read_reports (p : list Z) (x : Z * option perror * list Z) (new : list Z) : Prop :=
  let '(n, err, p') := x in
  0 <= n <= Z.of_nat (length (clip at_ p)) /\ length p' = length p /\ new = take (Z.to_nat n) p' /\
  unclipped at_ p = drop (length (clip at_ p)) p' /\ (err <> None -> n = 0) /\
  (err = None -> p = [] \/ 0 < n \/ ZeroReadIsEOF at_ = false).

(** A read under ignoringEINTRIO. *)
Lemma read_call q h :
  runs (ignoringEINTRIO fuel SRead q) (fun o h' => (retries h <= retries h')%nat /\
    match o with
    | Some r => received h' = received h ++ take (Z.to_nat (rp_n r)) (rp_buf r) /\
                within r (length q) /\ length (rp_buf r) = length q /\
                (rp_err r = Some EAGAIN -> (retries h < retries h')%nat)
    | None => received h' = received h /\ spent 0 h h'
    end) h.
Proof.
  apply runs_ev. intros fd _. set (h0 := h ++ _).
  assert (retries h <= retries h0 /\ received h0 = received h)%nat as [Hr0 Hd0] by (split; [apply retries_ge|by apply (transfers_silent brought)]).
  clearbody h0.
  apply (runs_iterate _ (fun n q1 h1 => length q1 = length q /\ received h1 = received h /\
    (retries h <= retries h1 /\ fuel <= n + (retries h1 - retries h))%nat)).
  - split_and!; try done; lia.
  - intros n q1 h1 (Hq & E & H1 & H2). apply runs_ev. intros r Hr. cbn [honest] in Hr. destruct Hr as [Hr Hb]. rewrite Hq in *.
    pose proof (retries_ge h1 (ev (ASys (SRead fd q1)) r)).
    destruct (is_errno r EINTR) eqn:Ei; cbn [runs].
    + apply is_errno_Some in Ei. rewrite (transfers_snoc brought), E. cbn [transfer brought]. unfold within in Hr. rewrite Ei in Hr.
      pose proof (retries_gt h1 (ev (ASys (SRead fd q1)) r) (errno_retry (SRead fd q1) _ _ eq_refl Ei ltac:(auto))).
      rewrite Z2Nat.nonpos by done. rewrite take_0, app_nil_r. split_and!; try done; lia.
    + split; [lia|]. rewrite (transfers_snoc brought), E. split_and!; try done. intros Ea.
      pose proof (retries_gt h1 (ev (ASys (SRead fd q1)) r) (errno_retry (SRead fd q1) _ _ eq_refl Ea ltac:(auto))). lia.
  - intros q1 h1 (Hq & E & H1 & H2). split; [done|]. split; [done|]. unfold FdTrace.spent. lia.
Qed.

Lemma length_clip p : (length (clip at_ p) + length (unclipped at_ p) = length p)%nat.
Proof. unfold unclipped. rewrite length_drop. unfold clip. case_match; rewrite ?length_take; lia. Qed.

Lemma Read_yields p : yields brought fuel 0 (Read_reports p) (Read at_ fuel p).
Proof.
  assert (forall e, (e = None -> p = []) -> Read_reports p (0, e, p) []) as H0.
  { intros e He. unfold Read_reports. split_and!; try done; try lia. intros E. left. auto. }
  apply yields_with_lock; [done|intros e; by apply H0|].
  destruct (length p =? 0)%nat eqn:El.
  { apply yields_done, H0. intros _. by apply length_zero_iff_nil, Nat.eqb_eq. }
  apply yields_bind; [apply idles_prepare|]. intros [e|]; [by apply yields_done, H0|].
  pose proof (length_clip p) as Hl.
  apply (yields_turns brought fuel (fun q new => length q = length (clip at_ p) /\ new = []) (fun _ => 0%nat)); [done|].
  intros q new h [Hq ->]. apply runs_bind. eapply runs_mono; [apply read_call|].
  intros [r|] h1 [H1 H2]; cbn [then_runs]; [|destruct H2 as [E Hs]; exists []; by rewrite E, app_nil_r].
  destruct H2 as (E & Hw & Hb & Ha). rewrite Hq in *. unfold within in Hw.
  apply runs_bind. eapply runs_mono; [apply (idles_wait_again brought)|].
  intros w h2 (E2 & H3 & H4); cbn [then_runs]; destruct w as [[e|]|]; cbn [runs].
  - exists (take (Z.to_nat (rp_n r)) (rp_buf r)). rewrite E2, E. split; [done|]. split; [lia|].
    set (n := if bool_decide (rp_err r = None) then rp_n r else 0). cbn [app].
    assert (0 <= n <= Z.of_nat (length (clip at_ p)) /\ take (Z.to_nat (rp_n r)) (rp_buf r) = take (Z.to_nat n) (rp_buf r) /\
      (e <> None -> n = 0)) as (Hn & Ht & He).
    { unfold n. destruct (rp_err r) eqn:Ee; [rewrite bool_decide_eq_false_2 by done|rewrite bool_decide_eq_true_2 by done].
      - split_and!; [lia|lia| |done]. by rewrite Z2Nat.nonpos by done.
      - split_and!; [lia|lia|done|]. intros Hn. destruct Hn. apply H4. unfold errno. by rewrite Ee. }
    clearbody n. unfold Read_reports.
    split_and!; try lia.
    + rewrite length_app. lia.
    + rewrite Ht. rewrite take_app_le by lia. done.
    + rewrite <- Hb. by rewrite drop_app_length.
    + unfold eofError. destruct (_ && _ && _) eqn:Ec; [|done]. intros _. by apply andb_true_iff in Ec as [[Ec%Z.eqb_eq _]%andb_true_iff _].
    + unfold eofError. destruct (_ && _ && _) eqn:Ec; [done|]. intros ->. right. rewrite bool_decide_eq_true_2 in Ec by done.
      destruct (Z.eqb_spec n 0); cbn in Ec; [by right|left; lia].
  - assert (retries h < retries h1)%nat by (apply Ha; unfold errno in H4; destruct (rp_err r); [by injection H4 as ->|done]).
    exists []. rewrite E2, E, app_nil_r. unfold errno in H4. destruct (rp_err r) as [e|] eqn:Ee; [|done].
    rewrite Z2Nat.nonpos by done. rewrite take_0, app_nil_r. split_and!; try done; lia.
  - eexists. rewrite E2, E. split; [done|]. split; [lia|]. unfold FdTrace.spent in *. lia.
Qed.
End reading.

(** ** Every call comes to an end

    The bytes a call still has to hand over, one turn each at worst. *)
Definition payload (c : fdcall) : nat :=
  match c with
  | CWrite p | CPwrite p _ => length p
  | CWritev v => length (concat v)
  | _ => 0
  end.

Section ends.
Context (at_ : attrs) (fuel : nat).

Lemma bounded_forget {A} c (p : prog A) : bounded fuel c p -> bounded fuel c (forget p).
Proof. intros Hp. apply bounded_bind; [done|intros; apply bounded_done]. Qed.

Lemma run_call_bounded c : bounded fuel (payload c) (run_call at_ fuel c).
Proof.
  destruct c; apply bounded_forget; cbn [payload];
    first [apply Pread_bounded|apply ReadFrom_bounded|apply ReadMsg_bounded|apply ReadDirent_bounded
      |by eapply (yields_bounded brought), Read_yields|by eapply (yields_bounded landing), Pwrite_yields
      |by eapply (yields_bounded taken), Write_yields|by eapply (yields_bounded taken), Writev_yields
      |apply WriteTo_bounded|apply WriteMsg_bounded|apply WriteOnce_bounded|apply Accept_bounded|apply Close_bounded
      |apply SetBlocking_bounded|apply Dup_bounded|apply Fstat_bounded|apply Seek_bounded|apply GetsockoptInt_bounded
      |apply RawControl_bounded|apply raw_bounded|apply setDeadlineImpl_bounded|apply plain_bounded
      |apply plain_retried_bounded; done].
Qed.
End ends.

(** ** The theorems *)


(** C4: Write gives the kernel the bytes of [p] in order, none twice and none left out: what
    was written when it returns is the first [n] bytes of [p], with [n] the count it
    reports; without an error that is all of them, and with an error it is not. *)
Theorem Write_delivers (at_ : attrs) (fuel : nat) (p : list Z) (t : list event) (n : Z) (err : option perror) :
  plays (Write at_ fuel p) t (Done (n, err)) -> Forall honest t ->
  0 <= n <= Z.of_nat (length p) /\ delivered t = take (Z.to_nat n) p /\
  (err = None -> n = Z.of_nat (length p)) /\ (p <> [] -> n = Z.of_nat (length p) -> err = None).
Proof.
  intros Hp Ht. pose proof (runs_done _ t _ _ (Write_yields at_ fuel p []) Hp Ht) as (new & E & _ & H). rewrite E. exact H.
Qed.

(** C7: Writev gives the kernel the bytes of its chunks in order; the count it reports is
    what was written, *v holds the rest, and without an error nothing is left. *)
Theorem Writev_delivers (at_ : attrs) (fuel : nat) (v v' : list (list Z)) (t : list event) (n : Z) (err : option perror) :
  plays (Writev at_ fuel v) t (Done (n, err, v')) -> Forall honest t ->
  0 <= n <= Z.of_nat (length (concat v)) /\ delivered t = take (Z.to_nat n) (concat v) /\
  concat v' = drop (Z.to_nat n) (concat v) /\ (err = None -> concat v' = []).
Proof.
  intros Hp Ht. pose proof (runs_done _ t _ _ (Writev_yields at_ fuel v []) Hp Ht) as (new & E & _ & H). rewrite E. exact H.
Qed.

(** C8: the pieces Pwrite places lie one behind the other from [off] on, where the end of
    the write is within the 32-bit off_t of libc's pwrite (at most 2^31), and make up the
    first [n] bytes of [p], with [n] the count it reports; without an error that is all
    of them.  The kernel is taken to write no more than it is given and nothing with an
    error. *)
Theorem Pwrite_places (at_ : attrs) (fuel : nat) (p : list Z) (off : Z) (t : list event) (n : Z) (err : option perror) :
  plays (Pwrite at_ fuel p off) t (Done (n, err)) -> Forall honest t -> 0 <= off -> off + Z.of_nat (length p) <= 2 ^ 31 ->
  0 <= n <= Z.of_nat (length p) /\ tiles off (landed t) (take (Z.to_nat n) p) /\ (err = None -> n = Z.of_nat (length p)).
Proof.
  intros Hp Ht H1 H2. pose proof (runs_done _ t _ _ (Pwrite_yields at_ fuel p off []) Hp Ht) as (new & E & _ & H3 & H4 & H5).
  rewrite E. cbn [fst snd app] in *. auto.
Qed.

(** C5: Read returns exactly what its read calls received, at the front of the buffer, and
    leaves the buffer behind the most it asks for alone; an error comes with no bytes,
    and no bytes without an error only for an empty buffer or where that is not the end
    of the file. *)
Theorem Read_receives (at_ : attrs) (fuel : nat) (p p' : list Z) (t : list event) (n : Z) (err : option perror) :
  plays (Read at_ fuel p) t (Done (n, err, p')) -> Forall honest t ->
  0 <= n <= Z.of_nat (length (clip at_ p)) /\ length p' = length p /\ received t = take (Z.to_nat n) p' /\
  unclipped at_ p = drop (length (clip at_ p)) p' /\ (err <> None -> n = 0) /\
  (err = None -> p = [] \/ 0 < n \/ ZeroReadIsEOF at_ = false).
Proof.
  intros Hp Ht. pose proof (runs_done _ t _ _ (Read_yields at_ fuel p []) Hp Ht) as (new & E & _ & H). rewrite E. exact H.
Qed.

(** ** Traces of concrete runs *)
Lemma plays_step {A} (p : prog A) a k r t q : p = Act a k -> plays (k r) t q -> plays p (ev a r :: t) q.
Proof. intros ->. apply plays_act. Qed.

Ltac playing := repeat (eapply plays_step; [reflexivity|]); exact (plays_nil _).
Ltac honestly := repeat (constructor; [cbn; repeat split; try lia; reflexivity|]); constructor.

Definition demo_attrs : attrs := mkAttrs true true false.
Definition wrote (n : Z) : sysrep := mkRep n None [] 0 0 None.
Definition failed (e : Z) : sysrep := mkRep (-1) (Some e) [] 0 0 None.
Definition read_back (l : list Z) (n : Z) : sysrep := mkRep n None l 0 0 None.

(** The lock and prepare, the unlock, and a wait that finds the descriptor ready. *)
Definition locked (read : bool) (mode : Z) : list event :=
  [ev (AMutex (OpRwlock read)) (Some true); ev ALoadCtx true; ev (ACheckErr mode) 0; ev (AClearSem mode) tt].
Definition unlocked (read : bool) : list event := [ev (AMutex (OpRwunlock read)) (Some false)].
Definition woken (mode : Z) : list event :=
  [ev ALoadCtx true; ev ALoadCtx true; ev (ACheckErr mode) 0; ev (ABlock mode) true].

(** An interrupted write, one of a single byte, one that would block, and the rest. *)
Definition write_trace : list event :=
  locked false mode_w ++ [ev ALoadSysfd 3; ev (ASys (SWrite 3 [1; 2; 3])) (failed EINTR); ev (ASys (SWrite 3 [1; 2; 3])) (wrote 1);
    ev ALoadSysfd 3; ev (ASys (SWrite 3 [2; 3])) (failed EAGAIN)] ++ woken mode_w ++
  [ev ALoadSysfd 3; ev (ASys (SWrite 3 [2; 3])) (wrote 2)] ++ unlocked false.

Lemma Write_delivers_witness : delivered write_trace = [1; 2; 3].
Proof.
  apply (Write_delivers demo_attrs 9 [1; 2; 3] write_trace 3 None); [playing|honestly].
Defined.

Definition writev_trace : list event :=
  locked false mode_w ++ [ev ALoadSysfd 3; ev (ASys (SWritev 3 [[1; 2]; [3]])) (wrote 1);
    ev ALoadSysfd 3; ev (ASys (SWritev 3 [[2]; [3]])) (wrote 2)] ++ unlocked false.

Lemma Writev_delivers_witness : delivered writev_trace = [1; 2; 3].
Proof.
  apply (Writev_delivers demo_attrs 9 [[1; 2]; []; [3]] [] writev_trace 3 None); [playing|honestly].
Defined.

Definition pwrite_trace : list event :=
  [ev (AMutex OpIncref) (Some true); ev ALoadSysfd 3; ev (ASys (SPwrite 3 [1; 2; 3] 10)) (wrote 2);
    ev ALoadSysfd 3; ev (ASys (SPwrite 3 [3] 12)) (wrote 1); ev (AMutex OpDecref) (Some false)].

Lemma Pwrite_places_witness : landed pwrite_trace = [(10, [1; 2]); (12, [3])] /\ tiles 10 (landed pwrite_trace) [1; 2; 3].
Proof.
  split; [reflexivity|].
  apply (Pwrite_places demo_attrs 9 [1; 2; 3] 10 pwrite_trace 3 None); [playing|honestly|lia|cbn; lia].
Defined.

Definition read_trace : list event :=
  locked true mode_r ++ [ev ALoadSysfd 3; ev (ASys (SRead 3 [0; 0; 0])) (mkRep (-1) (Some EAGAIN) [0; 0; 0] 0 0 None)] ++
  woken mode_r ++ [ev ALoadSysfd 3; ev (ASys (SRead 3 [0; 0; 0])) (read_back [7; 8; 0] 2)] ++ unlocked true.

Lemma Read_receives_witness : received read_trace = [7; 8].
Proof.
  apply (Read_receives demo_attrs 9 [0; 0; 0] [7; 8; 0] read_trace 2 None); [playing|honestly].
Defined.

(** Two interrupted reads use up a fuel of two. *)
Definition short_trace : list event :=
  locked true mode_r ++ [ev ALoadSysfd 3; ev (ASys (SRead 3 [0])) (mkRep (-1) (Some EINTR) [0] 0 0 None);
    ev (ASys (SRead 3 [0])) (mkRep (-1) (Some EINTR) [0] 0 0 None)].

