(* ===== verification/ArmIsa.v ===== *)
(** * ArmIsa: the ARM instructions the linker emits

    The processor is not part of the repository: it is a class ([ArmCpu]) over a
    machine state, whose one law is what the ARM Architecture Reference Manual says
    of seven instructions (their encodings, always executed, in ARM state, and what
    they do).  [arm_ref], a decoder for exactly these, is an instance. *)
From Stdlib Require Import ZArith Lia List Bool String.
From stdpp Require Import base list numbers tactics option.
From S2P Require Import Prelude.

(** Sixteen registers and a memory of words; register 15 is the address of the
    instruction being executed. *)
Record machine : Type := mkMach { reg : Z -> Z; mem : Z -> Z }.

Definition PC : Z := 15.
Definition LR : Z := 14.
Definition SP : Z := 13.
Definition IP : Z := 12.

Definition put {A} (k : Z) (v : A) (f : Z -> A) : Z -> A := fun j => if j =? k then v else f j.
Definition set_reg (r v : Z) (m : machine) : machine := mkMach (put r v (reg m)) (mem m).
Definition set_mem (a v : Z) (m : machine) : machine := mkMach (reg m) (put a v (mem m)).
Definition pc (m : machine) : Z := reg m PC.

Inductive insn : Type :=
| B (imm24 : Z)
| BL (imm24 : Z)
| ADD_imm (rd rn rot imm8 : Z)
| ADD_reg (rd rn rm : Z)
| LDR (writeback : bool) (rt rn imm12 : Z)
| STR_dec (rt rn imm12 : Z)          (* str rt, [rn, #-imm]! *)
| BX (rm : Z).

#[export] Instance insn_eq_dec : EqDecision insn.
Proof. solve_decision. Defined.

Definition is_reg (r : Z) : Prop := 0 <= r < 16.
Definition insn_ok (i : insn) : Prop :=
  match i with
  | B n | BL n => 0 <= n < 2 ^ 24
  | ADD_imm rd rn rot n => is_reg rd /\ is_reg rn /\ 0 <= rot < 16 /\ 0 <= n < 256
  | ADD_reg rd rn rm => is_reg rd /\ is_reg rn /\ is_reg rm
  | LDR _ rt rn n | STR_dec rt rn n => is_reg rt /\ is_reg rn /\ 0 <= n < 4096
  | BX rm => is_reg rm
  end.

(** ARM ARM A8: B, BL, ADD (immediate), ADD (register), LDR (immediate/literal),
    STR (immediate), BX. *)
Definition encode (i : insn) : Z :=
  match i with
  | B n => 0xea000000 + n
  | BL n => 0xeb000000 + n
  | ADD_imm rd rn rot n => 0xe2800000 + rn * 2 ^ 16 + rd * 2 ^ 12 + rot * 2 ^ 8 + n
  | ADD_reg rd rn rm => 0xe0800000 + rn * 2 ^ 16 + rd * 2 ^ 12 + rm
  | LDR wb rt rn n => 0xe5900000 + Z.b2z wb * 2 ^ 21 + rn * 2 ^ 16 + rt * 2 ^ 12 + n
  | STR_dec rt rn n => 0xe5200000 + rn * 2 ^ 16 + rt * 2 ^ 12 + n
  | BX rm => 0xe12fff10 + rm
  end.

Definition sext24 (n : Z) : Z := wraps 24 n.

(** An 8-bit constant rotated right by twice [rot] (ARMExpandImm). *)
Definition ror32 (n k : Z) : Z := u32 (Z.lor (Z.shiftr n k) (Z.shiftl n (32 - k))).
Definition expand_imm (rot n : Z) : Z := if rot =? 0 then n else ror32 n (2 * rot).

(** Reading register 15 gives the address of the instruction plus 8. *)
Definition operand (m : machine) (r : Z) : Z := if r =? PC then u32 (pc m + 8) else reg m r.
Definition next (m : machine) : machine := set_reg PC (u32 (pc m + 4)) m.

(** A jump; one to an address that is not word-aligned leaves ARM state and is
    outside the model. *)
Definition jump (a : Z) (m : machine) : option machine :=
  if a mod 4 =? 0 then Some (set_reg PC a m) else None.
(** Writing register 15 is a jump. *)
Definition result (rd v : Z) (m : machine) : option machine :=
  if rd =? PC then jump v m else Some (next (set_reg rd v m)).

Definition exec (i : insn) (m : machine) : option machine :=
  match i with
  | B n => jump (u32 (pc m + 8 + 4 * sext24 n)) m
  | BL n => jump (u32 (pc m + 8 + 4 * sext24 n)) (set_reg LR (u32 (pc m + 4)) m)
  | ADD_imm rd rn rot n => result rd (u32 (operand m rn + expand_imm rot n)) m
  | ADD_reg rd rn rm => result rd (u32 (operand m rn + operand m rm)) m
  | LDR wb rt rn n =>
      let a := u32 (operand m rn + n) in
      result rt (mem m a) (if wb then set_reg rn a m else m)
  | STR_dec rt rn n =>
      let a := u32 (operand m rn - n) in
      Some (next (set_reg rn a (set_mem a (reg m rt) m)))
  | BX rm => jump (reg m rm) m
  end.

(** ** The processor *)
Class ArmCpu : Type := {
  cpu_step : machine -> option machine;
  cpu_exec : forall i m, insn_ok i -> mem m (pc m) = encode i -> cpu_step m = exec i m }.

Fixpoint cpu_run `{!ArmCpu} (n : nat) (m : machine) : option machine :=
  match n with
  | O => Some m
  | S n => match cpu_step m with Some m => cpu_run n m | None => None end
  end.

Lemma cpu_run_step `{!ArmCpu} i n m m1 :
  insn_ok i -> mem m (pc m) = encode i -> exec i m = Some m1 -> cpu_run (S n) m = cpu_run n m1.
Proof. intros Hok Hf He. cbn [cpu_run]. by rewrite (cpu_exec i m Hok Hf), He. Qed.

Lemma cpu_run_app `{!ArmCpu} k n m m1 : cpu_run k m = Some m1 -> cpu_run (k + n) m = cpu_run n m1.
Proof.
  revert m. induction k as [|k IH]; intros m; cbn [cpu_run Nat.add]; [congruence|].
  destruct (cpu_step m) as [m2|]; [apply IH|discriminate].
Qed.

(** ** The reference processor: a decoder *)
Definition bits (w lo n : Z) : Z := (w / 2 ^ lo) mod 2 ^ n.

Definition decode (w : Z) : option insn :=
  let top := w / 2 ^ 20 in
  if w / 2 ^ 24 =? 0xea then Some (B (bits w 0 24))
  else if w / 2 ^ 24 =? 0xeb then Some (BL (bits w 0 24))
  else if top =? 0xe28 then Some (ADD_imm (bits w 12 4) (bits w 16 4) (bits w 8 4) (bits w 0 8))
  else if (top =? 0xe08) && (bits w 4 8 =? 0) then Some (ADD_reg (bits w 12 4) (bits w 16 4) (bits w 0 4))
  else if top =? 0xe59 then Some (LDR false (bits w 12 4) (bits w 16 4) (bits w 0 12))
  else if top =? 0xe5b then Some (LDR true (bits w 12 4) (bits w 16 4) (bits w 0 12))
  else if top =? 0xe52 then Some (STR_dec (bits w 12 4) (bits w 16 4) (bits w 0 12))
  else if w / 2 ^ 4 =? 0xe12fff1 then Some (BX (bits w 0 4))
  else None.

(** A word as [hi] above [lo], a field [k] bits wide. *)
Lemma split_div hi lo k : 0 <= k -> 0 <= lo < 2 ^ k -> (hi * 2 ^ k + lo) / 2 ^ k = hi.
Proof. intros Hk Hlo. pose proof (pow2_pos k Hk). rewrite Z.div_add_l, Z.div_small by lia. lia. Qed.

Ltac arm_fields :=
  unfold bits, is_reg, insn_ok in *;
  repeat match goal with
  | |- context [2 ^ ?k] => let v := eval compute in (2 ^ k) in change (2 ^ k) with v in *
  | H : context [2 ^ ?k] |- _ => let v := eval compute in (2 ^ k) in change (2 ^ k) with v in *
  end.

Lemma decode_encode i : insn_ok i -> decode (encode i) = Some i.
Proof.
  intros Hok. unfold decode, encode.
  destruct i as [n|n|rd rn rot n|rd rn rm|[] rt rn n|rt rn n|rm]; cbn [insn_ok Z.b2z] in *; arm_fields.
  all: repeat match goal with
       | |- context [?a =? ?b] => destruct (Z.eqb_spec a b); try (exfalso; zify_mod)
       end; cbn [andb]; repeat (f_equal; try zify_mod).
Qed.

Definition ref_step (m : machine) : option machine :=
  match decode (mem m (pc m)) with Some i => exec i m | None => None end.

Lemma ref_exec i m : insn_ok i -> mem m (pc m) = encode i -> ref_step m = exec i m.
Proof. intros Hok E. unfold ref_step. by rewrite E, decode_encode. Qed.

#[export] Instance arm_ref : ArmCpu := { cpu_step := ref_step; cpu_exec := ref_exec }.
