(* ===== verification/Loader.v ===== *)
(** * Loader: the linker's symbols

    The part of cmd/link/internal/loader the ARM back end works with: symbols with
    their contents and relocations, the PLT/GOT/dynamic-symbol maps of the Loader, and
    the SymbolBuilder operations (symbolbuilder.go), for a little-endian machine with
    4-byte pointers.  cmd/link's own helpers on top of them (ld/go.go, ld/lib.go,
    ld/elf.go, ld/data.go) follow. *)
From Stdlib Require Import ZArith Lia List Bool String.
From stdpp Require Import base list gmap strings numbers tactics option.
From S2P Require Import Prelude.

(** ** sym/symkind.go *)
Definition Sxxx : Z := 0.
Definition STEXT : Z := 1.
Definition STEXTEND : Z := 5.
Definition SRODATA : Z := 13.
Definition SRODATAEND : Z := 17.
Definition SNOPTRDATA : Z := 41.
Definition SDATA : Z := 47.
Definition SDATAEND : Z := 51.
Definition SXREF : Z := 60.
Definition SDYNIMPORT : Z := 65.
Definition SHOSTOBJ : Z := 66.
Definition SUNDEFEXT : Z := 67.

Definition IsText (t : Z) : bool := (STEXT <=? t) && (t <=? STEXTEND).
Definition IsDATA (t : Z) : bool := (SDATA <=? t) && (t <=? SDATAEND).
Definition IsRODATA (t : Z) : bool := (SRODATA <=? t) && (t <=? SRODATAEND).

(** ** objabi/reloctype.go *)
Definition R_ADDR : Z := 1.
Definition R_SIZE : Z := 6.
Definition R_CALL : Z := 7.
Definition R_CALLARM : Z := 8.
Definition R_CONST : Z := 13.
Definition R_PCREL : Z := 14.
Definition R_TLS_LE : Z := 15.
Definition R_TLS_IE : Z := 16.
Definition R_GOTOFF : Z := 17.
Definition R_PLT0 : Z := 18.
Definition R_PLT1 : Z := 19.
Definition R_PLT2 : Z := 20.
Definition R_GOTPCREL : Z := 29.
Definition R_DWARFSECREF : Z := 31.
Definition ElfRelocOffset : Z := 256.

(** ** Symbols *)
Record reloc : Type := mkReloc { r_type : Z; r_off : Z; r_siz : Z; r_sym : Z; r_add : Z }.

#[export] Instance reloc_eq_dec : EqDecision reloc.
Proof. solve_decision. Defined.

Definition set_rtype (t : Z) (r : reloc) := mkReloc t (r_off r) (r_siz r) (r_sym r) (r_add r).
Definition set_rsym (s : Z) (r : reloc) := mkReloc (r_type r) (r_off r) (r_siz r) s (r_add r).
Definition set_radd (a : Z) (r : reloc) := mkReloc (r_type r) (r_off r) (r_siz r) (r_sym r) a.

(** A symbol: name and version, kind, address, and its payload (size, data,
    relocations), with the attributes the linker's dynamic-linking code reads. *)
Record symst : Type := mkSym {
  sy_name : string; sy_ver : Z; sy_kind : Z; sy_value : Z;
  sy_size : Z; sy_data : list Z; sy_relocs : list reloc;
  sy_pkg : string; sy_outer : Z; sy_extname : option string; sy_dynimplib : string;
  sy_cgo_export_dynamic : bool; sy_reachable : bool; sy_onlist : bool }.

Definition sym0 : symst := mkSym "" 0 Sxxx 0 0 [] [] "" 0 None "" false false false.

Definition set_kind k y := mkSym (sy_name y) (sy_ver y) k (sy_value y) (sy_size y) (sy_data y)
  (sy_relocs y) (sy_pkg y) (sy_outer y) (sy_extname y) (sy_dynimplib y) (sy_cgo_export_dynamic y) (sy_reachable y) (sy_onlist y).
Definition set_value v y := mkSym (sy_name y) (sy_ver y) (sy_kind y) v (sy_size y) (sy_data y)
  (sy_relocs y) (sy_pkg y) (sy_outer y) (sy_extname y) (sy_dynimplib y) (sy_cgo_export_dynamic y) (sy_reachable y) (sy_onlist y).
Definition set_content n d y := mkSym (sy_name y) (sy_ver y) (sy_kind y) (sy_value y) n d
  (sy_relocs y) (sy_pkg y) (sy_outer y) (sy_extname y) (sy_dynimplib y) (sy_cgo_export_dynamic y) (sy_reachable y) (sy_onlist y).
Definition set_relocs l y := mkSym (sy_name y) (sy_ver y) (sy_kind y) (sy_value y) (sy_size y) (sy_data y)
  l (sy_pkg y) (sy_outer y) (sy_extname y) (sy_dynimplib y) (sy_cgo_export_dynamic y) (sy_reachable y) (sy_onlist y).
Definition set_attrs r o y := mkSym (sy_name y) (sy_ver y) (sy_kind y) (sy_value y) (sy_size y) (sy_data y)
  (sy_relocs y) (sy_pkg y) (sy_outer y) (sy_extname y) (sy_dynimplib y) (sy_cgo_export_dynamic y) r o.

(** ** The loader, with the linker's own counters and lists *)
Record lst : Type := mkLst {
  l_syms : gmap Z symst;               (* by index; 0 is the null symbol *)
  l_byname : gmap (string * Z) Z;      (* symsByName and extStaticSyms *)
  l_next : Z;                          (* len(objSyms) *)
  l_plt : gmap Z Z; l_got : gmap Z Z; l_dynid : gmap Z Z;
  l_nelfsym : Z; l_seenlib : gset string;
  l_tramps : list Z;
  l_errors : list (Z * string) }.      (* Errorf calls: the symbol and the format *)

Definition set_syms x l := mkLst x (l_byname l) (l_next l) (l_plt l) (l_got l) (l_dynid l) (l_nelfsym l) (l_seenlib l) (l_tramps l) (l_errors l).
Definition set_plt x l := mkLst (l_syms l) (l_byname l) (l_next l) x (l_got l) (l_dynid l) (l_nelfsym l) (l_seenlib l) (l_tramps l) (l_errors l).
Definition set_got x l := mkLst (l_syms l) (l_byname l) (l_next l) (l_plt l) x (l_dynid l) (l_nelfsym l) (l_seenlib l) (l_tramps l) (l_errors l).
Definition set_dynid x n l := mkLst (l_syms l) (l_byname l) (l_next l) (l_plt l) (l_got l) x n (l_seenlib l) (l_tramps l) (l_errors l).
Definition set_seenlib x l := mkLst (l_syms l) (l_byname l) (l_next l) (l_plt l) (l_got l) (l_dynid l) (l_nelfsym l) x (l_tramps l) (l_errors l).
Definition set_tramps x l := mkLst (l_syms l) (l_byname l) (l_next l) (l_plt l) (l_got l) (l_dynid l) (l_nelfsym l) (l_seenlib l) x (l_errors l).
Definition set_errors x l := mkLst (l_syms l) (l_byname l) (l_next l) (l_plt l) (l_got l) (l_dynid l) (l_nelfsym l) (l_seenlib l) (l_tramps l) x.
Definition set_names sy bn n l := mkLst sy bn n (l_plt l) (l_got l) (l_dynid l) (l_nelfsym l) (l_seenlib l) (l_tramps l) (l_errors l).

Definition sym_of (l : lst) (s : Z) : symst := default sym0 (l_syms l !! s).
Definition SymName l s := sy_name (sym_of l s).
Definition SymVersion l s := sy_ver (sym_of l s).
Definition SymType l s := sy_kind (sym_of l s).
Definition SymValue l s := sy_value (sym_of l s).
Definition SymPkg l s := sy_pkg (sym_of l s).
Definition OuterSym l s := sy_outer (sym_of l s).
Definition Data l s := sy_data (sym_of l s).
Definition Size l s := sy_size (sym_of l s).
Definition Relocs l s := sy_relocs (sym_of l s).
Definition SymExtname l s := default (SymName l s) (sy_extname (sym_of l s)).
Definition SymDynimplib l s := sy_dynimplib (sym_of l s).
Definition AttrCgoExportDynamic l s := sy_cgo_export_dynamic (sym_of l s).
Definition AttrReachable l s := sy_reachable (sym_of l s).
Definition SymPlt l s : Z := default (-1) (l_plt l !! s).
Definition SymGot l s : Z := default (-1) (l_got l !! s).
Definition SymDynid l s : Z := default (-1) (l_dynid l !! s).

Abbreviation L := (GoM lst).

Definition upd (s : Z) (f : symst -> symst) (l : lst) : lst :=
  set_syms (<[s := f (sym_of l s)]> (l_syms l)) l.

Definition Errorf (s : Z) (fmt : string) : L unit := go_modify (fun l => set_errors (l_errors l ++ [(s, fmt)]) l).

Definition good_sym (l : lst) (s : Z) : bool := negb ((l_next l <=? s) || (s =? 0)).
Definition set_entry (m : gmap Z Z) (s v : Z) : gmap Z Z := if v =? -1 then delete s m else <[s := v]> m.
Definition SetPlt (s v : Z) : L unit :=
  fun l => if good_sym l s then Ret tt (set_plt (set_entry (l_plt l) s v) l) else Throw "bad symbol for SetPlt" l.
Definition SetGot (s v : Z) : L unit :=
  fun l => if good_sym l s then Ret tt (set_got (set_entry (l_got l) s v) l) else Throw "bad symbol for SetGot" l.
(** SetSymDynid(s, Nelfsym); Nelfsym++ *)
Definition SetSymDynid (s v : Z) : L unit :=
  fun l => if good_sym l s then Ret tt (set_dynid (set_entry (l_dynid l) s v) (l_nelfsym l) l)
           else Throw "bad symbol index in SetSymDynid" l.

(** Lookup, and a new external symbol when there is none. *)
Definition Lookup (l : lst) (name : string) (ver : Z) : Z := default 0 (l_byname l !! (name, ver)).
Definition LookupOrCreateSym (name : string) (ver : Z) : L Z := fun l =>
  let i := Lookup l name ver in
  if negb (i =? 0) then Ret i l else
  let i := l_next l in
  Ret i (set_names (<[i := mkSym name ver Sxxx 0 0 [] [] "" 0 None "" false false false]> (l_syms l))
           (<[(name, ver) := i]> (l_byname l)) (i + 1) l).

(** ** symbolbuilder.go: on one symbol's payload *)
Definition Grow (siz : Z) (data : list Z) : list Z := data ++ replicate (Z.to_nat siz - length data) 0.

(** An unset kind becomes SDATA. *)
Definition as_data (y : symst) : symst := if sy_kind y =? Sxxx then set_kind SDATA y else y.

(** [b] written over the bytes of [data] at [off]. *)
Definition write_at (data : list Z) (off : Z) (b : list Z) : list Z :=
  take (Z.to_nat off) data ++ b ++ drop (Z.to_nat off + length b) data.

Definition setUintXX (off v wid : Z) (y : symst) : symst :=
  let y := as_data y in
  let y := if sy_size y <? off + wid
           then set_content (off + wid) (Grow (off + wid) (sy_data y)) y else y in
  set_content (sy_size y) (write_at (sy_data y) off (le_bytes (Z.to_nat wid) v)) y.
Definition AddUintXX (v wid : Z) (y : symst) : symst := setUintXX (sy_size y) v wid y.
Definition AddUint8 (v : Z) (y : symst) : symst :=
  let y := as_data y in set_content (sy_size y + 1) (sy_data y ++ [v]) y.
Definition AddUint16 (v : Z) := AddUintXX v 2.
Definition AddUint32 (v : Z) := AddUintXX v 4.
(** AddUint on a machine with PtrSize 4 *)
Definition AddUint (v : Z) := AddUintXX v 4.

Definition string_bytes (s : string) : list Z :=
  map (fun c => Z.of_N (Ascii.N_of_ascii c)) (list_ascii_of_string s).

(** The offset of the string, and the table. *)
Definition Addstring (str : string) (y : symst) : Z * symst :=
  let y := if sy_kind y =? Sxxx then set_kind SNOPTRDATA y else y in
  let data := sy_data y ++ string_bytes str ++ [0] in
  (sy_size y, set_content (Z.of_nat (length data)) data y).

Definition AddRel (r : reloc) (y : symst) : symst := set_relocs (sy_relocs y ++ [r]) y.

Definition addSymRef (tgt add typ rsize : Z) (y : symst) : symst :=
  let y := as_data y in
  let i := sy_size y in
  let y := set_content (i + rsize) (Grow (i + rsize) (sy_data y)) y in
  AddRel (mkReloc typ (i32 i) (u8 rsize) tgt add) y.
Definition AddAddrPlus (tgt add : Z) := addSymRef tgt add R_ADDR 4.
Definition AddPCRelPlus (tgt add : Z) := addSymRef tgt add R_PCREL 4.

(** MakeSymbolUpdater(s), then an operation on the payload. *)
Definition update (s : Z) (f : symst -> symst) : L unit := fun l =>
  if s =? 0 then Throw "can't update the null symbol" l else Ret tt (upd s f l).

(** su.SetRelocType(i, t) and its like; an index out of range panics. *)
Definition set_reloc (s : Z) (i : nat) (f : reloc -> reloc) : L unit := fun l =>
  match Relocs l s !! i with
  | Some r => update s (fun y => set_relocs (<[i := f r]> (sy_relocs y)) y) l
  | None => Throw "index out of range" l
  end.
Definition SetRelocType s i t := set_reloc s i (set_rtype t).
Definition SetRelocSym s i t := set_reloc s i (set_rsym t).
Definition SetRelocAdd s i a := set_reloc s i (set_radd a).
