(* ===== verification/LinkArm.v ===== *)
(** * LinkArm: the linker's ARM back end

    cmd/link/internal/arm/asm.go: dynamic relocations (adddynrel) with the PLT and GOT
    they build, trampolines for calls that are too far, and the final value of each
    relocation (archreloc); below them the helpers of cmd/link/internal/ld they call,
    and relocsym, which writes the values into the image.  Sums of addresses, which the
    source computes in int64, are far from overflowing and are not wrapped; every
    conversion to 32 bits is. *)
From Stdlib Require Import ZArith Lia List Bool String.
From stdpp Require Import base list gmap strings numbers pretty tactics option.
From S2P Require Import Prelude Loader.

(** ** ld/target.go, ld/link.go *)
Inductive LinkMode : Type := LinkAuto | LinkInternal | LinkExternal.
Inductive BuildMode : Type :=
| BuildModeUnset | BuildModeExe | BuildModePIE | BuildModeCArchive | BuildModeCShared | BuildModeShared | BuildModePlugin.

#[export] Instance LinkMode_eq_dec : EqDecision LinkMode.
Proof. solve_decision. Defined.
#[export] Instance BuildMode_eq_dec : EqDecision BuildMode.
Proof. solve_decision. Defined.

(** [t_dynlink] is DynlinkingGo(), [t_debugtramp] the -debugtramp flag. *)
Record target : Type := mkTarget {
  t_link : LinkMode; t_mode : BuildMode; t_elf : bool; t_qnx : bool; t_dynlink : bool; t_debugtramp : Z }.

Definition IsExternal (t : target) : bool := bool_decide (t_link t = LinkExternal).
Definition IsInternal (t : target) : bool := bool_decide (t_link t = LinkInternal).
Definition IsPIE (t : target) : bool := bool_decide (t_mode t = BuildModePIE).
Definition IsElf (t : target) : bool := t_elf t.

Record ArchSyms : Type := mkArchSyms {
  PLT : Z; GOT : Z; GOTPLT : Z; Rel : Z; RelPLT : Z; DynSym : Z; DynStr : Z; Dynamic : Z }.

(** ** debug/elf *)
Definition R_ARM_PC24 : Z := 1.
Definition R_ARM_ABS32 : Z := 2.
Definition R_ARM_REL32 : Z := 3.
Definition R_ARM_THM_PC22 : Z := 10.
Definition R_ARM_GLOB_DAT : Z := 21.
Definition R_ARM_JUMP_SLOT : Z := 22.
Definition R_ARM_RELATIVE : Z := 23.
Definition R_ARM_GOTOFF : Z := 24.
Definition R_ARM_GOTPC : Z := 25.
Definition R_ARM_GOT32 : Z := 26.
Definition R_ARM_PLT32 : Z := 27.
Definition R_ARM_CALL : Z := 28.
Definition R_ARM_JUMP24 : Z := 29.
Definition R_ARM_GOT_PREL : Z := 96.
Definition R_ARM_TLS_IE32 : Z := 107.
Definition R_ARM_TLS_LE32 : Z := 108.
Definition R_INFO32 (sym typ : Z) : Z := Z.lor (u32 (Z.shiftl sym 8)) typ.
Definition ST_INFO (bind typ : Z) : Z := Z.lor (u8 (Z.shiftl bind 4)) (Z.land typ 15).
Definition STB_GLOBAL : Z := 1.
Definition STT_OBJECT : Z := 1.
Definition STT_FUNC : Z := 2.
Definition SHN_UNDEF : Z := 0.
Definition DT_NEEDED : Z := 1.

(** ** ld/elf.go, ld/go.go, ld/lib.go, ld/data.go *)

(** A write into a symbol, and nothing else. *)
Definition go_read {A} (f : lst -> A) : L A := fun l => Ret (f l) l.

Definition AddstringTo (s : Z) (str : string) : L Z :=
  let! off := go_read (fun l => fst (Addstring str (sym_of l s))) in
  update s (fun y => snd (Addstring str y)) ;! go_ret off.

Definition Elfwritedynent (s tag val : Z) : L unit :=
  update s (AddUint32 tag) ;! update s (AddUint32 (u32 val)).

(** The 32-bit branch: a Go linker for ARM has elf64 false. *)
Definition elfadddynsym (tg : target) (syms : ArchSyms) (s : Z) : L unit :=
  let! n := go_read l_nelfsym in
  SetSymDynid s (i32 n) ;!
  go_modify (fun l => set_dynid (l_dynid l) (n + 1) l) ;!
  let! name := go_read (fun l => SymExtname l s) in
  let! st := go_read (fun l => SymType l s) in
  let! cgoeDynamic := go_read (fun l => AttrCgoExportDynamic l s) in
  let! off := AddstringTo (DynStr syms) name in
  update (DynSym syms) (AddUint32 (u32 off)) ;!
  update (DynSym syms) (if st =? SDYNIMPORT then AddUint32 0 else AddAddrPlus s 0) ;!
  let! size := go_read (fun l => Z.of_nat (length (Data l s))) in
  update (DynSym syms) (AddUint32 (u32 size)) ;!
  let t := if cgoeDynamic && IsText st then ST_INFO STB_GLOBAL STT_FUNC
           else if t_qnx tg && (st =? SDYNIMPORT) then ST_INFO STB_GLOBAL STT_FUNC
           else ST_INFO STB_GLOBAL STT_OBJECT in
  update (DynSym syms) (AddUint8 t) ;!
  update (DynSym syms) (AddUint8 0) ;!
  update (DynSym syms) (AddUint16 (if st =? SDYNIMPORT then SHN_UNDEF else 1)) ;!
  let! dil := go_read (fun l => SymDynimplib l s) in
  let! seen := go_read l_seenlib in
  if negb cgoeDynamic && negb (bool_decide (dil = ""%string)) && negb (bool_decide (dil ∈ seen)) then
    let! off := AddstringTo (DynStr syms) dil in
    Elfwritedynent (Dynamic syms) DT_NEEDED off ;!
    go_modify (fun l => set_seenlib ({[dil]} ∪ l_seenlib l) l)
  else go_ret tt.

Definition Adddynsym (tg : target) (syms : ArchSyms) (s : Z) : L unit :=
  let! id := go_read (fun l => SymDynid l s) in
  if (0 <=? id) || IsExternal tg then go_ret tt
  else if IsElf tg then elfadddynsym tg syms s
  else Errorf s "adddynsym: unsupported binary format".

Definition AddGotSym (tg : target) (syms : ArchSyms) (s elfRelocTyp : Z) : L unit :=
  let! g := go_read (fun l => SymGot l s) in
  if 0 <=? g then go_ret tt else
  Adddynsym tg syms s ;!
  let! size := go_read (fun l => Size l (GOT syms)) in
  SetGot s (i32 size) ;!
  update (GOT syms) (AddUint 0) ;!
  if IsElf tg then
    let! g := go_read (fun l => SymGot l s) in
    update (Rel syms) (AddAddrPlus (GOT syms) g) ;!
    let! id := go_read (fun l => SymDynid l s) in
    update (Rel syms) (AddUint32 (R_INFO32 (u32 id) elfRelocTyp))
  else Errorf s "addgotsym: unsupported binary format".

(** The outermost symbol and the offset in it. *)
Definition FoldSubSymbolOffset (l : lst) (s : Z) : Z * Z :=
  let outer := OuterSym l s in
  if negb (outer =? 0) then (outer, SymValue l s - SymValue l outer) else (s, 0).

Definition AddTramp (s typ : Z) : L unit :=
  update s (fun y => set_attrs true true (set_kind typ y)) ;!
  go_modify (fun l => set_tramps (l_tramps l ++ [s]) l).

(** ** arm/asm.go *)
Definition braddoff (a b : Z) : Z :=
  i32 (Z.lor (Z.land (u32 a) 0xff000000) (Z.land 0x00ffffff (u32 (i32 (a + b))))).

Definition signext24 (x : Z) : Z := Z.shiftr (i32 (Z.shiftl (i32 x) 8)) 8.

Fixpoint immrot_loop (k : nat) (i v : Z) : Z :=
  match k with
  | O => 0
  | S k => if Z.ldiff v 0xff =? 0 then Z.lor (Z.lor (Z.shiftl i 8) v) (2 ^ 25)
           else immrot_loop k (i + 1) (Z.lor (u32 (Z.shiftl v 2)) (Z.shiftr v 30))
  end.
Definition immrot (v : Z) : Z := immrot_loop 16 0 v.

Definition addpltreloc (plt got s typ : Z) : L unit :=
  let! g := go_read (fun l => SymGot l s) in
  update plt (fun y =>
    let y := AddRel (mkReloc typ (i32 (sy_size y)) 4 got (g - 8)) y in
    let y := set_attrs true (sy_onlist y) y in
    set_content (sy_size y + 4) (Grow (sy_size y + 4) (sy_data y)) y).

Definition addpltsym (tg : target) (syms : ArchSyms) (s : Z) : L unit :=
  let! p := go_read (fun l => SymPlt l s) in
  if 0 <=? p then go_ret tt else
  Adddynsym tg syms s ;!
  if IsElf tg then
    let! pltsize := go_read (fun l => Size l (PLT syms)) in
    if pltsize =? 0 then go_throw "plt is not set up" else
    let! gotsize := go_read (fun l => Size l (GOTPLT syms)) in
    SetGot s (i32 gotsize) ;!
    update (GOTPLT syms) (AddAddrPlus (PLT syms) 0) ;!
    SetPlt s (i32 pltsize) ;!
    addpltreloc (PLT syms) (GOTPLT syms) s R_PLT0 ;!
    addpltreloc (PLT syms) (GOTPLT syms) s R_PLT1 ;!
    addpltreloc (PLT syms) (GOTPLT syms) s R_PLT2 ;!
    let! g := go_read (fun l => SymGot l s) in
    update (RelPLT syms) (AddAddrPlus (GOTPLT syms) g) ;!
    let! id := go_read (fun l => SymDynid l s) in
    update (RelPLT syms) (AddUint32 (R_INFO32 (u32 id) R_ARM_JUMP_SLOT))
  else Errorf s "addpltsym: unsupported binary format".

Definition addgotsyminternal (tg : target) (syms : ArchSyms) (s : Z) : L unit :=
  let! g := go_read (fun l => SymGot l s) in
  if 0 <=? g then go_ret tt else
  let! size := go_read (fun l => Size l (GOT syms)) in
  SetGot s (i32 size) ;!
  update (GOT syms) (AddAddrPlus s 0) ;!
  if IsElf tg then go_ret tt else Errorf s "addgotsyminternal: unsupported binary format".

Definition elfsetupplt (tg : target) (plt got dynamic : Z) : L unit :=
  let! size := go_read (fun l => Size l plt) in
  if negb (size =? 0) then go_ret tt else
  update plt (AddUint32 0xe52de004) ;!
  update plt (AddUint32 0xe59fe004) ;!
  update plt (AddUint32 0xe08fe00e) ;!
  update plt (AddUint32 0xe5bef008) ;!
  update plt (AddPCRelPlus got 4) ;!
  (if t_qnx tg then update got (AddAddrPlus dynamic 0) else update got (AddUint32 0)) ;!
  update got (AddUint32 0) ;!
  update got (AddUint32 0).

(** The branch redirected to the PLT entry of [targ]. *)
Definition call_plt (tg : target) (syms : ArchSyms) (s : Z) (i : nat) (targ add : Z) : L unit :=
  addpltsym tg syms targ ;!
  let! p := go_read (fun l => SymPlt l targ) in
  SetRelocSym s i (PLT syms) ;!
  SetRelocAdd s i (braddoff (i32 add) (goquot p 4)).

(** The GOT slot of [targ], of either sort. *)
Definition add_got (tg : target) (syms : ArchSyms) (targ targType : Z) : L Z :=
  (if negb (targType =? SDYNIMPORT) then addgotsyminternal tg syms targ
   else AddGotSym tg syms targ R_ARM_GLOB_DAT) ;!
  go_read (fun l => SymGot l targ).

(** The relocations of ELF object files: [None] is the fall out of the switch. *)
Definition adddynrel_elf (tg : target) (syms : ArchSyms) (s : Z) (r : reloc) (i : nat)
    (targ targType : Z) : L (option bool) :=
  let elf t := r_type r =? ElfRelocOffset + t in
  if elf R_ARM_PLT32 || elf R_ARM_CALL || elf R_ARM_PC24 || elf R_ARM_JUMP24 then
    SetRelocType s i R_CALLARM ;!
    (if targType =? SDYNIMPORT then call_plt tg syms s i targ (r_add r) else go_ret tt) ;!
    go_ret (Some true)
  else if elf R_ARM_THM_PC22 then go_throw "R_ARM_THM_CALL, are you using -marm?"
  else if elf R_ARM_GOT32 then
    let! g := add_got tg syms targ targType in
    SetRelocType s i R_CONST ;! SetRelocSym s i 0 ;! SetRelocAdd s i (r_add r + g) ;!
    go_ret (Some true)
  else if elf R_ARM_GOT_PREL then
    let! g := add_got tg syms targ targType in
    SetRelocType s i R_PCREL ;! SetRelocSym s i (GOT syms) ;! SetRelocAdd s i (r_add r + 4 + g) ;!
    go_ret (Some true)
  else if elf R_ARM_GOTOFF then SetRelocType s i R_GOTOFF ;! go_ret (Some true)
  else if elf R_ARM_GOTPC then
    SetRelocType s i R_PCREL ;! SetRelocSym s i (GOT syms) ;! SetRelocAdd s i (r_add r + 4) ;!
    go_ret (Some true)
  else if elf R_ARM_REL32 then
    SetRelocType s i R_PCREL ;! SetRelocAdd s i (r_add r + 4) ;! go_ret (Some true)
  else if elf R_ARM_ABS32 then
    (if targType =? SDYNIMPORT then Errorf s "unexpected R_ARM_ABS32 relocation for dynamic symbol %s"
     else go_ret tt) ;!
    SetRelocType s i R_ADDR ;! go_ret (Some true)
  else if ElfRelocOffset <=? r_type r then
    Errorf s "unexpected relocation type %d (%s)" ;! go_ret (Some false)
  else go_ret None.

Definition pie_skipped : list string := [".dynsym"; ".rel"; ".rel.plt"; ".got"; ".got.plt"; ".dynamic"]%string.

(** case R_ADDR of the second switch *)
Definition adddynrel_addr (tg : target) (syms : ArchSyms) (s : Z) (r : reloc) (i : nat)
    (targ targType : Z) : L bool :=
  let! ts := go_read (fun l => SymType l s) in
  if IsText ts && IsElf tg && (targType =? SDYNIMPORT) then
    addpltsym tg syms targ ;!
    let! p := go_read (fun l => SymPlt l targ) in
    SetRelocSym s i (PLT syms) ;! SetRelocAdd s i (r_add r + p) ;! go_ret true
  else if targType =? SDYNIMPORT then
    if negb (IsDATA ts) then go_ret false
    else if IsElf tg then
      Adddynsym tg syms targ ;!
      update (Rel syms) (AddAddrPlus s (r_off r)) ;!
      let! id := go_read (fun l => SymDynid l targ) in
      update (Rel syms) (AddUint32 (R_INFO32 (u32 id) R_ARM_GLOB_DAT)) ;!
      SetRelocType s i R_CONST ;! SetRelocSym s i 0 ;! go_ret true
    else go_ret false
  else if IsPIE tg && IsInternal tg && IsElf tg then
    let! name := go_read (fun l => SymName l s) in
    if bool_decide (name ∈ pie_skipped) then go_ret false
    else if negb (IsDATA ts) && negb (IsRODATA ts) then go_ret false
    else if negb (r_siz r =? 4) then Errorf s "R_ADDR of size %d in internal PIE" ;! go_ret false
    else
      update (Rel syms) (AddAddrPlus s (r_off r)) ;!
      update (Rel syms) (AddUint32 (R_INFO32 0 R_ARM_RELATIVE)) ;! go_ret true
  else go_ret false.

Definition adddynrel (tg : target) (syms : ArchSyms) (s : Z) (r : reloc) (i : nat) : L bool :=
  let targ := r_sym r in
  let! targType := go_read (fun l => if negb (targ =? 0) then SymType l targ else Sxxx) in
  let! done := adddynrel_elf tg syms s r i targ targType in
  match done with
  | Some b => go_ret b
  | None =>
    if negb (targType =? SDYNIMPORT) then go_ret true else
    let! r := go_read (fun l => default r (Relocs l s !! i)) in
    if r_type r =? R_CALLARM then
      if IsExternal tg then go_ret true
      else call_plt tg syms s i targ (r_add r) ;! go_ret true
    else if r_type r =? R_ADDR then adddynrel_addr tg syms s r i targ targType
    else if r_type r =? R_GOTPCREL then
      if IsExternal tg then go_ret true else
      (if negb (targType =? SDYNIMPORT) then Errorf s "R_GOTPCREL target is not SDYNIMPORT symbol: %v"
       else go_ret tt) ;!
      AddGotSym tg syms targ R_ARM_GLOB_DAT ;!
      let! g := go_read (fun l => SymGot l targ) in
      SetRelocType s i R_PCREL ;! SetRelocSym s i (GOT syms) ;! SetRelocAdd s i (r_add r + g) ;!
      go_ret true
    else go_ret false
  end.

(** ** ld/data.go: all the dynamic relocations *)

(** The body of dynrelocsym's loop.  [weak s i] is Weak() of relocation [i], a bit of
    the object file's relocation type that [r_type] leaves out. *)
Definition dynrelocsym_one (weak : Z -> nat -> bool) (tg : target) (syms : ArchSyms) (s : Z) (ri : nat) : L unit :=
  let! l := go_get in
  match Relocs l s !! ri with
  | None => go_throw "index out of range"
  | Some r =>
    let rSym := r_sym r in
    if r_siz r =? 0 then go_ret tt
    else if weak s ri && negb (AttrReachable l rSym) then go_ret tt
    else if IsPIE tg && IsInternal tg then adddynrel tg syms s r ri ;! go_ret tt
    else if (negb (rSym =? 0) && (SymType l rSym =? SDYNIMPORT)) || (ElfRelocOffset <=? r_type r) then
      (if negb (rSym =? 0) && negb (AttrReachable l rSym)
       then Errorf s "dynamic relocation to unreachable symbol %s" else go_ret tt) ;!
      let! ok := adddynrel tg syms s r ri in
      if ok then go_ret tt else Errorf s "unsupported dynamic relocation for symbol %s (type=%d (%s) stype=%d (%s))"
    else go_ret tt
  end.

(** [k] turns of the loop from index [ri]. *)
Fixpoint dynrelocsym_loop (weak : Z -> nat -> bool) (tg : target) (syms : ArchSyms) (s : Z) (k ri : nat) : L unit :=
  match k with
  | O => go_ret tt
  | S k => dynrelocsym_one weak tg syms s ri ;! dynrelocsym_loop weak tg syms s k (S ri)
  end.
Definition dynrelocsym (weak : Z -> nat -> bool) (tg : target) (syms : ArchSyms) (s : Z) : L unit :=
  let! n := go_read (fun l => length (Relocs l s)) in dynrelocsym_loop weak tg syms s n 0.

(** The two loops of dynreloc, over the text and then the data symbols. *)
Fixpoint dynrelocsyms (weak : Z -> nat -> bool) (tg : target) (syms : ArchSyms) (ss : list Z) : L unit :=
  match ss with
  | [] => go_ret tt
  | s :: ss => dynrelocsym weak tg syms s ;! dynrelocsyms weak tg syms ss
  end.

(** The code of gentext, PrepareAddmoduledata having made [initfunc]. *)
Definition gentext (initfunc addmoduledata moduledata : Z) : L unit :=
  update initfunc (AddUint32 0xe59f0004) ;!
  update initfunc (AddUint32 0xe08f0000) ;!
  update initfunc (AddUint32 0xeafffffe) ;!
  update initfunc (AddRel (mkReloc R_CALLARM 8 4 addmoduledata 0xeafffffe)) ;!
  update initfunc (AddUint32 0) ;!
  update initfunc (AddRel (mkReloc R_PCREL 12 4 moduledata 4)).

(** ** Trampolines *)

(** [arch.ByteOrder.PutUint32] of each word in turn. *)
Definition put_words (ws : list Z) : list Z := flat_map (fun w => le_bytes 4 (u32 w)) ws.

(** tramp.SetSize(len(P)); tramp.SetData(P) *)
Definition SetContent (P : list Z) (y : symst) : symst := set_content (Z.of_nat (length P)) P y.

Definition bx_ip : Z := Z.lor 0xe12fff10 12.
Definition ldr_ip_pc (imm : Z) : Z := Z.lor (Z.lor (Z.lor 0xe5900000 (Z.shiftl 12 12)) (Z.shiftl 15 16)) imm.
Definition add_ip_pc_ip : Z := Z.lor (Z.lor (Z.lor 0xe0800000 (Z.shiftl 12 12)) (Z.shiftl 15 16)) 12.
Definition ldr_ip_ip : Z := Z.lor (Z.lor 0xe5900000 (Z.shiftl 12 12)) (Z.shiftl 12 16).
Definition add_ip_ip (imm : Z) : Z := Z.lor (Z.lor (Z.lor 0xe2800000 (Z.shiftl 12 12)) (Z.shiftl 12 16)) imm.

Definition gentramp (tg : target) (tramp tgt offset : Z) : L unit :=
  let! v := go_read (fun l => SymValue l tgt) in
  update tramp (SetContent (put_words [ldr_ip_pc 0; bx_ip; v + offset])) ;!
  if IsExternal tg || (v =? 0) then update tramp (AddRel (mkReloc R_ADDR 8 4 tgt offset)) else go_ret tt.

Definition gentramppic (tramp tgt offset : Z) : L unit :=
  update tramp (SetContent (put_words [ldr_ip_pc 4; add_ip_pc_ip; bx_ip; 0])) ;!
  update tramp (AddRel (mkReloc R_PCREL 12 4 tgt (offset + 4))).

Definition gentrampdyn (tramp tgt offset : Z) : L unit :=
  if offset =? 0 then
    update tramp (SetContent (put_words [ldr_ip_pc 8; add_ip_pc_ip; ldr_ip_ip; bx_ip; 0])) ;!
    update tramp (AddRel (mkReloc R_GOTPCREL 16 4 tgt 8))
  else
    update tramp (SetContent (put_words [ldr_ip_pc 12; add_ip_pc_ip; ldr_ip_ip;
                                         add_ip_ip (immrot (u32 offset)); bx_ip; 0])) ;!
    update tramp (AddRel (mkReloc R_GOTPCREL 20 4 tgt 12)).

(** %+d *)
Definition plus_d (z : Z) : string := if 0 <=? z then ("+" ++ pretty z)%string else pretty z.
Definition tramp_name (oName : string) (offset : Z) (i : Z) : string :=
  (oName ++ plus_d offset ++ "-tramp" ++ pretty i)%string.

(** The loop that finds an existing trampoline in reach or a name for a new one; the
    mark that one of runtime.deferreturn gets (for the unwinder) is left out. *)
Fixpoint find_tramp (fuel : nat) (s rs off offset i : Z) : L Z :=
  match fuel with
  | O => fun _ => NoFuel
  | S fuel =>
    let! name := go_read (fun l => tramp_name (SymName l rs) offset i) in
    let! ver := go_read (fun l => SymVersion l rs) in
    let! tramp := LookupOrCreateSym name ver in
    go_modify (upd tramp (fun y => set_attrs true (sy_onlist y) y)) ;!
    let! l := go_get in
    if SymType l tramp =? SDYNIMPORT then find_tramp fuel s rs off offset (i + 1)
    else if SymValue l tramp =? 0 then go_ret tramp
    else
      let t := goquot (SymValue l tramp - 8 - (SymValue l s + off)) 4 in
      if (-0x800000 <=? t) && (t <? 0x7fffff) then go_ret tramp
      else find_tramp fuel s rs off offset (i + 1)
  end.

(** The distance of a direct call, in words; 0 when the target has no address yet. *)
Definition tramp_distance (tg : target) (l : lst) (s rs : Z) (r : reloc) : Z :=
  if SymValue l rs =? 0 then 0
  else if IsExternal tg then goquot (SymValue l rs - (SymValue l s + r_off r)) 4
  else goquot (SymValue l rs + signext24 (Z.land (r_add r) 0xffffff) * 4 - (SymValue l s + r_off r)) 4.

Definition too_far (tg : target) (l : lst) (s rs : Z) (r : reloc) : bool :=
  let t := tramp_distance tg l s rs r in
  (0x7fffff <? t) || (t <=? -0x800000) || (SymValue l rs =? 0) ||
  ((1 <? t_debugtramp tg) && negb (bool_decide (SymPkg l s = SymPkg l rs))).

Definition create_tramp (tg : target) (s rs offset tramp : Z) : L unit :=
  let! l := go_get in
  if negb (SymType l tramp =? Sxxx) then go_ret tt else
  AddTramp tramp (SymType l s) ;!
  if t_dynlink tg || (SymType l rs =? SDYNIMPORT) then
    (if immrot (u32 offset) =? 0 then Errorf s "odd offset in dynlink direct call: %v+%d" else go_ret tt) ;!
    gentrampdyn tramp rs offset
  else if bool_decide (t_mode tg ∈ [BuildModeCArchive; BuildModeCShared; BuildModePIE]) then
    gentramppic tramp rs offset
  else gentramp tg tramp rs offset.

Definition is_call (t : Z) : bool :=
  (t =? ElfRelocOffset + R_ARM_CALL) || (t =? ElfRelocOffset + R_ARM_PC24) ||
  (t =? ElfRelocOffset + R_ARM_JUMP24) || (t =? R_CALLARM).

Definition trampoline (fuel : nat) (tg : target) (ri : nat) (rs s : Z) : L unit :=
  let! l := go_get in
  match Relocs l s !! ri with
  | None => go_throw "index out of range"
  | Some r =>
    if negb (is_call (r_type r)) then Errorf s "trampoline called with non-jump reloc: %d (%s)" else
    if negb (too_far tg l s rs r) then go_ret tt else
    let offset := i32 (i32 (signext24 (Z.land (r_add r) 0xffffff) + 2) * 4) in
    let! tramp := find_tramp fuel s rs (r_off r) offset 0 in
    create_tramp tg s rs offset tramp ;!
    set_reloc s ri (fun r => set_radd (Z.lor (Z.land (r_add r) 0xff000000) 0xfffffe) (set_rsym tramp r))
  end.

(** ** Final values *)

(** [o], the number of external relocations and [ok], with the errors reported. *)
Definition archreloc (tg : target) (syms : ArchSyms) (l : lst) (r : reloc) (s val : Z) :
    Z * Z * bool * list (Z * string) :=
  let rs := r_sym r in
  let add := r_add r in
  if IsExternal tg then
    if r_type r =? R_CALLARM then
      let xadd := signext24 (Z.land add 0xffffff) * 4 + snd (FoldSubSymbolOffset l rs) in
      let q := goquot xadd 4 in
      let errs := if (0x7fffff <? q) || (q <? -0x800000) then [(s, "direct call too far %d"%string)] else [] in
      (braddoff (i32 (Z.land 0xff000000 (u32 add))) (i32 (Z.land 0xffffff (u32 q))), 1, true, errs)
    else (-1, 0, false, [])
  else
    let plt_dist := SymValue l rs - (SymValue l (PLT syms) + r_off r) in
    if r_type r =? R_PLT0 then
      let errs := if SymValue l (GOTPLT syms) <? SymValue l (PLT syms)
                  then [(s, ".got.plt should be placed after .plt section."%string)] else [] in
      (0xe28fc600 + Z.land 0xff (Z.shiftr (u32 (plt_dist + add)) 20), 0, true, errs)
    else if r_type r =? R_PLT1 then
      (0xe28cca00 + Z.land 0xff (Z.shiftr (u32 (plt_dist + add + 4)) 12), 0, true, [])
    else if r_type r =? R_PLT2 then
      (0xe5bcf000 + Z.land 0xfff (u32 (plt_dist + add + 8)), 0, true, [])
    else if r_type r =? R_CALLARM then
      let t := goquot (SymValue l rs + signext24 (Z.land add 0xffffff) * 4 - (SymValue l s + r_off r)) 4 in
      let errs := if (0x7fffff <? t) || (t <? -0x800000) then [(s, "direct call too far: %s %x"%string)] else [] in
      (braddoff (i32 (Z.land 0xff000000 (u32 add))) (i32 (Z.land 0xffffff t)), 0, true, errs)
    else (val, 0, false, []).

(** The type and the external addend of the outer symbol: [None] when not handled. *)
Definition extreloc (l : lst) (r : reloc) : option (Z * Z * Z * Z) :=
  if r_type r =? R_CALLARM then
    let (rs, off) := FoldSubSymbolOffset l (r_sym r) in
    Some (rs, r_type r, r_siz r, signext24 (Z.land (r_add r) 0xffffff) * 4 + off)
  else None.

(** The words written to the relocation section, and whether it succeeded. *)
Definition elfreloc1 (elfsym typ siz add sectoff : Z) : list Z * bool :=
  let w0 := u32 sectoff in
  let info t := Z.lor t (u32 (Z.shiftl elfsym 8)) in
  let sized t := if siz =? 4 then ([w0; info t], true) else ([w0], false) in
  if (typ =? R_ADDR) || (typ =? R_DWARFSECREF) then sized R_ARM_ABS32
  else if typ =? R_PCREL then sized R_ARM_REL32
  else if typ =? R_CALLARM then
    sized (if Z.land add 0xff000000 =? 0xeb000000 then R_ARM_CALL else R_ARM_JUMP24)
  else if typ =? R_TLS_LE then ([w0; info R_ARM_TLS_LE32], true)
  else if typ =? R_TLS_IE then ([w0; info R_ARM_TLS_IE32], true)
  else if typ =? R_GOTPCREL then sized R_ARM_GOT_PREL
  else ([w0], false).

(** relocsym for an internal link on ARM ELF: the value a relocation stores, or
    [None] for the types this development leaves out (sections, DWARF, TLS IE). *)
Definition reloc_value (tg : target) (syms : ArchSyms) (l : lst) (s : Z) (r : reloc) (P : list Z) :
    option (Z * list (Z * string)) :=
  let rs := r_sym r in
  let word := le_value (take (Z.to_nat (r_siz r)) (drop (Z.to_nat (r_off r)) P)) in
  if r_type r =? R_ADDR then Some (SymValue l rs + r_add r, [])
  else if (r_type r =? R_CALL) || (r_type r =? R_PCREL) || (r_type r =? R_GOTPCREL) then
    Some ((if negb (rs =? 0) then SymValue l rs else 0) + r_add r - (SymValue l s + r_off r + r_siz r), [])
  else if r_type r =? R_TLS_LE then Some (8 + SymValue l rs, [])
  else if r_type r =? R_SIZE then Some (Size l rs + r_add r, [])
  else if r_type r =? R_CONST then Some (r_add r, [])
  else if r_type r =? R_GOTOFF then Some (SymValue l rs + r_add r - SymValue l (GOT syms), [])
  else if bool_decide (r_type r ∈ [R_CALLARM; R_PLT0; R_PLT1; R_PLT2]) then
    let '(o, _, ok, errs) := archreloc tg syms l r s word in
    Some (if ok : bool then (o, errs) else (word, errs ++ [(s, "unknown reloc to %v: %d (%s)"%string)]))
  else None.

(** A target nothing defines. *)
Definition unresolved (l : lst) (rs : Z) : bool :=
  negb (rs =? 0) && ((SymType l rs =? Sxxx) || (SymType l rs =? SXREF)).

(** The last switch of the loop: [o] written over the relocated word.  Every size but
    4 is left out. *)
Definition store_reloc (s : Z) (r : reloc) (P : list Z) (o : Z) : option (list Z * list (Z * string)) :=
  if negb (r_siz r =? 4) then None else
  let pcrel := (r_type r =? R_PCREL) || (r_type r =? R_CALL) in
  let big := if pcrel && negb (o =? i32 o) then [(s, "pc-relative relocation %s address for %s is too big: %#x"%string)]
             else if negb pcrel && negb (o =? i32 o) && negb (o =? u32 o) then [(s, "non-pc-relative relocation %s address for %s is too big: %#x"%string)]
             else [] in
  Some (write_at P (r_off r) (le_bytes 4 (u32 o)), big).

(** The image [P] after one relocation.  Of the diagnostics only those of this code
    path are kept: the rules on shared objects (-buildmode=shared, plugin) are not, and
    neither are the two uses of the relocation's weak bit, the diagnostic "unreachable
    sym in relocation" and the redirection of a weak R_ADDR to an unreachable method. *)
Definition reloc_one (tg : target) (syms : ArchSyms) (l : lst) (s : Z) (r : reloc) (P : list Z) :
    option (list Z * list (Z * string)) :=
  if (r_off r <? 0) || (Z.of_nat (length P) <? i32 (r_off r + r_siz r)) then
    Some (P, [(s, "invalid relocation %s: %d+%d not in [%d,%d)"%string)])
  else if r_siz r =? 0 then Some (P, [])
  else if unresolved l (r_sym r) then Some (P, [(s, "relocation target %s not defined"%string)])
  else if ElfRelocOffset <=? r_type r then Some (P, [])
  else match reloc_value tg syms l s r P with
       | None => None
       | Some (o, errs) =>
         match store_reloc s r P o with
         | None => None
         | Some (P, big) => Some (P, errs ++ big)
         end
       end.

Fixpoint reloc_all (tg : target) (syms : ArchSyms) (l : lst) (s : Z) (rs : list reloc) (P : list Z) :
    option (list Z * list (Z * string)) :=
  match rs with
  | [] => Some (P, [])
  | r :: rs => match reloc_one tg syms l s r P with
               | None => None
               | Some (P, e1) => match reloc_all tg syms l s rs P with
                                 | None => None
                                 | Some (P, e2) => Some (P, e1 ++ e2)
                                 end
               end
  end.

(** The contents of [s] in the output file. *)
Definition relocsym (tg : target) (syms : ArchSyms) (l : lst) (s : Z) : option (list Z * list (Z * string)) :=
  reloc_all tg syms l s (Relocs l s) (Data l s).
