(* ===== verification/LinkArmCall.v ===== *)
(** * LinkArmCall: calls reach their target

    What the instructions LinkArm.v produces do on an ARM ([ArmIsa]): immediates,
    the branch of a resolved R_CALLARM, and the trampolines. *)
From Stdlib Require Import ZArith Lia List Bool String.
From stdpp Require Import base list gmap strings numbers pretty tactics option.
From S2P Require Import Prelude ArmIsa Loader LinkArm.

(** ** Branch arithmetic *)
Lemma signext24_sext x : signext24 x = sext24 x.
Proof.
  unfold signext24, sext24. rewrite Z.shiftl_mul_pow2, Z.shiftr_div_pow2 by lia.
  replace (i32 (i32 x * 2 ^ 8)) with (2 ^ 8 * wraps 24 x).
  - rewrite Z.mul_comm, Z.div_mul by lia. done.
  - destruct (wraps_spec 32 ltac:(lia) x) as [k E]. rewrite E, (wraps_eqm 32 _ (x * 2 ^ 8)).
    2:{ exists (k * 2 ^ 8). lia. }
    unfold wraps. change (2 ^ (32 - 1)) with (2 ^ (24 - 1) * 2 ^ 8). change (2 ^ 32) with (2 ^ 24 * 2 ^ 8).
    rewrite <- Z.mul_add_distr_r, Zmult_mod_distr_r. lia.
Qed.

Lemma sext24_mod x : sext24 (x mod 2 ^ 24) = sext24 x.
Proof. exact (wraps_wrapu 24 ltac:(lia) x). Qed.

Lemma sext24_small x : - 2 ^ 23 <= x < 2 ^ 23 -> sext24 x = x.
Proof. intros H. apply (wraps_small 24); [lia|exact H]. Qed.

Lemma land_low24 x : Z.land x 0xffffff = x mod 2 ^ 24.
Proof. apply (land_ones_mod x 24). lia. Qed.

Lemma land_high8 x : Z.land x 0xff000000 = 2 ^ 24 * ((x / 2 ^ 24) mod 2 ^ 8).
Proof. change 0xff000000 with (Z.shiftl (2 ^ 8 - 1) 24). apply land_field; lia. Qed.

(** braddoff keeps the top byte of [a] and adds in the low 24 bits. *)
Lemma braddoff_u32 a b : u32 (braddoff a b) = 2 ^ 24 * (u32 a / 2 ^ 24) + (a + b) mod 2 ^ 24.
Proof.
  unfold braddoff. rewrite (wrapu_wraps 32) by lia. rewrite land_high8, (Z.land_comm 0xffffff), land_low24.
  pose proof (wrapu_range 32 ltac:(lia) a) as Ha. unfold in_u in Ha.
  rewrite (Z.mod_small (u32 a / 2 ^ 24)) by zify_mod.
  assert (u32 (i32 (a + b)) mod 2 ^ 24 = (a + b) mod 2 ^ 24) as ->.
  { rewrite (wrapu_wraps 32) by lia. unfold wrapu. change (2 ^ 32) with (2 ^ 24 * 2 ^ 8).
    rewrite Z.rem_mul_r, (Z.mul_comm (2 ^ 24) (_ mod _)), Z_mod_plus_full by lia. apply Z.mod_mod. lia. }
  rewrite lor_clear.
  - apply wrapu_small. unfold in_u. zify_mod.
  - apply Z.bits_inj'. intros i Hi. rewrite Z.land_spec, Z.bits_0. destruct (Z.ltb_spec i 24).
    + rewrite (Z.mul_comm (2 ^ 24)), Z.mul_pow2_bits_low by lia. done.
    + rewrite (Z.mod_pow2_bits_high (a + b)) by lia. apply andb_false_r.
Qed.

(** The instruction archreloc builds: the top byte of the addend over [t]. *)
Lemma call_word add t :
  u32 (braddoff (i32 (Z.land 0xff000000 (u32 add))) (i32 (Z.land 0xffffff t))) =
  2 ^ 24 * (u32 add / 2 ^ 24) + t mod 2 ^ 24.
Proof.
  rewrite braddoff_u32, (wrapu_wraps 32) by lia.
  rewrite (Z.land_comm 0xff000000), land_high8, (Z.land_comm 0xffffff), land_low24.
  pose proof (wrapu_range 32 ltac:(lia) add) as Ha. unfold in_u in Ha.
  rewrite (Z.mod_small (u32 add / 2 ^ 24)) by zify_mod.
  set (h := u32 add / 2 ^ 24). assert (0 <= h < 2 ^ 8) by (unfold h; zify_mod).
  assert (0 <= t mod 2 ^ 24 < 2 ^ 24) by (apply Z.mod_pos_bound; lia).
  rewrite (wrapu_small 32 (2 ^ 24 * h)) by (unfold in_u; lia).
  rewrite (Z.mul_comm (2 ^ 24) h), Z.div_mul, (Z.mul_comm h) by lia. f_equal.
  destruct (wraps_spec 32 ltac:(lia) (2 ^ 24 * h)) as [k1 ->]. destruct (wraps_spec 32 ltac:(lia) (t mod 2 ^ 24)) as [k2 ->].
  replace (2 ^ 24 * h + k1 * 2 ^ 32 + (t mod 2 ^ 24 + k2 * 2 ^ 32))
    with (t mod 2 ^ 24 + (h + k1 * 2 ^ 8 + k2 * 2 ^ 8) * 2 ^ 24) by lia.
  rewrite Z_mod_plus_full. apply Z.mod_mod. lia.
Qed.

(** ** immrot *)
Definition rotl2 (v : Z) : Z := Z.lor (u32 (Z.shiftl v 2)) (Z.shiftr v 30).

Lemma rotl2_value v : in_u 32 v -> rotl2 v = (4 * v) mod 2 ^ 32 + v / 2 ^ 30.
Proof.
  intros Hv. unfold rotl2, wrapu. rewrite Z.shiftl_mul_pow2, Z.shiftr_div_pow2 by lia.
  rewrite (Z.mul_comm v). change (2 ^ 2) with 4. apply lor_clear.
  apply Z.bits_inj'. intros i Hi. rewrite Z.land_spec, Z.bits_0. destruct (Z.ltb_spec i 2).
  - rewrite Z.mod_pow2_bits_low, (Z.mul_comm 4) by lia. change 4 with (2 ^ 2).
    rewrite Z.mul_pow2_bits_low by lia. done.
  - rewrite (Z.bits_above_log2 (v / 2 ^ 30)); [apply andb_false_r| |].
    + unfold in_u in Hv. zify_mod.
    + unfold in_u in Hv. apply Z.le_lt_trans with 1; [|lia].
      change 1 with (Z.log2 3). apply Z.log2_le_mono. zify_mod.
Qed.

Lemma rotl2_range v : in_u 32 v -> in_u 32 (rotl2 v).
Proof. intros Hv. rewrite rotl2_value by done. unfold in_u in *. zify_mod. Qed.

Lemma rotl2_inj v w : in_u 32 v -> in_u 32 w -> rotl2 v = rotl2 w -> v = w.
Proof. intros Hv Hw. rewrite !rotl2_value by done. unfold in_u in *. zify_mod. Qed.

Fixpoint rotl (k : nat) (v : Z) : Z := match k with O => v | S k => rotl k (rotl2 v) end.

Lemma rotl_inj k : forall v w, in_u 32 v -> in_u 32 w -> rotl k v = rotl k w -> v = w.
Proof.
  induction k as [|k IH]; intros v w Hv Hw H; cbn in H; [done|].
  apply rotl2_inj; try done. apply IH; try done; by apply rotl2_range.
Qed.

(** All 16 rotations of all 256 bytes. *)
Definition rot_ok (rot n : Z) : bool :=
  let v := expand_imm rot n in
  (rotl (Z.to_nat rot) v =? n) && (0 <=? v) && (v <? 2 ^ 32) && negb (immrot v =? 0).

Lemma rot_table : all_below 12 0 (fun e => rot_ok (e / 256) (e mod 256)) = true.
Proof. vm_compute. reflexivity. Qed.

Lemma expand_imm_facts rot n : 0 <= rot < 16 -> 0 <= n < 256 ->
  rotl (Z.to_nat rot) (expand_imm rot n) = n /\ in_u 32 (expand_imm rot n) /\ immrot (expand_imm rot n) <> 0.
Proof.
  intros Hr Hn.
  assert (rot_ok rot n = true) as H.
  { pose proof (all_below_spec 12 0 (fun e => rot_ok (e / 256) (e mod 256)) rot_table (rot * 256 + n)) as H.
    cbv beta in H. change 256 with (2 ^ 8) in H. rewrite (split_div rot n 8 ltac:(lia) ltac:(lia)) in H.
    change (2 ^ 8) with 256 in H. replace ((rot * 256 + n) mod 256) with n in H by zify_mod. apply H. change (2 ^ Z.of_nat 12) with 4096. lia. }
  unfold rot_ok in H. cbv zeta in H. set (v := expand_imm rot n) in *. clearbody v.
  apply andb_true_iff in H as [H H4]. apply andb_true_iff in H as [H H3]. apply andb_true_iff in H as [H1 H2].
  apply negb_true_iff, Z.eqb_neq in H4. unfold in_u. lia.
Qed.

Lemma ldiff_byte v : in_u 32 v -> (Z.ldiff v 0xff =? 0) = (v <? 256).
Proof.
  intros Hv. rewrite ldiff_sub. change 0xff with (2 ^ 8 - 1). rewrite land_ones_mod by lia.
  unfold in_u in Hv. destruct (Z.ltb_spec v 256); [apply Z.eqb_eq|apply Z.eqb_neq]; zify_mod.
Qed.

Lemma immrot_loop_spec k : forall i v, in_u 32 v -> 0 <= i -> immrot_loop k i v <> 0 ->
  exists j, (j < k)%nat /\ rotl j v < 256 /\ 0 <= rotl j v /\
    immrot_loop k i v = Z.lor (Z.lor (Z.shiftl (i + Z.of_nat j) 8) (rotl j v)) (2 ^ 25).
Proof.
  induction k as [|k IH]; intros i v Hv Hi H; cbn [immrot_loop] in *; [done|].
  rewrite ldiff_byte in * by done. destruct (Z.ltb_spec v 256).
  - exists O. cbn [rotl]. unfold in_u in Hv. rewrite Z.add_0_r. split_and!; try done; lia.
  - destruct (IH (i + 1) (rotl2 v) (rotl2_range v Hv) ltac:(lia) H) as (j & Hj & H1 & H2 & E).
    exists (S j). cbn [rotl]. split_and!; try lia; try done.
    unfold rotl2 in E at 1. rewrite E. do 3 f_equal. lia.
Qed.

Lemma lor_imm12 i n : 0 <= i < 16 -> 0 <= n < 256 ->
  Z.lor (Z.lor (Z.shiftl i 8) n) (2 ^ 25) = 2 ^ 25 + i * 2 ^ 8 + n.
Proof.
  intros Hi Hn. rewrite Z.shiftl_mul_pow2 by lia. rewrite (lor_clear (i * 2 ^ 8) n), lor_clear; [lia| |].
  - apply Z.bits_inj'. intros b Hb. rewrite Z.land_spec, Z.bits_0, Z.pow2_bits_eqb by lia.
    destruct (Z.eqb_spec 25 b) as [<-|]; [|apply andb_false_r].
    rewrite Z.bits_above_log2; [done|lia|]. apply Z.le_lt_trans with (Z.log2 (2 ^ 12 - 1)); [|reflexivity].
    apply Z.log2_le_mono. lia.
  - apply Z.bits_inj'. intros b Hb. rewrite Z.land_spec, Z.bits_0. destruct (Z.ltb_spec b 8).
    + by rewrite Z.mul_pow2_bits_low by lia.
    + rewrite <- (Z.mod_small n (2 ^ 8)), Z.mod_pow2_bits_high by lia. apply andb_false_r.
Qed.

(** C36: immrot is ARM's modified immediate: it answers 0 exactly for the constants no
    rotated byte can express, and otherwise the field (with the immediate bit) that the
    processor expands to the constant. *)
Theorem immrot_spec v : in_u 32 v ->
  (immrot v = 0 <-> forall rot n, 0 <= rot < 16 -> 0 <= n < 256 -> expand_imm rot n <> v) /\
  (immrot v <> 0 -> exists rot n, 0 <= rot < 16 /\ 0 <= n < 256 /\
     immrot v = 2 ^ 25 + rot * 2 ^ 8 + n /\ expand_imm rot n = v).
Proof.
  intros Hv.
  assert (immrot v <> 0 -> exists rot n, 0 <= rot < 16 /\ 0 <= n < 256 /\
     immrot v = 2 ^ 25 + rot * 2 ^ 8 + n /\ expand_imm rot n = v) as Hsome.
  { intros H. destruct (immrot_loop_spec 16 0 v Hv ltac:(lia) H) as (j & Hj & H1 & H2 & E).
    destruct (expand_imm_facts (Z.of_nat j) (rotl j v) ltac:(lia) ltac:(lia)) as (F1 & F2 & _).
    rewrite Nat2Z.id in F1. exists (Z.of_nat j), (rotl j v). split_and!; try lia.
    - unfold immrot. rewrite E, Z.add_0_l. apply lor_imm12; lia.
    - by apply (rotl_inj j). }
  split; [|done]. split.
  - intros H0 rot n Hr Hn <-. by apply (expand_imm_facts rot n Hr Hn).
  - intros Hno. destruct (Z.eq_dec (immrot v) 0) as [|Hne]; [done|].
    destruct (Hsome Hne) as (rot & n & Hr & Hn & _ & E). by destruct (Hno rot n Hr Hn).
Qed.

(** 1020 is 255 rotated right by 30. *)
Lemma immrot_spec_witness : (immrot 1020 <> 0) /\ exists rot n, 0 <= rot < 16 /\ 0 <= n < 256 /\
  immrot 1020 = 2 ^ 25 + rot * 2 ^ 8 + n /\ expand_imm rot n = 1020.
Proof.
  assert (immrot 1020 <> 0) as Hne by (apply Z.eqb_neq; vm_compute; reflexivity).
  split; [exact Hne|]. exact (proj2 (immrot_spec 1020 ltac:(unfold in_u; lia)) Hne).
Defined.

(** ** The image relocsym builds *)

(** The word at [off]. *)
Definition word_of (P : list Z) (off : Z) : Z := le_value (take 4 (drop (Z.to_nat off) P)).

Lemma write_at_length P o b : 0 <= o -> o + Z.of_nat (length b) <= Z.of_nat (length P) ->
  length (write_at P o b) = length P.
Proof. intros H1 H2. unfold write_at. rewrite !length_app, length_take, length_drop. lia. Qed.

Lemma write_at_same P o b : 0 <= o -> o + Z.of_nat (length b) <= Z.of_nat (length P) -> length b = 4%nat ->
  word_of (write_at P o b) o = le_value b.
Proof.
  intros H1 H2 H4. unfold word_of, write_at.
  rewrite drop_app_length' by (rewrite length_take; lia). by rewrite take_app_length'.
Qed.

Lemma write_at_other P o b off : 0 <= o -> o + Z.of_nat (length b) <= Z.of_nat (length P) -> 0 <= off ->
  off + 4 <= o \/ o + Z.of_nat (length b) <= off -> word_of (write_at P o b) off = word_of P off.
Proof.
  intros H1 H2 H3 H4. unfold word_of. f_equal. apply list_eq. intros i.
  destruct (Nat.ltb_spec i 4); [|by rewrite !lookup_take_ge].
  rewrite !lookup_take_lt, !lookup_drop by lia. unfold write_at.
  destruct H4.
  - rewrite lookup_app_l by (rewrite length_take; lia). by rewrite lookup_take_lt by lia.
  - rewrite lookup_app_r by (rewrite length_take; lia). rewrite length_take.
    rewrite lookup_app_r by lia. rewrite lookup_drop. f_equal. lia.
Qed.

(** Two word-sized places that do not overlap. *)
Definition apart (a b : Z) : Prop := a + 4 <= b \/ b + 4 <= a.

Lemma some_fst {A C} (a a' : A) (b b' : C) : Some (a, b) = Some (a', b') -> a = a'.
Proof. congruence. Qed.

Lemma reloc_one_length tg syms l s r P P' e : 0 <= r_off r < 2 ^ 30 -> 0 <= r_siz r < 256 ->
  reloc_one tg syms l s r P = Some (P', e) -> length P' = length P.
Proof.
  intros Ho Hs. unfold reloc_one, store_reloc. rewrite (wraps_small 32) by (try lia; unfold in_s; lia).
  destruct (r_off r <? 0) eqn:E0; [lia|]. cbn [orb].
  destruct (Z.ltb_spec (Z.of_nat (length P)) (r_off r + r_siz r)); [congruence|].
  destruct (r_siz r =? 0); [congruence|]. destruct (unresolved _ _); [congruence|].
  destruct (_ <=? _); [congruence|]. destruct (reloc_value _ _ _ _ _ _) as [[o er]|]; [|done].
  destruct (Z.eqb_spec (r_siz r) 4); cbn [negb]; [|done]. intros <-%some_fst.
  apply write_at_length; rewrite ?length_le_bytes; lia.
Qed.

Lemma reloc_one_other tg syms l s r P P' e off : 0 <= r_off r < 2 ^ 30 -> 0 <= r_siz r < 256 -> 0 <= off ->
  apart off (r_off r) -> reloc_one tg syms l s r P = Some (P', e) -> word_of P' off = word_of P off.
Proof.
  intros Ho Hs Hoff Hap. unfold reloc_one, store_reloc. rewrite (wraps_small 32) by (try lia; unfold in_s; lia).
  destruct (r_off r <? 0) eqn:E0; [lia|]. cbn [orb].
  destruct (Z.ltb_spec (Z.of_nat (length P)) (r_off r + r_siz r)); [congruence|].
  destruct (r_siz r =? 0); [congruence|]. destruct (unresolved _ _); [congruence|].
  destruct (_ <=? _); [congruence|]. destruct (reloc_value _ _ _ _ _ _) as [[o er]|]; [|done].
  destruct (Z.eqb_spec (r_siz r) 4); cbn [negb]; [|done]. intros <-%some_fst.
  apply write_at_other; rewrite ?length_le_bytes; unfold apart in Hap; lia.
Qed.

(** A word-sized relocation with a target: what it stores does not depend on [P]
    unless it is one archreloc does not know. *)
Definition simple_reloc (l : lst) (r : reloc) : Prop :=
  r_siz r = 4 /\ r_type r < ElfRelocOffset /\ unresolved l (r_sym r) = false.

Lemma reloc_one_word tg syms l s r P P' e o er : 0 <= r_off r < 2 ^ 30 -> simple_reloc l r ->
  r_off r + 4 <= Z.of_nat (length P) ->
  reloc_value tg syms l s r P = Some (o, er) ->
  reloc_one tg syms l s r P = Some (P', e) -> word_of P' (r_off r) = u32 o.
Proof.
  intros Ho (H4 & Ht & Hu) Hlen Hv. unfold reloc_one, store_reloc. rewrite Hv, H4, Hu, (wraps_small 32) by (try lia; unfold in_s; lia).
  destruct (r_off r <? 0) eqn:E0; [lia|].
  rewrite (proj2 (Z.ltb_ge _ _)), (proj2 (Z.leb_gt _ _)) by lia. cbn [orb negb Z.eqb Pos.eqb].
  intros <-%some_fst. rewrite write_at_same by (rewrite ?length_le_bytes; lia).
  rewrite le_value_bytes. apply wrapu_wrapu. lia.
Qed.

Definition placed_ok (r : reloc) : Prop := 0 <= r_off r < 2 ^ 30 /\ 0 <= r_siz r < 256.

Lemma reloc_all_length tg syms l s rs : forall P P' e, Forall placed_ok rs ->
  reloc_all tg syms l s rs P = Some (P', e) -> length P' = length P.
Proof.
  induction rs as [|r rs IH]; intros P P' e Hok; cbn [reloc_all]; [congruence|].
  apply Forall_cons_iff in Hok as [[H1 H2] Hok].
  destruct (reloc_one _ _ _ _ r P) as [[P1 e1]|] eqn:E1; [|done].
  destruct (reloc_all _ _ _ _ rs P1) as [[P2 e2]|] eqn:E2; [|done]. intros [= <- _].
  rewrite (IH _ _ _ Hok E2). by eapply reloc_one_length.
Qed.

Lemma reloc_all_other tg syms l s off : 0 <= off -> forall rs P P' e, Forall placed_ok rs ->
  Forall (fun r => apart off (r_off r)) rs ->
  reloc_all tg syms l s rs P = Some (P', e) -> word_of P' off = word_of P off.
Proof.
  intros Hoff. induction rs as [|r rs IH]; intros P P' e Hok Hap; cbn [reloc_all]; [congruence|].
  apply Forall_cons_iff in Hok as [[H1 H2] Hok]. apply Forall_cons_iff in Hap as [H3 Hap].
  destruct (reloc_one _ _ _ _ r P) as [[P1 e1]|] eqn:E1; [|done].
  destruct (reloc_all _ _ _ _ rs P1) as [[P2 e2]|] eqn:E2; [|done]. intros [= <- _].
  rewrite (IH _ _ _ Hok Hap E2). by eapply reloc_one_other.
Qed.

(** The errors of one relocation are among those of the symbol. *)
Lemma reloc_all_at tg syms l s l1 r l2 P P' e : Forall placed_ok (l1 ++ r :: l2) ->
  reloc_all tg syms l s (l1 ++ r :: l2) P = Some (P', e) ->
  exists P1 e1 P2 er e2, reloc_all tg syms l s l1 P = Some (P1, e1) /\
    reloc_one tg syms l s r P1 = Some (P2, er) /\ reloc_all tg syms l s l2 P2 = Some (P', e2) /\
    e = e1 ++ er ++ e2.
Proof.
  revert P e. induction l1 as [|r1 l1 IH]; intros P e Hok; rewrite ?app_nil_l; cbn [app reloc_all].
  - destruct (reloc_one _ _ _ _ r P) as [[P2 er]|] eqn:E1; [|done].
    destruct (reloc_all _ _ _ _ l2 P2) as [[P3 e2]|] eqn:E2; [|done]. intros [= <- <-].
    exists P, [], P2, er, e2. done.
  - rewrite <- app_comm_cons in Hok. apply Forall_cons_iff in Hok as [_ Hok].
    destruct (reloc_one _ _ _ _ r1 P) as [[P1 e1]|] eqn:E1; [|done].
    destruct (reloc_all _ _ _ _ (l1 ++ r :: l2) P1) as [[P3 e2]|] eqn:E2; [|done]. intros [= <- <-].
    destruct (IH _ _ Hok E2) as (P4 & e4 & P5 & er & e5 & -> & H1 & H2 & ->).
    exists P4, (e1 ++ e4), P5, er, e5. by rewrite app_assoc.
Qed.

(** The word a relocation leaves, when no other touches it. *)
Lemma reloc_all_word tg syms l s rs i r P P' e o er : Forall placed_ok rs -> rs !! i = Some r ->
  (forall j r', rs !! j = Some r' -> j <> i -> apart (r_off r) (r_off r')) ->
  simple_reloc l r -> r_off r + 4 <= Z.of_nat (length P) ->
  (forall P, reloc_value tg syms l s r P = Some (o, er)) ->
  reloc_all tg syms l s rs P = Some (P', e) -> word_of P' (r_off r) = u32 o.
Proof.
  intros Hok Hi Hap Hs Hlen Hv Hall.
  pose proof (take_drop_middle rs i r Hi) as Hsplit. rewrite <- Hsplit in Hall, Hok.
  destruct (reloc_all_at _ _ _ _ _ _ _ _ _ _ Hok Hall) as (P1 & e1 & P2 & e2 & e3 & H1 & H2 & H3 & _).
  apply Forall_app in Hok as [Hok1 Hok2]. apply Forall_cons_iff in Hok2 as [[Hr1 Hr2] Hok2].
  rewrite (reloc_all_other _ _ _ _ (r_off r) ltac:(lia) _ _ _ _ Hok2) with (2 := H3).
  - eapply reloc_one_word; [done|done| |apply Hv|exact H2].
    by rewrite (reloc_all_length _ _ _ _ _ _ _ _ Hok1 H1).
  - apply Forall_lookup. intros j r' Hj. rewrite lookup_drop in Hj. apply (Hap (S i + j)%nat); [done|lia].
Qed.

(** ** Running the image *)

(** The machine's memory holds the output of the link for [s]. *)
Definition holds (tg : target) (syms : ArchSyms) (l : lst) (m : machine) (s : Z) : Prop :=
  forall P e off, relocsym tg syms l s = Some (P, e) -> 0 <= off -> off mod 4 = 0 ->
    off + 4 <= Z.of_nat (length P) -> mem m (u32 (SymValue l s + off)) = word_of P off.

(** A symbol laid out at a word-aligned address of the 32-bit space, its relocations
    one per word. *)
Definition laid (l : lst) (s : Z) : Prop :=
  0 < SymValue l s /\ SymValue l s mod 4 = 0 /\ SymValue l s + Z.of_nat (length (Data l s)) <= 2 ^ 32 /\
  Z.of_nat (length (Data l s)) < 2 ^ 30 /\
  Forall placed_ok (Relocs l s) /\
  (forall i j r r', Relocs l s !! i = Some r -> Relocs l s !! j = Some r' -> j <> i -> apart (r_off r) (r_off r')).

(** A relocation of [s] for a whole, aligned word of it. *)
Definition on_word (l : lst) (s : Z) (r : reloc) : Prop :=
  simple_reloc l r /\ r_off r mod 4 = 0 /\ r_off r + 4 <= Z.of_nat (length (Data l s)).

(** The registers in [rs] aside, the two machines agree; memory is the same. *)
Definition only (rs : list Z) (m m' : machine) : Prop :=
  mem m' = mem m /\ forall r, r ∉ rs -> reg m' r = reg m r.

Lemma put_eq {A} k (v : A) f : put k v f k = v.
Proof. unfold put. by rewrite Z.eqb_refl. Qed.

Lemma put_ne {A} k j (v : A) f : j <> k -> put k v f j = f j.
Proof. intros H. unfold put. by rewrite (proj2 (Z.eqb_neq j k)). Qed.

Section image.
Context (tg : target) (syms : ArchSyms) (l : lst) (s : Z) (Hlaid : laid l s).

Lemma relocsym_length P e : relocsym tg syms l s = Some (P, e) -> length P = length (Data l s).
Proof. destruct Hlaid as (_ & _ & _ & _ & H & _). by apply reloc_all_length. Qed.

Lemma holds_reloc m i r P e o er :
  holds tg syms l m s -> Relocs l s !! i = Some r -> on_word l s r -> relocsym tg syms l s = Some (P, e) ->
  (forall P, reloc_value tg syms l s r P = Some (o, er)) ->
  mem m (u32 (SymValue l s + r_off r)) = u32 o.
Proof.
  intros Hm Hi (Hs & Ha & Hlen) HP Hv. destruct Hlaid as (_ & _ & _ & _ & Hok & Hap).
  pose proof (proj1 (Forall_lookup _ _) Hok i r Hi) as [Hr1 Hr2].
  rewrite (Hm P e (r_off r) HP) by (rewrite ?(relocsym_length P e HP); lia).
  eapply reloc_all_word; [exact Hok|exact Hi| |exact Hs|exact Hlen|exact Hv|exact HP].
  intros j r' Hj Hne. by apply (Hap i j).
Qed.

Lemma holds_plain m P e off :
  holds tg syms l m s -> relocsym tg syms l s = Some (P, e) ->
  0 <= off -> off mod 4 = 0 -> off + 4 <= Z.of_nat (length (Data l s)) ->
  Forall (fun r => apart off (r_off r)) (Relocs l s) ->
  mem m (u32 (SymValue l s + off)) = word_of (Data l s) off.
Proof.
  intros Hm HP H0 Ha Hlen Hap. destruct Hlaid as (_ & _ & _ & _ & Hok & _).
  rewrite (Hm P e off HP) by (rewrite ?(relocsym_length P e HP); lia).
  by apply (reloc_all_other tg syms l s off H0 (Relocs l s) (Data l s) P e).
Qed.

Lemma addr_small off : 0 <= off -> off + 4 <= Z.of_nat (length (Data l s)) ->
  u32 (SymValue l s + off) = SymValue l s + off.
Proof. destruct Hlaid as (H1 & _ & H2 & _). intros. apply wrapu_small. unfold in_u. lia. Qed.
End image.

(** ** A resolved direct call *)
Definition is_branch (link : bool) (r : reloc) : Prop :=
  r_type r = R_CALLARM /\ u32 (r_add r) / 2 ^ 24 = (if link then 0xeb else 0xea).

(** Where a call relocation points: the addend counts words from 8 past it. *)
Definition call_target (l : lst) (r : reloc) : Z := u32 (SymValue l (r_sym r) + (signext24 (Z.land (r_add r) 0xffffff) + 2) * 4).

(** The machine after the branch. *)
Definition branched (link : bool) (a : Z) (m : machine) : machine :=
  set_reg PC a (if link then set_reg LR (u32 (pc m + 4)) m else m).

Lemma branch_exec (link : bool) n a m : 0 <= n < 2 ^ 24 -> a mod 4 = 0 -> u32 (pc m + 8 + 4 * sext24 n) = a ->
  exec (if link then BL n else B n) m = Some (branched link a m).
Proof. intros Hn Ha E. unfold branched, jump. destruct link; cbn [exec]; unfold jump; rewrite E, (proj2 (Z.eqb_eq _ _) Ha); done. Qed.

Lemma quot4_exact a : a mod 4 = 0 -> goquot a 4 = a / 4.
Proof.
  intros H. rewrite (Z.div_mod a 4) at 1 by lia. rewrite H, Z.add_0_r, Z.mul_comm, Z.quot_mul by lia. done.
Qed.

Lemma u32_align z : z mod 4 = 0 -> u32 z mod 4 = 0.
Proof. intros H. unfold wrapu. zify_mod. Qed.

(** Once the link of [s] reports nothing, the branch goes to the call's target. *)
Lemma call_site `{!ArmCpu} tg syms l s i r (link : bool) P m n :
  t_link tg = LinkInternal -> laid l s -> Relocs l s !! i = Some r -> on_word l s r ->
  is_branch link r -> SymValue l (r_sym r) mod 4 = 0 ->
  relocsym tg syms l s = Some (P, []) -> holds tg syms l m s -> pc m = SymValue l s + r_off r ->
  cpu_run (S n) m = cpu_run n (branched link (call_target l r) m).
Proof.
  intros Hint Hlaid Hi Hw [Ht Hop] Hal HP Hm Hpc.
  set (d := SymValue l (r_sym r) + signext24 (Z.land (r_add r) 0xffffff) * 4 - (SymValue l s + r_off r)).
  assert (d mod 4 = 0) as Hd by (destruct Hlaid as (_ & H4 & _); destruct Hw as (_ & H5 & _); unfold d; zify_mod).
  set (o := braddoff (i32 (Z.land 0xff000000 (u32 (r_add r)))) (i32 (Z.land 0xffffff (d / 4)))).
  set (errs := if (0x7fffff <? d / 4) || (d / 4 <? -0x800000) then [(s, "direct call too far: %s %x"%string)] else []).
  assert (forall P, reloc_value tg syms l s r P = Some (o, errs)) as Hv.
  { intros P0. unfold reloc_value, archreloc, IsExternal. rewrite Ht, Hint. cbn -[goquot braddoff Z.land Z.ltb].
    fold d. by rewrite (quot4_exact d Hd). }
  assert (errs = []) as Herr.
  { pose proof Hlaid as (_ & _ & _ & _ & Hok & _). pose proof HP as HP'. unfold relocsym in HP'.
    pose proof (take_drop_middle _ i r Hi) as Hsp. rewrite <- Hsp in HP', Hok.
    destruct (reloc_all_at _ _ _ _ _ _ _ _ _ _ Hok HP') as (P1 & e1 & P2 & e2 & e3 & H1 & H2 & _ & E).
    apply Forall_app in Hok as [Hok1 _].
    symmetry in E. apply app_eq_nil in E as [-> E]. apply app_eq_nil in E as [-> ->].
    pose proof (proj1 (Forall_lookup _ _) (proj1 (proj2 (proj2 (proj2 (proj2 Hlaid))))) i r Hi) as [Hr1 Hr2].
    destruct Hw as ((H4 & Hty & Hu) & _ & Hlen).
    unfold reloc_one, store_reloc in H2. rewrite (Hv P1), H4, Hu, (wraps_small 32) in H2 by (try lia; unfold in_s; lia).
    rewrite (reloc_all_length _ _ _ _ _ _ _ _ Hok1 H1) in H2.
    rewrite (proj2 (Z.ltb_ge (r_off r) 0)), (proj2 (Z.ltb_ge _ (r_off r + 4))), (proj2 (Z.leb_gt _ _)) in H2 by lia.
    cbn [orb negb Z.eqb Pos.eqb] in H2. assert (forall A (x y : A) b, Some (x, b) = Some (y, []) -> b = @nil (Z * string)) as Hs by congruence.
    apply Hs in H2. by apply app_eq_nil in H2 as [-> _]. }
  assert (-2 ^ 23 <= d / 4 < 2 ^ 23) as Hrange.
  { unfold errs in Herr. destruct (Z.ltb_spec 0x7fffff (d / 4)); [done|]. destruct (Z.ltb_spec (d / 4) (-0x800000)); [done|]. lia. }
  assert (mem m (pc m) = encode (if link then BL ((d / 4) mod 2 ^ 24) else B ((d / 4) mod 2 ^ 24))) as Hf.
  { pose proof (holds_reloc tg syms l s Hlaid m i r P [] o errs Hm Hi Hw HP Hv) as E.
    rewrite addr_small in E; [|done| |by destruct Hw as (_ & _ & ?)].
    2:{ by pose proof (proj1 (Forall_lookup _ _) (proj1 (proj2 (proj2 (proj2 (proj2 Hlaid))))) i r Hi) as [[? ?] _]. }
    rewrite <- Hpc in E. rewrite E. unfold o. rewrite call_word, Hop. by destruct link. }
  pose proof (Z.mod_pos_bound (d / 4) (2 ^ 24) ltac:(lia)) as Hb.
  eapply (cpu_run_step (if link then BL ((d / 4) mod 2 ^ 24) else B ((d / 4) mod 2 ^ 24))); [by destruct link|exact Hf|].
  apply branch_exec; [done| |].
  - unfold call_target. apply u32_align. zify_mod.
  - rewrite sext24_mod, sext24_small by done. unfold call_target. f_equal. rewrite Hpc. unfold d in *. zify_mod.
Qed.

(** ** Trampolines *)
Lemma length_put_words ws : length (put_words ws) = (4 * length ws)%nat.
Proof. induction ws as [|w ws IH]; [done|]. unfold put_words in *. cbn [flat_map]. rewrite length_app, length_le_bytes, IH. cbn [length]. lia. Qed.

Lemma word_of_put_words ws k w : ws !! k = Some w -> word_of (put_words ws) (4 * Z.of_nat k) = u32 w.
Proof.
  revert k. induction ws as [|w0 ws IH]; intros k H; [done|]. unfold word_of, put_words in *. cbn [flat_map].
  destruct k as [|k].
  - injection H as ->. change (Z.to_nat (4 * Z.of_nat 0)) with 0%nat. rewrite drop_0, take_app_length' by (by rewrite length_le_bytes).
    rewrite le_value_bytes. apply wrapu_wrapu. lia.
  - replace (Z.to_nat (4 * Z.of_nat (S k))) with (4 + Z.to_nat (4 * Z.of_nat k))%nat by lia.
    rewrite <- drop_drop, drop_app_length' by (by rewrite length_le_bytes). by apply IH.
Qed.

(** What a trampoline to [rs + offset] is made of: the address itself, known or to
    come, or the distance to it. *)
Inductive tramp_form (l : lst) (t rs offset : Z) : Prop :=
| TrampAddr : Data l t = put_words [ldr_ip_pc 0; bx_ip; SymValue l rs + offset] -> Relocs l t = [] ->
    SymValue l rs <> 0 -> tramp_form l t rs offset
| TrampReloc v : Data l t = put_words [ldr_ip_pc 0; bx_ip; v] -> Relocs l t = [mkReloc R_ADDR 8 4 rs offset] ->
    tramp_form l t rs offset
| TrampPic : Data l t = put_words [ldr_ip_pc 4; add_ip_pc_ip; bx_ip; 0] ->
    Relocs l t = [mkReloc R_PCREL 12 4 rs (offset + 4)] -> tramp_form l t rs offset.

Lemma tramp_length l t rs offset : tramp_form l t rs offset ->
  12 <= Z.of_nat (length (Data l t)).
Proof. by intros [E _ _|v E _|E _]; rewrite E, length_put_words; cbn; lia. Qed.

(** The middle of every trampoline: ip is loaded from [pc + 8 + n]. *)
Lemma ldr_ip_exec m n : 0 <= n < 4096 -> (pc m + 8 + n < 2 ^ 32) -> 0 <= pc m ->
  exec (LDR false IP PC n) m = Some (next (set_reg IP (mem m (pc m + 8 + n)) m)).
Proof.
  intros Hn H1 H0. cbn [exec]. unfold operand, result. cbn [PC Z.eqb Pos.eqb].
  rewrite (wrapu_small 32 (pc m + 8)), (wrapu_small 32) by (unfold in_u; lia). done.
Qed.

Lemma bx_ip_exec m : reg m IP mod 4 = 0 -> exec (BX IP) m = Some (set_reg PC (reg m IP) m).
Proof. intros H. cbn [exec]. unfold jump. by rewrite (proj2 (Z.eqb_eq _ _) H). Qed.

Lemma only_trans rs1 m1 m2 m3 : only rs1 m1 m2 -> only rs1 m2 m3 -> only rs1 m1 m3.
Proof. intros [E1 H1] [E2 H2]. split; [congruence|]. intros r Hr. by rewrite H2, H1. Qed.

Lemma only_set rs1 r v m : r ∈ rs1 -> only rs1 m (set_reg r v m).
Proof. intros Hr. split; [done|]. intros r' Hr'. cbn. apply put_ne. congruence. Qed.

Section fetch.
Context (tg : target) (syms : ArchSyms) (l : lst) (t : Z) (Hlaid : laid l t).

(** Words of a symbol made of [put_words], fetched from the image. *)
Lemma fetch m P e ws k w : holds tg syms l m t -> relocsym tg syms l t = Some (P, e) ->
  Data l t = put_words ws -> ws !! k = Some w -> Forall (fun r => apart (4 * Z.of_nat k) (r_off r)) (Relocs l t) ->
  mem m (SymValue l t + 4 * Z.of_nat k) = u32 w.
Proof.
  intros Hm HP Hd Hk Hap. pose proof (lookup_lt_Some _ _ _ Hk) as Hlt.
  assert (4 * Z.of_nat k + 4 <= Z.of_nat (length (Data l t))) as Hlen by (rewrite Hd, length_put_words; lia).
  rewrite <- (addr_small l t Hlaid) by lia.
  rewrite (holds_plain tg syms l t Hlaid m P e) by (try done; try lia; zify_mod).
  rewrite Hd. by apply word_of_put_words.
Qed.

Lemma fetch_reloc m P e i r o er : holds tg syms l m t -> relocsym tg syms l t = Some (P, e) ->
  Relocs l t !! i = Some r -> on_word l t r -> (forall P, reloc_value tg syms l t r P = Some (o, er)) ->
  mem m (SymValue l t + r_off r) = u32 o.
Proof.
  intros Hm HP Hi Hw Hv. pose proof Hlaid as (_ & _ & _ & _ & Hok & _).
  pose proof (proj1 (Forall_lookup _ _) Hok i r Hi) as [[Hr _] _].
  rewrite <- (addr_small l t Hlaid) by (try done; by destruct Hw as (_ & _ & ?)).
  by apply (holds_reloc tg syms l t Hlaid m i r P e o er).
Qed.
End fetch.

Section tramp.
Context `{!ArmCpu} (tg : target) (syms : ArchSyms) (l : lst) (t rs offset : Z).
Context (Hlaid : laid l t) (Hrs0 : rs <> 0) (Hrs : unresolved l rs = false).
Context (Hdst : (SymValue l rs + offset) mod 4 = 0).

(** The address comes from the word at 8. *)
Lemma tramp_addr_run m n : pc m = SymValue l t ->
  mem m (SymValue l t) = u32 (ldr_ip_pc 0) -> mem m (SymValue l t + 4) = u32 bx_ip ->
  mem m (SymValue l t + 8) = u32 (SymValue l rs + offset) -> 12 <= Z.of_nat (length (Data l t)) ->
  exists m', cpu_run (2 + n) m = cpu_run n m' /\ pc m' = u32 (SymValue l rs + offset) /\ only [PC; IP] m m'.
Proof.
  intros Hpc H0 H1 H2 Hlen. pose proof Hlaid as (L1 & L2 & L3 & _).
  set (m1 := next (set_reg IP (mem m (pc m + 8 + 0)) m)).
  assert (pc m1 = SymValue l t + 4) as Hpc1.
  { unfold m1, next, pc, set_reg. cbn [reg]. rewrite put_eq, put_ne by done. fold (pc m). rewrite Hpc.
    apply wrapu_small. unfold in_u. lia. }
  assert (reg m1 IP = u32 (SymValue l rs + offset)) as Hip.
  { unfold m1, next, set_reg. cbn [reg]. rewrite put_ne, put_eq by done. by rewrite Hpc, Z.add_0_r, H2. }
  exists (set_reg PC (reg m1 IP) m1). split_and!.
  - change (2 + n)%nat with (S (S n)).
    rewrite (cpu_run_step (LDR false IP PC 0) _ m m1) by
      (first [done | split_and!; done | by rewrite Hpc, H0 | apply ldr_ip_exec; lia]).
    apply (cpu_run_step (BX IP)); [done|by rewrite Hpc1|].
    apply bx_ip_exec. rewrite Hip. by apply u32_align.
  - unfold pc, set_reg. cbn [reg]. by rewrite put_eq.
  - unfold m1, next. repeat (eapply only_trans; [|apply only_set; by repeat constructor]). done.
Qed.

(** The distance is at 12, counted from there. *)
Lemma tramp_pic_run m n : pc m = SymValue l t ->
  mem m (SymValue l t) = u32 (ldr_ip_pc 4) -> mem m (SymValue l t + 4) = u32 add_ip_pc_ip ->
  mem m (SymValue l t + 8) = u32 bx_ip ->
  mem m (SymValue l t + 12) = u32 (SymValue l rs + offset - (SymValue l t + 12)) ->
  16 <= Z.of_nat (length (Data l t)) ->
  exists m', cpu_run (3 + n) m = cpu_run n m' /\ pc m' = u32 (SymValue l rs + offset) /\ only [PC; IP] m m'.
Proof.
  intros Hpc H0 H1 H2 H3 Hlen. pose proof Hlaid as (L1 & L2 & L3 & _).
  set (m1 := next (set_reg IP (mem m (pc m + 8 + 4)) m)).
  assert (pc m1 = SymValue l t + 4) as Hpc1.
  { unfold m1, next, pc, set_reg. cbn [reg]. rewrite put_eq, put_ne by done. fold (pc m). rewrite Hpc.
    apply wrapu_small. unfold in_u. lia. }
  assert (reg m1 IP = u32 (SymValue l rs + offset - (SymValue l t + 12))) as Hip1.
  { unfold m1, next, set_reg. cbn [reg]. rewrite put_ne, put_eq by done. rewrite Hpc.
    replace (SymValue l t + 8 + 4) with (SymValue l t + 12) by lia. done. }
  set (m2 := next (set_reg IP (u32 (operand m1 PC + operand m1 IP)) m1)).
  assert (pc m2 = SymValue l t + 8) as Hpc2.
  { unfold m2, next, pc, set_reg. cbn [reg]. rewrite put_eq, put_ne by done. fold (pc m1). rewrite Hpc1.
    rewrite (wrapu_small 32); [lia|]. unfold in_u. lia. }
  assert (reg m2 IP = u32 (SymValue l rs + offset)) as Hip2.
  { unfold m2, next, set_reg. cbn [reg]. rewrite put_ne, put_eq by done. unfold operand. cbn [PC IP Z.eqb Pos.eqb].
    change (reg m1 12) with (reg m1 IP). rewrite Hip1, Hpc1, (wrapu_small 32 (SymValue l t + 4 + 8)) by (unfold in_u; lia).
    apply wrapu_eqm. destruct (wrapu_spec 32 ltac:(lia) (SymValue l rs + offset - (SymValue l t + 12))) as [k ->].
    exists k. lia. }
  exists (set_reg PC (reg m2 IP) m2). split_and!.
  - change (3 + n)%nat with (S (S (S n))).
    rewrite (cpu_run_step (LDR false IP PC 4) _ m m1) by
      (first [done | split_and!; done | by rewrite Hpc, H0 | apply ldr_ip_exec; lia]).
    rewrite (cpu_run_step (ADD_reg IP PC IP) _ m1 m2) by (first [done | split_and!; done | by rewrite Hpc1 ]).
    apply (cpu_run_step (BX IP)); [done|by rewrite Hpc2|].
    apply bx_ip_exec. rewrite Hip2. by apply u32_align.
  - unfold pc, set_reg. cbn [reg]. by rewrite put_eq.
  - unfold m2, m1, next. repeat (eapply only_trans; [|apply only_set; by repeat constructor]). done.
Qed.

Lemma tramp_lands m P e : tramp_form l t rs offset -> relocsym tg syms l t = Some (P, e) ->
  holds tg syms l m t -> pc m = SymValue l t ->
  exists k m', (k <= 3)%nat /\ cpu_run k m = Some m' /\ pc m' = u32 (SymValue l rs + offset) /\ only [PC; IP] m m'.
Proof.
  intros Hf HP Hm Hpc. pose proof (tramp_length l t rs offset Hf) as Hlen.
  assert (simple_reloc l (mkReloc R_ADDR 8 4 rs offset) /\ simple_reloc l (mkReloc R_PCREL 12 4 rs (offset + 4))) as [S1 S2]
    by (split; split_and!; done).
  destruct Hf as [Hd Hr Hne|v Hd Hr|Hd Hr].
  - destruct (tramp_addr_run m 0 Hpc) as (m' & E & H1 & H2); [| | |done|exists 2%nat, m'; split_and!; [lia|done|done|done]].
    + rewrite <- (Z.add_0_r (SymValue l t)). apply (fetch tg syms l t Hlaid m P e _ 0 _ Hm HP Hd); [done|by rewrite Hr].
    + apply (fetch tg syms l t Hlaid m P e _ 1 _ Hm HP Hd); [done|by rewrite Hr].
    + apply (fetch tg syms l t Hlaid m P e _ 2 _ Hm HP Hd); [done|by rewrite Hr].
  - destruct (tramp_addr_run m 0 Hpc) as (m' & E & H1 & H2); [| | |done|exists 2%nat, m'; split_and!; [lia|done|done|done]].
    + rewrite <- (Z.add_0_r (SymValue l t)). apply (fetch tg syms l t Hlaid m P e _ 0 _ Hm HP Hd); [done|].
      rewrite Hr. repeat constructor; unfold apart; cbn; lia.
    + apply (fetch tg syms l t Hlaid m P e _ 1 _ Hm HP Hd); [done|]. rewrite Hr. repeat constructor; unfold apart; cbn; lia.
    + apply (fetch_reloc tg syms l t Hlaid m P e 0 (mkReloc R_ADDR 8 4 rs offset) _ [] Hm HP); [by rewrite Hr| |done].
      split; [exact S1|split; [done|cbn [r_off]; lia]].
  - assert (16 <= Z.of_nat (length (Data l t))) by (rewrite Hd, length_put_words; cbn; lia).
    destruct (tramp_pic_run m 0 Hpc) as (m' & E & H1 & H2); [| | | |done|exists 3%nat, m'; split_and!; [lia|done|done|done]].
    + rewrite <- (Z.add_0_r (SymValue l t)). apply (fetch tg syms l t Hlaid m P e _ 0 _ Hm HP Hd); [done|].
      rewrite Hr. repeat constructor; unfold apart; cbn; lia.
    + apply (fetch tg syms l t Hlaid m P e _ 1 _ Hm HP Hd); [done|]. rewrite Hr. repeat constructor; unfold apart; cbn; lia.
    + apply (fetch tg syms l t Hlaid m P e _ 2 _ Hm HP Hd); [done|]. rewrite Hr. repeat constructor; unfold apart; cbn; lia.
    + replace (SymValue l rs + offset - (SymValue l t + 12)) with
        (SymValue l rs + (offset + 4) - (SymValue l t + 12 + 4)) by lia.
      apply (fetch_reloc tg syms l t Hlaid m P e 0 (mkReloc R_PCREL 12 4 rs (offset + 4)) _ [] Hm HP); [by rewrite Hr| |].
      * split; [exact S2|split; [done|cbn [r_off]; lia]].
      * intros P0. unfold reloc_value. cbn. by rewrite (proj2 (Z.eqb_neq rs 0) Hrs0).
Qed.
End tramp.
