(* ===== verification/LinkArmTramp.v ===== *)
(** * LinkArmTramp: inserting trampolines

    asm.go's trampoline: the search for a trampoline in reach ends, the trampolines
    the linker knows stay what their names say, and a call that has been through it
    lands where it pointed before, wherever the layout puts things. *)
From Stdlib Require Import ZArith Lia List Bool String Ascii.
From stdpp Require Import base list gmap strings numbers pretty tactics option fin_maps.
From S2P Require Import Prelude ArmIsa Loader LinkArm LinkArmCall.

(** ** Trampoline names can be read back *)
Abbreviation chars := list_ascii_of_string.

Lemma chars_app a b : chars (a ++ b)%string = (chars a ++ chars b)%list.
Proof. induction a as [|c a IH]; [done|]. change (chars (String c a +:+ b)) with (c :: chars (a +:+ b)). by rewrite IH. Qed.

Lemma chars_inj a b : chars a = chars b -> a = b.
Proof. intros H. by rewrite <- (string_of_list_ascii_of_string a), H, string_of_list_ascii_of_string. Qed.

Definition is_digit (c : ascii) : bool := existsb (Ascii.eqb c) (chars "0123456789").

Lemma pretty_N_go_digits x : forall s, forallb is_digit (chars s) = true ->
  forallb is_digit (chars (pretty_N_go x s)) = true.
Proof.
  induction x as [x IH] using (well_founded_induction N.lt_wf_0). intros s Hs. destruct (decide (0 < x)%N) as [Hx|Hx].
  - rewrite pretty_N_go_step by done. apply IH; [by apply N.div_lt|]. cbn [chars forallb].
    rewrite Hs, andb_true_r. unfold pretty_N_char. by repeat case_match.
  - assert (x = 0)%N as -> by lia. by rewrite pretty_N_go_0.
Qed.

Lemma pretty_N_digits (n : N) : forallb is_digit (chars (pretty n)) = true.
Proof. unfold pretty, pretty_N. case_decide; [done|]. by apply pretty_N_go_digits. Qed.

Lemma pretty_Z_digits z : 0 <= z -> forallb is_digit (chars (pretty z)) = true.
Proof. intros Hz. destruct z as [|p|p]; [done| |lia]. apply (pretty_N_digits (Npos p)). Qed.

(** The digits at the end of a text, and the mark before them. *)
Lemma digits_end D : forall X c X' c' D', forallb is_digit D = true -> forallb is_digit D' = true ->
  is_digit c = false -> is_digit c' = false ->
  (X ++ c :: D = X' ++ c' :: D')%list -> X = X' /\ c = c' /\ D = D'.
Proof.
  induction D as [|d D IH] using rev_ind; intros X c X' c' D' HD HD' Hc Hc' E.
  - destruct D' as [|d' D' _] using rev_ind; [by apply app_inj_tail in E as [-> ->]|].
    rewrite app_comm_cons, app_assoc in E. apply app_inj_tail in E as [_ ->].
    rewrite forallb_app in HD'. cbn [forallb] in HD'. rewrite Hc in HD'. by rewrite andb_false_r in HD'.
  - destruct D' as [|d' D' _] using rev_ind.
    + rewrite app_comm_cons, app_assoc in E. apply app_inj_tail in E as [_ ->].
      rewrite forallb_app in HD. cbn [forallb] in HD. rewrite Hc' in HD. by rewrite andb_false_r in HD.
    + rewrite !app_comm_cons, !app_assoc in E. apply app_inj_tail in E as [E ->].
      rewrite forallb_app, andb_true_iff in HD, HD'. destruct HD as [HD _], HD' as [HD' _].
      by destruct (IH X c X' c' D' HD HD' Hc Hc' E) as (-> & -> & ->).
Qed.

(** A signed number is a sign and digits. *)
Lemma plus_d_chars z : exists c D, chars (plus_d z) = c :: D /\ is_digit c = false /\ forallb is_digit D = true /\
  (c = "+"%char /\ 0 <= z /\ D = chars (pretty z) \/ c = "-"%char /\ z < 0 /\ D = chars (pretty (- z))).
Proof.
  unfold plus_d. destruct (Z.leb_spec 0 z).
  - exists "+"%char, (chars (pretty z)). split_and!; try done; [by apply pretty_Z_digits|by left].
  - destruct z as [|p|p]; try lia. exists "-"%char, (chars (pretty (Z.pos p))).
    split_and!; try done; [by apply pretty_Z_digits|by right].
Qed.

Lemma plus_d_inj a b c D : chars (plus_d a) = c :: D -> chars (plus_d b) = c :: D -> a = b.
Proof.
  intros Ha Hb. destruct (plus_d_chars a) as (c1 & D1 & E1 & _ & _ & H1). destruct (plus_d_chars b) as (c2 & D2 & E2 & _ & _ & H2).
  rewrite Ha in E1. rewrite Hb in E2. injection E1 as <- <-. injection E2 as <- <-.
  destruct H1 as [(-> & _ & H1)|(-> & _ & H1)], H2 as [(? & _ & H2)|(? & _ & H2)]; try discriminate;
    rewrite H1 in H2; apply chars_inj, (inj pretty) in H2; lia.
Qed.

Lemma tramp_name_inj o a i o' a' i' : 0 <= i -> 0 <= i' ->
  tramp_name o a i = tramp_name o' a' i' -> o = o' /\ a = a' /\ i = i'.
Proof.
  intros Hi Hi' E. apply (f_equal chars) in E. unfold tramp_name in E. rewrite !chars_app in E.
  change (chars "-tramp") with (chars "-tram" ++ ["p"%char])%list in E.
  rewrite <- !app_assoc, !(app_assoc (chars (plus_d _))), !(app_assoc (chars _) (_ ++ _)%list) in E. cbn [app] in E.
  apply digits_end in E as (E & _ & Ei); try done; try by apply pretty_Z_digits.
  apply chars_inj, (inj pretty) in Ei. rewrite !app_assoc in E. apply app_inv_tail in E.
  destruct (plus_d_chars a) as (c1 & D1 & E1 & Hc1 & HD1 & _). destruct (plus_d_chars a') as (c2 & D2 & E2 & Hc2 & HD2 & _).
  rewrite E1, E2 in E. apply digits_end in E as (E & -> & ->); try done.
  split_and!; [by apply chars_inj|by eapply plus_d_inj|done].
Qed.

(** ** The symbol table *)
Definition registered (l : lst) (s : Z) : Prop := l_byname l !! (SymName l s, SymVersion l s) = Some s.

(** The name table points at the symbols so named; indices from [l_next] on are free;
    a symbol without a kind is still empty. *)
Definition names_ok (l : lst) : Prop :=
  0 < l_next l /\
  (forall s, l_next l <= s -> l_syms l !! s = None) /\
  (forall nm v t, l_byname l !! (nm, v) = Some t ->
     0 < t < l_next l /\ SymName l t = nm /\ SymVersion l t = v) /\
  (forall t, SymType l t = Sxxx -> Relocs l t = []).

(** A symbol a lookup may give out that is already something. *)
Definition taken (l : lst) (t : Z) : Prop := SymType l t <> Sxxx /\ SymType l t <> SDYNIMPORT.

(** Every trampoline name in use belongs to a trampoline to what it names. *)
Definition tramps_ok (l : lst) : Prop :=
  forall nm off i v t, 0 <= i -> l_byname l !! (tramp_name nm off i, v) = Some t -> taken l t ->
    exists rs, l_byname l !! (nm, v) = Some rs /\ tramp_form l t rs off.

(** Nothing but attributes, names and new empty symbols. *)
Definition same_payload (l l' : lst) : Prop :=
  (forall x, SymType l' x = SymType l x /\ SymValue l' x = SymValue l x /\
             Data l' x = Data l x /\ Relocs l' x = Relocs l x) /\
  (forall k t, l_byname l !! k = Some t -> l_byname l' !! k = Some t) /\
  (forall x, x < l_next l -> SymName l' x = SymName l x /\ SymVersion l' x = SymVersion l x) /\
  l_next l <= l_next l' /\
  (forall k t, l_byname l' !! k = Some t -> l_byname l !! k = Some t \/ SymType l' t = Sxxx).

Lemma same_payload_refl l : same_payload l l.
Proof. split_and!; try done; try lia. intros k t Hk. by left. Qed.

Lemma same_payload_trans l1 l2 l3 : same_payload l1 l2 -> same_payload l2 l3 -> same_payload l1 l3.
Proof.
  intros (A1 & A2 & A3 & A4 & A5) (B1 & B2 & B3 & B4 & B5). split_and!; [|auto| |lia|].
  - intros x. destruct (A1 x) as (E1 & E2 & E3 & E4).
    destruct (B1 x) as (F1 & F2 & F3 & F4). split_and!; congruence.
  - intros x Hx. destruct (A3 x Hx) as [E1 E2]. destruct (B3 x ltac:(lia)) as [F1 F2]. split; congruence.
  - intros k t Hk. destruct (B5 k t Hk) as [Hk2|]; [|by right]. destruct (A5 k t Hk2) as [|E]; [by left|].
    right. destruct (B1 t) as (F & _). congruence.
Qed.

Lemma tramp_form_payload l l' t rs off : same_payload l l' -> tramp_form l t rs off -> tramp_form l' t rs off.
Proof.
  intros (H & _) [Hd Hr Hv|v Hd Hr|Hd Hr]; destruct (H t) as (_ & _ & Ed & Er); destruct (H rs) as (_ & Ev & _).
  - apply TrampAddr; congruence.
  - eapply TrampReloc; [rewrite Ed; exact Hd|congruence].
  - apply TrampPic; congruence.
Qed.

Lemma upd_sym_of s f l x : sym_of (upd s f l) x = if decide (x = s) then f (sym_of l s) else sym_of l x.
Proof.
  unfold sym_of, upd. cbn [l_syms set_syms]. destruct (decide (x = s)) as [->|].
  - by rewrite lookup_insert_eq.
  - by rewrite lookup_insert_ne.
Qed.

(** Marking a symbol reachable changes none of this. *)
Lemma mark_payload l t r : same_payload l (upd t (fun y => set_attrs r (sy_onlist y) y) l).
Proof.
  split_and!; try done; try lia.
  - intros x. unfold SymType, SymValue, Data, Relocs. rewrite upd_sym_of. by case_decide; subst.
  - intros x _. unfold SymName, SymVersion. rewrite upd_sym_of. by case_decide; subst.
  - intros k x Hk. by left.
Qed.

Lemma mark_names l t r : 0 < t < l_next l -> names_ok l -> names_ok (upd t (fun y => set_attrs r (sy_onlist y) y) l).
Proof.
  intros Ht (H1 & H2 & H3 & H4). split_and!; [done| | |].
  - intros s Hs. cbn. rewrite lookup_insert_ne by (cbn in Hs; lia). by apply H2.
  - intros nm v x Hx. cbn in Hx. destruct (H3 nm v x Hx) as (E1 & E2 & E3). split; [done|].
    unfold SymName, SymVersion. rewrite upd_sym_of. case_decide as Hd; [|done]. rewrite <- Hd. done.
  - intros x. unfold SymType, Relocs. rewrite upd_sym_of. case_decide as Hd; [subst x|]; apply H4.
Qed.

(** A lookup finds the symbol of that name, or makes an empty one. *)
Lemma lookup_or_create_spec nm v l : names_ok l ->
  exists t l', LookupOrCreateSym nm v l = Ret t l' /\ names_ok l' /\ same_payload l l' /\
    l_byname l' !! (nm, v) = Some t /\ 0 < t < l_next l' /\
    (l_byname l !! (nm, v) = None -> SymType l' t = Sxxx /\ SymValue l' t = 0) /\
    (forall k, k <> (nm, v) -> l_byname l' !! k = l_byname l !! k).
Proof.
  intros Hn. pose proof Hn as (H1 & H2 & H3 & H4). unfold LookupOrCreateSym, Lookup. destruct (l_byname l !! (nm, v)) as [t|] eqn:E.
  - change (default 0 (Some t)) with t. destruct (H3 nm v t E) as ((Ht1 & Ht2) & _). rewrite (proj2 (Z.eqb_neq t 0)) by lia. cbn [negb].
    exists t, l. pose proof (same_payload_refl l). by split_and!.
  - change (default 0 None) with 0. cbn [Z.eqb negb]. set (y := mkSym nm v Sxxx 0 0 [] [] "" 0 None "" false false false).
    set (l' := set_names _ _ _ l).
    assert (forall x, sym_of l' x = if decide (x = l_next l) then y else sym_of l x) as Hsym.
    { intros x. unfold sym_of, l', set_names. cbn [l_syms]. case_decide as Hd; [subst x; by rewrite lookup_insert_eq|].
      by rewrite lookup_insert_ne. }
    assert (sym_of l (l_next l) = sym0) as H0 by (unfold sym_of; rewrite H2 by lia; done).
    exists (l_next l), l'. split_and!; try done; try (cbn; lia).
    + split_and!; [cbn; lia| | |].
      * intros s Hs. cbn in Hs. cbn. rewrite lookup_insert_ne by lia. apply H2. lia.
      * intros nm' v' x Hx. unfold SymName, SymVersion. rewrite Hsym. cbn in Hx. cbn [l_next l' set_names].
        destruct (decide ((nm', v') = (nm, v))) as [[= -> ->]|Hk].
        -- rewrite lookup_insert_eq in Hx. injection Hx as <-. rewrite decide_True by done. split_and!; [lia|lia|done|done].
        -- rewrite lookup_insert_ne in Hx by congruence. destruct (H3 nm' v' x Hx) as (F1 & F2 & F3).
           rewrite decide_False by lia. split_and!; [lia|lia|done|done].
      * intros x. unfold SymType, Relocs. rewrite Hsym. case_decide; [done|apply H4].
    + split_and!; [| | |cbn; lia|].
      * intros x. unfold SymType, SymValue, Data, Relocs. rewrite Hsym. case_decide as Hd; [|done]. subst x. by rewrite H0.
      * intros k x Hx. cbn. rewrite lookup_insert_ne; [done|]. congruence.
      * intros x Hx. unfold SymName, SymVersion. rewrite Hsym. by rewrite decide_False by lia.
      * intros k x Hx. cbn in Hx. destruct (decide (k = (nm, v))) as [->|Hk].
        -- rewrite lookup_insert_eq in Hx. injection Hx as <-. right. unfold SymType. by rewrite Hsym, decide_True.
        -- rewrite lookup_insert_ne in Hx by congruence. by left.
    + cbn. apply lookup_insert_eq.
    + intros _. unfold SymType, SymValue. by rewrite Hsym, decide_True.
    + intros k Hk. cbn. by rewrite lookup_insert_ne by congruence.
Qed.

Lemma tramps_ok_payload l l' : same_payload l l' -> tramps_ok l -> tramps_ok l'.
Proof.
  intros Hp Hok nm off i v t Hi Hk Ht. pose proof Hp as (H1 & H2 & _ & _ & H5).
  destruct (H5 _ t Hk) as [Hk'|Hx]; [|by destruct Ht].
  destruct (H1 t) as (Et & _). assert (taken l t) as Ht' by (unfold taken in *; by rewrite <- Et).
  destruct (Hok nm off i v t Hi Hk' Ht') as (rs & Hrs & Hf). exists rs. split; [by apply H2|].
  by apply (tramp_form_payload l).
Qed.

(** Among more names than the table has entries one is free. *)
Lemma free_index (m : gmap (string * Z) Z) nm off v :
  exists j, 0 <= j < Z.of_nat (S (size m)) /\ m !! (tramp_name nm off j, v) = None.
Proof.
  set (key := fun j : nat => (tramp_name nm off (Z.of_nat j), v)).
  destruct (decide (Exists (fun j => m !! key j = None) (seq 0 (S (size m))))) as [He|Hn].
  - apply list.Exists_exists in He as (j & Hj & E). apply elem_of_seq in Hj. exists (Z.of_nat j). split; [lia|done].
  - exfalso. apply not_Exists_Forall in Hn; [|apply _].
    assert (NoDup (key <$> seq 0 (S (size m)))) as Hnd.
    { apply NoDup_fmap_2_strong; [|apply NoDup_seq]. intros x y _ _ E. unfold key in E.
      injection E as E. apply tramp_name_inj in E as (_ & _ & E); lia. }
    assert ((key <$> seq 0 (S (size m))) ⊆+ elements (dom m)) as Hsub.
    { apply NoDup_submseteq; [done|]. intros k Hk. apply list_elem_of_fmap in Hk as (j & -> & Hj).
      apply elem_of_elements, elem_of_dom. pose proof (proj1 (list.Forall_forall _ _) Hn j Hj) as E. cbv beta in E.
      destruct (m !! key j) eqn:E2; [done|by destruct E]. }
    apply submseteq_length in Hsub. rewrite length_fmap, length_seq in Hsub.
    change (length (elements (dom m))) with (size (dom m)) in Hsub. rewrite size_dom in Hsub. lia.
Qed.

Lemma find_tramp_spec s rs off offset fuel : forall i l,
  names_ok l -> tramps_ok l -> 0 <= i -> rs < l_next l ->
  (exists j, i <= j < i + Z.of_nat fuel /\
     l_byname l !! (tramp_name (SymName l rs) offset j, SymVersion l rs) = None) ->
  exists t l' j, find_tramp fuel s rs off offset i l = Ret t l' /\ names_ok l' /\ tramps_ok l' /\ same_payload l l' /\
    0 <= j /\ l_byname l' !! (tramp_name (SymName l rs) offset j, SymVersion l rs) = Some t /\
    SymType l' t <> SDYNIMPORT /\ 0 < t < l_next l'.
Proof.
  induction fuel as [|fuel IH]; intros i l Hn Ht Hi Hrs (j & Hj & Hfree); [lia|].
  cbn [find_tramp]. unfold go_bind, go_read, go_modify, go_get, go_ret.
  destruct (lookup_or_create_spec (tramp_name (SymName l rs) offset i) (SymVersion l rs) l Hn)
    as (t & l1 & -> & Hn1 & Hp1 & Hk1 & Hlt1 & Hnew & Hother).
  set (l2 := upd t (fun y => set_attrs true (sy_onlist y) y) l1).
  pose proof (mark_payload l1 t true) as Hp2. pose proof (mark_names l1 t true Hlt1 Hn1) as Hn2. fold l2 in Hp2, Hn2.
  pose proof (same_payload_trans _ _ _ Hp1 Hp2) as Hp. pose proof (tramps_ok_payload _ _ Hp Ht) as Ht2.
  assert (SymName l2 rs = SymName l rs /\ SymVersion l2 rs = SymVersion l rs) as [En Ev] by (by apply Hp).
  assert (l_byname l2 = l_byname l1) as Hb by done.
  assert (SymType l2 t = SDYNIMPORT \/ SymValue l2 t <> 0 -> rs < l_next l2 /\ exists j', i + 1 <= j' < i + 1 + Z.of_nat fuel /\
    l_byname l2 !! (tramp_name (SymName l2 rs) offset j', SymVersion l2 rs) = None) as Hgo.
  { intros Hc. split; [destruct Hp as (_ & _ & _ & ? & _); lia|].
    assert (j <> i) as Hji.
    { intros ->. destruct (Hnew Hfree) as [E1 E2]. destruct Hp2 as (Hp2 & _). destruct (Hp2 t) as (F1 & F2 & _).
      rewrite F1, F2, E1, E2 in Hc. by destruct Hc. }
    exists j. split; [lia|]. rewrite En, Ev, Hb, Hother; [done|]. intros E. injection E as E.
    apply tramp_name_inj in E as (_ & _ & E); lia. }
  assert (SymType l2 t = SDYNIMPORT \/ SymValue l2 t <> 0 -> exists t' l' j', find_tramp fuel s rs off offset (i + 1) l2 = Ret t' l' /\
    names_ok l' /\ tramps_ok l' /\ same_payload l l' /\ 0 <= j' /\
    l_byname l' !! (tramp_name (SymName l rs) offset j', SymVersion l rs) = Some t' /\
    SymType l' t' <> SDYNIMPORT /\ 0 < t' < l_next l') as Hrec.
  { intros Hc. destruct (Hgo Hc) as [Hrs2 Hf2].
    destruct (IH (i + 1) l2 Hn2 Ht2 ltac:(lia) Hrs2 Hf2) as (t' & l' & j' & E & G1 & G2 & G3 & G4 & G5 & G6 & G7).
    exists t', l', j'. rewrite En, Ev in G5. split_and!; try done; try lia. by apply (same_payload_trans _ l2). }
  destruct (Z.eqb_spec (SymType l2 t) SDYNIMPORT) as [Ed|Ed]; [apply Hrec; by left|].
  assert (exists t' l' j', Ret t l2 = Ret t' l' /\ names_ok l' /\ tramps_ok l' /\ same_payload l l' /\ 0 <= j' /\
    l_byname l' !! (tramp_name (SymName l rs) offset j', SymVersion l rs) = Some t' /\
    SymType l' t' <> SDYNIMPORT /\ 0 < t' < l_next l') as Hhere.
  { exists t, l2, i. split_and!; try done; try apply Hlt1. }
  destruct (Z.eqb_spec (SymValue l2 t) 0); [done|].
  destruct (_ && _); [done|]. apply Hrec. by right.
Qed.

(** ** Creating a trampoline and redirecting the call *)

(** Contents may change at the symbols [xs] only, names and addresses nowhere. *)
Definition touches (xs : list Z) (l l' : lst) : Prop :=
  l_byname l' = l_byname l /\ l_next l' = l_next l /\
  (forall x, SymName l' x = SymName l x /\ SymVersion l' x = SymVersion l x /\ SymValue l' x = SymValue l x) /\
  (forall x, x ∉ xs -> SymType l' x = SymType l x /\ Data l' x = Data l x /\ Relocs l' x = Relocs l x) /\
  (forall x, l_next l <= x -> x ∉ xs -> l_syms l !! x = None -> l_syms l' !! x = None).

Lemma touches_refl xs l : touches xs l l.
Proof. by split_and!. Qed.

Lemma touches_trans xs l1 l2 l3 : touches xs l1 l2 -> touches xs l2 l3 -> touches xs l1 l3.
Proof.
  intros (A1 & A2 & A3 & A4 & A5) (B1 & B2 & B3 & B4 & B5). split_and!; try congruence.
  - intros x. destruct (A3 x) as (? & ? & ?), (B3 x) as (? & ? & ?). split_and!; congruence.
  - intros x Hx. destruct (A4 x Hx) as (? & ? & ?), (B4 x Hx) as (? & ? & ?). split_and!; congruence.
  - intros x H1 H2 H3. apply B5; [lia|done|]. by apply A5.
Qed.

(** An update that keeps the name, the version and the address. *)
Definition keeps_place (f : symst -> symst) : Prop :=
  forall y, sy_name (f y) = sy_name y /\ sy_ver (f y) = sy_ver y /\ sy_value (f y) = sy_value y.

Lemma touches_upd s f l : keeps_place f -> touches [s] l (upd s f l).
Proof.
  intros Hf. split_and!; try done.
  - intros x. unfold SymName, SymVersion, SymValue. rewrite upd_sym_of. case_decide; [subst; apply Hf|done].
  - intros x Hx. unfold SymType, Data, Relocs. rewrite upd_sym_of, decide_False; [done|set_solver].
  - intros x _ Hx Hn. cbn. rewrite lookup_insert_ne; [done|set_solver].
Qed.

Lemma update_run s f l : s <> 0 -> update s f l = Ret tt (upd s f l).
Proof. intros H. unfold update. by rewrite (proj2 (Z.eqb_neq s 0) H). Qed.

Lemma touches_tramps t l x : touches [t] l (set_tramps x l).
Proof. by split_and!. Qed.

Lemma AddTramp_run t k l : t <> 0 ->
  exists l', AddTramp t k l = Ret tt l' /\ touches [t] l l' /\ SymType l' t = k /\ Relocs l' t = Relocs l t.
Proof.
  intros Ht. eexists. split; [unfold AddTramp, go_bind, go_modify; rewrite update_run by done; reflexivity|].
  split_and!.
  - apply (touches_trans _ _ (upd t (fun y => set_attrs true true (set_kind k y)) l)); [|apply touches_tramps].
    by apply touches_upd.
  - unfold SymType, sym_of. cbn. by rewrite lookup_insert_eq.
  - unfold Relocs, sym_of. cbn. by rewrite lookup_insert_eq.
Qed.

(** Contents and relocations of a fresh trampoline. *)
Definition filled (P : list Z) (rs : list reloc) (y : symst) : symst :=
  set_relocs (sy_relocs y ++ rs) (SetContent P y).

Lemma filled_form t P rs l : Relocs l t = [] ->
  touches [t] l (upd t (filled P rs) l) /\ SymType (upd t (filled P rs) l) t = SymType l t /\
  Data (upd t (filled P rs) l) t = P /\ Relocs (upd t (filled P rs) l) t = rs.
Proof.
  intros Hr. split_and!; [by apply touches_upd|..];
    unfold SymType, Data, Relocs; rewrite upd_sym_of, decide_True by done; try done.
  cbn. unfold Relocs in Hr. by rewrite Hr.
Qed.

Lemma upd_upd s f g l : upd s g (upd s f l) = upd s (fun y => g (f y)) l.
Proof.
  unfold upd, set_syms, sym_of. cbn [l_syms l_byname l_next l_plt l_got l_dynid l_nelfsym l_seenlib l_tramps l_errors].
  rewrite lookup_insert_eq, insert_insert_eq. done.
Qed.

Lemma gentramp_run tg t rs offset l : t <> 0 -> Relocs l t = [] ->
  exists l', gentramp tg t rs offset l = Ret tt l' /\ touches [t] l l' /\ SymType l' t = SymType l t /\ tramp_form l' t rs offset.
Proof.
  intros Ht Hr. unfold gentramp, go_bind, go_read, go_ret. rewrite update_run by done.
  set (P := put_words _). destruct (_ || _) eqn:E.
  - rewrite update_run, upd_upd by done. eexists. split; [done|].
    destruct (filled_form t P [mkReloc R_ADDR 8 4 rs offset] l Hr) as (H1 & H2 & H3 & H4). split_and!; [done|done|].
    by eapply TrampReloc.
  - apply orb_false_iff in E as [_ Hv]. apply Z.eqb_neq in Hv.
    assert (upd t (SetContent P) l = upd t (filled P []) l) as ->.
    { unfold upd, filled. by rewrite app_nil_r. }
    eexists. split; [done|]. destruct (filled_form t P [] l Hr) as (H1 & H2 & H3 & H4). split_and!; [done|done|].
    assert (SymValue (upd t (filled P []) l) rs = SymValue l rs) as Ev by apply H1.
    apply TrampAddr; [by rewrite Ev|done|by rewrite Ev].
Qed.

Lemma gentramppic_run t rs offset l : t <> 0 -> Relocs l t = [] ->
  exists l', gentramppic t rs offset l = Ret tt l' /\ touches [t] l l' /\ SymType l' t = SymType l t /\ tramp_form l' t rs offset.
Proof.
  intros Ht Hr. unfold gentramppic, go_bind. rewrite !update_run, upd_upd by done. eexists. split; [done|].
  destruct (filled_form t (put_words [ldr_ip_pc 4; add_ip_pc_ip; bx_ip; 0]) [mkReloc R_PCREL 12 4 rs (offset + 4)] l Hr)
    as (H1 & H2 & H3 & H4).
  split_and!; [done|done|]. by apply TrampPic.
Qed.

Lemma create_tramp_run tg s rs offset t l :
  t_dynlink tg = false -> SymType l rs <> SDYNIMPORT -> t <> 0 -> SymType l s <> Sxxx ->
  (SymType l t = Sxxx -> Relocs l t = []) -> (SymType l t <> Sxxx -> tramp_form l t rs offset) ->
  exists l', create_tramp tg s rs offset t l = Ret tt l' /\ touches [t] l l' /\ tramp_form l' t rs offset /\
    SymType l' t <> Sxxx.
Proof.
  intros Hdyn Hrs Ht Hs Hnew Hold. unfold create_tramp, go_bind, go_get.
  destruct (Z.eqb_spec (SymType l t) Sxxx) as [E|E]; cbn [negb].
  2:{ exists l. split_and!; [done|apply touches_refl|by apply Hold|done]. }
  destruct (AddTramp_run t (SymType l s) l Ht) as (l1 & -> & H1 & H2 & H3). rewrite (Hnew E) in H3.
  rewrite Hdyn, (proj2 (Z.eqb_neq _ _) Hrs). cbn [orb].
  destruct (bool_decide _).
  - destruct (gentramppic_run t rs offset l1 Ht H3) as (l2 & -> & G1 & G2 & G3).
    exists l2. split_and!; [done|by eapply touches_trans|done|congruence].
  - destruct (gentramp_run tg t rs offset l1 Ht H3) as (l2 & -> & G1 & G2 & G3).
    exists l2. split_and!; [done|by eapply touches_trans|done|congruence].
Qed.

Lemma set_reloc_run s i r f l : s <> 0 -> Relocs l s !! i = Some r ->
  exists l', set_reloc s i f l = Ret tt l' /\ touches [s] l l' /\ SymType l' s = SymType l s /\ Data l' s = Data l s /\
    Relocs l' s = <[i := f r]> (Relocs l s).
Proof.
  intros Hs Hi. unfold set_reloc. rewrite Hi, update_run by done. eexists. split; [done|].
  split_and!; [by apply touches_upd|..]; unfold SymType, Data, Relocs; by rewrite upd_sym_of, decide_True.
Qed.

(** ** The call through a trampoline *)
Definition redirected (t : Z) (r : reloc) : reloc :=
  set_radd (Z.lor (Z.land (r_add r) 0xff000000) 0xfffffe) (set_rsym t r).

Lemma redirected_add a : Z.lor (Z.land a 0xff000000) 0xfffffe = 2 ^ 24 * ((a / 2 ^ 24) mod 2 ^ 8) + 0xfffffe.
Proof.
  rewrite land_high8. apply lor_clear. apply Z.bits_inj'. intros i Hi. rewrite Z.land_spec, Z.bits_0.
  destruct (Z.ltb_spec i 24).
  - by rewrite (Z.mul_comm (2 ^ 24)), Z.mul_pow2_bits_low by lia.
  - rewrite (Z.bits_above_log2 0xfffffe) by (cbn; lia). apply andb_false_r.
Qed.

Lemma u32_top a : u32 a / 2 ^ 24 = (a / 2 ^ 24) mod 2 ^ 8.
Proof.
  unfold wrapu. change (2 ^ 32) with (2 ^ 24 * 2 ^ 8). rewrite Z.rem_mul_r by lia.
  rewrite Z.add_comm, Z.mul_comm. apply split_div; [lia|]. apply Z.mod_pos_bound. lia.
Qed.

Lemma redirected_branch link t r : is_branch link r -> is_branch link (redirected t r).
Proof.
  intros [Ht Hop]. split; [done|]. cbn [redirected set_radd r_add]. rewrite redirected_add, u32_top, Z.mul_comm.
  rewrite (split_div _ 0xfffffe 24), Z.mod_mod by lia. by rewrite <- u32_top.
Qed.

Lemma redirected_target l t r : call_target l (redirected t r) = u32 (SymValue l t).
Proof.
  unfold call_target. cbn [redirected set_radd set_rsym r_add r_sym].
  rewrite redirected_add, land_low24, signext24_sext, sext24_mod.
  replace (sext24 _) with (-2); [f_equal; lia|]. unfold sext24.
  rewrite (wraps_eqm 24 _ (-2)); [done|]. exists ((r_add r / 2 ^ 24) mod 2 ^ 8 + 1). lia.
Qed.

Lemma tramp_name_longer o a i : tramp_name o a i <> o.
Proof.
  intros E. apply (f_equal (fun s => length (chars s))) in E. unfold tramp_name in E. rewrite !chars_app, !length_app in E.
  cbn in E. lia.
Qed.

(** A trampoline has no call of its own. *)
Lemma tramp_form_no_call l t rs off i r link : tramp_form l t rs off -> Relocs l t !! i = Some r -> is_branch link r -> False.
Proof.
  intros Hf Hi [Ht _]. destruct Hf as [_ E _|v _ E|_ E]; rewrite E in Hi; [done| |];
    destruct i; cbn in Hi; try done; injection Hi as <-; discriminate.
Qed.

Lemma touches_weaken xs ys a b : touches xs a b -> (forall x, x ∈ xs -> x ∈ ys) -> touches ys a b.
Proof.
  intros (A1 & A2 & A3 & A4 & A5) Hsub. split_and!; try done; [intros x Hx; apply A4; auto|].
  intros x Hx1 Hx2 Hx3. apply A5; auto.
Qed.

Lemma tramp_form_touches xs l l' t rs off : touches xs l l' -> t ∉ xs -> tramp_form l t rs off -> tramp_form l' t rs off.
Proof.
  intros (_ & _ & E3 & E4 & _) Ht Hf. destruct (E4 t Ht) as (_ & F2 & F3). destruct (E3 rs) as (_ & _ & Ev).
  destruct Hf as [Hd Hr Hv|w Hd Hr|Hd Hr]; [apply TrampAddr; congruence|eapply TrampReloc; [rewrite F2; exact Hd|congruence]|apply TrampPic; congruence].
Qed.

Lemma tramps_ok_touches xs l l' : touches xs l l' -> tramps_ok l ->
  (forall nm off i v x, x ∈ xs -> 0 <= i -> l_byname l !! (tramp_name nm off i, v) = Some x -> taken l' x ->
     exists rs, l_byname l !! (nm, v) = Some rs /\ tramp_form l' x rs off) -> tramps_ok l'.
Proof.
  intros Hto Hok Hxs nm off i v x Hi Hk Ht. pose proof Hto as (E1 & _ & E3 & E4 & _). rewrite E1 in *.
  destruct (decide (x ∈ xs)) as [Hx|Hx]; [by eapply Hxs|].
  destruct (E4 x Hx) as (F1 & F2 & F3). destruct (Hok nm off i v x Hi Hk) as (rs & Hrs & Hf); [by unfold taken in *; rewrite <- F1|].
  exists rs. split; [done|]. by apply (tramp_form_touches xs l).
Qed.

Lemma names_ok_touches xs l l' : touches xs l l' -> names_ok l ->
  (forall x, x ∈ xs -> x < l_next l /\ SymType l' x <> Sxxx) -> names_ok l'.
Proof.
  intros (E1 & E2 & E3 & E4 & E5) (H1 & H2 & H3 & H4) Hxs. split_and!.
  - lia.
  - intros s Hs. rewrite E2 in Hs. apply E5; [done| |by apply H2]. intros Hx. destruct (Hxs s Hx). lia.
  - intros nm v t Ht. rewrite E1 in Ht. rewrite E2. destruct (E3 t) as (-> & -> & _). by apply H3.
  - intros t Ht. destruct (decide (t ∈ xs)) as [Hx|Hx]; [by destruct (Hxs t Hx)|].
    destruct (E4 t Hx) as (F1 & _ & F3). rewrite F3. apply H4. congruence.
Qed.

(** The final layout: contents as they are, addresses given to what had none. *)
Definition layout (l lf : lst) : Prop :=
  forall x, SymType lf x = SymType l x /\ Data lf x = Data l x /\ Relocs lf x = Relocs l x /\
            (SymValue l x <> 0 -> SymValue lf x = SymValue l x).

Lemma tramp_form_layout l lf t rs off : layout l lf -> tramp_form l t rs off -> tramp_form lf t rs off.
Proof.
  intros H [Hd Hr Hv|v Hd Hr|Hd Hr]; destruct (H t) as (_ & Ed & Er & _); destruct (H rs) as (_ & _ & _ & Ev).
  - specialize (Ev Hv). apply TrampAddr; congruence.
  - eapply TrampReloc; [rewrite Ed; exact Hd|congruence].
  - apply TrampPic; congruence.
Qed.

(** [x] is in the image, without complaint, and in memory. *)
Definition linked (tg : target) (syms : ArchSyms) (l : lst) (m : machine) (x : Z) : Prop :=
  laid l x /\ holds tg syms l m x /\ exists P, relocsym tg syms l x = Some (P, []).

(** At most four instructions after the call the target runs, with the return
    address in lr for a BL; pc, lr and ip aside nothing has changed. *)
Definition lands `{!ArmCpu} (link : bool) (a : Z) (m : machine) : Prop :=
  exists k m', (1 <= k <= 4)%nat /\ cpu_run k m = Some m' /\ pc m' = a /\ only [PC; LR; IP] m m' /\
    reg m' LR = (if link then u32 (pc m + 4) else reg m LR).

Lemma branched_facts (link : bool) a m :
  pc (branched link a m) = a /\ only [PC; LR; IP] m (branched link a m) /\
  reg (branched link a m) LR = (if link then u32 (pc m + 4) else reg m LR).
Proof.
  unfold branched, pc, only. destruct link; cbn; (split_and!; [done| |by intros r Hr; rewrite ?put_ne by set_solver|done]); done.
Qed.

Section calls.
Context `{!ArmCpu} (tg : target) (syms : ArchSyms).
Context (Hint : t_link tg = LinkInternal) (Hdyn : t_dynlink tg = false).

(** A call relocation [r] of [s] that points at [t] directly. *)
Lemma direct_lands lf s i r link m :
  is_branch link r -> Relocs lf s !! i = Some r -> on_word lf s r -> SymValue lf (r_sym r) mod 4 = 0 ->
  linked tg syms lf m s -> pc m = SymValue lf s + r_off r -> lands link (call_target lf r) m.
Proof.
  intros Hb Hi Hw Hal (Hlaid & Hm & P & HP) Hpc.
  destruct (branched_facts link (call_target lf r) m) as (H1 & H2 & H3).
  exists 1%nat, (branched link (call_target lf r) m). split_and!; try done; try lia.
  by rewrite (call_site tg syms lf s i r link P m 0).
Qed.

(** ... and one that points at a trampoline. *)
Lemma tramp_call_lands lf s i r link m t rs offset :
  is_branch link r -> Relocs lf s !! i = Some r -> on_word lf s r -> r_sym r = t -> call_target lf r = SymValue lf t ->
  tramp_form lf t rs offset -> rs <> 0 -> unresolved lf rs = false -> (SymValue lf rs + offset) mod 4 = 0 ->
  linked tg syms lf m s -> linked tg syms lf m t -> pc m = SymValue lf s + r_off r ->
  lands link (u32 (SymValue lf rs + offset)) m.
Proof.
  intros Hb Hi Hw Ht Hct Hf Hrs0 Hrs Hal (Hlaid & Hm & P & HP) (Hlt & Hmt & Pt & HPt) Hpc.
  destruct (branched_facts link (call_target lf r) m) as (H1 & H2 & H3). rewrite Hct in *.
  set (m1 := branched link (SymValue lf t) m) in *.
  assert (mem m1 = mem m) as Em by apply H2.
  destruct (tramp_lands tg syms lf t rs offset Hlt Hrs0 Hrs Hal m1 Pt [] Hf HPt) as (k & m' & Hk & E & G1 & G2).
  { unfold holds. rewrite Em. exact Hmt. }
  { done. }
  exists (S k), m'. split_and!; try lia; try done.
  - rewrite (call_site tg syms lf s i r link P m k), Hct by (try done; rewrite Ht; apply Hlt). exact E.
  - destruct H2 as [E2 F2], G2 as [E3 F3]. split; [congruence|]. intros x Hx. rewrite F3, F2; [done|done|set_solver].
  - destruct G2 as [_ F3]. rewrite F3 by set_solver. exact H3.
Qed.

Lemma call_offset r : i32 (i32 (signext24 (Z.land (r_add r) 0xffffff) + 2) * 4) = (signext24 (Z.land (r_add r) 0xffffff) + 2) * 4.
Proof.
  rewrite signext24_sext. pose proof (wraps_range 24 ltac:(lia) (Z.land (r_add r) 0xffffff)) as Hx.
  unfold in_s in Hx. fold (sext24 (Z.land (r_add r) 0xffffff)) in Hx.
  rewrite (wraps_small 32 ltac:(lia) (_ + 2)), (wraps_small 32) by (try lia; unfold in_s; lia). done.
Qed.

(** The two writes at the end, for the trampoline found. *)
Lemma redirect_run l s i r link t rs offset j :
  names_ok l -> tramps_ok l -> s <> 0 -> taken l s -> Relocs l s !! i = Some r -> is_branch link r ->
  registered l rs -> SymType l rs <> SDYNIMPORT -> 0 <= j ->
  l_byname l !! (tramp_name (SymName l rs) offset j, SymVersion l rs) = Some t -> SymType l t <> SDYNIMPORT ->
  exists l', (create_tramp tg s rs offset t ;! set_reloc s i (redirected t)) l = Ret tt l' /\
    names_ok l' /\ tramps_ok l' /\ Relocs l' s !! i = Some (redirected t r) /\ tramp_form l' t rs offset /\ t <> rs.
Proof.
  intros Hn Htr Hs0 Hst Hi Hb Hreg Hdi Hj Hk Htd. pose proof Hn as (_ & Hn2 & Hn3 & Hn4).
  destruct (Hn3 _ _ _ Hk) as (Ht0 & F1 & F2).
  assert (t <> rs) as Htrs by (intros ->; symmetry in F1; by apply tramp_name_longer in F1).
  assert (forall nm off k v, 0 <= k -> l_byname l !! (tramp_name nm off k, v) = Some s -> False) as Hnots.
  { intros nm off k v Hk0 Hks. destruct (Htr nm off k v s Hk0 Hks) as (x & _ & Hf); [done|]. by eapply tramp_form_no_call. }
  assert (t <> s) as Hts by (intros ->; by eapply Hnots).
  assert (s ∉ [t] /\ t ∉ [s]) as [Hst' Hts'] by (split; by intros ?%list_elem_of_singleton).
  destruct (create_tramp_run tg s rs offset t l Hdyn Hdi ltac:(lia) (proj1 Hst)) as (l2 & E2 & T2 & Hf2 & Ht2); [apply Hn4| |].
  { intros Hx. destruct (Htr _ _ _ _ _ Hj Hk) as (x & Hx1 & Hx2); [done|]. rewrite Hreg in Hx1. by injection Hx1 as <-. }
  pose proof T2 as (_ & _ & _ & T2o & _). destruct (T2o s Hst') as (U1 & U2 & U3). rewrite <- U3 in Hi.
  destruct (set_reloc_run s i r (redirected t) l2 Hs0 Hi) as (l3 & E3 & T3 & V1 & V2 & V3).
  pose proof T3 as (_ & _ & _ & T3o & _). destruct (T3o t Hts') as (W1 & W2 & W3).
  assert (tramp_form l3 t rs offset) as Hf3 by (by apply (tramp_form_touches [s] l2)).
  assert (touches [t; s] l l3) as T13.
  { apply (touches_trans _ _ l2); (eapply touches_weaken; [eassumption|]).
    - intros x ->%list_elem_of_singleton. left.
    - intros x ->%list_elem_of_singleton. right. left. }
  exists l3. split_and!; try done.
  - unfold go_bind. by rewrite E2, E3.
  - apply (names_ok_touches [t; s] l); [done|done|]. intros x Hx.
    apply elem_of_cons in Hx as [->|Hx%list_elem_of_singleton]; [split; [lia|congruence]|subst x].
    split; [|destruct Hst; congruence]. destruct (Z.lt_ge_cases s (l_next l)) as [|Hge]; [done|].
    destruct Hst as [Hsx _]. exfalso. apply Hsx. unfold SymType, sym_of. by rewrite (Hn2 s Hge).
  - apply (tramps_ok_touches [t; s] l); [done|done|]. intros nm off k v x Hx Hk0 Hkx Htk.
    apply elem_of_cons in Hx as [->|Hx%list_elem_of_singleton]; [|subst x; by destruct (Hnots nm off k v Hk0 Hkx)].
    destruct (Hn3 _ _ _ Hkx) as (_ & G1 & G2). rewrite F1 in G1. apply tramp_name_inj in G1 as (<- & <- & _); [|done..].
    exists rs. by rewrite <- G2, F2.
  - rewrite V3. apply list_lookup_insert_eq. by eapply lookup_lt_Some.
Qed.

(** C24: of a call of a function that is not imported, in an internal link that is not
    -linkshared.  trampoline always returns, leaving every trampoline true to its name; and
    in whatever final layout the link completes without an error, the call executed from
    the image lands where it pointed before the linker touched it: directly, through a
    trampoline already there, or through the one made for it. *)
Theorem trampoline_call_lands fuel l s i r link :
  names_ok l -> tramps_ok l -> (size (l_byname l) < fuel)%nat ->
  s <> 0 -> IsText (SymType l s) = true -> Relocs l s !! i = Some r -> is_branch link r ->
  registered l (r_sym r) -> SymType l (r_sym r) <> SDYNIMPORT ->
  exists l' r', trampoline fuel tg i (r_sym r) s l = Ret tt l' /\ names_ok l' /\ tramps_ok l' /\
    Relocs l' s !! i = Some r' /\
    forall lf m, layout l' lf -> on_word lf s r' ->
      SymValue lf (r_sym r) mod 4 = 0 -> unresolved lf (r_sym r) = false ->
      linked tg syms lf m s -> (r_sym r' <> r_sym r -> linked tg syms lf m (r_sym r')) ->
      pc m = SymValue lf s + r_off r -> lands link (call_target lf r) m.
Proof.
  intros Hn Htr Hfuel Hs0 Htext Hi Hb Hreg Hdi. set (rs := r_sym r) in *.
  pose proof Hn as (_ & _ & Hn3 & _). destruct (Hn3 _ _ _ Hreg) as ((Hr0 & Hrn) & _).
  assert (taken l s) as Hst.
  { unfold IsText, STEXT, STEXTEND, taken, Sxxx, SDYNIMPORT in *. apply andb_true_iff in Htext as [? ?]. lia. }
  unfold trampoline, go_bind at 1, go_get. rewrite Hi.
  assert (is_call (r_type r) = true) as -> by (unfold is_call; destruct Hb as [-> _]; done). cbn [negb].
  destruct (too_far tg l s rs r) eqn:Efar; cbn [negb].
  2:{ exists l, r. split_and!; try done. intros lf m Hl Hw Hal Hu Hls _ Hpc. rewrite <- (proj1 (proj2 (proj2 (Hl s)))) in Hi.
      by apply (direct_lands lf s i r). }
  rewrite call_offset. set (offset := (signext24 (Z.land (r_add r) 0xffffff) + 2) * 4).
  destruct (free_index (l_byname l) (SymName l rs) offset (SymVersion l rs)) as (jf & Hjf & Hfree).
  destruct (find_tramp_spec s rs (r_off r) offset fuel 0 l Hn Htr ltac:(lia) Hrn)
    as (t & l1 & j & E1 & Hn1 & Htr1 & (P1 & P2 & P3 & _) & Hj & Hk & Htd & _); [exists jf; split; [lia|done]|].
  destruct (P1 s) as (Es1 & _ & _ & Es4). destruct (P1 rs) as (Er1 & _). destruct (P3 rs Hrn) as [Enm Ever].
  rewrite <- Enm, <- Ever in Hk. destruct (redirect_run l1 s i r link t rs offset j) as (l3 & E3 & Hn3' & Htr3 & Hi3 & Hf3 & Htrs);
    try done; [by unfold taken; rewrite Es1|by rewrite Es4|by unfold registered; rewrite Enm, Ever; apply P2|by rewrite Er1|].
  exists l3, (redirected t r). unfold go_bind at 1. rewrite E1. split_and!; try done.
  intros lf m Hl Hw Hal Hu Hls Hlt Hpc. specialize (Hlt Htrs). change (r_sym (redirected t r)) with t in Hlt.
  pose proof (tramp_form_layout _ _ _ _ _ Hl Hf3) as Hff.
  unfold call_target. change (lands link (u32 (SymValue lf rs + offset)) m).
  apply (tramp_call_lands lf s i (redirected t r) link m t); try done.
  - by apply redirected_branch.
  - by rewrite (proj1 (proj2 (proj2 (Hl s)))).
  - rewrite redirected_target. apply wrapu_small. unfold in_u. destruct Hlt as ((L1 & _ & L2 & L3 & _) & _).
    pose proof (tramp_length _ _ _ _ Hff) as L4. clear - L1 L2 L4. lia.
  - clear - Hr0. lia.
  - unfold offset. by rewrite Z_mod_plus_full.
Qed.
End calls.

(** ** A concrete link *)
Module Demo.
Definition call : reloc := mkReloc R_CALLARM 0 4 2 0xebfffffe.
Definition text (name : string) (v : Z) (P : list Z) (rs : list reloc) : symst :=
  mkSym name 0 STEXT v (Z.of_nat (length P)) P rs "p" 0 None "" false true true.
(** f calls g, which has no address yet. *)
Definition before : lst :=
  mkLst (<[1 := text "p.f" 0x100000 (le_bytes 4 0xebfffffe) [call]]> (<[2 := text "p.g" 0 [] []]> ∅))
        (<[("p.f"%string, 0) := 1]> (<[("p.g"%string, 0) := 2]> ∅)) 3 ∅ ∅ ∅ 1 ∅ [] [].
Definition tg : target := mkTarget LinkInternal BuildModeExe true true false 0.
Definition syms : ArchSyms := mkArchSyms 0 0 0 0 0 0 0 0.
Definition after : lst := match trampoline 3 tg 0 2 1 before with Ret _ l => l | _ => before end.
(** g ends up 63 MB away, the trampoline next to f. *)
Definition final : lst := upd 3 (set_value 0x100010) (upd 2 (set_value 0x4000000) after).
Definition mach : machine :=
  mkMach (fun r => if r =? PC then 0x100000 else 0)
         (fun a => if a =? 0x100000 then encode (BL 2)
                   else if a =? 0x100010 then encode (LDR false 12 15 0)
                   else if a =? 0x100014 then encode (BX 12) else 0x4000000).

Lemma before_names : names_ok before.
Proof.
  split_and!; [done| | |].
  - intros s Hs. cbn. rewrite !lookup_insert_ne by (cbn in Hs; lia). done.
  - intros nm v t Ht. cbn in Ht. apply lookup_insert_Some in Ht as [[E <-]|[_ Ht]]; [injection E as <- <-; done|].
    apply lookup_insert_Some in Ht as [[E <-]|[_ Ht]]; [injection E as <- <-; done|done].
  - intros t. unfold SymType, Relocs, sym_of. cbn. rewrite !lookup_insert. by repeat case_decide.
Qed.

Lemma before_tramps : tramps_ok before.
Proof.
  intros nm off i v t Hi Ht _. exfalso. cbn in Ht.
  assert (forall nm', nm' = "p.f"%string \/ nm' = "p.g"%string -> tramp_name nm off i <> nm') as Hne.
  { intros nm' Hn E. apply (f_equal (fun s => existsb (Ascii.eqb "-") (chars s))) in E. unfold tramp_name in E.
    rewrite !chars_app, !existsb_app in E. cbn in E. rewrite !orb_true_r in E. by destruct Hn as [-> | ->]. }
  apply lookup_insert_Some in Ht as [[E _]|[_ Ht]]; [injection E as E _; symmetry in E; revert E; apply Hne; by left|].
  apply lookup_insert_Some in Ht as [[E _]|[_ Ht]]; [injection E as E _; symmetry in E; revert E; apply Hne; by right|done].
Qed.

Lemma final_layout : layout after final.
Proof.
  intros x. unfold final, SymType, SymValue, Data, Relocs. rewrite !upd_sym_of.
  destruct (decide (x = 3)) as [->|]; [by vm_compute|]. destruct (decide (x = 2)) as [->|]; [by vm_compute|done].
Qed.

Lemma linked_at x P : relocsym tg syms final x = Some (P, []) -> laid final x ->
  (forall k : nat, (4 * k + 4 <= length P)%nat -> mem mach (u32 (SymValue final x + 4 * Z.of_nat k)) = word_of P (4 * Z.of_nat k)) ->
  linked tg syms final mach x.
Proof.
  intros HP Hl Hk. split_and!; [done| |by exists P]. intros P' e off HP' H0 Ha Hlen. rewrite HP in HP'. injection HP' as <- <-.
  replace off with (4 * Z.of_nat (Z.to_nat (off / 4))) by zify_mod. apply Hk. zify_mod.
Qed.

Lemma laid_at l x v P rs : SymValue l x = v -> Data l x = P -> Relocs l x = rs ->
  0 < v -> v mod 4 = 0 -> v + Z.of_nat (length P) <= 2 ^ 32 -> Z.of_nat (length P) < 2 ^ 30 ->
  Forall placed_ok rs -> (length rs <= 1)%nat -> laid l x.
Proof.
  intros E1 E2 E3 H1 H2 H3 H4 H5 H6. unfold laid. rewrite E1, E2, E3. split_and!; try done.
  intros i j r r' Hi Hj Hne. apply lookup_lt_Some in Hi, Hj. lia.
Qed.
End Demo.

Lemma trampoline_call_lands_witness : lands true 0x4000000 Demo.mach.
Proof.
  destruct (trampoline_call_lands Demo.tg Demo.syms eq_refl eq_refl 3 Demo.before 1 0 Demo.call true
              Demo.before_names Demo.before_tramps ltac:(vm_compute; lia) ltac:(lia) eq_refl eq_refl ltac:(by split) eq_refl ltac:(by vm_compute))
    as (l' & r' & E & _ & _ & Hi & H).
  assert (l' = Demo.after) as -> by (change (r_sym Demo.call) with 2 in E; unfold Demo.after; by rewrite E).
  assert (r' = redirected 3 Demo.call) as ->.
  { assert (Relocs Demo.after 1 !! 0%nat = Some (redirected 3 Demo.call)) as E2 by (vm_compute; reflexivity). congruence. }
  replace 0x4000000 with (call_target Demo.final Demo.call) by (vm_compute; reflexivity).
  apply (H Demo.final Demo.mach Demo.final_layout).
  - split_and!; by vm_compute.
  - vm_compute. reflexivity.
  - vm_compute. reflexivity.
  - apply (Demo.linked_at 1 (le_bytes 4 (encode (BL 2)))); [by vm_compute| |].
    + apply (Demo.laid_at _ _ 0x100000 (le_bytes 4 0xebfffffe) [redirected 3 Demo.call]);
        [by vm_compute|by vm_compute|by vm_compute|by vm_compute|by vm_compute|by vm_compute|by vm_compute|repeat constructor; cbn; lia|done].
    + intros [|k] Hk; [by vm_compute|cbn in Hk; lia].
  - intros _. apply (Demo.linked_at 3 (put_words [encode (LDR false 12 15 0); encode (BX 12); 0x4000000])); [by vm_compute| |].
    + apply (Demo.laid_at _ _ 0x100010 (put_words [ldr_ip_pc 0; bx_ip; 0]) [mkReloc R_ADDR 8 4 2 0]);
        [by vm_compute|by vm_compute|by vm_compute|by vm_compute|by vm_compute|by vm_compute|by vm_compute|repeat constructor; cbn; lia|done].
    + intros [|[|[|k]]] Hk; [by vm_compute|by vm_compute|by vm_compute|cbn in Hk; lia].
  - vm_compute. reflexivity.
Defined.
