(* ===== verification/LinkArmPlt.v ===== *)
(** * LinkArmPlt: the procedure linkage table

    The tables addpltsym builds (.plt, .got.plt, .rel.plt) against what they should
    be, a function of the list of imported symbols ([plt_inv]); that adddynrel keeps
    them so; and what the stubs do when they run. *)
From Stdlib Require Import ZArith Lia List Bool String.
From stdpp Require Import base list gmap strings numbers tactics option.
From S2P Require Import Prelude ArmIsa Loader LinkArm LinkArmCall LinkArmTramp.

(** ** Actions that move the linker along a preorder *)
Section moves.
Context (R : lst -> lst -> Prop) `{!PreOrder R}.

(** [c] returns, and leaves the linker in a state above the one it found. *)
Definition moves {A} (c : L A) (l : lst) : Prop := go_wp c (fun _ l' => R l l') l.

Lemma moves_ret {A} (a : A) l : moves (go_ret a) l.
Proof. unfold moves, go_wp, go_ret. reflexivity. Qed.

Lemma moves_bind {A C} (c : L A) (k : A -> L C) l :
  moves c l -> (forall a l', R l l' -> moves (k a) l') -> moves (go_bind c k) l.
Proof.
  unfold moves, go_wp, go_bind. intros H Hk. destruct (c l) as [a l1| |]; [|done|done].
  specialize (Hk a l1 H). destruct (k a l1); try done. by etransitivity.
Qed.

Lemma moves_read {A C} (f : lst -> A) (k : A -> L C) l : moves (k (f l)) l -> moves (go_bind (go_read f) k) l.
Proof. done. Qed.

Lemma moves_modify f l : R l (f l) -> moves (go_modify f) l.
Proof. done. Qed.

Lemma moves_update s f l : s <> 0 -> R l (upd s f l) -> moves (update s f) l.
Proof. intros Hs H. unfold moves, go_wp. by rewrite update_run. Qed.
End moves.

(** ** The tables outside the reach of an action *)
Definition tables (syms : ArchSyms) : list Z := [PLT syms; GOTPLT syms; RelPLT syms].
Definition others (syms : ArchSyms) : list Z := [GOT syms; Rel syms; DynSym syms; DynStr syms; Dynamic syms].

(** Of the symbols only [others] change, the PLT offsets do not, and entries of the
    GOT and of the dynamic symbol table stay where they are. *)
Record off_tables (syms : ArchSyms) (l l' : lst) : Prop := {
  ot_syms : forall x, x ∉ others syms -> sym_of l' x = sym_of l x;
  ot_next : l_next l' = l_next l;
  ot_plt : l_plt l' = l_plt l;
  ot_got : forall x, 0 <= SymGot l x -> SymGot l' x = SymGot l x;
  ot_dynid : forall x, 0 <= SymDynid l x -> SymDynid l' x = SymDynid l x }.

#[export] Instance off_tables_preorder syms : PreOrder (off_tables syms).
Proof.
  split; [done|]. intros a b c [A1 A2 A3 A4 A5] [B1 B2 B3 B4 B5]. split; try congruence.
  - intros x Hx. rewrite B1, A1; done.
  - intros x Hx. rewrite B4, A4; [done|done|by rewrite A4].
  - intros x Hx. rewrite B5, A5; [done|done|by rewrite A5].
Qed.

(** The same, with no new dynamic symbol or GOT entry. *)
Definition quiet (syms : ArchSyms) (l l' : lst) : Prop :=
  off_tables syms l l' /\ l_nelfsym l' = l_nelfsym l /\ l_got l' = l_got l.

#[export] Instance quiet_preorder syms : PreOrder (quiet syms).
Proof.
  split; [done|]. intros a b c (A1 & A2 & A3) (B1 & B2 & B3). split_and!; [by etransitivity|congruence..].
Qed.

Lemma quiet_upd syms s f l : s ∈ others syms -> quiet syms l (upd s f l).
Proof. intros Hs. split_and!; [split| |]; try done. intros x Hx. rewrite upd_sym_of, decide_False; [done|congruence]. Qed.

Lemma quiet_same syms l l' : l_syms l' = l_syms l -> l_next l' = l_next l -> l_plt l' = l_plt l ->
  l_got l' = l_got l -> l_dynid l' = l_dynid l -> l_nelfsym l' = l_nelfsym l -> quiet syms l l'.
Proof. intros E1 E2 E3 E4 E5 E6. split_and!; [split| |]; try done; unfold sym_of, SymGot, SymDynid; by rewrite ?E1, ?E4, ?E5. Qed.

Lemma set_entry_value m s v x : v <> -1 -> default (-1) (set_entry m s v !! x) = if decide (x = s) then v else default (-1) (m !! x).
Proof.
  intros Hv. unfold set_entry. rewrite (proj2 (Z.eqb_neq v (-1)) Hv).
  destruct (decide (x = s)) as [->|]; [by rewrite lookup_insert_eq|by rewrite lookup_insert_ne].
Qed.

(** The symbols the linker makes for the dynamic sections. *)
Definition arch_ok (syms : ArchSyms) : Prop :=
  NoDup [0; PLT syms; GOT syms; GOTPLT syms; Rel syms; RelPLT syms; DynSym syms; DynStr syms; Dynamic syms].

Lemma arch_other syms x : arch_ok syms -> x ∈ others syms -> x <> 0 /\ x ∉ tables syms.
Proof.
  unfold arch_ok, tables, others. rewrite !list.NoDup_cons, !not_elem_of_cons. intros H Hx. destruct_and!.
  rewrite !elem_of_cons in Hx. destruct_or!; subst; try by apply not_elem_of_nil in Hx.
  all: split_and!; congruence || apply not_elem_of_nil.
Qed.

Lemma arch_table syms : arch_ok syms -> 
  (PLT syms <> 0 /\ GOTPLT syms <> 0 /\ RelPLT syms <> 0) /\
  PLT syms <> GOTPLT syms /\ PLT syms <> RelPLT syms /\ GOTPLT syms <> RelPLT syms.
Proof.
  unfold arch_ok. rewrite !list.NoDup_cons, !not_elem_of_cons. intros H. destruct_and!. split_and!; congruence.
Qed.

(** Runs an action one step at a time; what is left says that its writes miss the tables. *)
Ltac moving :=
  repeat match goal with
  | |- moves _ (go_bind (go_read _) _) _ => apply moves_read; cbv beta zeta
  | |- moves _ (go_bind _ _) _ => apply moves_bind; [typeclasses eauto| |intros ? ? ?; cbv beta zeta]
  | |- moves _ (update _ _) _ => apply moves_update; [|apply quiet_upd]
  | |- moves _ (go_modify _) _ => apply moves_modify, quiet_same; done
  | |- moves _ (Errorf _ _) _ => apply moves_modify, quiet_same; done
  | |- moves _ (go_ret _) _ => apply moves_ret; typeclasses eauto
  | |- moves _ (if ?b then _ else _) _ => destruct b eqn:?
  end.

Section plt.
Context (tg : target) (syms : ArchSyms).
Context (Hint : t_link tg = LinkInternal) (Helf : t_elf tg = true) (Harch : arch_ok syms).

Lemma other_nonzero x : x ∈ others syms -> x <> 0.
Proof. intros Hx. by destruct (arch_other syms x Harch Hx). Qed.

Lemma table_not_other x : x ∈ tables syms -> x ∉ others syms.
Proof. intros Hx Ho. by destruct (arch_other syms x Harch Ho). Qed.

Lemma moves_AddstringTo s str l : s ∈ others syms -> moves (quiet syms) (AddstringTo s str) l.
Proof. intros H. unfold AddstringTo. moving; [by apply other_nonzero|done]. Qed.

Lemma moves_Elfwritedynent s tag v l : s ∈ others syms -> moves (quiet syms) (Elfwritedynent s tag v) l.
Proof. intros H. unfold Elfwritedynent. moving; done || by apply other_nonzero. Qed.

(** Adddynsym gives the symbol its index, once. *)
Lemma Adddynsym_moves s l : good_sym l s = true -> 0 <= l_nelfsym l < 2 ^ 31 ->
  go_wp (Adddynsym tg syms s) (fun _ l' => off_tables syms l l' /\ 0 <= SymDynid l' s /\
    l_nelfsym l <= l_nelfsym l' <= l_nelfsym l + 1 /\ l_got l' = l_got l) l.
Proof.
  intros Hs Hn. unfold Adddynsym. unfold go_bind at 1, go_read at 1. unfold go_wp.
  unfold IsExternal, IsElf. rewrite Hint, Helf, bool_decide_false, orb_false_r by done.
  destruct (Z.leb_spec 0 (SymDynid l s)) as [H|H]; [split_and!; done || lia|].
  unfold elfadddynsym at 1. unfold go_bind at 1, go_read at 1. unfold go_bind at 1, SetSymDynid at 1. rewrite Hs.
  set (l1 := set_dynid _ _ l). unfold go_bind at 1, go_modify at 1. set (l2 := set_dynid _ _ l1).
  assert (off_tables syms l l2 /\ 0 <= SymDynid l2 s) as [H1 H2].
  { assert (forall x, SymDynid l2 x = if decide (x = s) then l_nelfsym l else SymDynid l x) as E.
    { intros x. unfold SymDynid, l2, l1. cbn [l_dynid set_dynid].
      rewrite (wraps_small 32) by (try lia; unfold in_s; lia). apply set_entry_value. lia. }
    split; [|rewrite E, decide_True by done; lia]. split; try done.
    intros x Hx. rewrite E. case_decide; [subst; lia|done]. }
  match goal with |- match ?c l2 with _ => _ end =>
    assert (moves (quiet syms) c l2) as Hm end.
  - pose proof other_nonzero as Z0.
    moving; try (apply moves_AddstringTo || apply moves_Elfwritedynent); try apply Z0; unfold others; rewrite !elem_of_cons; tauto.
  - apply (go_wp_mono _ _ _ _ Hm). intros _ l3 (H3 & E3 & E4).
    split_and!; [by etransitivity|by rewrite (ot_dynid _ _ _ H3)|rewrite E3; cbn; lia..|done].
Qed.

(** ** What the tables should be *)
Definition stub (k : nat) : list reloc :=
  let off := 20 + 12 * Z.of_nat k in let add := 12 + 4 * Z.of_nat k - 8 in
  [mkReloc R_PLT0 off 4 (GOTPLT syms) add; mkReloc R_PLT1 (off + 4) 4 (GOTPLT syms) add;
   mkReloc R_PLT2 (off + 8) 4 (GOTPLT syms) add].

Definition plt_header : list Z := put_words [0xe52de004; 0xe59fe004; 0xe08fe00e; 0xe5bef008; 0].

(** The payloads for [n] imported symbols, of the dynamic indices [ids]. *)
Definition is_plt (y : symst) (n : nat) : Prop :=
  sy_size y = 20 + 12 * Z.of_nat n /\ sy_data y = plt_header ++ replicate (12 * n) 0 /\
  sy_relocs y = mkReloc R_PCREL 16 4 (GOTPLT syms) 4 :: flat_map stub (seq 0 n).
Definition is_gotplt (y : symst) (n : nat) : Prop :=
  sy_size y = 12 + 4 * Z.of_nat n /\ sy_data y = replicate (12 + 4 * n) 0 /\
  sy_relocs y = (if t_qnx tg then [mkReloc R_ADDR 0 4 (Dynamic syms) 0] else []) ++
                map (fun k => mkReloc R_ADDR (12 + 4 * Z.of_nat k) 4 (PLT syms) 0) (seq 0 n).
Definition is_relplt (y : symst) (ids : list Z) : Prop :=
  sy_size y = 8 * Z.of_nat (length ids) /\
  sy_data y = flat_map (fun id => replicate 4 0 ++ le_bytes 4 (R_INFO32 (u32 id) R_ARM_JUMP_SLOT)) ids /\
  sy_relocs y = map (fun k => mkReloc R_ADDR (8 * Z.of_nat k) 4 (GOTPLT syms) (12 + 4 * Z.of_nat k)) (seq 0 (length ids)).

(** The linker's tables are those of the imported symbols [imps], in this order. *)
Record plt_inv (l : lst) (imps : list Z) : Prop := {
  pi_plt : is_plt (sym_of l (PLT syms)) (length imps);
  pi_gotplt : is_gotplt (sym_of l (GOTPLT syms)) (length imps);
  pi_relplt : is_relplt (sym_of l (RelPLT syms)) (map (SymDynid l) imps);
  pi_nodup : NoDup imps;
  pi_entry : forall k s, imps !! k = Some s ->
    SymPlt l s = 20 + 12 * Z.of_nat k /\ SymGot l s = 12 + 4 * Z.of_nat k /\ 0 <= SymDynid l s;
  pi_all : forall s, 0 <= SymPlt l s -> s ∈ imps }.

Lemma plt_inv_off l l' imps : off_tables syms l l' -> plt_inv l imps -> plt_inv l' imps.
Proof.
  intros H [A1 A2 A3 A4 A5 A6].
  assert (forall s, SymPlt l' s = SymPlt l s) as Ep by (intros s; unfold SymPlt; by rewrite (ot_plt _ _ _ H)).
  assert (map (SymDynid l') imps = map (SymDynid l) imps) as Ed.
  { apply map_ext_in. intros x Hx%list_elem_of_In%list_elem_of_lookup. destruct Hx as [k Hk].
    destruct (A5 k x Hk) as (_ & _ & ?). by rewrite (ot_dynid _ _ _ H). }
  assert (forall x, x ∈ tables syms -> sym_of l' x = sym_of l x) as Es by (intros x Hx; apply H, table_not_other, Hx).
  split; rewrite ?Ed, ?Es; try done; try (unfold tables; by rewrite !elem_of_cons; auto).
  - intros k s Hk. destruct (A5 k s Hk) as (? & ? & ?).
    by rewrite Ep, (ot_got _ _ _ H), (ot_dynid _ _ _ H) by (done || lia).
  - intros s. rewrite Ep. apply A6.
Qed.

(** ** One operation on a payload *)

(** Contents as long as the size says. *)
Definition filled_up (y : symst) : Prop := sy_size y = Z.of_nat (length (sy_data y)).

Lemma as_data_same y : sy_size (as_data y) = sy_size y /\ sy_data (as_data y) = sy_data y /\ sy_relocs (as_data y) = sy_relocs y.
Proof. unfold as_data. by case_match. Qed.

Lemma Grow_add (d : list Z) k : Grow (Z.of_nat (length d) + Z.of_nat k) d = d ++ replicate k 0.
Proof. unfold Grow. do 2 f_equal. lia. Qed.

Lemma AddUintXX_payload y v w : filled_up y -> 
  sy_size (AddUintXX v (Z.of_nat w) y) = sy_size y + Z.of_nat w /\
  sy_data (AddUintXX v (Z.of_nat w) y) = sy_data y ++ le_bytes w v /\
  sy_relocs (AddUintXX v (Z.of_nat w) y) = sy_relocs y.
Proof.
  unfold filled_up, AddUintXX, setUintXX. intros Hy. destruct (as_data_same y) as (E1 & E2 & E3).
  set (z := as_data y) in *. destruct (Z.ltb_spec (sy_size z) (sy_size y + Z.of_nat w)) as [H|H];
    cbn [set_content sy_size sy_data sy_relocs].
  - rewrite E2, Hy, Grow_add, Nat2Z.id. split_and!; try done. unfold write_at. rewrite !Nat2Z.id.
    rewrite take_app_length, length_le_bytes, drop_app_ge, drop_ge, app_nil_r by (rewrite ?length_replicate; lia). done.
  - replace w with 0%nat by lia. rewrite E1, E2, Nat2Z.id, Z.add_0_r. split_and!; try done.
    unfold write_at. cbn [le_bytes length app]. by rewrite Hy, Nat2Z.id, Nat.add_0_r, take_drop, app_nil_r.
Qed.

Lemma addSymRef_payload y t a typ w : filled_up y -> 
  sy_size (addSymRef t a typ (Z.of_nat w) y) = sy_size y + Z.of_nat w /\
  sy_data (addSymRef t a typ (Z.of_nat w) y) = sy_data y ++ replicate w 0 /\
  sy_relocs (addSymRef t a typ (Z.of_nat w) y) = sy_relocs y ++ [mkReloc typ (i32 (sy_size y)) (u8 (Z.of_nat w)) t a].
Proof.
  unfold filled_up, addSymRef. intros Hy. destruct (as_data_same y) as (E1 & E2 & E3).
  cbn [set_content AddRel set_relocs sy_size sy_data sy_relocs]. rewrite E1, E2, E3, Hy, Grow_add. done.
Qed.

Lemma AddUint32_payload y v : filled_up y ->
  sy_size (AddUint32 v y) = sy_size y + 4 /\ sy_data (AddUint32 v y) = sy_data y ++ le_bytes 4 v /\
  sy_relocs (AddUint32 v y) = sy_relocs y.
Proof. exact (AddUintXX_payload y v 4). Qed.

Lemma addSymRef4_payload y t a typ : filled_up y ->
  sy_size (addSymRef t a typ 4 y) = sy_size y + 4 /\ sy_data (addSymRef t a typ 4 y) = sy_data y ++ replicate 4 0 /\
  sy_relocs (addSymRef t a typ 4 y) = sy_relocs y ++ [mkReloc typ (i32 (sy_size y)) 4 t a].
Proof. exact (addSymRef_payload y t a typ 4). Qed.

Lemma filled_up_app y y' n b : filled_up y -> sy_size y' = sy_size y + n -> sy_data y' = sy_data y ++ b ->
  n = Z.of_nat (length b) -> filled_up y'.
Proof. unfold filled_up. intros H1 -> -> ->. rewrite length_app. lia. Qed.

Lemma Addstring_payload y str : exists b,
  sy_data (snd (Addstring str y)) = sy_data y ++ b /\ filled_up (snd (Addstring str y)) /\
  sy_relocs (snd (Addstring str y)) = sy_relocs y.
Proof. unfold Addstring, filled_up. destruct (sy_kind y =? Sxxx); cbn; by eexists. Qed.

(** What addpltreloc does to the PLT, [g] being the GOT offset. *)
Definition add_stub_word (typ got g : Z) (y : symst) : symst :=
  let y := AddRel (mkReloc typ (i32 (sy_size y)) 4 got (g - 8)) y in
  let y := set_attrs true (sy_onlist y) y in
  set_content (sy_size y + 4) (Grow (sy_size y + 4) (sy_data y)) y.

Lemma add_stub_word_payload y typ got g : filled_up y ->
  sy_size (add_stub_word typ got g y) = sy_size y + 4 /\
  sy_data (add_stub_word typ got g y) = sy_data y ++ replicate 4 0 /\
  sy_relocs (add_stub_word typ got g y) = sy_relocs y ++ [mkReloc typ (i32 (sy_size y)) 4 got (g - 8)].
Proof.
  unfold filled_up, add_stub_word. intros Hy. cbn [set_content set_attrs AddRel set_relocs sy_size sy_data sy_relocs].
  rewrite Hy. by rewrite (Grow_add _ 4).
Qed.

Lemma addpltreloc_run plt got s typ l : plt <> 0 ->
  addpltreloc plt got s typ l = Ret tt (upd plt (add_stub_word typ got (SymGot l s)) l).
Proof. intros H. unfold addpltreloc, go_bind, go_read. by rewrite update_run. Qed.

Definition add_stub (got g : Z) (y : symst) : symst :=
  add_stub_word R_PLT2 got g (add_stub_word R_PLT1 got g (add_stub_word R_PLT0 got g y)).
Definition add_jump_slot (got g id : Z) (y : symst) : symst :=
  AddUint32 (R_INFO32 (u32 id) R_ARM_JUMP_SLOT) (AddAddrPlus got g y).

(** The entry addpltsym makes for a symbol that has none. *)
Definition with_entry (s : Z) (l : lst) : lst :=
  let g := i32 (Size l (GOTPLT syms)) in
  let l1 := set_plt (set_entry (l_plt l) s (i32 (Size l (PLT syms)))) (set_got (set_entry (l_got l) s g) l) in
  upd (RelPLT syms) (add_jump_slot (GOTPLT syms) (SymGot l1 s) (SymDynid l s))
    (upd (PLT syms) (add_stub (GOTPLT syms) (SymGot l1 s))
      (upd (GOTPLT syms) (AddAddrPlus (PLT syms) 0) l1)).

Lemma set_plt_upd p s f l : set_plt p (upd s f l) = upd s f (set_plt p l).
Proof. done. Qed.

Lemma addpltsym_run s l l1 : SymPlt l s < 0 -> Adddynsym tg syms s l = Ret tt l1 ->
  good_sym l1 s = true -> Size l1 (PLT syms) <> 0 -> addpltsym tg syms s l = Ret tt (with_entry s l1).
Proof.
  intros Hp Hd Hg Hsz. destruct (arch_table syms Harch) as ((N1 & N2 & N3) & N4 & N5 & N6).
  unfold addpltsym. unfold go_bind at 1, go_read at 1. destruct (Z.leb_spec 0 (SymPlt l s)); [lia|].
  unfold go_bind at 1. rewrite Hd. unfold IsElf. rewrite Helf.
  unfold go_bind at 1, go_read at 1. rewrite (proj2 (Z.eqb_neq _ 0) Hsz).
  unfold go_bind at 1, go_read at 1. unfold go_bind at 1, SetGot. rewrite Hg.
  unfold go_bind at 1. rewrite update_run by done. unfold go_bind at 1, SetPlt.
  assert (forall l s f, good_sym (upd s f l) = good_sym l) as Eg by done. rewrite Eg.
  assert (good_sym (set_got (set_entry (l_got l1) s (i32 (Size l1 (GOTPLT syms)))) l1) s = true) as -> by done.
  rewrite set_plt_upd. set (l2 := upd (GOTPLT syms) _ _).
  unfold go_bind at 1. rewrite addpltreloc_run by done. unfold go_bind at 1. rewrite addpltreloc_run by done.
  unfold go_bind at 1. rewrite addpltreloc_run, !upd_upd by done.
  unfold go_bind at 1, go_read at 1, go_bind at 1. rewrite update_run by done.
  unfold go_bind at 1, go_read at 1. rewrite update_run, upd_upd by done.
  unfold with_entry, add_stub, add_jump_slot. by subst l2.
Qed.

Lemma is_plt_add y n : is_plt y n -> Z.of_nat n < 2 ^ 27 ->
  is_plt (add_stub (GOTPLT syms) (12 + 4 * Z.of_nat n) y) (S n).
Proof.
  intros (E1 & E2 & E3) Hn. unfold add_stub.
  assert (filled_up y) as F0. { unfold filled_up. rewrite E1, E2, length_app, length_replicate. cbn. lia. }
  destruct (add_stub_word_payload y R_PLT0 (GOTPLT syms) (12 + 4 * Z.of_nat n) F0) as (A1 & A2 & A3).
  set (y1 := add_stub_word R_PLT0 _ _ y) in *.
  pose proof (filled_up_app y y1 4 _ F0 A1 A2 eq_refl) as F1.
  destruct (add_stub_word_payload y1 R_PLT1 (GOTPLT syms) (12 + 4 * Z.of_nat n) F1) as (B1 & B2 & B3).
  set (y2 := add_stub_word R_PLT1 _ _ y1) in *.
  pose proof (filled_up_app y1 y2 4 _ F1 B1 B2 eq_refl) as F2.
  destruct (add_stub_word_payload y2 R_PLT2 (GOTPLT syms) (12 + 4 * Z.of_nat n) F2) as (C1 & C2 & C3).
  split_and!.
  - lia.
  - rewrite C2, B2, A2, E2, <- !app_assoc, <- !replicate_add. do 2 f_equal. lia.
  - rewrite C3, B3, A3, E3, B1, A1, E1, seq_S, flat_map_app. cbn [flat_map app Nat.add].
    rewrite !(wraps_small 32) by (try lia; unfold in_s; lia). rewrite <- !app_assoc. cbn [app].
    unfold stub. cbn zeta. replace (20 + 12 * Z.of_nat n + 4 + 4) with (20 + 12 * Z.of_nat n + 8) by lia. done.
Qed.

Lemma is_gotplt_add y n : is_gotplt y n -> Z.of_nat n < 2 ^ 27 -> is_gotplt (AddAddrPlus (PLT syms) 0 y) (S n).
Proof.
  intros (E1 & E2 & E3) Hn.
  assert (filled_up y) as F0. { unfold filled_up. rewrite E1, E2, length_replicate. lia. }
  destruct (addSymRef4_payload y (PLT syms) 0 R_ADDR F0) as (A1 & A2 & A3). unfold AddAddrPlus. split_and!.
  - rewrite A1. lia.
  - rewrite A2, E2, <- replicate_add. f_equal. lia.
  - rewrite A3, E3, seq_S, map_app, app_assoc. cbn [map Nat.add]. rewrite E1, (wraps_small 32) by (try lia; unfold in_s; lia).
    done.
Qed.

Lemma is_relplt_add y ids id : is_relplt y ids -> Z.of_nat (length ids) < 2 ^ 27 ->
  is_relplt (add_jump_slot (GOTPLT syms) (12 + 4 * Z.of_nat (length ids)) id y) (ids ++ [id]).
Proof.
  intros (E1 & E2 & E3) Hn.
  assert (filled_up y) as F0.
  { unfold filled_up. rewrite E1, E2. clear. induction ids as [|id ids IH]; [done|].
    cbn [flat_map]. rewrite !length_app, length_replicate, length_le_bytes. cbn [length]. lia. }
  destruct (addSymRef4_payload y (GOTPLT syms) (12 + 4 * Z.of_nat (length ids)) R_ADDR F0) as (A1 & A2 & A3).
  unfold add_jump_slot, AddAddrPlus. set (y1 := addSymRef _ _ _ _ y) in *.
  pose proof (filled_up_app y y1 4 _ F0 A1 A2 eq_refl) as F1.
  destruct (AddUint32_payload y1 (R_INFO32 (u32 id) R_ARM_JUMP_SLOT) F1) as (B1 & B2 & B3). split_and!.
  - rewrite B1, A1, length_app. cbn [length]. lia.
  - rewrite B2, A2, E2, flat_map_app. cbn [flat_map]. by rewrite app_nil_r, <- app_assoc.
  - rewrite B3, A3, E3, length_app. cbn [length]. rewrite Nat.add_1_r, seq_S, map_app. cbn [map Nat.add].
    by rewrite E1, (wraps_small 32) by (try lia; unfold in_s; lia).
Qed.

Lemma plt_inv_sizes l imps : plt_inv l imps -> 
  Size l (PLT syms) = 20 + 12 * Z.of_nat (length imps) /\ Size l (GOTPLT syms) = 12 + 4 * Z.of_nat (length imps).
Proof. intros [(E1 & _) (E2 & _) _ _ _ _]. by split. Qed.

Lemma plt_inv_entry l imps s : plt_inv l imps -> SymPlt l s < 0 -> 0 <= SymDynid l s ->
  Z.of_nat (length imps) < 2 ^ 27 -> plt_inv (with_entry s l) (imps ++ [s]).
Proof.
  intros Hinv Hp Hd Hn. destruct (plt_inv_sizes l imps Hinv) as [S1 S2]. destruct Hinv as [A1 A2 A3 A4 A5 A6].
  destruct (arch_table syms Harch) as (_ & N4 & N5 & N6).
  set (n := Z.of_nat (length imps)) in *.
  assert (forall x, SymGot (with_entry s l) x = if decide (x = s) then 12 + 4 * n else SymGot l x) as Eg.
  { intros x. unfold SymGot, with_entry. cbn [l_got upd set_syms set_plt set_got]. rewrite S2, (wraps_small 32) by (try lia; unfold in_s; lia).
    apply set_entry_value. lia. }
  assert (forall x, SymPlt (with_entry s l) x = if decide (x = s) then 20 + 12 * n else SymPlt l x) as Ep.
  { intros x. unfold SymPlt, with_entry. cbn [l_plt upd set_syms set_plt set_got]. rewrite S1, (wraps_small 32) by (try lia; unfold in_s; lia).
    apply set_entry_value. lia. }
  assert (forall x, SymDynid (with_entry s l) x = SymDynid l x) as Ed by done.
  assert (length (imps ++ [s]) = S (length imps)) as El by (rewrite length_app; cbn; lia).
  pose proof (Eg s) as Egs. rewrite decide_True in Egs by done.
  unfold with_entry in Egs. unfold SymGot in Egs. cbn [l_got upd set_syms set_plt set_got] in Egs.
  split.
  - unfold with_entry, SymGot. cbn [l_got upd set_syms set_plt set_got]. rewrite Egs, El, upd_sym_of, decide_False, upd_sym_of, decide_True, upd_sym_of, decide_False by done.
    by apply is_plt_add.
  - unfold with_entry. rewrite El, upd_sym_of, decide_False, upd_sym_of, decide_False, upd_sym_of, decide_True by done.
    by apply is_gotplt_add.
  - rewrite map_app. cbn [map]. rewrite (map_ext _ _ Ed). rewrite Ed. unfold with_entry, SymGot. cbn [l_got upd set_syms set_plt set_got].
    rewrite Egs, upd_sym_of, decide_True, upd_sym_of, decide_False, upd_sym_of, decide_False by done.
    unfold n. rewrite <- (length_map (SymDynid l) imps). apply is_relplt_add; [done|]. by rewrite length_map.
  - apply list.NoDup_app. split_and!; [done| |by apply NoDup_singleton]. intros x Hx ->%list_elem_of_singleton.
    apply list_elem_of_lookup in Hx as [k Hk]. destruct (A5 k s Hk). lia.
  - intros k x Hk. rewrite Eg, Ep, Ed. apply lookup_app_Some in Hk as [Hk|[Hk1 Hk2]].
    + destruct (A5 k x Hk) as (? & ? & ?). by rewrite !decide_False by (intros ->; lia).
    + apply list_lookup_singleton_Some in Hk2 as [Hk2 <-]. rewrite !decide_True by done.
      unfold n. replace k with (length imps) by lia. done.
  - intros x. rewrite Ep. case_decide as Ex; [subst; intros _|intros Hx%A6]; rewrite elem_of_app; [right|by left].
    by apply list_elem_of_singleton.
Qed.

(** What a step of the link does to the tables: [k] new entries at most, and no
    symbol that [K] protects has changed. *)
Record passed (K : Z -> Prop) (k : Z) (imps : list Z) (l : lst) (imps' : list Z) (l' : lst) : Prop := {
  pa_inv : plt_inv l' imps';
  pa_prefix : imps `prefix_of` imps';
  pa_len : Z.of_nat (length imps') <= Z.of_nat (length imps) + k;
  pa_nelf : l_nelfsym l <= l_nelfsym l' <= l_nelfsym l + k;
  pa_next : l_next l' = l_next l;
  pa_syms : forall x, K x -> sym_of l' x = sym_of l x }.

Lemma passed_trans (K : Z -> Prop) k1 k2 i1 l1 i2 l2 i3 l3 :
  passed K k1 i1 l1 i2 l2 -> passed K k2 i2 l2 i3 l3 -> passed K (k1 + k2) i1 l1 i3 l3.
Proof.
  intros [A1 A2 A3 A4 A5 A6] [B1 B2 B3 B4 B5 B6]. split; try done; try lia; [by etransitivity|].
  intros x Hx. by rewrite B6, A6.
Qed.

(** Neither a table nor another symbol of the dynamic sections. *)
Definition plain (x : Z) : Prop := x <> 0 /\ x ∉ tables syms /\ x ∉ others syms.

Lemma passed_off l l' imps : plt_inv l imps -> off_tables syms l l' -> l_nelfsym l <= l_nelfsym l' <= l_nelfsym l + 1 ->
  passed plain 1 imps l imps l'.
Proof.
  intros Hi H Hn. split; try done; [by eapply plt_inv_off|lia|apply H|]. intros x (_ & _ & Hx). by apply H.
Qed.

(** There is room for one more entry. *)
Definition room (k : Z) (l : lst) (imps : list Z) : Prop :=
  0 <= l_nelfsym l /\ l_nelfsym l + k <= 2 ^ 31 /\ Z.of_nat (length imps) + k <= 2 ^ 27.

(** addpltsym makes an entry exactly for the symbols that have none. *)
Lemma addpltsym_spec s l imps : plt_inv l imps -> good_sym l s = true -> room 1 l imps ->
  go_wp (addpltsym tg syms s) (fun _ l' => exists imps', s ∈ imps' /\ passed plain 1 imps l imps' l') l.
Proof.
  intros Hinv Hg (Hn1 & Hn2 & Hlen). unfold go_wp. destruct (Z.lt_ge_cases (SymPlt l s) 0) as [Hp|Hp].
  - pose proof (Adddynsym_moves s l Hg ltac:(lia)) as H. unfold go_wp in H.
    destruct (Adddynsym tg syms s l) as [[] l1| |] eqn:E; [|done|done]. destruct H as (H1 & H2 & H3 & _).
    pose proof (plt_inv_off _ _ _ H1 Hinv) as Hinv1. destruct (plt_inv_sizes _ _ Hinv1) as [S1 _].
    rewrite (addpltsym_run s l l1 Hp E); [|by unfold good_sym in *; rewrite (ot_next _ _ _ H1)|lia].
    assert (SymPlt l1 s < 0) as Hp1 by (unfold SymPlt; by rewrite (ot_plt _ _ _ H1)).
    exists (imps ++ [s]). split; [rewrite elem_of_app, list_elem_of_singleton; by right|].
    split; [apply plt_inv_entry; done || lia|by exists [s]|rewrite length_app; cbn; lia|done|by rewrite <- (ot_next _ _ _ H1)|].
    intros x (_ & Hx1 & Hx2). rewrite <- (ot_syms _ _ _ H1 x Hx2). unfold tables in Hx1. rewrite !not_elem_of_cons in Hx1.
    destruct_and!. unfold with_entry. rewrite !upd_sym_of, !decide_False by done. done.
  - unfold addpltsym, go_bind, go_read. rewrite (proj2 (Z.leb_le _ _) Hp). exists imps.
    split; [by apply Hinv|]. apply passed_off; [done|done|lia].
Qed.

(** ** elfsetupplt *)
Definition blank (y : symst) : Prop := sy_size y = 0 /\ sy_data y = [] /\ sy_relocs y = [].

(** A payload of which everything is known. *)
Definition payload (y : symst) (d : list Z) (rs : list reloc) : Prop :=
  sy_size y = Z.of_nat (length d) /\ sy_data y = d /\ sy_relocs y = rs.

Lemma blank_payload y : blank y -> payload y [] [].
Proof. done. Qed.

Lemma payload_word y d rs v : payload y d rs -> payload (AddUint32 v y) (d ++ le_bytes 4 v) rs.
Proof.
  intros (E1 & E2 & E3). assert (filled_up y) as F by (unfold filled_up; by rewrite E1, E2).
  destruct (AddUint32_payload y v F) as (A1 & A2 & A3). split_and!; [|by rewrite A2, E2|by rewrite A3].
  rewrite A1, E1, length_app, length_le_bytes. lia.
Qed.

Lemma payload_ref y d rs t a typ : payload y d rs -> Z.of_nat (length d) < 2 ^ 31 ->
  payload (addSymRef t a typ 4 y) (d ++ replicate 4 0) (rs ++ [mkReloc typ (Z.of_nat (length d)) 4 t a]).
Proof.
  intros (E1 & E2 & E3) Hd. assert (filled_up y) as F by (unfold filled_up; by rewrite E1, E2).
  destruct (addSymRef4_payload y t a typ F) as (A1 & A2 & A3). split_and!; [|by rewrite A2, E2|].
  - rewrite A1, E1, length_app, length_replicate. lia.
  - rewrite A3, E1, E3, (wraps_small 32) by (try lia; unfold in_s; lia). done.
Qed.

(** The tables of a link that has met no import. *)
Lemma elfsetupplt_inv l : blank (sym_of l (PLT syms)) -> blank (sym_of l (GOTPLT syms)) -> blank (sym_of l (RelPLT syms)) ->
  (forall x, SymPlt l x < 0) ->
  go_wp (elfsetupplt tg (PLT syms) (GOTPLT syms) (Dynamic syms)) (fun _ l' => plt_inv l' [] /\
    (forall x, x ∉ tables syms -> sym_of l' x = sym_of l x) /\ l_next l' = l_next l /\ l_nelfsym l' = l_nelfsym l) l.
Proof.
  intros HP HG HR Hno. destruct (arch_table syms Harch) as ((N1 & N2 & N3) & N4 & N5 & N6).
  unfold go_wp, elfsetupplt. unfold go_bind at 1, go_read at 1. unfold Size at 1. rewrite (proj1 HP). cbn [negb Z.eqb].
  do 5 (unfold go_bind at 1; rewrite update_run by done). rewrite !upd_upd.
  set (fp := fun y => AddPCRelPlus _ _ _). set (l1 := upd (PLT syms) fp l).
  set (fg := fun y => AddUint32 0 (AddUint32 0 ((if t_qnx tg then AddAddrPlus (Dynamic syms) 0 else AddUint32 0) y))).
  assert (((if t_qnx tg then update (GOTPLT syms) (AddAddrPlus (Dynamic syms) 0) else update (GOTPLT syms) (AddUint32 0)) ;!
    update (GOTPLT syms) (AddUint32 0) ;! update (GOTPLT syms) (AddUint32 0)) l1 = Ret tt (upd (GOTPLT syms) fg l1)) as ->.
  { unfold go_bind, fg. destruct (t_qnx tg); rewrite !update_run by done; by rewrite !upd_upd. }
  set (l2 := upd (GOTPLT syms) fg l1).
  assert (sym_of l2 (PLT syms) = fp (sym_of l (PLT syms))) as EP.
  { unfold l2, l1. by rewrite upd_sym_of, decide_False, upd_sym_of, decide_True. }
  assert (sym_of l2 (GOTPLT syms) = fg (sym_of l (GOTPLT syms))) as EG.
  { unfold l2, l1. by rewrite upd_sym_of, decide_True, upd_sym_of, decide_False. }
  assert (forall x, x <> PLT syms -> x <> GOTPLT syms -> sym_of l2 x = sym_of l x) as EO.
  { intros x H1 H2. unfold l2, l1. by rewrite !upd_sym_of, !decide_False. }
  split_and!; [|intros x Hx; unfold tables in Hx; rewrite !not_elem_of_cons in Hx; destruct_and!; by apply EO|done|done].
  split; rewrite ?EP, ?EG, ?EO by done; cbn [length map].
  - assert (payload (fp (sym_of l (PLT syms))) plt_header [mkReloc R_PCREL 16 4 (GOTPLT syms) 4]) as (A & B & C).
    { pose proof (payload_word _ _ _ 0xe5bef008 (payload_word _ _ _ 0xe08fe00e (payload_word _ _ _ 0xe59fe004
        (payload_word _ _ _ 0xe52de004 (blank_payload _ HP))))) as H4.
      pose proof (payload_ref _ _ _ (GOTPLT syms) 4 R_PCREL H4 ltac:(cbn; lia)) as H5.
      match type of H5 with payload _ ?d _ => replace plt_header with d by (vm_compute; reflexivity) end. exact H5. }
    split_and!; [by rewrite A|by rewrite B|by rewrite C].
  - assert (payload (fg (sym_of l (GOTPLT syms))) (replicate 12 0) (if t_qnx tg then [mkReloc R_ADDR 0 4 (Dynamic syms) 0] else [])) as (A & B & C).
    { unfold fg. refine (payload_word _ (replicate 4 0 ++ le_bytes 4 0) _ 0 _). apply payload_word.
      pose proof (blank_payload _ HG) as H0.
      destruct (t_qnx tg); [exact (payload_ref _ _ _ _ _ _ H0 ltac:(cbn; lia))|exact (payload_word _ _ _ _ H0)]. }
    split_and!; [by rewrite A|by rewrite B|by rewrite C, app_nil_r].
  - destruct HR as (? & ? & ?). by split_and!.
  - apply list.NoDup_nil. done.
  - done.
  - intros x Hx. exfalso. assert (SymPlt l2 x = SymPlt l x) as E by done. specialize (Hno x). lia.
Qed.

(** ** adddynrel *)

(** A new GOT entry. *)
Lemma SetGot_off s v l : good_sym l s = true -> SymGot l s < 0 ->
  go_wp (SetGot s v) (fun _ l' => off_tables syms l l' /\ l_nelfsym l' = l_nelfsym l) l.
Proof.
  intros Hg Hs. unfold go_wp, SetGot. rewrite Hg. split; [|done]. split; try done.
  intros x Hx. assert (x <> s) as Hne by (intros ->; lia). unfold SymGot. cbn [l_got set_got]. unfold set_entry.
  case_match; by rewrite ?lookup_delete_ne, ?lookup_insert_ne.
Qed.

Lemma off_passed l1 l2 l imps imps' : passed plain 1 imps l imps' l1 -> off_tables syms l1 l2 -> l_nelfsym l2 = l_nelfsym l1 ->
  passed plain 1 imps l imps' l2.
Proof.
  intros [A1 A2 A3 A4 A5 A6] B1 B2. split; try done.
  - by eapply plt_inv_off.
  - by rewrite B2.
  - by rewrite (ot_next _ _ _ B1).
  - intros x Hx. rewrite (ot_syms _ _ _ B1); [by apply A6|apply Hx].
Qed.

Lemma Adddynsym_passed s l imps : plt_inv l imps -> good_sym l s = true -> room 1 l imps ->
  go_wp (Adddynsym tg syms s) (fun _ l' => passed plain 1 imps l imps l' /\ l_got l' = l_got l) l.
Proof.
  intros Hi Hg (H1 & H2 & _). eapply go_wp_mono; [apply Adddynsym_moves; [done|lia]|].
  intros _ l' (A & B & C & D). split; [by apply passed_off|done].
Qed.

(** SetGot, then writes that are quiet. *)
Lemma SetGot_then s v (k : L unit) l1 l imps imps' : passed plain 1 imps l imps' l1 -> good_sym l s = true -> SymGot l1 s < 0 ->
  (forall l', moves (quiet syms) k l') -> go_wp (SetGot s v ;! k) (fun _ l' => passed plain 1 imps l imps' l') l1.
Proof.
  intros Hp Hg Hs Hk. apply go_wp_bind. eapply go_wp_mono; [apply SetGot_off; [|done]|].
  { unfold good_sym in *. by rewrite (pa_next _ _ _ _ _ _ Hp). }
  intros _ l2 [H1 H2]. eapply go_wp_mono; [apply Hk|]. intros _ l3 (H3 & H4 & _).
  by eapply off_passed; [eapply off_passed| |].
Qed.

Lemma in_others : GOT syms ∈ others syms /\ Rel syms ∈ others syms.
Proof. unfold others. rewrite !elem_of_cons. auto. Qed.

Lemma AddGotSym_spec s typ l imps : plt_inv l imps -> good_sym l s = true -> room 1 l imps ->
  go_wp (AddGotSym tg syms s typ) (fun _ l' => passed plain 1 imps l imps l') l.
Proof.
  intros Hi Hg Hr. unfold AddGotSym. apply go_wp_bind. unfold go_wp at 1, go_read at 1.
  destruct (Z.leb_spec 0 (SymGot l s)) as [H0|H0]; [apply passed_off; [done|done|lia]|].
  apply go_wp_bind. eapply go_wp_mono; [by apply Adddynsym_passed|]. intros _ l1 [H1 E1].
  apply go_wp_bind. unfold go_wp at 1, go_read at 1. apply SetGot_then; [done|done|unfold SymGot; by rewrite E1|].
  intros l2. destruct in_others. moving; try done; by apply other_nonzero.
Qed.

Lemma addgotsyminternal_spec s l imps : plt_inv l imps -> good_sym l s = true -> 
  go_wp (addgotsyminternal tg syms s) (fun _ l' => passed plain 1 imps l imps l') l.
Proof.
  intros Hi Hg. unfold addgotsyminternal. apply go_wp_bind. unfold go_wp at 1, go_read at 1.
  assert (passed plain 1 imps l imps l) as Hp by (apply passed_off; [done|done|lia]).
  destruct (Z.leb_spec 0 (SymGot l s)) as [H0|H0]; [done|].
  apply go_wp_bind. unfold go_wp at 1, go_read at 1. apply SetGot_then; [done..|].
  intros l2. destruct in_others. moving; try done; by apply other_nonzero.
Qed.

(** Like [passed]; relocation [i] of [s] has become [r]. *)
Definition changed (k : Z) (s : Z) (i : nat) (r : reloc) (imps : list Z) (l : lst) (imps' : list Z) (l' : lst) : Prop :=
  passed (fun x => plain x /\ x <> s) k imps l imps' l' /\
  sym_of l' s = set_relocs (<[i := r]> (Relocs l s)) (sym_of l s) /\ (i < length (Relocs l s))%nat.

Lemma changed_refl s i r imps l : plt_inv l imps -> Relocs l s !! i = Some r -> changed 0 s i r imps l imps l.
Proof.
  intros Hp Hi. split_and!; [split; try done; lia| |by eapply lookup_lt_Some].
  rewrite list_insert_id by done. unfold Relocs. by destruct (sym_of l s).
Qed.

Lemma changed_passed k k' s i r imps l imps1 l1 imps2 l2 : plain s -> changed k s i r imps l imps1 l1 ->
  passed plain k' imps1 l1 imps2 l2 -> changed (k + k') s i r imps l imps2 l2.
Proof.
  intros Hs (H1 & H2 & H3) Hp. split_and!; [|by rewrite (pa_syms _ _ _ _ _ _ Hp)|done].
  eapply passed_trans; [done|]. destruct Hp as [A1 A2 A3 A4 A5 A6]. split; try done. intros x [Hx _]. by apply A6.
Qed.

Lemma changed_room k k' s i r imps l imps1 l1 : changed k s i r imps l imps1 l1 -> room (k + k') l imps -> room k' l1 imps1.
Proof. intros ([A1 A2 A3 A4 A5 A6] & _) (H1 & H2 & H3). split_and!; lia. Qed.

Lemma changed_good k s i r imps l imps1 l1 x : changed k s i r imps l imps1 l1 -> good_sym l x = true -> good_sym l1 x = true.
Proof. intros (H & _). unfold good_sym. by rewrite (pa_next _ _ _ _ _ _ H). Qed.

Lemma set_reloc_changed k s i r f imps l imps' l1 : plain s -> changed k s i r imps l imps' l1 ->
  go_wp (set_reloc s i f) (fun _ l2 => changed k s i (f r) imps l imps' l2) l1.
Proof.
  intros Hs (Hp & Es & Hi). pose proof Hs as (Hs0 & Hst & Hso).
  assert (Relocs l1 s = <[i := r]> (Relocs l s)) as Er by (unfold Relocs at 1; by rewrite Es).
  unfold go_wp, set_reloc. rewrite Er, list_lookup_insert_eq, update_run by done.
  set (l2 := upd _ _ _). assert (forall x, x <> s -> sym_of l2 x = sym_of l1 x) as Ho
    by (intros x Hx; unfold l2; by rewrite upd_sym_of, decide_False).
  split_and!; [|unfold l2; rewrite upd_sym_of, decide_True, Es by done; cbn; by rewrite list_insert_insert_eq|done].
  destruct Hp as [[A1 A2 A3 A4 A5 A6] B2 B3 B4 B5 B6]. split; try done; [|intros x [Hx1 Hx2]; rewrite Ho; [by apply B6|done]].
  assert (forall x, x ∈ tables syms -> sym_of l2 x = sym_of l1 x) as Ht by (intros x Hx; apply Ho; congruence).
  split; try done; rewrite Ht; try done; unfold tables; rewrite !elem_of_cons; auto.
Qed.

(** An instruction that branches to entry [k] of the PLT instead. *)
Definition via_stub (k : nat) (r : reloc) : reloc :=
  mkReloc R_CALLARM (r_off r) (r_siz r) (PLT syms) (braddoff (i32 (r_add r)) (5 + 3 * Z.of_nat k)).

(** Its address. *)
Definition addr_of_stub (k : nat) (r : reloc) : reloc :=
  mkReloc R_ADDR (r_off r) (r_siz r) (PLT syms) (r_add r + (20 + 12 * Z.of_nat k)).

Lemma via_stub_quot k : goquot (20 + 12 * Z.of_nat k) 4 = 5 + 3 * Z.of_nat k.
Proof. rewrite goquot_nonneg by lia. replace (20 + 12 * Z.of_nat k) with ((5 + 3 * Z.of_nat k) * 4) by lia. apply Z.div_mul. lia. Qed.

Section step.
Context (s : Z) (i : nat) (r : reloc) (l : lst) (imps : list Z).
Context (Hinv : plt_inv l imps) (Hroom : room 1 l imps) (Hs : plain s).
Context (Hi : Relocs l s !! i = Some r) (Hg : good_sym l (r_sym r) = true).

(** Entries made for [t] so far: [k]; relocation [i] is [r1]. *)
Lemma addpltsym_changed t r1 imps1 l1 : changed 0 s i r1 imps l imps1 l1 -> good_sym l t = true ->
  go_wp (addpltsym tg syms t) (fun _ l2 => exists imps2 k, imps2 !! k = Some t /\
    SymPlt l2 t = 20 + 12 * Z.of_nat k /\ changed 1 s i r1 imps l imps2 l2) l1.
Proof.
  intros Hc Ht. pose proof Hc as ([A1 _ _ _ _ _] & _).
  eapply go_wp_mono; [apply addpltsym_spec; [done|by eapply changed_good|by eapply (changed_room 0)]|].
  intros _ l2 (imps2 & Hin & Hp). apply list_elem_of_lookup in Hin as [k Hk].
  exists imps2, k. split_and!; [done|by apply (pi_entry _ _ (pa_inv _ _ _ _ _ _ Hp))|by eapply (changed_passed 0 1)].
Qed.

Lemma call_plt_spec r1 imps1 l1 : changed 0 s i r1 imps l imps1 l1 -> r_type r1 = R_CALLARM ->
  go_wp (call_plt tg syms s i (r_sym r) (r_add r1)) (fun _ l2 => exists imps2 k, imps2 !! k = Some (r_sym r) /\
    changed 1 s i (via_stub k r1) imps l imps2 l2) l1.
Proof.
  intros Hc Ht. apply go_wp_bind. eapply go_wp_mono; [by eapply addpltsym_changed|].
  intros _ l2 (imps2 & k & Hk & Hp & H2). apply go_wp_bind. unfold go_wp at 1, go_read at 1.
  rewrite Hp, via_stub_quot. apply go_wp_bind. eapply go_wp_mono; [by apply set_reloc_changed|].
  intros [] l3 H3. eapply go_wp_mono; [by apply set_reloc_changed|]. intros [] l4 H4.
  exists imps2, k. split; [done|]. unfold via_stub. rewrite <- Ht. exact H4.
Qed.

Lemma got_changed (c : L unit) r1 l1 : changed 0 s i r1 imps l imps l1 ->
  go_wp c (fun _ l2 => passed plain 1 imps l1 imps l2) l1 -> go_wp c (fun _ l2 => changed 1 s i r1 imps l imps l2) l1.
Proof. intros Hc H. eapply go_wp_mono; [exact H|]. intros [] l2 Hp. by eapply (changed_passed 0 1). Qed.

Lemma changed_0_1 r1 l1 : changed 0 s i r1 imps l imps l1 -> changed 1 s i r1 imps l imps l1.
Proof. intros ([A1 A2 A3 A4 A5 A6] & B & C). split_and!; [|done|done]. split; try done; lia. Qed.

Lemma add_got_spec : go_wp (add_got tg syms (r_sym r) (SymType l (r_sym r)))
  (fun _ l2 => changed 1 s i r imps l imps l2) l.
Proof.
  pose proof (changed_refl s i r imps l Hinv Hi) as Hc. unfold add_got. apply go_wp_bind.
  apply (go_wp_mono _ (fun _ l2 => changed 1 s i r imps l imps l2)); [|by intros [] l2 H]. apply (got_changed _ r l Hc).
  case_match; [by apply addgotsyminternal_spec|by apply AddGotSym_spec].
Qed.

(** The branches that a PLT entry can take. *)
Definition plt_type (t : Z) : bool :=
  (t =? R_CALLARM) || ((t =? ElfRelocOffset + R_ARM_PLT32) || (t =? ElfRelocOffset + R_ARM_CALL) ||
                       (t =? ElfRelocOffset + R_ARM_PC24) || (t =? ElfRelocOffset + R_ARM_JUMP24)).

(** Relocation [i] has been dealt with: a call of an imported function goes to its
    stub, and code that takes its address gets that of the stub. *)
Definition dealt (b : bool) (l2 : lst) : Prop :=
  exists r2 imps2, changed 1 s i r2 imps l imps2 l2 /\
    (SymType l (r_sym r) = SDYNIMPORT ->
     (plt_type (r_type r) = true -> b = true /\ exists k, imps2 !! k = Some (r_sym r) /\ r2 = via_stub k r) /\
     (r_type r = R_ADDR -> IsText (SymType l s) = true ->
      b = true /\ exists k, imps2 !! k = Some (r_sym r) /\ r2 = addr_of_stub k r)).

Lemma dealt_other b r2 l2 : changed 1 s i r2 imps l imps l2 ->
  SymType l (r_sym r) <> SDYNIMPORT \/
  (plt_type (r_type r) = false /\ (r_type r <> R_ADDR \/ IsText (SymType l s) = false)) -> dealt b l2.
Proof. intros H Hn. exists r2, imps. split; [done|]. intros Hd. destruct Hn as [|[-> [|E]]]; [done|done|by rewrite E]. Qed.

Lemma dealt_call k imps2 l2 : plt_type (r_type r) = true -> imps2 !! k = Some (r_sym r) ->
  changed 1 s i (via_stub k r) imps l imps2 l2 -> dealt true l2.
Proof.
  intros Hp Hk H2. exists (via_stub k r), imps2. split; [done|]. intros _. split; [intros _; split; [done|by exists k]|].
  intros E. by rewrite E in Hp.
Qed.

(** One or more changes of the relocation, then the answer. *)
Ltac rewritten :=
  repeat (apply go_wp_bind; eapply go_wp_mono; [apply set_reloc_changed; [exact Hs|eassumption]|intros [] ? ?; cbv beta in *]).

Lemma Errorf_changed k x fmt r1 imps1 l1 : changed k s i r1 imps l imps1 l1 ->
  go_wp (Errorf x fmt) (fun _ l2 => changed k s i r1 imps l imps1 l2) l1.
Proof. intros ([[] A2 A3 A4 A5 A6] & B & C). split_and!; [split|..]; done. Qed.

Ltac not_call E := eapply dealt_other; [eassumption || by apply changed_0_1|right; rewrite E; split; [done|by left]].

Lemma adddynrel_elf_spec : r_type r <> ElfRelocOffset + R_ARM_THM_PC22 ->
  go_wp (adddynrel_elf tg syms s r i (r_sym r) (SymType l (r_sym r)))
    (fun o l2 => match o with Some b => dealt b l2 | None => l2 = l /\ r_type r < ElfRelocOffset end) l.
Proof.
  intros Hthm. pose proof (changed_refl s i r imps l Hinv Hi) as Hc0. unfold adddynrel_elf.
  destruct (_ || _) eqn:E1.
  - apply go_wp_bind. eapply go_wp_mono; [by apply set_reloc_changed|intros [] l1 Hc1].
    apply go_wp_bind. destruct (Z.eqb_spec (SymType l (r_sym r)) SDYNIMPORT) as [Ed|Ed].
    + eapply go_wp_mono; [by eapply (call_plt_spec (set_rtype R_CALLARM r))|].
      intros [] l2 (imps2 & k & Hk & H2). eapply dealt_call; [|exact Hk|exact H2]. unfold plt_type. by rewrite E1, orb_true_r.
    + eapply (dealt_other _ (set_rtype R_CALLARM r)); [by apply changed_0_1|by left].
  - destruct (Z.eqb_spec (r_type r) (ElfRelocOffset + R_ARM_THM_PC22)); [done|].
    destruct (Z.eqb_spec (r_type r) (ElfRelocOffset + R_ARM_GOT32)) as [E2|_];
      [|destruct (Z.eqb_spec (r_type r) (ElfRelocOffset + R_ARM_GOT_PREL)) as [E2|_]].
    1,2: apply go_wp_bind; eapply go_wp_mono; [apply add_got_spec|intros g l1 Hc1; cbv beta in Hc1]; rewritten; not_call E2.
    repeat match goal with |- context [if r_type r =? ?t then _ else _] => destruct (Z.eqb_spec (r_type r) t) as [E2|_] end.
    1-3: rewritten; not_call E2.
    + apply go_wp_bind. apply (go_wp_mono _ (fun _ l1 => changed 0 s i r imps l imps l1)).
      { case_match; [by apply Errorf_changed|done]. }
      intros [] l1 Hc1. rewritten. not_call E2.
    + destruct (Z.leb_spec ElfRelocOffset (r_type r)) as [H|H]; [|done].
      apply go_wp_bind. eapply go_wp_mono; [by apply Errorf_changed|]. intros [] l1 Hc1.
      eapply dealt_other; [by apply changed_0_1|right]. unfold plt_type. rewrite E1, orb_false_r.
      split; [apply Z.eqb_neq|left]; intros E; rewrite E in H; done.
Qed.

(** Code that takes the address of an imported function, and data that points to one. *)
Lemma adddynrel_addr_spec : r_type r = R_ADDR -> SymType l (r_sym r) = SDYNIMPORT ->
  go_wp (adddynrel_addr tg syms s r i (r_sym r) (SymType l (r_sym r))) dealt l.
Proof.
  intros Et Ed. pose proof (changed_refl s i r imps l Hinv Hi) as Hc0. unfold adddynrel_addr.
  apply go_wp_bind. unfold go_wp at 1, go_read at 1. unfold IsElf. rewrite Helf, Ed, Z.eqb_refl, !andb_true_r.
  destruct (IsText (SymType l s)) eqn:Ex.
  - apply go_wp_bind. eapply go_wp_mono; [by eapply addpltsym_changed|].
    intros [] l1 (imps2 & k & Hk & Hp & H1). apply go_wp_bind. unfold go_wp at 1, go_read at 1. rewrite Hp.
    rewritten. exists (addr_of_stub k r), imps2. split; [unfold addr_of_stub; rewrite <- Et; eassumption|].
    intros _. split; [by rewrite Et|]. intros _ _. split; [done|by exists k].
  - assert (forall b r2 l2, changed 1 s i r2 imps l imps l2 -> dealt b l2) as Hd.
    { intros b r2 l2 H. eapply dealt_other; [done|right]. rewrite Et. split; [done|by right]. }
    destruct (negb (IsDATA _)); [by apply (Hd _ r), changed_0_1|].
    apply go_wp_bind. eapply go_wp_mono; [by apply Adddynsym_passed|]. intros [] l1 [H1 _].
    pose proof (changed_passed 0 1 s i r imps l imps l imps l1 Hs Hc0 H1) as Hc1.
    destruct in_others as [_ Hrel]. pose proof (other_nonzero _ Hrel) as Hrel0.
    assert (forall f la, changed 1 s i r imps l imps la ->
      go_wp (update (Rel syms) f) (fun _ lb => changed 1 s i r imps l imps lb) la) as Hu.
    { intros f la Ha. unfold go_wp. rewrite update_run by done.
      pose proof (quiet_upd syms (Rel syms) f la Hrel) as (Q1 & Q2 & _). pose proof Ha as (Ha' & _).
      eapply (changed_passed 1 0); [done|exact Ha|]. split; [by eapply plt_inv_off; [|apply Ha']|done|lia|rewrite Q2; lia|apply Q1|].
      intros x (_ & _ & Hx). by apply Q1. }
    apply go_wp_bind. eapply go_wp_mono; [by apply Hu|]. intros [] l2 Hc2.
    apply go_wp_bind. unfold go_wp at 1, go_read at 1.
    apply go_wp_bind. eapply go_wp_mono; [by apply Hu|]. intros [] l3 Hc3. cbv beta in *.
    rewritten. by eapply Hd.
Qed.

(** adddynrel answers, keeps the tables, and sends calls of imported functions to
    their stubs. *)
Lemma adddynrel_spec : r_type r <> ElfRelocOffset + R_ARM_THM_PC22 ->
  go_wp (adddynrel tg syms s r i) dealt l.
Proof.
  intros Hthm. pose proof (changed_refl s i r imps l Hinv Hi) as Hc0. unfold adddynrel.
  assert (r_sym r <> 0) as Hr0. { intros E. unfold good_sym in Hg. rewrite E, orb_true_r in Hg. done. }
  apply go_wp_bind. unfold go_wp at 1, go_read at 1. rewrite (proj2 (Z.eqb_neq _ 0) Hr0). cbn [negb].
  apply go_wp_bind. eapply go_wp_mono; [by apply adddynrel_elf_spec|]. intros [b|] l1; [done|]. intros [-> Hlt].
  destruct (Z.eqb_spec (SymType l (r_sym r)) SDYNIMPORT) as [Ed|Ed]; cbn [negb].
  2:{ eapply (dealt_other _ r); [by apply changed_0_1|by left]. }
  apply go_wp_bind. unfold go_wp at 1, go_read at 1. rewrite Hi. change (default r (Some r)) with r.
  unfold IsExternal. rewrite Hint, bool_decide_false by done.
  destruct (Z.eqb_spec (r_type r) R_CALLARM) as [Et|Et]; [|destruct (Z.eqb_spec (r_type r) R_ADDR) as [Et2|Et2]].
  - apply go_wp_bind. eapply go_wp_mono; [by eapply call_plt_spec|]. intros [] l2 (imps2 & k & Hk & H2).
    eapply dealt_call; [|exact Hk|exact H2]. unfold plt_type. by rewrite Et.
  - by apply adddynrel_addr_spec.
  - assert (plt_type (r_type r) = false) as Hno.
    { unfold plt_type. rewrite (proj2 (Z.eqb_neq _ _) Et). unfold ElfRelocOffset, R_ARM_PLT32, R_ARM_CALL, R_ARM_PC24, R_ARM_JUMP24 in *.
      rewrite !(proj2 (Z.eqb_neq _ _)) by lia. done. }
    assert (forall b r2 l2, changed 1 s i r2 imps l imps l2 -> dealt b l2) as Hd.
    { intros b r2 l2 H. eapply dealt_other; [done|right]. split; [done|by left]. }
    destruct (r_type r =? R_GOTPCREL); [|by apply (Hd _ r), changed_0_1].
    apply go_wp_bind, go_wp_bind. apply go_wp_ret.
    eapply go_wp_mono; [apply (got_changed _ r l Hc0), AddGotSym_spec; done|]. intros [] l1 Hc1. cbv beta in Hc1.
    apply go_wp_bind. unfold go_wp at 1, go_read at 1. rewritten. by eapply Hd.
Qed.
End step.

(** ** All the dynamic relocations *)
Section dynreloc.
Context (weak : Z -> nat -> bool).

(** The relocations adddynrel is asked about. *)
Definition askable (l : lst) (r : reloc) : Prop :=
  r_type r <> ElfRelocOffset + R_ARM_THM_PC22 /\
  (good_sym l (r_sym r) = true \/ r_sym r = 0 /\ r_type r < ElfRelocOffset).

(** A relocation of [s] for an imported function, that the linker does not skip. *)
Definition imported (l : lst) (s : Z) (i : nat) (r : reloc) : Prop :=
  Relocs l s !! i = Some r /\ r_siz r <> 0 /\ (weak s i = true -> AttrReachable l (r_sym r) = true) /\
  plain (r_sym r) /\ SymType l (r_sym r) = SDYNIMPORT.

(** In [l'] it designates the stub of the function. *)
Definition settled (l : lst) (s : Z) (i : nat) (imps' : list Z) (l' : lst) : Prop :=
  forall r, imported l s i r ->
    (plt_type (r_type r) = true -> exists k, imps' !! k = Some (r_sym r) /\ Relocs l' s !! i = Some (via_stub k r)) /\
    (r_type r = R_ADDR -> IsText (SymType l s) = true ->
     exists k, imps' !! k = Some (r_sym r) /\ Relocs l' s !! i = Some (addr_of_stub k r)).

Lemma settled_mono l s i imps1 l1 imps2 l2 : settled l s i imps1 l1 -> imps1 `prefix_of` imps2 ->
  Relocs l2 s !! i = Relocs l1 s !! i -> settled l s i imps2 l2.
Proof.
  intros H Hp Er r Hr. destruct (H r Hr) as [H1 H2]. rewrite Er.
  split; [intros Ht; destruct (H1 Ht) as (k & Hk & E)|intros Ht Hx; destruct (H2 Ht Hx) as (k & Hk & E)];
    exists k; (split; [by eapply prefix_lookup_Some|done]).
Qed.

Lemma adddynrel_null s i r l : r_sym r = 0 -> r_type r < ElfRelocOffset -> adddynrel tg syms s r i l = Ret true l.
Proof.
  intros E Hlt. unfold adddynrel, go_bind, go_read. rewrite E. cbn [negb Z.eqb].
  assert (forall t, 0 <= t -> (r_type r =? ElfRelocOffset + t) = false) as Hne by (intros t Ht; apply Z.eqb_neq; lia).
  unfold adddynrel_elf. rewrite !Hne by (by vm_compute). cbn [orb]. by rewrite (proj2 (Z.leb_gt _ _) Hlt).
Qed.

(** Errors reported on the way make no difference. *)
Lemma dealt_errors s i r l imps e b l2 : dealt s i r (set_errors e l) imps b l2 -> dealt s i r l imps b l2.
Proof.
  intros (r2 & imps2 & ([A1 A2 A3 A4 A5 A6] & B & C) & D). exists r2, imps2. split; [|done].
  split_and!; [|done|done]. by split.
Qed.

Lemma plt_inv_errors l e imps : plt_inv l imps -> plt_inv (set_errors e l) imps.
Proof. intros []. by split. Qed.

Lemma dynrelocsym_one_spec s i l imps : plt_inv l imps -> room 1 l imps -> plain s ->
  (i < length (Relocs l s))%nat -> (forall r, Relocs l s !! i = Some r -> askable l r) ->
  go_wp (dynrelocsym_one weak tg syms s i) (fun _ l2 => exists r2 imps2,
    changed 1 s i r2 imps l imps2 l2 /\ settled l s i imps2 l2) l.
Proof.
  intros Hinv Hroom Hs Hlen Hok. apply lookup_lt_is_Some_2 in Hlen as [r Hi]. destruct (Hok r Hi) as [Hthm Hg].
  pose proof (changed_refl s i r imps l Hinv Hi) as Hc0.
  assert (forall l2 r2 imps2, changed 1 s i r2 imps l imps2 l2 -> (forall r', imported l s i r' -> False) ->
    exists r2 imps2, changed 1 s i r2 imps l imps2 l2 /\ settled l s i imps2 l2) as Hnot.
  { intros l2 r2 imps2 H Hn. exists r2, imps2. split; [done|]. intros r' Hr'. by destruct (Hn r' Hr'). }
  assert (forall r', imported l s i r' -> r' = r) as Hr' by (intros r' (E & _); congruence).
  assert (forall b l2, dealt s i r l imps b l2 -> exists r2 imps2, changed 1 s i r2 imps l imps2 l2 /\ settled l s i imps2 l2) as Hdealt.
  { intros b l2 (r2 & imps2 & Hc & H). exists r2, imps2. split; [done|]. intros r' Hi'. rewrite (Hr' r' Hi').
    destruct (Hr' r' Hi'). destruct Hi' as (_ & _ & _ & _ & Hd). destruct (H Hd) as [H1 H2]. destruct Hc as (_ & Es & Hlen).
    assert (Relocs l2 s !! i = Some r2) as Er by (unfold Relocs; rewrite Es; cbn; by apply list_lookup_insert_eq).
    split; [intros Ht; destruct (H1 Ht) as (_ & k & Hk & ->)|intros Ht Hx; destruct (H2 Ht Hx) as (_ & k & Hk & ->)]; by exists k. }
  assert (forall l2, changed 0 s i r imps l imps l2 -> r_sym r = 0 -> exists r2 imps2, changed 1 s i r2 imps l imps2 l2 /\ settled l s i imps2 l2) as Hnull.
  { intros l2 Hc E. eapply Hnot; [by apply changed_0_1|]. intros r' H'. rewrite (Hr' _ H') in H'.
    destruct H' as (_ & _ & _ & (H0 & _) & _). done. }
  unfold dynrelocsym_one. apply go_wp_bind. unfold go_wp at 1, go_get. rewrite Hi.
  destruct (Z.eqb_spec (r_siz r) 0) as [Ez|Ez].
  { eapply Hnot; [by apply changed_0_1|]. intros r' H'. rewrite (Hr' _ H') in H'. by destruct H' as (_ & ? & _). }
  destruct (weak s i && _) eqn:Ew.
  { apply andb_true_iff in Ew as [Ew Er]. eapply Hnot; [by apply changed_0_1|]. intros r' H'. rewrite (Hr' _ H') in H'.
    destruct H' as (_ & _ & H' & _). by rewrite (H' Ew) in Er. }
  destruct (IsPIE tg && IsInternal tg).
  - apply go_wp_bind. destruct Hg as [Hg|[E Hlt]].
    + eapply go_wp_mono; [by apply adddynrel_spec|]. intros b l2 H. by apply (Hdealt b).
    + unfold go_wp at 1. rewrite adddynrel_null by done. by apply (Hnull l).
  - destruct (_ || _) eqn:Ec.
    2:{ eapply Hnot; [by apply changed_0_1|]. intros r' H'. rewrite (Hr' _ H') in H'.
        destruct H' as (_ & _ & _ & (H0 & _) & Hd). apply orb_false_iff in Ec as [Ec _].
        by rewrite Hd, (proj2 (Z.eqb_neq _ 0) H0) in Ec. }
    assert (r_sym r = 0 /\ r_type r < ElfRelocOffset -> False) as Hn0.
    { intros [E Hlt]. by rewrite E, (proj2 (Z.leb_gt _ _) Hlt) in Ec. }
    destruct Hg as [Hg|Hg]; [|by destruct (Hn0 Hg)].
    apply go_wp_bind, (go_wp_mono _ (fun _ l1 => exists e, l1 = set_errors e l)).
    { case_match; [by eexists|]. exists (l_errors l). by destruct l. }
    intros [] l1 [e ->]. apply go_wp_bind. eapply go_wp_mono.
    + apply adddynrel_spec; [apply plt_inv_errors, Hinv|exact Hroom|exact Hs|exact Hi|exact Hg|exact Hthm].
    + intros b l2 H%dealt_errors%Hdealt. destruct b; [done|]. destruct H as (r2 & imps2 & Hc & H). exists r2, imps2.
      split; [|exact H]. by apply (Errorf_changed s i l imps _ _ _ _ _ _ Hc).
Qed.

(** The kind and the reachability of a symbol. *)
Definition same_kinds (l l1 : lst) : Prop := forall x, plain x ->
  sy_kind (sym_of l1 x) = sy_kind (sym_of l x) /\ sy_reachable (sym_of l1 x) = sy_reachable (sym_of l x).

Lemma passed_kinds k s rs imps l imps1 l1 : passed (fun x => plain x /\ x <> s) k imps l imps1 l1 ->
  sym_of l1 s = set_relocs rs (sym_of l s) -> same_kinds l l1.
Proof.
  intros Hp Es x Hx. destruct (decide (x = s)) as [->|]; [by rewrite Es|]. by rewrite (pa_syms _ _ _ _ _ _ Hp).
Qed.

Lemma settled_from l l1 s i imps l2 : same_kinds l l1 -> plain s -> Relocs l1 s !! i = Relocs l s !! i ->
  settled l1 s i imps l2 -> settled l s i imps l2.
Proof.
  intros Hk Hs Er H r (R1 & R2 & R3 & R4 & R5). destruct (Hk _ R4) as [K1 K2]. destruct (Hk _ Hs) as [K3 _].
  assert (IsText (SymType l1 s) = IsText (SymType l s)) as <- by (unfold SymType; by rewrite K3).
  apply H. split_and!; [by rewrite Er|done|by unfold AttrReachable; rewrite K2|done|by unfold SymType; rewrite K1].
Qed.

(** [k] turns from index [i]. *)
Lemma dynrelocsym_loop_spec s k : forall i l imps, plt_inv l imps -> room (Z.of_nat k) l imps -> plain s ->
  (i + k <= length (Relocs l s))%nat ->
  (forall j r, (i <= j)%nat -> Relocs l s !! j = Some r -> askable l r) ->
  go_wp (dynrelocsym_loop weak tg syms s k i) (fun _ l' => exists imps',
    passed (fun x => plain x /\ x <> s) (Z.of_nat k) imps l imps' l' /\
    (exists rs, sym_of l' s = set_relocs rs (sym_of l s) /\ length rs = length (Relocs l s) /\
       forall j, (j < i \/ i + k <= j)%nat -> rs !! j = Relocs l s !! j) /\
    forall j, (i <= j < i + k)%nat -> settled l s j imps' l') l.
Proof.
  induction k as [|k IH]; intros i l imps Hinv Hroom Hs Hlen Hok; cbn [dynrelocsym_loop].
  - exists imps. split_and!; [split; try done; lia| |lia]. exists (Relocs l s). split_and!; [|done|done].
    unfold Relocs. by destruct (sym_of l s).
  - apply go_wp_bind. eapply go_wp_mono.
    { apply dynrelocsym_one_spec; [done|destruct Hroom as (?&?&?); split_and!; lia|done|lia|]. intros r. by apply Hok. }
    intros [] l1 (r1 & imps1 & Hc & Hset). cbv beta in *. pose proof Hc as (Hp & Es & _).
    assert (Relocs l1 s = <[i := r1]> (Relocs l s)) as Er by (unfold Relocs at 1; by rewrite Es).
    eapply go_wp_mono; [apply IH|].
    + apply Hp.
    + apply (changed_room 1 (Z.of_nat k) _ _ _ _ _ _ _ Hc). by replace (1 + Z.of_nat k) with (Z.of_nat (S k)) by lia.
    + done.
    + rewrite Er, length_insert. lia.
    + intros j r Hj. rewrite Er, list_lookup_insert_ne by lia. intros Hjr. destruct (Hok j r ltac:(lia) Hjr) as [H1 H2].
      split; [done|]. destruct H2 as [H2|H2]; [left; by eapply changed_good|by right].
    + intros [] l2 (imps2 & Hp2 & (rs & Es2 & Hlrs & Hrs) & Hset2). exists imps2. split_and!.
      * replace (Z.of_nat (S k)) with (1 + Z.of_nat k) by lia. by eapply passed_trans.
      * exists rs. rewrite Er, length_insert in Hlrs. split_and!; [by rewrite Es2, Es|done|].
        intros j Hj. rewrite Hrs, Er, list_lookup_insert_ne by lia. done.
      * intros j Hj. destruct (decide (j = i)) as [->|Hne].
        -- apply (settled_mono l s i imps1 l1); [done|apply Hp2|]. unfold Relocs at 1. rewrite Es2. cbn. apply Hrs. lia.
        -- eapply settled_from; [by eapply passed_kinds|done|by rewrite Er, list_lookup_insert_ne by lia|].
           apply (Hset2 j). lia.
Qed.

(** How many relocations [ss] have. *)
Definition reloc_count (l : lst) (ss : list Z) : nat := sum_list_with (fun s => length (Relocs l s)) ss.

Definition same_but (ss : list Z) (x : Z) : Prop := plain x /\ x ∉ ss.

(** C23: from tables that are right, the pass over the dynamic relocations of any list of
    symbols ends, with tables that are right for the imports met so far, and with every
    call of an imported function and every use of its address in code designating the
    function's own PLT entry. *)
Theorem dynrelocsyms_plt ss : forall l imps, plt_inv l imps -> room (Z.of_nat (reloc_count l ss)) l imps ->
  NoDup ss -> Forall plain ss ->
  (forall s i r, s ∈ ss -> Relocs l s !! i = Some r -> askable l r) ->
  go_wp (dynrelocsyms weak tg syms ss) (fun _ l' => exists imps',
    passed (same_but ss) (Z.of_nat (reloc_count l ss)) imps l imps' l' /\
    forall s i, s ∈ ss -> settled l s i imps' l') l.
Proof.
  induction ss as [|s ss IH]; intros l imps Hinv Hroom Hnd Hpl Hok; cbn [dynrelocsyms].
  - exists imps. split; [split; try done; cbn; lia|]. intros s i Hs. by apply not_elem_of_nil in Hs.
  - apply list.NoDup_cons in Hnd as [Hns Hnd]. apply list.Forall_cons in Hpl as [Hs Hpl].
    assert (reloc_count l (s :: ss) = length (Relocs l s) + reloc_count l ss)%nat as Ec by done.
    rewrite Ec, Nat2Z.inj_add in *.
    apply go_wp_bind. unfold dynrelocsym. eapply go_wp_mono.
    { apply go_wp_bind. unfold go_wp at 1, go_read at 1.
      apply (dynrelocsym_loop_spec s (length (Relocs l s)) 0 l imps); try done.
      - destruct Hroom as (?&?&?). split_and!; lia.
      - intros j r _. apply (Hok s). by left. }
    intros [] l1 (imps1 & Hp & (rs & Es & Hlrs & _) & Hset).
    assert (forall x, x ∈ ss -> sym_of l1 x = sym_of l x) as Hsame.
    { intros x Hx. apply Hp. split; [by apply (proj1 (list.Forall_forall _ _) Hpl)|]. intros ->. done. }
    assert (reloc_count l1 ss = reloc_count l ss) as Ec1.
    { clear -Hsame. induction ss as [|x ss IH]; [done|]. unfold reloc_count in *. cbn. unfold Relocs at 1 3.
      rewrite (Hsame x) by by left. rewrite IH; [done|]. intros y Hy. apply Hsame. by right. }
    rewrite <- Ec1. eapply go_wp_mono; [apply IH|].
    + apply Hp.
    + rewrite Ec1. destruct Hroom as (?&?&?), Hp as [_ _ P1 P2 _ _]. split_and!; lia.
    + done.
    + done.
    + intros x i r Hx Hi. unfold Relocs in Hi. rewrite Hsame in Hi by done. destruct (Hok x i r ltac:(by right) Hi) as [A B].
      split; [done|]. unfold good_sym. rewrite (pa_next _ _ _ _ _ _ Hp). done.
    + intros [] l2 (imps2 & Hp2 & Hset2). exists imps2. split.
      * eapply passed_trans.
        -- destruct Hp as [A1 A2 A3 A4 A5 A6]. split; try done. intros x [Hx1 Hx2]. apply A6. split; [done|].
           intros ->. apply Hx2. by left.
        -- destruct Hp2 as [A1 A2 A3 A4 A5 A6]. split; try done. intros x [Hx1 Hx2]. apply A6. split; [done|].
           intros Hx. apply Hx2. by right.
      * intros x i Hx. apply elem_of_cons in Hx as [->|Hx].
        -- destruct (Nat.lt_ge_cases i (length (Relocs l s))) as [Hi|Hi].
           ++ apply (settled_mono l s i imps1 l1); [apply Hset; lia|apply Hp2|]. unfold Relocs.
              by rewrite (pa_syms _ _ _ _ _ _ Hp2).
           ++ intros r (R1 & _). by rewrite (proj2 (lookup_ge_None _ _) Hi) in R1.
        -- eapply settled_from; [by eapply passed_kinds| | |by apply Hset2].
           ++ by apply (proj1 (list.Forall_forall _ _) Hpl).
           ++ unfold Relocs. by rewrite Hsame.
Qed.
End dynreloc.
End plt.
