(* ===== verification/LinkArmStub.v ===== *)
(** * LinkArmStub: running the procedure linkage table

    What the entries of the PLT, as relocsym leaves them in the image, do on an ARM
    ([ArmIsa]): a call of an imported function reaches what its slot of .got.plt holds,
    and the first time the dynamic linker's resolver with the slot in ip. *)
From Stdlib Require Import ZArith Lia List Bool String.
From stdpp Require Import base list gmap strings numbers tactics option.
From S2P Require Import Prelude ArmIsa Loader LinkArm LinkArmCall LinkArmTramp LinkArmPlt.

(** ** Immediates *)
Lemma land_low12 x : Z.land 0xfff x = x mod 2 ^ 12.
Proof. rewrite Z.land_comm. apply (land_ones_mod x 12). lia. Qed.

Lemma land_low8 x : Z.land 0xff x = x mod 2 ^ 8.
Proof. rewrite Z.land_comm. apply (land_ones_mod x 8). lia. Qed.

Lemma expand_table : all_below 8 0 (fun n => (expand_imm 6 n =? n * 2 ^ 20) && (expand_imm 10 n =? n * 2 ^ 12)) = true.
Proof. vm_compute. reflexivity. Qed.

Lemma expand_imm_6_10 n : 0 <= n < 256 -> expand_imm 6 n = n * 2 ^ 20 /\ expand_imm 10 n = n * 2 ^ 12.
Proof.
  intros Hn. pose proof (all_below_spec 8 0 _ expand_table n) as H. cbv beta in H.
  change (0 + 2 ^ Z.of_nat 8) with 256 in H. specialize (H Hn). apply andb_true_iff in H as [H1 H2]. split; by apply Z.eqb_eq.
Qed.

(** The three pieces of a distance below 2^28. *)
Lemma split_distance d : 0 <= d < 2 ^ 28 ->
  let a := Z.land 0xff (Z.shiftr (u32 d) 20) in let b := Z.land 0xff (Z.shiftr (u32 d) 12) in
  let c := Z.land 0xfff (u32 d) in
  (0 <= a < 256 /\ 0 <= b < 256 /\ 0 <= c < 4096) /\ expand_imm 6 a + expand_imm 10 b + c = d.
Proof.
  intros Hd a b c. assert (a = d / 2 ^ 20 /\ b = (d / 2 ^ 12) mod 2 ^ 8 /\ c = d mod 2 ^ 12) as (-> & -> & ->).
  { unfold a, b, c. rewrite (wrapu_small 32 d) by (unfold in_u; lia).
    rewrite !land_low8, land_low12, !Z.shiftr_div_pow2 by lia. split; [|done]. apply Z.mod_small. zify_mod. }
  assert (0 <= d / 2 ^ 20 < 256) as Ha by zify_mod.
  assert (0 <= (d / 2 ^ 12) mod 2 ^ 8 < 256) as Hb by zify_mod.
  split; [split_and!; try lia; zify_mod|].
  destruct (expand_imm_6_10 _ Ha) as [-> _], (expand_imm_6_10 _ Hb) as [_ ->]. zify_mod.
Qed.

(** ** Straight-line steps *)
Lemma pc_next_set r v m : r <> PC -> 0 <= pc m -> pc m + 4 < 2 ^ 32 -> pc (next (set_reg r v m)) = pc m + 4.
Proof.
  intros Hr H0 H1. unfold next, pc, set_reg. cbn [reg]. rewrite put_eq, put_ne by congruence.
  apply wrapu_small. unfold in_u. unfold pc in *. lia.
Qed.

Lemma reg_next_set r v m : r <> PC -> reg (next (set_reg r v m)) r = v.
Proof. intros Hr. unfold next, set_reg. cbn [reg]. by rewrite put_ne, put_eq. Qed.

Lemma only_next_set rs r v m : PC ∈ rs -> r ∈ rs -> only rs m (next (set_reg r v m)).
Proof. intros H1 H2. eapply only_trans; [by apply only_set|]. by apply only_set. Qed.

Lemma only_refl rs m : only rs m m.
Proof. done. Qed.

Lemma only_weaken rs rs' m m' : only rs m m' -> (forall r, r ∈ rs -> r ∈ rs') -> only rs' m m'.
Proof. intros [E H] Hs. split; [done|]. intros r Hr. apply H. auto. Qed.

Lemma operand_pc m : 0 <= pc m -> pc m + 8 < 2 ^ 32 -> operand m PC = pc m + 8.
Proof. intros H0 H1. unfold operand. cbn [Z.eqb PC Pos.eqb]. apply wrapu_small. unfold in_u. lia. Qed.

(** ** Words of a larger image *)
Lemma word_of_app a b off : 0 <= off -> off + 4 <= Z.of_nat (length a) -> word_of (a ++ b) off = word_of a off.
Proof.
  intros H0 H1. unfold word_of. f_equal. rewrite drop_app_le by lia. rewrite take_app_le; [done|]. rewrite length_drop. lia.
Qed.

(** ** A PLT entry *)
Lemma stub_lookup {A} (f : nat -> list A) j k : (forall i, length (f i) = 3%nat) -> (j < 3)%nat -> forall a n, (k < n)%nat ->
  flat_map f (seq a n) !! (3 * k + j)%nat = f (a + k)%nat !! j.
Proof.
  intros Hf Hj. induction k as [|k IH]; intros a n Hn; (destruct n as [|n]; [lia|]); cbn [seq flat_map].
  - rewrite lookup_app_l by (rewrite Hf; lia). by rewrite Nat.add_0_r.
  - rewrite lookup_app_r by (rewrite Hf; lia). rewrite Hf.
    replace (3 * S k + j - 3)%nat with (3 * k + j)%nat by lia. rewrite IH by lia. do 2 f_equal. lia.
Qed.

(** What archreloc answers for the words of an entry. *)
Section values.
Context (tg : target) (syms : ArchSyms) (l : lst) (s : Z) (r : reloc) (P : list Z).
Context (Hint : t_link tg = LinkInternal).
Let d := SymValue l (r_sym r) - (SymValue l (PLT syms) + r_off r) + r_add r.

Lemma reloc_value_plt0 : r_type r = R_PLT0 ->
  reloc_value tg syms l s r P = Some (0xe28fc600 + Z.land 0xff (Z.shiftr (u32 d) 20),
    if SymValue l (GOTPLT syms) <? SymValue l (PLT syms) then [(s, ".got.plt should be placed after .plt section."%string)] else []).
Proof. intros Ht. unfold reloc_value, archreloc, IsExternal. rewrite Hint, Ht. reflexivity. Qed.

Lemma reloc_value_plt1 : r_type r = R_PLT1 ->
  reloc_value tg syms l s r P = Some (0xe28cca00 + Z.land 0xff (Z.shiftr (u32 (d + 4)) 12), []).
Proof. intros Ht. unfold reloc_value, archreloc, IsExternal. rewrite Hint, Ht. reflexivity. Qed.

Lemma reloc_value_plt2 : r_type r = R_PLT2 ->
  reloc_value tg syms l s r P = Some (0xe5bcf000 + Z.land 0xfff (u32 (d + 8)), []).
Proof. intros Ht. unfold reloc_value, archreloc, IsExternal. rewrite Hint, Ht. reflexivity. Qed.
End values.

Section stub.
Context `{!ArmCpu} (tg : target) (syms : ArchSyms) (lf : lst) (n : nat).
Context (Hint : t_link tg = LinkInternal).
Context (Hd : Data lf (PLT syms) = plt_header ++ replicate (12 * n) 0).
Context (Hr : Relocs lf (PLT syms) = mkReloc R_PCREL 16 4 (GOTPLT syms) 4 :: flat_map (stub syms) (seq 0 n)).
Context (Hg0 : GOTPLT syms <> 0) (Hdef : unresolved lf (GOTPLT syms) = false).

(** Address of entry [k] and of its slot. *)
Definition entry_at (k : nat) : Z := SymValue lf (PLT syms) + (20 + 12 * Z.of_nat k).
Definition slot_at (k : nat) : Z := SymValue lf (GOTPLT syms) + (12 + 4 * Z.of_nat k).

(** .got.plt comes after .plt, and the slots are within reach of a stub. *)
Context (Hafter : SymValue lf (PLT syms) + Z.of_nat (length (Data lf (PLT syms))) <= SymValue lf (GOTPLT syms)).
Context (Hnear : SymValue lf (GOTPLT syms) - SymValue lf (PLT syms) < 2 ^ 28).
Context (Hgot : SymValue lf (GOTPLT syms) mod 4 = 0 /\ SymValue lf (GOTPLT syms) + (12 + 4 * Z.of_nat n) <= 2 ^ 32).

Lemma plt_length : Z.of_nat (length (Data lf (PLT syms))) = 20 + 12 * Z.of_nat n.
Proof. rewrite Hd, length_app, length_replicate. unfold plt_header. rewrite length_put_words. cbn [length]. lia. Qed.

(** Word [j] of entry [k]. *)
Lemma stub_reloc k j r : (k < n)%nat -> (j < 3)%nat -> stub syms k !! j = Some r ->
  Relocs lf (PLT syms) !! (S (3 * k + j)) = Some r.
Proof. intros Hk Hj Hs. rewrite Hr. exact (eq_trans (stub_lookup (stub syms) j k (fun _ => eq_refl) Hj 0 n Hk) Hs). Qed.

Lemma stub_word m k j r o er : linked tg syms lf m (PLT syms) -> (k < n)%nat -> (j < 3)%nat -> stub syms k !! j = Some r ->
  (forall P, reloc_value tg syms lf (PLT syms) r P = Some (o, er)) ->
  mem m (entry_at k + 4 * Z.of_nat j) = u32 o.
Proof.
  intros (Hlaid & Hm & P & HP) Hk Hj Hs Hv.
  assert (r_off r = 20 + 12 * Z.of_nat k + 4 * Z.of_nat j /\ r_siz r = 4 /\ r_type r < ElfRelocOffset /\ r_sym r = GOTPLT syms) as (E1 & E2 & E3 & E4).
  { destruct j as [|[|[|j]]]; [..|lia]; injection Hs as <-; cbn [r_off r_siz r_type r_sym]; (split_and!; [lia|done|done|done]). }
  replace (entry_at k + 4 * Z.of_nat j) with (SymValue lf (PLT syms) + r_off r) by (unfold entry_at; lia).
  apply (fetch_reloc tg syms lf (PLT syms) Hlaid m P [] (S (3 * k + j)) r o er Hm HP); [by apply stub_reloc| |done].
  pose proof plt_length. split; [unfold simple_reloc; by rewrite E4|]. split; [rewrite E1; zify_mod|lia].
Qed.

(** The instructions of entry [k], [d] being the distance of the slot. *)
Lemma stub_code m k : linked tg syms lf m (PLT syms) -> (k < n)%nat ->
  let d := slot_at k - (entry_at k + 8) in
  0 <= d < 2 ^ 28 /\
  mem m (entry_at k) = encode (ADD_imm IP PC 6 (Z.land 0xff (Z.shiftr (u32 d) 20))) /\
  mem m (entry_at k + 4) = encode (ADD_imm IP IP 10 (Z.land 0xff (Z.shiftr (u32 d) 12))) /\
  mem m (entry_at k + 8) = encode (LDR true PC IP (Z.land 0xfff (u32 d))).
Proof.
  intros Hl Hk d. pose proof plt_length as Hlen.
  assert (0 <= d < 2 ^ 28) as Hdist by (unfold d, slot_at, entry_at; lia).
  destruct (split_distance d Hdist) as [(Ha & Hb & Hc) _]. cbv zeta in Ha, Hb, Hc.
  assert (forall j, (j < 3)%nat -> is_Some (stub syms k !! j)) as Hj by (intros j Hj; by apply lookup_lt_is_Some_2).
  split; [done|]. split_and!.
  - replace (entry_at k) with (entry_at k + 4 * Z.of_nat 0) by lia.
    erewrite (stub_word m k 0); [|done|done|lia|done|intros P; by rewrite reloc_value_plt0].
    cbn [r_sym r_off r_add]. replace (_ + (12 + 4 * Z.of_nat k - 8)) with d by (unfold d, slot_at, entry_at; lia).
    rewrite wrapu_small by (unfold in_u; lia). unfold encode, PC, IP. cbn [Z.b2z]. lia.
  - change 4 with (4 * Z.of_nat 1) at 1.
    erewrite (stub_word m k 1); [|done|done|lia|done|intros P; by rewrite reloc_value_plt1].
    cbn [r_sym r_off r_add]. replace (_ + (12 + 4 * Z.of_nat k - 8) + 4) with d by (unfold d, slot_at, entry_at; lia).
    rewrite wrapu_small by (unfold in_u; lia). unfold encode, PC, IP. cbn [Z.b2z]. lia.
  - change 8 with (4 * Z.of_nat 2) at 1.
    erewrite (stub_word m k 2); [|done|done|lia|done|intros P; by rewrite reloc_value_plt2].
    cbn [r_sym r_off r_add]. replace (_ + (12 + 4 * Z.of_nat k - 8) + 8) with d by (unfold d, slot_at, entry_at; lia).
    rewrite wrapu_small by (unfold in_u; lia). unfold encode, PC, IP. cbn [Z.b2z]. lia.
Qed.

(** Three instructions take an entry to what its slot holds, with ip on the slot. *)
Lemma stub_run m k c : linked tg syms lf m (PLT syms) -> (k < n)%nat -> pc m = entry_at k ->
  mem m (slot_at k) mod 4 = 0 ->
  exists m', cpu_run (3 + c) m = cpu_run c m' /\ pc m' = mem m (slot_at k) /\ reg m' IP = slot_at k /\ only [PC; IP] m m'.
Proof.
  intros Hl Hk Hpc Hal. pose proof plt_length as Hlen. pose proof Hl as ((L1 & L2 & L3 & L4 & _) & _).
  destruct (stub_code m k Hl Hk) as (Hdist & W0 & W1 & W2). set (d := slot_at k - (entry_at k + 8)) in *.
  destruct (split_distance d Hdist) as [(Ha & Hb & Hc) Hsum]. cbv zeta in Ha, Hb, Hc, Hsum.
  set (a := Z.land 0xff (Z.shiftr (u32 d) 20)) in *. set (b := Z.land 0xff (Z.shiftr (u32 d) 12)) in *.
  set (z := Z.land 0xfff (u32 d)) in *.
  set (m1 := next (set_reg IP (u32 (operand m PC + expand_imm 6 a)) m)).
  set (m2 := next (set_reg IP (u32 (operand m1 IP + expand_imm 10 b)) m1)).
  assert (0 <= pc m /\ pc m + 12 <= 2 ^ 32) as [P0 P1] by (rewrite Hpc; unfold entry_at; lia).
  assert (pc m1 = pc m + 4) as Q1 by (apply pc_next_set; done || lia).
  assert (pc m2 = pc m1 + 4) as Q2 by (apply pc_next_set; done || lia).
  assert (0 <= expand_imm 6 a < 2 ^ 28 /\ 0 <= expand_imm 10 b < 2 ^ 20) as [X1 X2].
  { destruct (expand_imm_6_10 a Ha) as [-> _], (expand_imm_6_10 b Hb) as [_ ->]. lia. }
  assert (slot_at k < 2 ^ 32 /\ slot_at k = pc m + 8 + d) as [Hs1 Hs2] by (unfold d, slot_at in *; lia).
  assert (reg m1 IP = pc m + 8 + expand_imm 6 a) as R1.
  { unfold m1. rewrite reg_next_set, operand_pc by (done || lia). apply wrapu_small. unfold in_u. lia. }
  assert (reg m2 IP = pc m + 8 + expand_imm 6 a + expand_imm 10 b) as R2.
  { unfold m2. rewrite reg_next_set by done. change (operand m1 IP) with (reg m1 IP). rewrite R1. apply wrapu_small. unfold in_u. lia. }
  assert (u32 (operand m2 IP + z) = slot_at k) as R3.
  { change (operand m2 IP) with (reg m2 IP). rewrite R2, Hs2, wrapu_small by (unfold in_u; lia). lia. }
  exists (set_reg PC (mem m (slot_at k)) (set_reg IP (slot_at k) m2)). split_and!.
  - change (3 + c)%nat with (S (S (S c))).
    rewrite (cpu_run_step (ADD_imm IP PC 6 a) _ m m1) by (first [done | by rewrite Hpc | split_and!; done || lia]).
    rewrite (cpu_run_step (ADD_imm IP IP 10 b) _ m1 m2) by (first [done | by rewrite Q1, Hpc | split_and!; done || lia]).
    apply (cpu_run_step (LDR true PC IP z)); [split_and!; done || lia| |].
    + rewrite Q2, Q1, Hpc. replace (entry_at k + 4 + 4) with (entry_at k + 8) by lia. exact W2.
    + cbn [exec]. rewrite R3. unfold result, jump. cbn [Z.eqb PC Pos.eqb]. change (mem m2) with (mem m).
      by rewrite (proj2 (Z.eqb_eq _ _) Hal).
  - unfold pc, set_reg. cbn [reg]. by rewrite put_eq.
  - unfold set_reg. cbn [reg]. by rewrite put_ne, put_eq.
  - do 2 (eapply only_trans; [|apply only_set; by repeat constructor]).
    eapply only_trans; apply only_next_set; by repeat constructor.
Qed.

(** ** The header *)
Lemma header_relocs j : (j < 4)%nat -> Forall (fun r => apart (4 * Z.of_nat j) (r_off r)) (Relocs lf (PLT syms)).
Proof.
  intros Hj. rewrite Hr. constructor; [unfold apart; cbn [r_off]; lia|]. apply list.Forall_forall.
  intros r Hin%list_elem_of_In%in_flat_map. destruct Hin as (k & _ & Hin). unfold apart, stub in *.
  cbn in Hin. destruct Hin as [<-|[<-|[<-|[]]]]; cbn [r_off]; lia.
Qed.

(** Its four instructions, and the distance they load. *)
Lemma header_code m : linked tg syms lf m (PLT syms) ->
  mem m (SymValue lf (PLT syms)) = encode (STR_dec LR SP 4) /\
  mem m (SymValue lf (PLT syms) + 4) = encode (LDR false LR PC 4) /\
  mem m (SymValue lf (PLT syms) + 8) = encode (ADD_reg LR PC LR) /\
  mem m (SymValue lf (PLT syms) + 12) = encode (LDR true PC LR 8) /\
  mem m (SymValue lf (PLT syms) + 16) = SymValue lf (GOTPLT syms) - (SymValue lf (PLT syms) + 16).
Proof.
  intros (Hlaid & Hm & P & HP). pose proof plt_length as Hlen. pose proof Hlaid as (L1 & L2 & L3 & _).
  assert (forall j : nat, (j < 4)%nat -> mem m (SymValue lf (PLT syms) + 4 * Z.of_nat j) = word_of plt_header (4 * Z.of_nat j)) as Hw.
  { intros j Hj. rewrite <- (addr_small lf (PLT syms) Hlaid) by lia.
    rewrite (holds_plain tg syms lf (PLT syms) Hlaid m P []) by (try done; try lia; try (by apply header_relocs); zify_mod).
    rewrite Hd. apply word_of_app; [lia|]. unfold plt_header. rewrite length_put_words. cbn [length]. lia. }
  split_and!.
  - pose proof (Hw 0%nat ltac:(lia)) as E. change (4 * Z.of_nat 0) with 0 in E. rewrite Z.add_0_r in E. rewrite E. by vm_compute.
  - etransitivity; [exact (Hw 1%nat ltac:(lia))|by vm_compute].
  - etransitivity; [exact (Hw 2%nat ltac:(lia))|by vm_compute].
  - etransitivity; [exact (Hw 3%nat ltac:(lia))|by vm_compute].
  - set (r := mkReloc R_PCREL 16 4 (GOTPLT syms) 4). change 16 with (r_off r) at 1.
    rewrite (fetch_reloc tg syms lf (PLT syms) Hlaid m P [] 0 r (SymValue lf (GOTPLT syms) - (SymValue lf (PLT syms) + 16)) [] Hm HP).
    + apply wrapu_small. unfold in_u. lia.
    + by rewrite Hr.
    + split; [done|]. split; [done|]. cbn [r r_off]. lia.
    + intros P0. unfold reloc_value, r. cbn -[Z.sub Z.add]. rewrite (proj2 (Z.eqb_neq _ 0) Hg0). cbn [negb].
      do 2 f_equal. lia.
Qed.

(** Where the old lr goes. *)
Definition pushed (m : machine) : Z := u32 (reg m SP - 4).
Definition stack_apart (m : machine) : Prop :=
  (pushed m < SymValue lf (PLT syms) \/ SymValue lf (PLT syms) + 20 <= pushed m) /\
  pushed m <> SymValue lf (GOTPLT syms) + 8.

(** Four instructions push lr and go to what GOT[2] holds, with lr on that word. *)
Lemma header_run m : linked tg syms lf m (PLT syms) -> pc m = SymValue lf (PLT syms) -> stack_apart m ->
  mem m (SymValue lf (GOTPLT syms) + 8) mod 4 = 0 ->
  exists m', cpu_run 4 m = Some m' /\ pc m' = mem m (SymValue lf (GOTPLT syms) + 8) /\
    reg m' LR = SymValue lf (GOTPLT syms) + 8 /\ reg m' SP = pushed m /\
    mem m' = put (pushed m) (reg m LR) (mem m) /\ (forall r, r ∉ [PC; LR; SP] -> reg m' r = reg m r).
Proof.
  intros Hl Hpc [Hsp Hsp2] Hal. pose proof plt_length as Hlen. pose proof Hl as ((L1 & L2 & L3 & L4 & _) & _).
  destruct (header_code m Hl) as (W0 & W1 & W2 & W3 & W4).
  set (plt := SymValue lf (PLT syms)) in *. set (got := SymValue lf (GOTPLT syms)) in *.
  set (m1 := next (set_reg SP (pushed m) (set_mem (pushed m) (reg m LR) m))).
  assert (forall a, a <> pushed m -> mem m1 a = mem m a) as Em by (intros a Ha; unfold m1; cbn; by rewrite put_ne).
  assert (pc m1 = plt + 4) as Q1.
  { unfold m1. rewrite pc_next_set by (first [done | change (pc (set_mem (pushed m) (reg m LR) m)) with (pc m); lia]).
    change (pc (set_mem (pushed m) (reg m LR) m)) with (pc m). lia. }
  set (m2 := next (set_reg LR (got - (plt + 16)) m1)).
  assert (pc m2 = plt + 8) as Q2 by (unfold m2; rewrite pc_next_set by (done || lia); lia).
  set (m3 := next (set_reg LR got m2)).
  assert (pc m3 = plt + 12) as Q3 by (unfold m3; rewrite pc_next_set by (done || lia); lia).
  assert (u32 (operand m3 LR + 8) = got + 8) as R3.
  { change (operand m3 LR) with (reg m3 LR). unfold m3. rewrite reg_next_set by done. apply wrapu_small. unfold in_u. lia. }
  exists (set_reg PC (mem m (got + 8)) (set_reg LR (got + 8) m3)). split_and!.
  - rewrite (cpu_run_step (STR_dec LR SP 4) 3 m m1) by (first [done | by rewrite Hpc | split_and!; done]).
    rewrite (cpu_run_step (LDR false LR PC 4) 2 m1 m2); [|by split_and!|rewrite Q1, Em by lia; exact W1|].
    2:{ cbn [exec]. rewrite operand_pc by lia. rewrite Q1, (wrapu_small 32) by (unfold in_u; lia).
        unfold result. cbn [Z.eqb LR PC Pos.eqb]. replace (plt + 4 + 8 + 4) with (plt + 16) by lia.
        by rewrite Em, W4 by lia. }
    rewrite (cpu_run_step (ADD_reg LR PC LR) 1 m2 m3); [|by split_and!|change (mem m2) with (mem m1); rewrite Q2, Em by lia; exact W2|].
    2:{ cbn [exec]. rewrite operand_pc by lia. change (operand m2 LR) with (reg m2 LR). unfold m2 at 2. rewrite reg_next_set by done.
        rewrite Q2, (wrapu_small 32) by (unfold in_u; lia). unfold result. cbn [Z.eqb LR PC Pos.eqb].
        replace (plt + 8 + 8 + (got - (plt + 16))) with got by lia. done. }
    rewrite (cpu_run_step (LDR true PC LR 8) 0 m3 (set_reg PC (mem m (got + 8)) (set_reg LR (got + 8) m3))); [done|by split_and!| |].
    + change (mem m3) with (mem m1). rewrite Q3, Em by lia. exact W3.
    + cbn [exec]. rewrite R3. unfold result, jump. cbn [Z.eqb PC Pos.eqb]. change (mem m3) with (mem m1).
      rewrite Em by congruence. by rewrite (proj2 (Z.eqb_eq _ _) Hal).
  - unfold pc, set_reg. cbn [reg]. by rewrite put_eq.
  - unfold set_reg. cbn [reg]. by rewrite put_ne, put_eq.
  - unfold m3, m2, m1, next, set_reg. cbn [reg mem]. rewrite !put_ne by done. by rewrite put_eq.
  - done.
  - intros r Hx. rewrite !not_elem_of_cons in Hx. destruct Hx as (H1 & H2 & H3 & _).
    unfold m3, m2, m1, next, set_reg, set_mem. cbn [reg mem]. by rewrite !put_ne.
Qed.
End stub.

(** ** The call *)
Lemma via_stub_branch syms k r (link : bool) : u32 (r_add r) / 2 ^ 24 = (if link then 0xeb else 0xea) ->
  is_branch link (via_stub syms k r).
Proof.
  intros H. split; [done|]. unfold via_stub. cbn [r_add]. rewrite braddoff_u32, (wrapu_wraps 32) by lia.
  pose proof (Z.mod_pos_bound (i32 (r_add r) + (5 + 3 * Z.of_nat k)) (2 ^ 24) ltac:(lia)).
  rewrite Z.add_comm, (Z.mul_comm (2 ^ 24)), Z.div_add, (Z.div_small (_ mod _)) by lia. lia.
Qed.

Lemma sext24_braddoff a b : sext24 (braddoff a b) = sext24 (a + b).
Proof.
  apply (wraps_eqm 24). destruct (wrapu_spec 32 ltac:(lia) (braddoff a b)) as [j Ej]. rewrite braddoff_u32 in Ej.
  pose proof (Z.div_mod (a + b) (2 ^ 24) ltac:(lia)).
  exists (u32 a / 2 ^ 24 - (a + b) / 2 ^ 24 - j * 2 ^ 8). lia.
Qed.


(** A branch to itself, the way the assembler leaves calls: the addend is -2 words. *)
Definition plain_call (link : bool) (r : reloc) : Prop :=
  u32 (r_add r) / 2 ^ 24 = (if link then 0xeb else 0xea) /\ signext24 (Z.land (r_add r) 0xffffff) = -2.

Lemma via_stub_target syms lf k r link : plain_call link r -> Z.of_nat k < 2 ^ 20 ->
  0 < SymValue lf (PLT syms) -> entry_at syms lf k < 2 ^ 32 ->
  call_target lf (via_stub syms k r) = entry_at syms lf k.
Proof.
  intros [_ H2] Hk H0 Hlt. unfold call_target, via_stub. cbn [r_sym r_add].
  rewrite signext24_sext, land_low24, sext24_mod in *.
  rewrite sext24_braddoff. destruct (wraps_spec 24 ltac:(lia) (r_add r)) as [j1 E1]. fold (sext24 (r_add r)) in E1.
  destruct (wraps_spec 32 ltac:(lia) (r_add r)) as [j2 E2].
  assert (sext24 (i32 (r_add r) + (5 + 3 * Z.of_nat k)) = 3 + 3 * Z.of_nat k) as ->.
  { rewrite <- (sext24_small (3 + 3 * Z.of_nat k)) by lia. apply (wraps_eqm 24). exists (j2 * 2 ^ 8 - j1). lia. }
  unfold entry_at in *. rewrite wrapu_small; unfold in_u; lia.
Qed.

(** ** The other two tables in the image *)

(** The word at [off] in the [k]th of pieces of eight bytes. *)
Lemma word_of_pieces {A} (f : A -> list Z) ids k id off : (forall a, length (f a) = 8%nat) -> ids !! k = Some id ->
  0 <= off -> off + 4 <= 8 -> word_of (flat_map f ids) (8 * Z.of_nat k + off) = word_of (f id) off.
Proof.
  intros Hf. revert k. induction ids as [|a ids IH]; intros k Hk H0 H1; [done|]. cbn [flat_map]. destruct k as [|k].
  - injection Hk as ->. replace (8 * Z.of_nat 0 + off) with off by lia. apply word_of_app; [done|]. rewrite Hf. lia.
  - rewrite <- (IH k) by done. unfold word_of. f_equal. f_equal.
    rewrite drop_app_ge by (rewrite Hf; lia). f_equal. rewrite Hf. lia.
Qed.

Section image.
Context (tg : target) (syms : ArchSyms) (l' lf : lst) (imps : list Z).
Context (Hinv : plt_inv tg syms l' imps) (Hlay : layout l' lf).

Lemma gotplt_reloc k : (k < length imps)%nat ->
  exists i, Relocs lf (GOTPLT syms) !! i = Some (mkReloc R_ADDR (12 + 4 * Z.of_nat k) 4 (PLT syms) 0).
Proof.
  intros Hk. destruct (pi_gotplt _ _ _ _ Hinv) as (_ & _ & Er). rewrite (proj1 (proj2 (proj2 (Hlay _)))).
  unfold Relocs. rewrite Er. set (first := if t_qnx tg then _ else _). exists (length first + k)%nat.
  rewrite lookup_app_r by lia. replace (length first + k - length first)%nat with k by lia.
  rewrite list_lookup_fmap, lookup_seq_lt by done. done.
Qed.

(** Before the dynamic linker has been asked, a slot leads to the header. *)
Lemma slot_initially m k : (k < length imps)%nat -> unresolved lf (PLT syms) = false -> in_u 32 (SymValue lf (PLT syms)) ->
  linked tg syms lf m (GOTPLT syms) -> mem m (slot_at syms lf k) = SymValue lf (PLT syms).
Proof.
  intros Hk Hu Hp (Hlaid & Hm & P & HP). destruct (gotplt_reloc k Hk) as [i Hi].
  destruct (pi_gotplt _ _ _ _ Hinv) as (_ & Ed & _).
  assert (Data lf (GOTPLT syms) = replicate (12 + 4 * length imps) 0) as Ed'.
  { rewrite (proj1 (proj2 (Hlay _))). exact Ed. }
  set (r := mkReloc R_ADDR _ 4 _ 0) in Hi. unfold slot_at. change (12 + 4 * Z.of_nat k) with (r_off r).
  rewrite (fetch_reloc tg syms lf (GOTPLT syms) Hlaid m P [] i r (SymValue lf (PLT syms) + 0) [] Hm HP Hi).
  - rewrite Z.add_0_r. by apply wrapu_small.
  - split; [done|]. split; [cbn [r r_off]; zify_mod|]. rewrite Ed', length_replicate. cbn [r r_off]. lia.
  - done.
Qed.

(** The dynamic linker finds entry [k] of .rel.plt naming the slot and the symbol. *)
Lemma jump_slot m k f : imps !! k = Some f -> unresolved lf (GOTPLT syms) = false ->
  slot_at syms lf k < 2 ^ 32 -> 0 < SymValue lf (GOTPLT syms) -> linked tg syms lf m (RelPLT syms) ->
  mem m (SymValue lf (RelPLT syms) + 8 * Z.of_nat k) = slot_at syms lf k /\
  mem m (SymValue lf (RelPLT syms) + 8 * Z.of_nat k + 4) = u32 (R_INFO32 (u32 (SymDynid l' f)) R_ARM_JUMP_SLOT).
Proof.
  intros Hk Hu Hs0 Hs (Hlaid & Hm & P & HP). destruct (pi_relplt _ _ _ _ Hinv) as (_ & Ed & Er).
  set (ids := map (SymDynid l') imps) in *. set (piece := fun id => replicate 4 0 ++ _) in Ed.
  assert (ids !! k = Some (SymDynid l' f)) as Hid by (unfold ids; by rewrite list_lookup_fmap, Hk).
  pose proof (lookup_lt_Some _ _ _ Hid) as Hlt.
  assert (forall a, length (piece a) = 8%nat) as Hp by done.
  assert (Data lf (RelPLT syms) = flat_map piece ids) as Ed' by (rewrite (proj1 (proj2 (Hlay _))); exact Ed).
  assert (Z.of_nat (length (flat_map piece ids)) = 8 * Z.of_nat (length ids)) as Hlen.
  { clear -Hp. induction ids as [|a ids IH]; [done|]. cbn [flat_map]. rewrite length_app, Hp. cbn [length]. lia. }
  set (r := mkReloc R_ADDR (8 * Z.of_nat k) 4 (GOTPLT syms) (12 + 4 * Z.of_nat k)).
  assert (Relocs lf (RelPLT syms) = map (fun k => mkReloc R_ADDR (8 * Z.of_nat k) 4 (GOTPLT syms) (12 + 4 * Z.of_nat k)) (seq 0 (length ids))) as Er'
    by (rewrite (proj1 (proj2 (proj2 (Hlay _)))); exact Er).
  assert (Relocs lf (RelPLT syms) !! k = Some r) as Hr by (rewrite Er', list_lookup_fmap, lookup_seq_lt by done; done).
  split.
  - change (8 * Z.of_nat k) with (r_off r).
    rewrite (fetch_reloc tg syms lf (RelPLT syms) Hlaid m P [] k r (slot_at syms lf k) [] Hm HP Hr).
    + apply wrapu_small. unfold in_u, slot_at in *. lia.
    + split; [done|]. rewrite Ed', Hlen. cbn [r r_off]. split; [zify_mod|lia].
    + done.
  - rewrite <- Z.add_assoc, <- (addr_small lf (RelPLT syms) Hlaid) by (rewrite ?Ed', ?Hlen; lia).
    rewrite (holds_plain tg syms lf (RelPLT syms) Hlaid m P []); try done; try (rewrite ?Ed', ?Hlen; lia); try zify_mod.
    + rewrite Ed', (word_of_pieces piece ids k (SymDynid l' f)) by (done || lia). unfold word_of, piece.
      change (Z.to_nat 4) with 4%nat. rewrite drop_app_length' by done. rewrite take_ge by (by rewrite length_le_bytes).
      by rewrite le_value_bytes.
    + rewrite Er'. apply list.Forall_forall. intros r' Hin%list_elem_of_In%in_map_iff.
      destruct Hin as (j & <- & _). unfold apart. cbn [r_off]. lia.
Qed.
End image.

(** ** A call of an imported function *)

(** .plt and .got.plt in the layout: the second after the first and within 256 MB. *)
Record plt_placed (syms : ArchSyms) (lf : lst) (n : nat) : Prop := {
  pp_plt : unresolved lf (PLT syms) = false;
  pp_got : unresolved lf (GOTPLT syms) = false;
  pp_after : SymValue lf (PLT syms) + Z.of_nat (length (Data lf (PLT syms))) <= SymValue lf (GOTPLT syms);
  pp_near : SymValue lf (GOTPLT syms) - SymValue lf (PLT syms) < 2 ^ 28;
  pp_aligned : SymValue lf (GOTPLT syms) mod 4 = 0;
  pp_end : SymValue lf (GOTPLT syms) + (12 + 4 * Z.of_nat n) <= 2 ^ 32;
  pp_count : Z.of_nat n <= 2 ^ 20 }.

(** Eight instructions after the call the resolver runs: ip has the address of the slot,
    lr that of GOT[2], and the return address is on the stack. *)
Definition resolves `{!ArmCpu} (syms : ArchSyms) (lf : lst) (link : bool) (k : nat) (m : machine) : Prop :=
  exists m', cpu_run 8 m = Some m' /\ pc m' = mem m (SymValue lf (GOTPLT syms) + 8) /\
    reg m' IP = slot_at syms lf k /\ reg m' LR = SymValue lf (GOTPLT syms) + 8 /\ reg m' SP = pushed m /\
    mem m' = put (pushed m) (if link then u32 (pc m + 4) else reg m LR) (mem m) /\
    forall r, r ∉ [PC; LR; SP; IP] -> reg m' r = reg m r.

Section call.
Context `{!ArmCpu} (tg : target) (syms : ArchSyms) (l' lf : lst) (imps : list Z).
Context (Hint : t_link tg = LinkInternal) (Hg0 : GOTPLT syms <> 0).
Context (Hinv : plt_inv tg syms l' imps) (Hlay : layout l' lf) (Hplaced : plt_placed syms lf (length imps)).

Lemma final_plt : Data lf (PLT syms) = plt_header ++ replicate (12 * length imps) 0 /\
  Relocs lf (PLT syms) = mkReloc R_PCREL 16 4 (GOTPLT syms) 4 :: flat_map (stub syms) (seq 0 (length imps)).
Proof.
  destruct (pi_plt _ _ _ _ Hinv) as (_ & Ed & Er). destruct (Hlay (PLT syms)) as (_ & E1 & E2 & _).
  split; [rewrite E1; exact Ed|rewrite E2; exact Er].
Qed.

(** The branch itself. *)
Lemma call_to_stub s i k f r link m : imps !! k = Some f ->
  Relocs l' s !! i = Some (via_stub syms k r) -> plain_call link r -> on_word lf s (via_stub syms k r) ->
  linked tg syms lf m s -> linked tg syms lf m (PLT syms) -> pc m = SymValue lf s + r_off r ->
  (forall c, cpu_run (S c) m = cpu_run c (branched link (entry_at syms lf k) m)) /\
  linked tg syms lf (branched link (entry_at syms lf k) m) (PLT syms).
Proof.
  intros Hf Hi Hcall Hw (Hlaid & Hm & P & HP) HlP Hpc. destruct Hplaced as [Pu Gu Pafter Pnear Pal Pend Pcount].
  pose proof (lookup_lt_Some _ _ _ Hf) as Hk. pose proof HlP as (HlaidP & _). destruct final_plt as [Ed Er].
  pose proof (plt_length syms lf (length imps) Ed) as Hlen. pose proof HlaidP as (L1 & L2 & L3 & _).
  pose proof (via_stub_target syms lf k r link Hcall ltac:(lia) L1 ltac:(unfold entry_at; lia)) as Htgt. split.
  - intros c. rewrite <- Htgt. apply (call_site tg syms lf s i _ link P m c); try done; try apply L2.
    + by rewrite (proj1 (proj2 (proj2 (Hlay _)))).
    + apply via_stub_branch, Hcall.
  - destruct HlP as (A & B & C). split_and!; [done| |done]. unfold holds. by destruct link.
Qed.

(** From the entry through the header. *)
Lemma stub_resolves m k : linked tg syms lf m (PLT syms) -> (k < length imps)%nat -> pc m = entry_at syms lf k ->
  mem m (slot_at syms lf k) = SymValue lf (PLT syms) -> stack_apart syms lf m ->
  mem m (SymValue lf (GOTPLT syms) + 8) mod 4 = 0 ->
  exists m', cpu_run 7 m = Some m' /\ pc m' = mem m (SymValue lf (GOTPLT syms) + 8) /\
    reg m' IP = slot_at syms lf k /\ reg m' LR = SymValue lf (GOTPLT syms) + 8 /\ reg m' SP = pushed m /\
    mem m' = put (pushed m) (reg m LR) (mem m) /\ forall r, r ∉ [PC; LR; SP; IP] -> reg m' r = reg m r.
Proof.
  intros Hl Hk Hpc Hslot Hsp Hal. destruct Hplaced as [Pu Gu Pafter Pnear Pal Pend Pcount]. destruct final_plt as [Ed Er].
  pose proof Hl as ((L1 & L2 & L3 & L4 & _) & _).
  destruct (stub_run tg syms lf (length imps) Hint Ed Er Gu Pafter Pnear (conj Pal Pend) m k 4) as (m2 & E2 & P2 & I2 & [M2 O2]);
    [done|done|done|by rewrite Hslot|].
  assert (pushed m2 = pushed m) as Epush by (unfold pushed; by rewrite O2 by (rewrite !not_elem_of_cons; split_and!; done || apply not_elem_of_nil)).
  destruct (header_run tg syms lf (length imps) Ed Er Hg0 Gu Pafter Pnear (conj Pal Pend) m2) as (m3 & E3 & P3 & L3' & S3 & M3 & O3).
  - destruct Hl as (A & B & C). split_and!; [done| |done]. unfold holds. by rewrite M2.
  - by rewrite P2.
  - unfold stack_apart. by rewrite Epush.
  - by rewrite M2.
  - exists m3. rewrite M2 in *. rewrite Epush in *. split_and!; try done.
    + exact (eq_trans E2 E3).
    + by rewrite O3 by (rewrite !not_elem_of_cons; split_and!; done || apply not_elem_of_nil).
    + rewrite M3. by rewrite O2 by (rewrite !not_elem_of_cons; split_and!; done || apply not_elem_of_nil).
    + intros r Hr. rewrite !not_elem_of_cons in Hr. destruct Hr as (R1 & R2 & R3 & R4 & _).
      rewrite O3, O2; rewrite ?not_elem_of_cons; try done; split_and!; try done; apply not_elem_of_nil.
Qed.

(** C22: in an internal link whose layout puts .got.plt behind .plt and within 256 MB of it, a
    call without an addend of its own that the dynamic-relocation pass sent to the stub of
    an imported function, in an image linked without an error, runs to the function
    whose address the dynamic linker put in its slot, with the return address as in a
    direct call; and while the slot is as linked it runs to the resolver with everything
    needed to bind it: ip on the slot, lr on GOT[2], and in .rel.plt the entry of that
    index naming the slot and the function's dynamic symbol.  (The addresses bound are
    those of ARM code, and the stack lies apart from the image.) *)
Theorem imported_call_lands s i k f r link m :
  imps !! k = Some f -> Relocs l' s !! i = Some (via_stub syms k r) -> plain_call link r ->
  on_word lf s (via_stub syms k r) ->
  linked tg syms lf m s -> linked tg syms lf m (PLT syms) -> pc m = SymValue lf s + r_off r ->
  (mem m (slot_at syms lf k) mod 4 = 0 -> lands link (mem m (slot_at syms lf k)) m) /\
  (mem m (slot_at syms lf k) = SymValue lf (PLT syms) -> stack_apart syms lf m ->
   mem m (SymValue lf (GOTPLT syms) + 8) mod 4 = 0 -> resolves syms lf link k m) /\
  (linked tg syms lf m (GOTPLT syms) -> mem m (slot_at syms lf k) = SymValue lf (PLT syms)) /\
  (linked tg syms lf m (RelPLT syms) ->
   mem m (SymValue lf (RelPLT syms) + 8 * Z.of_nat k) = slot_at syms lf k /\
   mem m (SymValue lf (RelPLT syms) + 8 * Z.of_nat k + 4) = u32 (R_INFO32 (u32 (SymDynid l' f)) R_ARM_JUMP_SLOT)).
Proof.
  intros Hf Hi Hcall Hw Hls HlP Hpc. destruct (call_to_stub s i k f r link m Hf Hi Hcall Hw Hls HlP Hpc) as [Hrun HlP1].
  pose proof (lookup_lt_Some _ _ _ Hf) as Hk. destruct final_plt as [Ed Er]. pose proof Hplaced as [Pu Gu Pafter Pnear Pal Pend Pcount].
  destruct (branched_facts link (entry_at syms lf k) m) as (B1 & B2 & B3). set (m1 := branched link _ m) in *.
  pose proof B2 as [Em B4]. pose proof HlP as ((L1 & L2 & L3 & L4 & _) & _).
  pose proof (plt_length syms lf (length imps) Ed) as Hlen. split_and!.
  - intros Hal.
    destruct (stub_run tg syms lf (length imps) Hint Ed Er Gu Pafter Pnear (conj Pal Pend) m1 k 0) as (m2 & E2 & P2 & I2 & O2);
      [done|done|done|by rewrite Em|]. rewrite Em in P2.
    exists 4%nat, m2. split_and!; [lia|lia|by rewrite Hrun|done| |].
    + eapply only_trans; [exact B2|]. eapply only_weaken; [exact O2|]. set_solver.
    + destruct O2 as [_ O2]. by rewrite O2 by (rewrite !not_elem_of_cons; split_and!; done || apply not_elem_of_nil).
  - intros Hslot Hsp Hal.
    assert (pushed m1 = pushed m) as Epush by (unfold pushed, m1; by destruct link).
    destruct (stub_resolves m1 k) as (m3 & E3 & P3 & I3 & L3' & S3 & M3 & O3); try done; try by rewrite Em.
    { unfold stack_apart. by rewrite Epush. }
    exists m3. rewrite Em, Epush, B3 in *. split_and!; try done; [by rewrite Hrun|].
    intros x Hx. rewrite O3 by done. apply B4. rewrite !not_elem_of_cons in *. tauto.
  - intros HlG. apply (slot_initially tg syms l' lf imps Hinv Hlay m k Hk Pu); [unfold in_u; lia|done].
  - intros HlR. apply (jump_slot tg syms l' lf imps Hinv Hlay m k f Hf Gu); [unfold slot_at; lia|lia|done].
Qed.
End call.

(** ** A concrete link: one function that calls one import *)

(** [laid], decided. *)
Definition laidb (l : lst) (s : Z) : bool :=
  let rs := Relocs l s in let len := Z.of_nat (length (Data l s)) in
  (0 <? SymValue l s) && (SymValue l s mod 4 =? 0) && (SymValue l s + len <=? 2 ^ 32) && (len <? 2 ^ 30) &&
  forallb (fun r => (0 <=? r_off r) && (r_off r <? 2 ^ 30) && (0 <=? r_siz r) && (r_siz r <? 256)) rs &&
  forallb (fun i => forallb (fun j => (i =? j)%nat ||
    match rs !! i, rs !! j with
    | Some r, Some r' => (r_off r + 4 <=? r_off r') || (r_off r' + 4 <=? r_off r)
    | _, _ => true end) (seq 0 (length rs))) (seq 0 (length rs)).

Lemma laidb_spec l s : laidb l s = true -> laid l s.
Proof.
  unfold laidb. rewrite !andb_true_iff. intros [[[[[H1 H2] H3] H4] H5] H6]. split_and!; [lia|lia|lia|lia| |].
  - apply list.Forall_forall. intros r Hr%list_elem_of_In. rewrite forallb_forall in H5. specialize (H5 r Hr).
    unfold placed_ok. lia.
  - intros i j r r' Hi Hj Hne. rewrite forallb_forall in H6.
    pose proof (lookup_lt_Some _ _ _ Hi). pose proof (lookup_lt_Some _ _ _ Hj).
    specialize (H6 i ltac:(apply in_seq; lia)). rewrite forallb_forall in H6.
    specialize (H6 j ltac:(apply in_seq; lia)). rewrite Hi, Hj in H6.
    rewrite (proj2 (Nat.eqb_neq i j)) in H6 by congruence. unfold apart. cbn [orb] in H6. lia.
Qed.

Lemma linked_from tg syms l m s P : laidb l s = true -> relocsym tg syms l s = Some (P, []) ->
  forallb (fun k => (Z.of_nat (length P) <? 4 * Z.of_nat k + 4) ||
    (mem m (SymValue l s + 4 * Z.of_nat k) =? word_of P (4 * Z.of_nat k))) (seq 0 (length P)) = true ->
  linked tg syms l m s.
Proof.
  intros Hl%laidb_spec HP Hk. split_and!; [done| |by exists P].
  intros P' e off HP' H0 Ha Hlen. rewrite HP in HP'. injection HP' as <- <-.
  pose proof (relocsym_length tg syms l s Hl _ _ HP) as El.
  rewrite addr_small by (rewrite <- ?El; done). rewrite forallb_forall in Hk.
  specialize (Hk (Z.to_nat (off / 4)) ltac:(apply in_seq; zify_mod)).
  rewrite Z2Nat.id in Hk by zify_mod. replace (4 * (off / 4)) with off in Hk by zify_mod.
  apply orb_true_iff in Hk as [Hk|Hk]; [lia|by apply Z.eqb_eq].
Qed.

Module Demo.
Definition call : reloc := mkReloc R_CALLARM 0 4 2 0xebfffffe.
(** A reference through the GOT to the same function. *)
Definition got_ref : reloc := mkReloc (ElfRelocOffset + R_ARM_GOT_PREL) 0 4 2 0.
Definition empty (kind v : Z) (name : string) : symst := mkSym name 0 kind v 0 [] [] "" 0 None "" false true true.
Definition syms : ArchSyms := mkArchSyms 10 11 12 13 14 15 16 17.
Definition tg : target := mkTarget LinkInternal BuildModeExe true true false 0.
Definition before : lst :=
  mkLst (list_to_map [(1, mkSym "main.f" 0 STEXT 0 4 (le_bytes 4 0xebfffffe) [call] "main" 0 None "" false true true);
                      (2, mkSym "libc_puts" 0 SDYNIMPORT 0 0 [] [] "" 0 (Some "puts"%string) "libc.so.2" false true true);
                      (3, mkSym "main.d" 0 SDATA 0 4 [0; 0; 0; 0] [got_ref] "main" 0 None "" false true true);
                      (10, empty 30 0 ".plt"); (12, empty 31 0 ".got.plt"); (14, empty 32 0 ".rel.plt"); (17, empty 33 0 ".dynamic")])
        ∅ 20 ∅ ∅ ∅ 1 ∅ [] [].
Definition run (c : L unit) (l : lst) : lst := match c l with Ret _ l => l | _ => l end.
Definition setup : lst := run (elfsetupplt tg (PLT syms) (GOTPLT syms) (Dynamic syms)) before.
Definition after : lst := run (dynrelocsyms (fun _ _ => false) tg syms [1]) setup.
Definition final : lst :=
  upd 1 (set_value 0x100000) (upd 10 (set_value 0x110000) (upd 12 (set_value 0x120000)
    (upd 14 (set_value 0x130000) (upd 17 (set_value 0x140000) after)))).
Definition image (s : Z) : list Z := match relocsym tg syms final s with Some (P, _) => P | None => [] end.
(** The program is loaded and about to execute the call, with the stack at 0x8000. *)
Definition mach : machine :=
  mkMach (fun r => if r =? PC then 0x100000 else if r =? SP then 0x8000 else 0)
         (fun a => let at_ v s := word_of (image s) (a - v) in
                   if a <? 0x110000 then at_ 0x100000 1 else if a <? 0x120000 then at_ 0x110000 10
                   else if a <? 0x130000 then at_ 0x120000 12 else at_ 0x130000 14).

Lemma blank_before s : s = 10 \/ s = 12 \/ s = 14 -> blank (sym_of before s).
Proof. by intros [->|[->| ->]]. Qed.

Lemma syms_ok : arch_ok syms.
Proof. unfold arch_ok. by apply (bool_decide_unpack _). Qed.

Lemma setup_inv : plt_inv tg syms setup [].
Proof.
  pose proof (elfsetupplt_inv tg syms syms_ok before (blank_before 10 ltac:(tauto)) (blank_before 12 ltac:(tauto))
    (blank_before 14 ltac:(tauto)) ltac:(done)) as H.
  unfold setup, run. unfold go_wp in H. destruct (elfsetupplt _ _ _ _ _) as [a l| |]; [apply H|done|done].
Qed.

Lemma after_inv : plt_inv tg syms after [2].
Proof.
  split; try (by vm_compute).
  - apply NoDup_singleton.
  - intros [|k] s Hk; [|done]. injection Hk as <-. by vm_compute.
  - intros s Hs. apply list_elem_of_singleton. destruct (decide (s = 2)) as [|Hne]; [done|]. exfalso.
    assert (l_plt after = {[2 := 20]}) as E by (vm_compute; reflexivity).
    unfold SymPlt in Hs. rewrite E, lookup_singleton_ne in Hs by congruence. cbn in Hs. lia.
Qed.

Lemma stub_final_layout : layout after final.
Proof.
  intros x. unfold final, SymType, SymValue, Data, Relocs. rewrite !upd_sym_of.
  repeat (case_decide; [subst; by vm_compute|]). done.
Qed.

Lemma placed : plt_placed syms final 1.
Proof. split; by vm_compute. Qed.

Lemma all_linked s : s = 1 \/ s = 10 \/ s = 12 \/ s = 14 -> linked tg syms final mach s.
Proof.
  intros Hs. apply (linked_from _ _ _ _ _ (image s)); destruct Hs as [->|[->|[->| ->]]]; by vm_compute.
Qed.
End Demo.

Lemma dynrelocsyms_plt_witness : exists imps', plt_inv Demo.tg Demo.syms Demo.after imps' /\
  settled Demo.syms (fun _ _ => false) Demo.setup 1 0 imps' Demo.after.
Proof.
  assert (go_wp (dynrelocsyms (fun _ _ => false) Demo.tg Demo.syms [1]) (fun _ l' => exists imps',
    passed Demo.tg Demo.syms (same_but Demo.syms [1]) 1 [] Demo.setup imps' l' /\
    forall s i, s ∈ [1] -> settled Demo.syms (fun _ _ => false) Demo.setup s i imps' l') Demo.setup) as H.
  { apply (dynrelocsyms_plt Demo.tg Demo.syms eq_refl eq_refl Demo.syms_ok (fun _ _ => false) [1] Demo.setup [] Demo.setup_inv).
    - split_and!; by vm_compute.
    - apply NoDup_singleton.
    - repeat constructor; try done; by apply (bool_decide_unpack _).
    - intros s i r Hs Hi. apply list_elem_of_singleton in Hs as ->. destruct i as [|i]; [|done].
      assert (r = Demo.call) as -> by (vm_compute in Hi; injection Hi as <-; reflexivity). split; [done|by left]. }
  unfold go_wp in H. unfold Demo.after, Demo.run.
  destruct (dynrelocsyms _ _ _ _ Demo.setup) as [a l'| |]; [|done|done].
  destruct H as (imps' & Hp & Hset). exists imps'. split; [apply Hp|apply Hset; by left].
Defined.

(** The first call reaches the resolver, with the slot and the relocation to bind. *)
Lemma imported_call_lands_witness : resolves Demo.syms Demo.final true 0 Demo.mach /\
  mem Demo.mach 0x130000 = 0x12000c /\ mem Demo.mach 0x130004 = R_INFO32 1 R_ARM_JUMP_SLOT.
Proof.
  destruct (imported_call_lands Demo.tg Demo.syms Demo.after Demo.final [2] eq_refl ltac:(done) Demo.after_inv Demo.stub_final_layout
    Demo.placed 1 0 0 2 Demo.call true Demo.mach eq_refl ltac:(by vm_compute) ltac:(by split) ltac:(split_and!; by vm_compute)
    (Demo.all_linked 1 ltac:(tauto)) (Demo.all_linked 10 ltac:(tauto)) ltac:(by vm_compute)) as (_ & H2 & H3 & H4).
  split; [|exact (H4 (Demo.all_linked 14 ltac:(tauto)))]. apply H2.
  - apply H3, Demo.all_linked. tauto.
  - split; [left; apply Z.ltb_lt; by vm_compute|apply Z.eqb_neq; by vm_compute].
  - by vm_compute.
Defined.
