(* ===== verification/LinkArmExt.v ===== *)
(** * LinkArmExt: leaving calls to the host linker, and what adddynrel gets wrong

    External linking writes ELF relocations instead of final values: an R_CALLARM gives
    the same instruction either way.  Then the module-data initialiser gentext writes,
    and two places where adddynrel does not do what it means to. *)
From Stdlib Require Import ZArith Lia List Bool String.
From stdpp Require Import base list gmap strings numbers tactics option.
From S2P Require Import Prelude ArmIsa Loader LinkArm LinkArmCall LinkArmTramp LinkArmPlt LinkArmStub.

(** ** The host linker

    AAELF32: R_ARM_CALL and R_ARM_JUMP24 relocate a branch with the addend in its low 24
    bits, counted in words; a linker refuses what does not fit. *)
Class HostLinker : Type := {
  hl_branch : Z -> Z -> Z -> option Z;         (* the word, the symbol's address, the place *)
  hl_branch_spec : forall w S P w', in_u 32 w -> hl_branch w S P = Some w' ->
    (S + 4 * sext24 w - P) mod 4 = 0 /\ w' = 2 ^ 24 * (w / 2 ^ 24) + ((S + 4 * sext24 w - P) / 4) mod 2 ^ 24 }.

(** One such linker. *)
Definition hl_word (w S P : Z) : option Z :=
  let x := S + 4 * sext24 w - P in
  if (x mod 4 =? 0) && (- 2 ^ 25 <=? x) && (x <? 2 ^ 25) then Some (2 ^ 24 * (w / 2 ^ 24) + (x / 4) mod 2 ^ 24) else None.

Lemma hl_word_spec w S P w' : in_u 32 w -> hl_word w S P = Some w' ->
  (S + 4 * sext24 w - P) mod 4 = 0 /\ w' = 2 ^ 24 * (w / 2 ^ 24) + ((S + 4 * sext24 w - P) / 4) mod 2 ^ 24.
Proof.
  intros _. unfold hl_word. cbv zeta. destruct (_ && _) eqn:E; [|done]. intros [= <-].
  apply andb_true_iff in E as [E _]. apply andb_true_iff in E as [E _]. split; [by apply Z.eqb_eq|done].
Qed.

#[export] Instance hl_ref : HostLinker := {| hl_branch := hl_word; hl_branch_spec := hl_word_spec |}.

Lemma sext24_u32 x : sext24 (u32 x) = sext24 x.
Proof.
  apply (wraps_eqm 24). destruct (wrapu_spec 32 ltac:(lia) x) as [j ->]. exists (j * 2 ^ 8). lia.
Qed.

(** The word of a call that goes out as a relocation. *)
Lemma archreloc_external tg syms l r s val o n : t_link tg = LinkExternal -> r_type r = R_CALLARM ->
  archreloc tg syms l r s val = (o, n, true, []) ->
  let x := 4 * sext24 (r_add r) + snd (FoldSubSymbolOffset l (r_sym r)) in
  (x mod 4 = 0 -> - 2 ^ 23 <= x / 4 < 2 ^ 23 /\ u32 o = 2 ^ 24 * (u32 (r_add r) / 2 ^ 24) + (x / 4) mod 2 ^ 24) /\ n = 1.
Proof.
  intros Hext Ht. unfold archreloc, IsExternal. rewrite Hext, Ht. cbn -[FoldSubSymbolOffset Z.land Z.quot braddoff wrapu Z.ltb].
  rewrite signext24_sext, land_low24, sext24_mod, (Z.mul_comm (sext24 _) 4).
  set (x := 4 * sext24 (r_add r) + _). intros [= <- <- He]. split; [|done]. intros Hx. rewrite (quot4_exact x Hx) in *.
  destruct (Z.ltb_spec 0x7fffff (x / 4)); [done|]. destruct (Z.ltb_spec (x / 4) (-0x800000)); [done|]. split; [lia|].
  assert (Z.land 0xffffff (u32 (x / 4)) = Z.land 0xffffff (x / 4)) as ->; [|apply call_word].
  rewrite !(Z.land_comm 0xffffff), !land_low24. destruct (wrapu_spec 32 ltac:(lia) (x / 4)) as [j ->].
  replace (x / 4 + j * 2 ^ 32) with (x / 4 + (j * 2 ^ 8) * 2 ^ 24) by lia. apply Z_mod_plus_full.
Qed.

Lemma archreloc_internal tg syms l r s val o n : t_link tg = LinkInternal -> r_type r = R_CALLARM ->
  archreloc tg syms l r s val = (o, n, true, []) ->
  let x := SymValue l (r_sym r) + 4 * sext24 (r_add r) - (SymValue l s + r_off r) in
  x mod 4 = 0 -> u32 o = 2 ^ 24 * (u32 (r_add r) / 2 ^ 24) + (x / 4) mod 2 ^ 24.
Proof.
  intros Hint Ht. unfold archreloc, IsExternal. rewrite Hint, Ht. cbn -[Z.land Z.quot braddoff wrapu Z.ltb].
  rewrite signext24_sext, land_low24, sext24_mod, (Z.mul_comm (sext24 _) 4).
  set (x := SymValue l (r_sym r) + _ - _). intros [= <- _ _] Hx. rewrite (quot4_exact x Hx). apply call_word.
Qed.

(** The relocation type tells BL from B. *)
Lemma elfreloc1_call elfsym add sectoff : elfreloc1 elfsym R_CALLARM 4 add sectoff =
  ([u32 sectoff; Z.lor (if u32 add / 2 ^ 24 =? 0xeb then R_ARM_CALL else R_ARM_JUMP24) (u32 (Z.shiftl elfsym 8))], true).
Proof.
  assert ((Z.land add 0xff000000 =? 0xeb000000) = (u32 add / 2 ^ 24 =? 0xeb)) as E.
  { rewrite land_high8, u32_top. change 0xeb000000 with (2 ^ 24 * 0xeb).
    destruct (Z.eqb_spec ((add / 2 ^ 24) mod 2 ^ 8) 0xeb) as [->|Hne]; [done|]. apply Z.eqb_neq. lia. }
  unfold elfreloc1. cbn -[Z.land Z.div Z.pow wrapu Z.lor]. by rewrite E.
Qed.

(** C32: a call left to the host linker becomes the instruction the linker would have
    written itself: the relocation is against the outermost symbol, its type tells BL from
    B, and resolving it gives the word of an internal link. *)
Theorem external_call_same `{!HostLinker} tge tgi syms l r s val vali o n oi ni w' :
  t_link tge = LinkExternal -> t_link tgi = LinkInternal -> r_type r = R_CALLARM -> r_siz r = 4 ->
  SymValue l (r_sym r) mod 4 = 0 -> (SymValue l s + r_off r) mod 4 = 0 ->
  SymValue l (fst (FoldSubSymbolOffset l (r_sym r))) mod 4 = 0 ->
  archreloc tge syms l r s val = (o, n, true, []) -> archreloc tgi syms l r s vali = (oi, ni, true, []) ->
  hl_branch (u32 o) (SymValue l (fst (FoldSubSymbolOffset l (r_sym r)))) (SymValue l s + r_off r) = Some w' ->
  w' = u32 oi /\
  extreloc l r = Some (fst (FoldSubSymbolOffset l (r_sym r)), R_CALLARM, 4, 4 * sext24 (u32 o)) /\
  forall elfsym sectoff, elfreloc1 elfsym R_CALLARM 4 (r_add r) sectoff =
    ([u32 sectoff; Z.lor (if u32 (r_add r) / 2 ^ 24 =? 0xeb then R_ARM_CALL else R_ARM_JUMP24) (u32 (Z.shiftl elfsym 8))], true).
Proof.
  intros Hext Hint Ht Hsiz Ha1 Ha2 Ha3 He Hi Hh.
  assert (snd (FoldSubSymbolOffset l (r_sym r)) =
    SymValue l (r_sym r) - SymValue l (fst (FoldSubSymbolOffset l (r_sym r)))) as Eoff.
  { unfold FoldSubSymbolOffset. destruct (negb _); cbn [fst snd]; lia. }
  destruct (archreloc_external tge syms l r s val o n Hext Ht He) as [Hx _]. cbv zeta in Hx.
  set (S := SymValue l (fst (FoldSubSymbolOffset l (r_sym r)))) in *. set (P := SymValue l s + r_off r) in *.
  rewrite Eoff in Hx. set (x := 4 * sext24 (r_add r) + (SymValue l (r_sym r) - S)) in *.
  assert (x mod 4 = 0) as Hx4 by (unfold x; zify_mod). destruct (Hx Hx4) as [Hrange Eo].
  pose proof (Z.mod_pos_bound (x / 4) (2 ^ 24) ltac:(lia)) as Hm.
  assert (sext24 (u32 o) = x / 4) as Esx.
  { rewrite Eo, <- sext24_mod, Z.add_comm, Z.mul_comm, Z_mod_plus_full, Z.mod_mod, sext24_mod by lia. by apply sext24_small. }
  destruct (hl_branch_spec _ _ _ _ (wrapu_range 32 ltac:(lia) o) Hh) as [_ ->]. rewrite Esx.
  assert (S + 4 * (x / 4) - P = SymValue l (r_sym r) + 4 * sext24 (r_add r) - P) as -> by (unfold x in *; zify_mod).
  assert (u32 o / 2 ^ 24 = u32 (r_add r) / 2 ^ 24) as ->.
  { rewrite Eo, Z.add_comm, Z.mul_comm, Z.div_add, (Z.div_small (_ mod _)) by lia. lia. }
  split_and!.
  - symmetry. apply (archreloc_internal tgi syms l r s vali oi ni Hint Ht Hi). fold P. zify_mod.
  - unfold extreloc. rewrite Ht. cbn -[FoldSubSymbolOffset Z.mul sext24]. rewrite (surjective_pairing (FoldSubSymbolOffset _ _)), Eoff, Hsiz.
    rewrite signext24_sext, land_low24, sext24_mod. fold S. do 2 f_equal. unfold x in *. zify_mod.
  - intros elfsym sectoff. apply elfreloc1_call.
Qed.

(** ** gentext *)
Definition R0 : Z := 0.
Definition init_code : list Z := put_words [0xe59f0004; 0xe08f0000; 0xeafffffe; 0].

Lemma payload_rel y d rs r : payload y d rs -> payload (AddRel r y) d (rs ++ [r]).
Proof. intros (E1 & E2 & E3). split_and!; [done|done|]. cbn. by rewrite E3. Qed.

Lemma gentext_run i a md l : i <> 0 -> blank (sym_of l i) -> exists l', gentext i a md l = Ret tt l' /\
  Data l' i = init_code /\ Relocs l' i = [mkReloc R_CALLARM 8 4 a 0xeafffffe; mkReloc R_PCREL 12 4 md 4].
Proof.
  intros Hi Hb. unfold gentext. do 5 (unfold go_bind at 1; rewrite update_run by done). rewrite update_run, !upd_upd by done.
  eexists. split; [done|]. unfold Data, Relocs. rewrite upd_sym_of, decide_True by done.
  pose proof (payload_word _ _ _ 0xeafffffe (payload_word _ _ _ 0xe08f0000 (payload_word _ _ _ 0xe59f0004 (blank_payload _ Hb)))) as H3.
  pose proof (payload_rel _ _ _ (mkReloc R_PCREL 12 4 md 4)
    (payload_word _ _ _ 0 (payload_rel _ _ _ (mkReloc R_CALLARM 8 4 a 0xeafffffe) H3))) as (_ & H4 & H5).
  split; [rewrite H4; by vm_compute|by rewrite H5].
Qed.

(** Its words in the image. *)
Lemma init_words tg syms lf i a md m : linked tg syms lf m i -> Data lf i = init_code ->
  Relocs lf i = [mkReloc R_CALLARM 8 4 a 0xeafffffe; mkReloc R_PCREL 12 4 md 4] -> md <> 0 -> unresolved lf md = false ->
  mem m (SymValue lf i) = encode (LDR false R0 PC 4) /\ mem m (SymValue lf i + 4) = encode (ADD_reg R0 PC R0) /\
  mem m (SymValue lf i + 12) = u32 (SymValue lf md - (SymValue lf i + 12)).
Proof.
  intros (Hlaid & Hm & P & HP) Ed Er Hmd Hu.
  assert (forall k w, [0xe59f0004; 0xe08f0000; 0xeafffffe; 0] !! k = Some w -> (k < 2)%nat ->
    mem m (SymValue lf i + 4 * Z.of_nat k) = u32 w) as Hcode.
  { intros k w Hk Hlt. apply (fetch tg syms lf i Hlaid m P [] _ k w Hm HP Ed Hk). rewrite Er.
    repeat constructor; unfold apart; cbn [r_off]; lia. }
  split_and!.
  - pose proof (Hcode 0%nat _ eq_refl ltac:(lia)) as H0. change (4 * Z.of_nat 0) with 0 in H0. by rewrite Z.add_0_r in H0.
  - exact (Hcode 1%nat _ eq_refl ltac:(lia)).
  - set (rp := mkReloc R_PCREL 12 4 md 4) in *. change 12 with (r_off rp) at 1.
    apply (fetch_reloc tg syms lf i Hlaid m P [] 1 rp _ [] Hm HP); [by rewrite Er| |].
    + split; [done|]. split; [done|]. rewrite Ed. cbn. lia.
    + intros P0. unfold reloc_value, rp. cbn -[Z.sub Z.add]. rewrite (proj2 (Z.eqb_neq md 0) Hmd). cbn [negb]. do 2 f_equal. lia.
Qed.

(** The initialiser gentext writes for a module of a dynamically linked Go program
    runs, wherever it and its targets are laid out, into runtime.addmoduledata with the
    address of the module's data in r0 and nothing else changed. *)
Theorem gentext_calls_addmoduledata `{!ArmCpu} tg syms i a md l : i <> 0 -> blank (sym_of l i) -> md <> 0 -> t_link tg = LinkInternal ->
  exists l', gentext i a md l = Ret tt l' /\
    forall lf m, layout l' lf -> unresolved lf a = false -> unresolved lf md = false ->
      SymValue lf a mod 4 = 0 -> in_u 32 (SymValue lf a) -> in_u 32 (SymValue lf md) ->
      linked tg syms lf m i -> pc m = SymValue lf i ->
      exists m', cpu_run 3 m = Some m' /\ pc m' = SymValue lf a /\ reg m' R0 = SymValue lf md /\ only [PC; R0] m m'.
Proof.
  intros Hi Hb Hmd Hint. destruct (gentext_run i a md l Hi Hb) as (l' & E & Hd & Hr). exists l'. split; [done|].
  intros lf m Hlay Hua Hum Hal Hra Hrm Hl Hpc. destruct (Hlay i) as (_ & Ed & Er & _). rewrite Hd in Ed. rewrite Hr in Er.
  destruct (init_words tg syms lf i a md m Hl Ed Er Hmd Hum) as (W0 & W1 & W3). destruct Hl as (Hlaid & Hm & P & HP).
  assert (Z.of_nat (length (Data lf i)) = 16) as Hlen by (by rewrite Ed).
  pose proof Hlaid as (L1 & L2 & L3 & _). set (rc := mkReloc R_CALLARM 8 4 a 0xeafffffe) in *.
  set (m1 := next (set_reg R0 (u32 (SymValue lf md - (SymValue lf i + 12))) m)).
  assert (pc m1 = SymValue lf i + 4) as Q1 by (unfold m1; rewrite pc_next_set by (done || lia); lia).
  set (m2 := next (set_reg R0 (SymValue lf md) m1)).
  assert (pc m2 = SymValue lf i + 8) as Q2 by (unfold m2; rewrite pc_next_set by (done || lia); lia).
  exists (branched false (call_target lf rc) m2).
  assert (call_target lf rc = SymValue lf a) as Ec.
  { unfold call_target. cbn [rc r_sym r_add]. change ((signext24 _ + 2) * 4) with 0. rewrite Z.add_0_r. by apply wrapu_small. }
  split_and!.
  - rewrite (cpu_run_step (LDR false R0 PC 4) 2 m m1); [|by split_and!| |].
    + rewrite (cpu_run_step (ADD_reg R0 PC R0) 1 m1 m2); [|by split_and!| |].
      * apply (call_site tg syms lf i 0 rc false P m2 0); try done; [by rewrite Er|].
        split; [done|]. split; [done|]. rewrite Hlen. done.
      * rewrite Q1. exact W1.
      * cbn [exec]. rewrite operand_pc by lia. change (operand m1 R0) with (reg m1 R0). unfold m1 at 2.
        rewrite reg_next_set by done. rewrite Q1. unfold result. cbn [Z.eqb R0 PC Pos.eqb]. unfold m2. do 3 f_equal.
        rewrite <- (wrapu_small 32 (SymValue lf md)) at 2 by done. apply wrapu_eqm.
        destruct (wrapu_spec 32 ltac:(lia) (SymValue lf md - (SymValue lf i + 12))) as [j ->]. exists j. lia.
    + rewrite Hpc. exact W0.
    + cbn [exec]. rewrite operand_pc by lia. rewrite Hpc, (wrapu_small 32 (_ + 8 + 4)) by (unfold in_u; lia).
      replace (SymValue lf i + 8 + 4) with (SymValue lf i + 12) by lia. by rewrite W3.
  - unfold branched, pc, set_reg. cbn [reg]. by rewrite put_eq.
  - unfold branched, set_reg at 1. cbn [reg]. rewrite put_ne by done. unfold m2. by rewrite reg_next_set.
  - apply (only_trans _ m m2); [|apply only_set; by repeat constructor].
    apply (only_trans _ m m1); apply only_next_set; by repeat constructor.
Qed.

(** ** Two slips of adddynrel *)

Definition put_reloc (s : Z) (i : nat) (r : reloc) (l : lst) : lst := upd s (fun y => set_relocs (<[i := r]> (sy_relocs y)) y) l.

Lemma set_reloc_put s i r f l : s <> 0 -> Relocs l s !! i = Some r -> set_reloc s i f l = Ret tt (put_reloc s i (f r) l).
Proof. intros Hs Hi. unfold set_reloc. by rewrite Hi, update_run. Qed.

Lemma put_reloc_at s i r r' l : Relocs l s !! i = Some r -> Relocs (put_reloc s i r' l) s !! i = Some r'.
Proof.
  intros Hi%lookup_lt_Some. unfold put_reloc, Relocs. rewrite upd_sym_of, decide_True by done. by apply list_lookup_insert_eq.
Qed.

Lemma put_reloc_other s i r l x : x <> s -> sym_of (put_reloc s i r l) x = sym_of l x.
Proof. intros Hx. unfold put_reloc. by rewrite upd_sym_of, decide_False. Qed.

(** A symbol with a GOT offset gets no entry. *)
Lemma add_got_present tg syms s l : 0 <= SymGot l s -> add_got tg syms s SDYNIMPORT l = Ret (SymGot l s) l.
Proof. intros H. unfold add_got, AddGotSym, go_bind, go_read. cbn [negb Z.eqb SDYNIMPORT Pos.eqb]. by rewrite (proj2 (Z.leb_le _ _) H). Qed.

(** A GOT reference to an imported function that already has a PLT entry gets no GOT
    entry: adddynrel finds the offset addpltsym recorded, which counts from .got.plt, and
    adds it to the address of .got, leaving .got and its relocations as they were. *)
Theorem got_reference_after_plt tg syms s i r l imps k :
  plt_inv tg syms l imps -> imps !! k = Some (r_sym r) -> Relocs l s !! i = Some r -> s <> 0 -> r_sym r <> 0 ->
  r_type r = ElfRelocOffset + R_ARM_GOT_PREL -> SymType l (r_sym r) = SDYNIMPORT ->
  exists l', adddynrel tg syms s r i l = Ret true l' /\
    Relocs l' s !! i = Some (mkReloc R_PCREL (r_off r) (r_siz r) (GOT syms) (r_add r + 4 + (12 + 4 * Z.of_nat k))) /\
    forall x, x <> s -> sym_of l' x = sym_of l x.
Proof.
  intros Hinv Hk Hi Hs Hr0 Ht Hd. destruct (pi_entry _ _ _ _ Hinv k _ Hk) as (_ & Hg & _).
  assert (adddynrel_elf tg syms s r i (r_sym r) SDYNIMPORT =
    (let! g := add_got tg syms (r_sym r) SDYNIMPORT in
     SetRelocType s i R_PCREL ;! SetRelocSym s i (GOT syms) ;! SetRelocAdd s i (r_add r + 4 + g) ;! go_ret (Some true))) as E
    by (unfold adddynrel_elf; rewrite Ht; reflexivity).
  unfold adddynrel. unfold go_bind at 1, go_read at 1. rewrite (proj2 (Z.eqb_neq _ 0) Hr0), Hd. cbn [negb].
  unfold go_bind at 1. rewrite E. unfold go_bind at 1. rewrite add_got_present, Hg by lia.
  unfold go_bind at 1, SetRelocType. rewrite (set_reloc_put s i r) by done.
  unfold go_bind at 1, SetRelocSym. erewrite set_reloc_put by (done || by eapply put_reloc_at).
  unfold go_bind at 1, SetRelocAdd. erewrite set_reloc_put by (done || by eapply put_reloc_at, put_reloc_at).
  eexists. split; [done|]. split.
  - by eapply put_reloc_at, put_reloc_at, put_reloc_at.
  - intros x Hx. by rewrite !put_reloc_other.
Qed.

(** Whatever the build mode, a pointer to a symbol that is not imported is left
    as it is: the block that would give a position-independent program its
    R_ARM_RELATIVE entries comes after this answer and never runs. *)
Theorem internal_pointers_get_no_relative tg syms s i r l :
  (if negb (r_sym r =? 0) then SymType l (r_sym r) else Sxxx) <> SDYNIMPORT -> r_type r < ElfRelocOffset ->
  adddynrel tg syms s r i l = Ret true l.
Proof.
  intros Hd Hlt. unfold adddynrel. unfold go_bind at 1, go_read at 1. set (tt_ := if negb _ then _ else _) in *.
  assert (forall t, 0 <= t -> (r_type r =? ElfRelocOffset + t) = false) as Hne by (intros t Ht; apply Z.eqb_neq; lia).
  unfold adddynrel_elf. rewrite !Hne by (by vm_compute). cbn [orb]. rewrite (proj2 (Z.leb_gt _ _) Hlt).
  unfold go_bind at 1, go_ret at 1. by rewrite (proj2 (Z.eqb_neq _ _) Hd).
Qed.

(** ** Concrete inputs *)
Module ExtDemo.
(** A call at 0x100000 of a function at offset 8 of the symbol at 0x100100. *)
Definition call : reloc := mkReloc R_CALLARM 0 4 3 0xebfffffe.
Definition prog : lst :=
  mkLst (list_to_map [(1, mkSym "main.f" 0 STEXT 0x100000 4 (le_bytes 4 0xebfffffe) [call] "main" 0 None "" false true true);
                      (2, mkSym "text" 0 STEXT 0x100100 16 (replicate 16 0) [] "main" 0 None "" false true true);
                      (3, mkSym "main.g" 0 STEXT 0x100108 8 [] [] "main" 2 None "" false true true)]) ∅ 20 ∅ ∅ ∅ 1 ∅ [] [].
Definition tge : target := mkTarget LinkExternal BuildModeExe true true false 0.

(** The initialiser, its targets at 0x200000 and 0x300000. *)
Definition mods : lst :=
  mkLst (list_to_map [(4, mkSym "init" 0 STEXT 0 0 [] [] "" 0 None "" false true true);
                      (5, mkSym "runtime.addmoduledata" 0 STEXT 0x200000 0 [] [] "" 0 None "" false true true);
                      (6, mkSym "local.moduledata" 0 SNOPTRDATA 0x300000 0 [] [] "" 0 None "" false true true)]) ∅ 20 ∅ ∅ ∅ 1 ∅ [] [].
Definition mods' : lst := Demo.run (gentext 4 5 6) mods.
Definition final : lst := upd 4 (set_value 0x100000) mods'.
Definition image : list Z := match relocsym Demo.tg Demo.syms final 4 with Some (P, _) => P | None => [] end.
Definition mach : machine := mkMach (fun r => if r =? PC then 0x100000 else 0) (fun a => word_of image (a - 0x100000)).

Lemma ext_final_layout : layout mods' final.
Proof.
  intros x. unfold final, SymType, SymValue, Data, Relocs. rewrite !upd_sym_of.
  case_decide; [subst; by vm_compute|done].
Qed.
End ExtDemo.

(** The instruction is BL over 0x40 words either way. *)
Lemma external_call_same_witness : 0xeb000040 = u32 (braddoff (i32 0xeb000000) 0x40) /\
  extreloc ExtDemo.prog ExtDemo.call = Some (2, R_CALLARM, 4, 0).
Proof.
  destruct (external_call_same ExtDemo.tge Demo.tg Demo.syms ExtDemo.prog ExtDemo.call 1 0 0
    (braddoff (i32 0xeb000000) 0) 1 (braddoff (i32 0xeb000000) 0x40) 0 0xeb000040) as (H1 & H2 & _);
    [by vm_compute..|split; [exact H1|exact H2]].
Defined.

Lemma gentext_calls_addmoduledata_witness : exists m', cpu_run 3 ExtDemo.mach = Some m' /\ pc m' = 0x200000 /\ reg m' R0 = 0x300000.
Proof.
  destruct (gentext_calls_addmoduledata Demo.tg Demo.syms 4 5 6 ExtDemo.mods ltac:(done) ltac:(by split_and!) ltac:(done) eq_refl)
    as (l' & E & H).
  assert (l' = ExtDemo.mods') as -> by (unfold ExtDemo.mods', Demo.run; by rewrite E).
  destruct (H ExtDemo.final ExtDemo.mach ExtDemo.ext_final_layout) as (m' & E1 & E2 & E3 & _);
    [by vm_compute|by vm_compute|by vm_compute|split; [apply Z.leb_le|apply Z.ltb_lt]; by vm_compute|split; [apply Z.leb_le|apply Z.ltb_lt]; by vm_compute| |by vm_compute|].
  - apply (linked_from _ _ _ _ _ ExtDemo.image); by vm_compute.
  - exists m'. split; [exact E1|]. split; [exact E2|exact E3].
Defined.

Lemma got_reference_after_plt_witness : exists l', adddynrel Demo.tg Demo.syms 3 Demo.got_ref 0 Demo.after = Ret true l' /\
  Relocs l' 3 !! 0%nat = Some (mkReloc R_PCREL 0 4 (GOT Demo.syms) 16) /\ Size l' (GOT Demo.syms) = 0.
Proof.
  destruct (got_reference_after_plt Demo.tg Demo.syms 3 0 Demo.got_ref Demo.after [2] 0 Demo.after_inv) as (l' & E1 & E2 & E3);
    [by vm_compute..|].
  exists l'. split; [exact E1|]. split; [exact E2|]. unfold Size. rewrite E3 by done. by vm_compute.
Defined.

Lemma internal_pointers_get_no_relative_witness :
  adddynrel (mkTarget LinkInternal BuildModePIE true true false 0) Demo.syms 3 (mkReloc R_ADDR 0 4 1 0) 0 Demo.after = Ret true Demo.after.
Proof. apply internal_pointers_get_no_relative; by vm_compute. Defined.
