(* ===== verification/LinkArmWf.v ===== *)
(** * LinkArmWf: well-formed symbols

    Every symbol's contents are bytes, not more than its size (a BSS symbol has a size and
    no contents), and its relocations lie inside it; making the PLT and running all the
    dynamic relocations keeps it so, as long as no section outgrows the 32-bit offsets of
    relocations.  Addstring sets the size to the length of the contents, so the string
    table must be full, as one that only Addstring has written is. *)
From Stdlib Require Import ZArith Lia List Bool String.
From stdpp Require Import base list gmap strings numbers tactics option.
From S2P Require Import Prelude Loader LinkArm LinkArmTramp LinkArmPlt LinkArmStub.

(** ** One symbol *)
Definition inside (y : symst) (r : reloc) : Prop := 0 <= r_off r /\ 0 <= r_siz r /\ r_off r + r_siz r <= sy_size y.
Definition packed (y : symst) : Prop := Z.of_nat (length (sy_data y)) <= sy_size y /\ Forall is_byte (sy_data y).
Definition wf_relocs (y : symst) : Prop := Forall (inside y) (sy_relocs y).
Definition wf_sym (y : symst) : Prop := packed y /\ wf_relocs y.

(** An operation that keeps a symbol well formed and does not shrink it, and a full symbol
    full; relocations it adds are inside when their offsets fit 32 bits. *)
Definition good_op (f : symst -> symst) : Prop := forall y, packed y ->
  packed (f y) /\ sy_size y <= sy_size (f y) /\ (filled_up y -> filled_up (f y)) /\
  (sy_size (f y) < 2 ^ 31 -> wf_relocs y -> wf_relocs (f y)).

Lemma wf_relocs_grow y y' : sy_relocs y' = sy_relocs y -> sy_size y <= sy_size y' -> wf_relocs y -> wf_relocs y'.
Proof. intros E Hs. unfold wf_relocs. rewrite E. apply Forall_impl. unfold inside. lia. Qed.

Lemma le_bytes_bytes n z : Forall is_byte (le_bytes n z).
Proof.
  revert z. induction n as [|n IH]; intros z; cbn [le_bytes]; constructor; [|done].
  apply Z.mod_pos_bound. lia.
Qed.

Lemma zeros_bytes n : Forall is_byte (replicate n 0).
Proof. apply Forall_replicate. done. Qed.

(** A symbol whose contents are as long as its size is packed. *)
Lemma packed_full y : filled_up y -> Forall is_byte (sy_data y) -> packed y.
Proof. unfold filled_up. intros E H. split; [lia|done]. Qed.

(** Contents grown to the end of [w] more bytes. *)
Lemma Grow_end (d : list Z) size w : Z.of_nat (length d) <= size -> 0 <= w ->
  Z.of_nat (length (Grow (size + w) d)) = size + w.
Proof. intros H Hw. unfold Grow. rewrite length_app, length_replicate. lia. Qed.

Lemma Grow_bytes n d : Forall is_byte d -> Forall is_byte (Grow n d).
Proof. intros H. apply Forall_app. split; [done|apply zeros_bytes]. Qed.

Lemma write_at_bytes d off b : Forall is_byte d -> Forall is_byte b -> Forall is_byte (write_at d off b).
Proof. intros Hd Hb. apply Forall_app. split; [by apply Forall_take|]. apply Forall_app. split; [done|by apply Forall_drop]. Qed.

(** The end is reached by an operation that writes there, without a relocation. *)
Lemma good_append f w : 0 <= w -> (forall y, packed y -> sy_size (f y) = sy_size y + w /\
  packed (f y) /\ (filled_up y -> filled_up (f y)) /\ sy_relocs (f y) = sy_relocs y) -> good_op f.
Proof.
  intros Hw Hf y Hy. destruct (Hf y Hy) as (E1 & E2 & E3 & E4). split_and!; [done|lia|done|].
  intros _. apply wf_relocs_grow; [done|lia].
Qed.

(** A word added with a relocation for it. *)
Lemma good_append_reloc f t g : (forall y, packed y -> sy_size (f y) = sy_size y + 4 /\
  sy_data (f y) = Grow (sy_size y + 4) (sy_data y) /\
  sy_relocs (f y) = sy_relocs y ++ [mkReloc t (i32 (sy_size y)) 4 (fst g) (snd g)]) -> good_op f.
Proof.
  intros Hf y Hy. destruct (Hf y Hy) as (E1 & E2 & E3). pose proof Hy as [Hl Hb].
  assert (filled_up (f y)) as F by (unfold filled_up; rewrite E1, E2, Grow_end by lia; done).
  split_and!; [apply packed_full; [done|rewrite E2; by apply Grow_bytes]|lia|done|].
  intros Hs Hr. unfold wf_relocs. rewrite E3. apply Forall_app. split.
  - eapply Forall_impl; [|exact Hr]. unfold inside. lia.
  - constructor; [|done]. unfold inside. cbn [r_off r_siz].
    rewrite (wraps_small 32) by (try lia; unfold in_s; lia). lia.
Qed.

Lemma good_AddUintXX v w : good_op (AddUintXX v (Z.of_nat (S w))).
Proof.
  apply (good_append _ (Z.of_nat (S w))); [lia|]. intros y [Hl Hb]. unfold AddUintXX, setUintXX.
  destruct (as_data_same y) as (E1 & E2 & E3). set (z := as_data y) in *.
  rewrite (proj2 (Z.ltb_lt _ _)) by lia. cbn [set_content sy_size sy_data sy_relocs]. rewrite E2, E3, Nat2Z.id.
  pose proof (Grow_end (sy_data y) (sy_size y) (Z.of_nat (S w)) Hl ltac:(lia)) as Hg.
  set (d := Grow _ _) in *. assert (Forall is_byte d) as Hd by (by apply Grow_bytes). clearbody d.
  assert (length (write_at d (sy_size y) (le_bytes (S w) v)) = length d) as Hw.
  { unfold write_at. rewrite !length_app, length_take, length_drop, length_le_bytes. lia. }
  split_and!; try done; [|by unfold filled_up; cbn [set_content sy_size sy_data]; lia].
  apply packed_full; [unfold filled_up; cbn [set_content sy_size sy_data]; lia|].
  cbn [set_content sy_data]. apply write_at_bytes; [done|apply le_bytes_bytes].
Qed.

Lemma good_AddUint32 v : good_op (AddUint32 v).
Proof. exact (good_AddUintXX v 3). Qed.

Lemma good_AddUint16 v : good_op (AddUint16 v).
Proof. exact (good_AddUintXX v 1). Qed.

Lemma good_AddUint8 v : is_byte v -> good_op (AddUint8 v).
Proof.
  intros Hv. apply (good_append _ 1); [lia|]. intros y [Hl Hb]. unfold AddUint8, packed, filled_up.
  destruct (as_data_same y) as (E1 & E2 & E3). cbn. rewrite E1, E2, E3, length_app. cbn.
  split_and!; try done; try lia. apply Forall_app. split; [done|by constructor].
Qed.

Lemma good_addSymRef t a typ : good_op (addSymRef t a typ 4).
Proof.
  apply (good_append_reloc _ typ (t, a)). intros y _. unfold addSymRef. destruct (as_data_same y) as (E1 & E2 & E3).
  cbn. by rewrite E1, E2, E3.
Qed.

Lemma good_stub_word typ got g : good_op (add_stub_word typ got g).
Proof. apply (good_append_reloc _ typ (got, g - 8)). by intros y _. Qed.

Lemma string_bytes_bytes s : Forall is_byte (string_bytes s).
Proof.
  unfold string_bytes. apply list.Forall_forall. intros x Hx%list_elem_of_In%in_map_iff. destruct Hx as (c & <- & _).
  unfold is_byte. pose proof (Ascii.N_ascii_bounded c). lia.
Qed.

(** Addstring, on a full symbol. *)
Lemma good_Addstring str y : packed y -> filled_up y ->
  let y' := snd (Addstring str y) in
  packed y' /\ sy_size y <= sy_size y' /\ filled_up y' /\ sy_relocs y' = sy_relocs y.
Proof.
  intros [_ Hb] F. cbv zeta. destruct (Addstring_payload y str) as (b & E1 & E2 & E3).
  assert (sy_data (snd (Addstring str y)) = sy_data y ++ string_bytes str ++ [0]) as E
    by (unfold Addstring; by destruct (_ =? _)).
  split_and!; [apply packed_full; [done|]| |done|done].
  - rewrite E. apply Forall_app. split; [done|]. apply Forall_app. split; [apply string_bytes_bytes|by repeat constructor].
  - unfold filled_up in *. rewrite E2, F, E1, length_app. lia.
Qed.

(** A relocation rewritten in place. *)
Lemma good_set_reloc i f : (forall r, r_off (f r) = r_off r /\ r_siz (f r) = r_siz r) -> forall r, 
  (forall y, packed y -> wf_relocs y -> sy_relocs y !! i = Some r -> wf_relocs (set_relocs (<[i := f r]> (sy_relocs y)) y)).
Proof.
  intros Hf r y _ Hw Hi. unfold wf_relocs. cbn. apply Forall_insert; [exact Hw|].
  destruct (Hf r) as [E1 E2]. pose proof (proj1 (Forall_lookup _ _) Hw i r Hi) as H. unfold inside in *. rewrite E1, E2. exact H.
Qed.

(** ** The whole linker *)
Definition wf (l : lst) : Prop := forall s, wf_sym (sym_of l s).
Definition all_packed (l : lst) : Prop := forall s, packed (sym_of l s).
Definition fits (l : lst) : Prop := forall s, Size l s < 2 ^ 31.

Section linker.
(** The string table. *)
Context (strtab : Z).

(** Symbols stay packed, full ones stay full, none shrinks, and as long as they fit their
    relocations stay inside. *)
Definition grows (l l' : lst) : Prop := all_packed l -> filled_up (sym_of l strtab) ->
  all_packed l' /\ (forall s, filled_up (sym_of l s) -> filled_up (sym_of l' s)) /\ (forall s, Size l s <= Size l' s) /\
  (fits l' -> (forall s, wf_relocs (sym_of l s)) -> forall s, wf_relocs (sym_of l' s)).

#[export] Instance grows_preorder : PreOrder grows.
Proof.
  split; [by intros l Hl|]. intros a b c Hab Hbc Ha Fa. destruct (Hab Ha Fa) as (Hb & Fab & Sab & Wab).
  destruct (Hbc Hb (Fab _ Fa)) as (Hc & Fbc & Sbc & Wbc). split_and!; [done|auto| |].
  - intros s. etransitivity; [apply Sab|apply Sbc].
  - intros Hf Hw. apply Wbc; [done|]. apply Wab; [|done]. intros s. specialize (Sbc s). specialize (Hf s). lia.
Qed.

Lemma grows_upd_at s f l : (packed (sym_of l s) -> (s = strtab -> filled_up (sym_of l s)) ->
  packed (f (sym_of l s)) /\ sy_size (sym_of l s) <= sy_size (f (sym_of l s)) /\
  (filled_up (sym_of l s) -> filled_up (f (sym_of l s))) /\
  (sy_size (f (sym_of l s)) < 2 ^ 31 -> wf_relocs (sym_of l s) -> wf_relocs (f (sym_of l s)))) -> grows l (upd s f l).
Proof.
  intros Hf Hl Hd. destruct (Hf (Hl s)) as (H1 & H2 & H3 & H4); [by intros ->|]. unfold all_packed, fits, Size. split_and!.
  - intros x. rewrite upd_sym_of. by case_decide.
  - intros x. rewrite upd_sym_of. case_decide; subst; [done|auto].
  - intros x. rewrite upd_sym_of. case_decide; subst; [done|lia].
  - intros Hfit Hw x. specialize (Hfit x). rewrite upd_sym_of in *. case_decide; subst; [|done]. by apply H4.
Qed.

Lemma grows_upd s f l : good_op f -> grows l (upd s f l).
Proof. intros Hf. apply grows_upd_at. intros Hp _. exact (Hf _ Hp). Qed.

Lemma grows_same l l' : l_syms l' = l_syms l -> grows l l'.
Proof. intros E. unfold grows, all_packed, fits, Size, sym_of. rewrite E. done. Qed.

(** [c] takes the linker only to states above. *)
Definition climbs {A} (c : L A) : Prop := forall l v l', c l = Ret v l' -> grows l l'.

Lemma climbs_ret {A} (a : A) : climbs (go_ret a).
Proof. intros l v l' [= _ <-]. reflexivity. Qed.

Lemma climbs_throw {A} msg : climbs (go_throw msg : L A).
Proof. done. Qed.

Lemma climbs_bind {A C} (c : L A) (k : A -> L C) : climbs c -> (forall a, climbs (k a)) -> climbs (go_bind c k).
Proof.
  intros Hc Hk l v l'. unfold go_bind. destruct (c l) as [a l1| |] eqn:E; [|done|done]. intros H.
  etransitivity; [by eapply Hc|by eapply Hk].
Qed.

Lemma climbs_read {A} (f : lst -> A) : climbs (go_read f).
Proof. intros l v l' [= _ <-]. reflexivity. Qed.

Lemma climbs_get : climbs go_get.
Proof. intros l v l' [= _ <-]. reflexivity. Qed.

Lemma climbs_modify f : (forall l, l_syms (f l) = l_syms l) -> climbs (go_modify f).
Proof. intros Hf l v l' [= _ <-]. by apply grows_same. Qed.

Lemma climbs_update s f : good_op f -> climbs (update s f).
Proof. intros Hf l v l'. unfold update. destruct (s =? 0); [done|]. intros [= _ <-]. by apply grows_upd. Qed.

(** SetPlt, SetGot, SetSymDynid: a map of the loader. *)
Lemma climbs_entry s v : climbs (SetPlt s v) /\ climbs (SetGot s v) /\ climbs (SetSymDynid s v).
Proof.
  split_and!; intros l u l'; unfold SetPlt, SetGot, SetSymDynid; (destruct (good_sym l s); [|done]);
    intros [= _ <-]; by apply grows_same.
Qed.

Lemma climbs_set_reloc s i f : (forall r, r_off (f r) = r_off r /\ r_siz (f r) = r_siz r) -> climbs (set_reloc s i f).
Proof.
  intros Hf l v l'. unfold set_reloc, update. destruct (Relocs l s !! i) as [r|] eqn:E; [|done]. destruct (s =? 0); [done|].
  intros [= _ <-] Hl _. unfold all_packed, fits, Size. split_and!.
  - intros x. rewrite upd_sym_of. case_decide; subst; [apply Hl|done].
  - intros x. rewrite upd_sym_of. by case_decide; subst.
  - intros x. rewrite upd_sym_of. case_decide; subst; cbn; lia.
  - intros _ Hw x. rewrite upd_sym_of. case_decide; subst; [|done]. by apply good_set_reloc.
Qed.

Lemma climbs_AddstringTo str : climbs (AddstringTo strtab str).
Proof.
  unfold AddstringTo. apply climbs_bind; [apply climbs_read|intros off]. apply climbs_bind; [|intros []; apply climbs_ret].
  intros l v l'. unfold update. destruct (strtab =? 0); [done|]. intros [= _ <-]. apply grows_upd_at. intros Hp Hd.
  destruct (good_Addstring str _ Hp (Hd eq_refl)) as (H1 & H2 & H3 & H4). split_and!; try done.
  intros _. by apply wf_relocs_grow.
Qed.
End linker.

Create HintDb wf.
#[export] Hint Resolve climbs_AddstringTo climbs_ret climbs_throw climbs_read climbs_get good_AddUint32 good_AddUint16 good_addSymRef good_stub_word : wf.

(** One step of the code after another. *)
Ltac climb :=
  repeat match goal with
  | |- climbs _ (go_bind _ _) => apply climbs_bind; [|intros ?; cbv beta zeta]
  | |- climbs _ (if ?b then _ else _) => destruct b eqn:?
  | |- climbs _ (match ?o with _ => _ end) => destruct o eqn:?
  | |- climbs _ (update _ (if ?b then _ else _)) => destruct b eqn:?
  | |- climbs _ (update _ _) => apply climbs_update
  | |- climbs _ (Errorf _ _) => apply climbs_modify
  | |- climbs _ (go_modify _) => apply climbs_modify
  | |- climbs _ (SetPlt _ _) => apply climbs_entry
  | |- climbs _ (SetGot _ _) => apply climbs_entry
  | |- climbs _ (SetSymDynid _ _) => apply climbs_entry
  | |- climbs _ (SetRelocType _ _ _) => apply climbs_set_reloc
  | |- climbs _ (SetRelocSym _ _ _) => apply climbs_set_reloc
  | |- climbs _ (SetRelocAdd _ _ _) => apply climbs_set_reloc
  end; try done; auto with wf.

Section passes.
Context (tg : target) (syms : ArchSyms).
#[local] Abbreviation climbs := (climbs (DynStr syms)).

Lemma climbs_Elfwritedynent s t v : climbs (Elfwritedynent s t v).
Proof. unfold Elfwritedynent. climb. Qed.
#[local] Hint Resolve climbs_Elfwritedynent : wf.

Lemma ST_INFO_byte b t : is_byte (ST_INFO b t).
Proof.
  unfold ST_INFO, is_byte. pose proof (wrapu_range 8 ltac:(lia) (Z.shiftl b 4)) as Ha. unfold in_u in Ha.
  pose proof (Z.mod_pos_bound t (2 ^ 4) ltac:(lia)) as Hb. change 15 with (2 ^ 4 - 1). rewrite land_ones_mod by lia.
  split; [apply Z.lor_nonneg; lia|]. destruct (Z.eq_dec (Z.lor (u8 (Z.shiftl b 4)) (t mod 2 ^ 4)) 0) as [->|Hne]; [done|].
  change 256 with (2 ^ 8). apply Z.log2_lt_pow2; [pose proof (proj2 (Z.lor_nonneg (u8 (Z.shiftl b 4)) (t mod 2 ^ 4))); lia|].
  rewrite Z.log2_lor by lia. apply Z.max_lub_lt.
  - apply Z.le_lt_trans with (Z.log2 (2 ^ 8 - 1)); [apply Z.log2_le_mono; lia|done].
  - apply Z.le_lt_trans with (Z.log2 (2 ^ 4 - 1)); [apply Z.log2_le_mono; lia|done].
Qed.

Lemma climbs_elfadddynsym s : climbs (elfadddynsym tg syms s).
Proof.
  unfold elfadddynsym. climb; try apply good_addSymRef; try (apply good_AddUint8; repeat case_match; try apply ST_INFO_byte; done).
Qed.
#[local] Hint Resolve climbs_elfadddynsym : wf.

Lemma climbs_Adddynsym s : climbs (Adddynsym tg syms s).
Proof. unfold Adddynsym. climb. Qed.
#[local] Hint Resolve climbs_Adddynsym : wf.

Lemma climbs_AddGotSym s t : climbs (AddGotSym tg syms s t).
Proof. unfold AddGotSym. climb. apply good_addSymRef. Qed.
#[local] Hint Resolve climbs_AddGotSym : wf.

Lemma climbs_addpltreloc plt got s t : climbs (addpltreloc plt got s t).
Proof. unfold addpltreloc. climb. apply good_stub_word. Qed.
#[local] Hint Resolve climbs_addpltreloc : wf.

Lemma climbs_addpltsym s : climbs (addpltsym tg syms s).
Proof. unfold addpltsym. climb; apply good_addSymRef. Qed.
#[local] Hint Resolve climbs_addpltsym : wf.

Lemma climbs_addgotsyminternal s : climbs (addgotsyminternal tg syms s).
Proof. unfold addgotsyminternal. climb; apply good_addSymRef. Qed.
#[local] Hint Resolve climbs_addgotsyminternal : wf.

Lemma climbs_elfsetupplt plt got dynamic : climbs (elfsetupplt tg plt got dynamic).
Proof. unfold elfsetupplt. climb; apply good_addSymRef. Qed.

Lemma climbs_call_plt s i targ add : climbs (call_plt tg syms s i targ add).
Proof. unfold call_plt. climb. Qed.
#[local] Hint Resolve climbs_call_plt : wf.

Lemma climbs_add_got targ t : climbs (add_got tg syms targ t).
Proof. unfold add_got. climb. Qed.
#[local] Hint Resolve climbs_add_got : wf.

Lemma climbs_adddynrel_elf s r i targ t : climbs (adddynrel_elf tg syms s r i targ t).
Proof. unfold adddynrel_elf. climb. Qed.
#[local] Hint Resolve climbs_adddynrel_elf : wf.

Lemma climbs_adddynrel_addr s r i targ t : climbs (adddynrel_addr tg syms s r i targ t).
Proof. unfold adddynrel_addr. climb; apply good_addSymRef. Qed.
#[local] Hint Resolve climbs_adddynrel_addr : wf.

Lemma climbs_adddynrel s r i : climbs (adddynrel tg syms s r i).
Proof. unfold adddynrel. climb. Qed.
#[local] Hint Resolve climbs_adddynrel : wf.

Lemma climbs_dynrelocsym_one weak s i : climbs (dynrelocsym_one weak tg syms s i).
Proof. unfold dynrelocsym_one. climb. Qed.

Lemma climbs_dynrelocsyms weak ss : climbs (dynrelocsyms weak tg syms ss).
Proof.
  induction ss as [|s ss IH]; cbn [dynrelocsyms]; [apply climbs_ret|]. apply climbs_bind; [|done].
  unfold dynrelocsym. apply climbs_bind; [apply climbs_read|]. intros n. generalize 0%nat. induction n as [|n IHn]; intros i; cbn [dynrelocsym_loop].
  - apply climbs_ret.
  - apply climbs_bind; [apply climbs_dynrelocsym_one|done].
Qed.
End passes.

(** C33: setting up the PLT and resolving the dynamic relocations of any symbols, with all
    the dynamic symbols, strings, GOT and PLT entries they add, takes well-formed symbols
    to well-formed symbols while the sections fit the 32-bit offsets of relocations; none
    shrinks, and those whose contents are as long as the size, as of every symbol with
    contents, stay so.  Symbols without contents (BSS) are well formed; the string table
    must be full. *)
Theorem dynreloc_wf weak tg syms ss l l' :
  (elfsetupplt tg (PLT syms) (GOTPLT syms) (Dynamic syms) ;! dynrelocsyms weak tg syms ss) l = Ret tt l' ->
  wf l -> filled_up (sym_of l (DynStr syms)) -> fits l' ->
  wf l' /\ forall s, Size l s <= Size l' s /\ (filled_up (sym_of l s) -> filled_up (sym_of l' s)).
Proof.
  intros H Hl Hd Hf.
  assert (climbs (DynStr syms) (elfsetupplt tg (PLT syms) (GOTPLT syms) (Dynamic syms) ;! dynrelocsyms weak tg syms ss)) as Hc.
  { apply climbs_bind; [apply climbs_elfsetupplt|]. intros _. apply climbs_dynrelocsyms. }
  destruct (Hc l tt l' H) as (H1 & H2 & H3 & H4); [intros s; apply Hl|done|]. split; [|by intros s; split; [|apply H2]].
  intros s. split; [apply H1|]. apply H4; [done|]. intros x. apply Hl.
Qed.

(** [wf], decided. *)
Definition wf_symb (y : symst) : bool :=
  (Z.of_nat (length (sy_data y)) <=? sy_size y) && forallb (fun b => (0 <=? b) && (b <? 256)) (sy_data y) &&
  forallb (fun r => (0 <=? r_off r) && (0 <=? r_siz r) && (r_off r + r_siz r <=? sy_size y)) (sy_relocs y).

Lemma wf_symb_spec y : wf_symb y = true -> wf_sym y.
Proof.
  unfold wf_symb. rewrite !andb_true_iff, !forallb_forall. intros [[H1 H2] H3]. split; [split|].
  - lia.
  - apply list.Forall_forall. intros b Hb%list_elem_of_In. specialize (H2 b Hb). unfold is_byte. lia.
  - apply list.Forall_forall. intros r Hr%list_elem_of_In. specialize (H3 r Hr). unfold inside. lia.
Qed.

Lemma every_sym (P : symst -> Prop) (p : symst -> bool) l : (forall y, p y = true -> P y) -> P sym0 ->
  forallb (fun e => p (snd e)) (map_to_list (l_syms l)) = true -> forall s, P (sym_of l s).
Proof.
  intros Hp H0 H s. rewrite forallb_forall in H. unfold sym_of. destruct (l_syms l !! s) as [y|] eqn:E; [|done].
  apply Hp. apply (H (s, y)). by apply list_elem_of_In, elem_of_map_to_list.
Qed.

(** With a BSS symbol beside, which has a size and no contents. *)
Definition with_bss : lst := upd 7 (set_content 4 []) Demo.before.
Definition with_bss_after : lst :=
  match (elfsetupplt Demo.tg (PLT Demo.syms) (GOTPLT Demo.syms) (Dynamic Demo.syms) ;!
         dynrelocsyms (fun _ _ => false) Demo.tg Demo.syms [1]) with_bss with Ret _ l => l | _ => with_bss end.

Lemma dynreloc_wf_witness : wf with_bss_after /\ Size with_bss 7 = 4.
Proof.
  split; [|by vm_compute]. apply (dynreloc_wf (fun _ _ => false) Demo.tg Demo.syms [1] with_bss).
  - by vm_compute.
  - refine (every_sym wf_sym wf_symb with_bss _ _ _); [apply wf_symb_spec|by apply wf_symb_spec|by vm_compute].
  - by vm_compute.
  - refine (every_sym (fun y => sy_size y < 2 ^ 31) (fun y => sy_size y <? 2 ^ 31) with_bss_after _ _ _); [intros y; lia|done|by vm_compute].
Defined.
